(* ===== verification/_CoqProject ===== *)
-Q . S2P
Prelude.v
ArrList.v
ArrListSpec.v
GhostAbi.v
Dispatch.v
PrioArray.v
O1Sched.v
O1Inv.v
O1Handlers.v
O1Safety.v
O1Props.v
FifoSched.v
FifoInv.v
FifoHandlers.v
FifoProps.v
PrioTable.v
PrioTableProps.v
Channel.v
ChannelProps.v
Discover.v
DiscoverProps.v
StatusWords.v
O1Discover.v
System.v
SystemO1.v
SystemFifo.v
CpuMap.v
CpuMapSpec.v
CpuMapProps.v
Topology.v
TopologyProps.v
Txn.v
TxnProps.v
TxnBatch.v
Notification.v
Lifecycle.v
LifecycleProps.v
AgentRpc.v
AgentRpcProps.v
RpcCalls.v
RpcCallsProps.v
Process.v
Interaction.v
FdServer.v
FdServerProps.v
Gtid.v
GtidProps.v
Shmem.v
ShmemProps.v
BpfRegistry.v
BpfRegistryProps.v
AgentProcess.v
AgentProcessProps.v
KernelCalls.v
KernelCallsProps.v
O1Agent.v
FifoAgent.v
AgentPrograms.v
AgentProgramsProps.v
PrioTableShmem.v
BpfTools.v
BpfToolsProps.v
EnclaveSetup.v
EnclaveSetupProps.v
GhostHelper.v
GhostHelperProps.v
Globals.v
ThreadTester.v
AvlTree.v
AvlSpec.v
AvlRotate.v
AvlBalance.v
AvlSearch.v
AvlInsert.v
AvlUnlink.v
AvlDelete.v
AvlProps.v
