(* ===== verification/Prelude.v ===== *)
(** * Verification of the ghOSt O(1) userspace scheduler and its libraries

    ghOSt delegates kernel scheduling decisions to userspace agents.  An agent process
    makes or attaches to an enclave ([lib/enclave.cc]), starts one agent thread per CPU
    ([lib/agent.h]) and discovers the threads to schedule ([lib/scheduler.h]).  The kernel
    sends messages about threads through shared-memory rings ([lib/channel.cc]); the
    agent's scheduler dispatches them to callbacks ([lib/scheduler.h]), keeps its
    runqueues, and asks the kernel to run a thread by committing a transaction
    ([lib/enclave.cc]).  This repository adds an O(1) scheduler with active and expired
    priority arrays ([schedulers/o1]) beside the per-CPU FIFO scheduler
    ([schedulers/fifo/per_cpu]).  Around them stand the machine topology
    ([lib/topology.h], [.cc]), status words ([lib/ghost.cc]), RPC into the agent process
    ([lib/agent.h], [lib/trivial_status.h]), forked processes, notifications and thread
    identifiers ([lib/base.cc]), named shared memory, the descriptor server and the
    priority table through which applications hint the agent ([shared/]), the registry of
    BPF programs and the tracing tools on it ([bpf/user/]), and containers for BPF programs: array-threaded
    lists ([lib/queue.bpf.h]) and AVL trees ([lib/avl.bpf.h]).

    ** How the code is modelled

    Definitions keep the names of the source.  Three styles are used.
    - Sequential stateful code is a function in the state and failure monad [M] of this
      file, where failure is a failed CHECK, an abort, or a dereference of a null or freed
      pointer; [wp] is its weakest precondition, total in the sense that it implies
      success.  What the kernel answers (commit results, clock, status words, queue
      association) is an environment indexed by the number of questions asked, so
      theorems hold for every sequence of answers.
    - Concurrent code is a transition system: threads have explicit program counters, an
      atomic operation is one step, and invariants and progress are proved over every
      interleaving.
    - Code that is a dialogue with the operating system is an interaction tree over its
      system calls ([Interaction]).  [exec] runs it for a number of steps against a system
      whose answers may depend on the whole history; [keeps] is the triple for what holds
      all along, [reaches] the one for termination, [holds] counts what is acquired and
      released.
    Machine integers are [Z] with [u32], [u64], [s32] written where the code can wrap.  A
    task pointer is the key of the allocator's map, so using a freed task fails.

    ** Files

    - [Prelude]: machine integers, bit scans, the monad and its [wp] rules, list
      lemmas, the hint database [ghost].
    - [GhostAbi]: message types, payloads and [ghost::Message]
      ([abi/latest/kernel/ghost.h], [lib/channel.h]).
    - [Dispatch]: task allocator, [Task::Advance], [DispatchMessage]
      ([lib/scheduler.h]).  The virtual callbacks are the class
      [DispatchHandlers]; the two schedulers are its instances.
    - [PrioArray], [O1Sched]: [struct PrioArray], [O1Rq], all callbacks of
      [O1Scheduler], [O1Schedule], [Schedule] ([schedulers/o1]).  [O1Inv] has the
      runqueue invariant, [O1Handlers] its preservation by every callback,
      [O1Safety] the transition system, [O1Props] the behaviour of each operation.
      [O1Agent]: the agent loop, the RPC handler and what debug output shows.
    - [FifoSched]: the FIFO scheduler with its agent loop and RPC handler;
      [FifoInv], [FifoHandlers], [FifoProps] as for O(1), [FifoAgent]: what it dumps.
    - [PrioTable], [PrioTableProps]: layout of the shared table, the lock-free
      stream of updated indices, the sequence lock.  [PrioTableShmem]: its constructor
      and [Attach] over shared memory.
    - [Channel], [ChannelProps]: the message ring, against the interface
      [Producer] that states what the ABI documents of the kernel's side.
      [KernelCalls], [KernelCallsProps]: ioctls, construction and destruction of channels
      and schedulers, [EnclaveReady], yields and pings.
    - [Discover], [DiscoverProps], [O1Discover]: [DiscoverTasks] with the scan of the
      status words, for any scheduler and for O(1).  [StatusWords]: ownership of words
      ([lib/ghost.h], [lib/ghost.cc]).
    - [System]: the message loops of all agents, their channels and the kernel, against
      the class of a safe scheduler; [SystemO1] and [SystemFifo] are its instances.
    - [CpuMap], [CpuMapSpec], [CpuMapProps]: [CpuMap], [CpuList], [AtomicCpuMap].
    - [Topology], [TopologyProps]: the constructors of [Topology], their checks,
      conversions, parsing and export.
    - [Txn], [TxnProps]: run requests and the protocol of transactions with the kernel
      ([LocalRunRequest], [SubmitRunRequest], [CompleteRunRequest]); [TxnBatch]: batches
      and sync groups.
    - [Notification]: [Notification] on a futex ([lib/base.cc]).
    - [Lifecycle], [LifecycleProps]: start, attachment, readiness and shut-down of the
      agent threads ([lib/agent.h], [lib/agent.cc], [Enclave::Ready]).
    - [AgentRpc], [AgentRpcProps]: buffers and trivially copyable statuses; [RpcCalls],
      [RpcCallsProps]: calls into the agent process ([lib/agent.h]).
    - [Process]: [ForkedProcess] and [GhostSignals].  [AgentProcess],
      [AgentProcessProps]: the life of an agent process and of its parent.
    - [AgentPrograms], [AgentProgramsProps]: the mains of the agents, [pushtosched],
      the conditions of logging.
    - [Interaction]: programs as interaction trees, their runs and triples.
    - [FdServer], [FdServerProps]; [Gtid], [GtidProps]; [Shmem], [ShmemProps];
      [BpfRegistry], [BpfRegistryProps]: [shared/fd_server.cc], [Gtid] of
      [lib/base.cc], [shared/shmem.cc], [bpf/user/agent.c].
    - [BpfTools], [BpfToolsProps]: the tools [schedfair], [schedclasstop], [schedlat],
      [schedrun] and [schedghostidle] ([bpf/user/]).
    - [EnclaveSetup], [EnclaveSetupProps]: [LocalEnclave] in the ghOSt file system and
      [LocalStatusWordTable].  [GhostHelper], [GhostHelperProps]: [Ghost] and
      [GhostThread] ([lib/ghost.h], [lib/ghost.cc]).  [Globals]: objects of a process
      that are replaced (topologies, the helper), and [SpinFor].  [ThreadTester]:
      [RemoteThreadTester], with a lemma on fair schedules.
    - [ArrList], [ArrListSpec]: every macro of [queue.bpf.h] except the [_safe]
      iterations, refined to sequences.
    - [AvlTree]: every function of [avl.bpf.h]; [AvlSpec] (trees, contexts and the
      representation), [AvlRotate], [AvlBalance], [AvlSearch], [AvlInsert],
      [AvlUnlink], [AvlDelete], [AvlProps].

    ** What the theorems show

    - O(1) and FIFO schedulers: in every state reachable by any interleaving of
      messages that follow the kernel's protocol ([msg_ok]) and scheduling
      decisions, tasks are exactly where their state says, and every further
      event completes.  Dequeueing takes the highest priority of the active array
      and swaps the arrays when it is empty; a used-up slice sends a task to the
      expired array with a new slice; placement is round robin; a failed commit
      keeps the order.  The FIFO scheduler refines one deque per CPU, and a task at
      position [k] runs before its CPU has picked more than [k] tasks plus those
      put in front meanwhile.
    - Messages: the ring refines a bounded queue, across index wrap-around.
      Which messages the dispatcher ignores and which abort it.  With all agents running,
      each dispatches exactly the messages sent to it, in order.  Discovery equals the
      dispatch of one message per task found.
    - Transactions: the kernel and the agent decide each transaction once; a commit
      returns with the decision, and a sync group commits as a whole or not at all.
    - Agents: no CHECK of start-up and shut-down fails, an agent schedules only when all are
      attached and all tasks discovered, and the threads never wait in a circle;
      notifications lose no wake-up; RPCs are served in turn and return; buffers and
      statuses survive the trip.  An agent process and its creator come and go without a
      failed CHECK and without leaving each other waiting.  A scheduler has one channel per
      CPU, associated with its agent, from construction to destruction.  The agents' mains
      end; debug output changes nothing.
    - Enclaves: set-up and destruction release everything and destroy only enclaves made
      here; the wait for an old agent returns only when it was off at some moment; files
      are read whole; the threads of a client enter one enclave; the check of the version
      decides as documented.
    - Processes, memory, descriptors: the descriptor server gives its descriptor only for
      the nonce and ends if clients behave; attaching to shared memory finds the region;
      [tgid] is not deceived by reused thread numbers; a parent shares the fate of its
      child; BPF programs are inserted and removed once; status words are owned linearly;
      no topology or helper is used after it was replaced.
    - Tools: the fairness table counts every task once, the time per scheduling class adds
      up, both within stated bounds.  The thread tester returns under fair scheduling;
      [SpinFor] spins as long as asked and returns.
    - Priority table: no update announced on the stream is lost and both calls are
      wait-free; a successful read under the sequence lock is a committed
      snapshot; the pieces of the mapping do not overlap, and who attaches sees the
      table that was made.
    - Bitmaps and topology: set algebra, agreement of all enumerations, the mask
      string round trip, atomic test-and-clear; constructors build consistent
      topologies, and export and rebuild is the identity.
    - Containers: lists refine sequences; AVL trees refine sorted lists with
      stable insertion.

    Theorems that record what the code does against its evident intention:
    [ArrListSpec.arr_list_concat_empty_loses_tail],
    [AvlProps.avl_last_element_lost], [O1Props.priority_change_reactivates],
    [O1Props.recommit_forgets_time], [O1Props.preempted_exhausted_goes_first],
    [TopologyProps.test_topology_layout], [O1Discover.o1_discovery_uninitialized_nice],
    and parts of [status_roundtrip], [bpf_registry_in_order], [shmem_attach_finds],
    [forked_process_shares_fate], [status_words_linear]; also [sgi_output_leaks],
    [async_limit_exceeded], [epoll_timeout_may_poll], [name_prefix_clashes],
    [version_flag_hidden], [class_times_long_trace], [class_times_six_columns],
    [schedrun_pid_wraps], [agent_process_news_lost], [agent_process_self_deadlock],
    [agent_process_handled_hangs_call], [push_hangs] and [vlog_inverted].

    ** Bounds and fuel

    - [spin_fuel] bounds the wait for a task to get off its CPU; [env_ok] says that
      the kernel takes it off within the bound, and running out of it is a failure
      of the model, never a success.
    - Loops of the AVL tree run [MAX_AVL_HEIGHT = 23] times as in the source; trees
      of fewer than 75024 nodes are never higher, and larger ones use the orphan
      list as the code does.
    - [CpuMap.for_loop] has fuel for one round more than there are CPUs;
      [cpulist_enumerations_agree] shows that any larger fuel gives the same.
    - [Channel.drain] has fuel for one round more than there are messages, and
      [InsertBpfPrograms] for one round more than the old agent needs to leave.
    - [exec] counts steps; [reaches] asks for some number of them, and more steps give the
      same result ([exec_more]).
    - The sequence lock is correct for fewer than 2^31 commits during a read, the
      stream for fewer than 2^31 announced overflows between two scans: beyond,
      the counters of the code wrap.

    ** Not modelled

    The text of debug output ([Message::describe], [GHOST_DPRINT], backtraces) and of what
    the tools print beyond the numbers; the kernel's side of system calls and ioctls, which
    is the environment; memory orderings weaker than sequential consistency; the BPF
    programs under [third_party], which are not this repository's own; [fdcat], [fdsrv] and
    [enclave_watcher] ([util/]), which only print what modelled functions return; tests;
    generated headers and the older versions of the ABI. *)

From Stdlib Require Export ZArith Lia.
From stdpp Require Export prelude gmap.

#[global] Open Scope Z_scope.

(** ** Machine integers

    Unsigned and signed wrap-around at the widths the sources use. *)
Definition u32 (z : Z) : Z := z mod 2 ^ 32.
Definition u64 (z : Z) : Z := z mod 2 ^ 64.
Definition s32 (z : Z) : Z := (z + 2 ^ 31) mod 2 ^ 32 - 2 ^ 31.
Definition s64 (z : Z) : Z := (z + 2 ^ 63) mod 2 ^ 64 - 2 ^ 63.

Lemma u32_id z : 0 <= z < 2 ^ 32 -> u32 z = z.
Proof. intros. by apply Z.mod_small. Qed.

Lemma u64_id z : 0 <= z < 2 ^ 64 -> u64 z = z.
Proof. intros. by apply Z.mod_small. Qed.

Lemma u64_range z : 0 <= u64 z < 2 ^ 64.
Proof. apply Z.mod_pos_bound. lia. Qed.

Lemma u32_range z : 0 <= u32 z < 2 ^ 32.
Proof. apply Z.mod_pos_bound. lia. Qed.

Lemma s64_id z : - 2 ^ 63 <= z < 2 ^ 63 -> s64 z = z.
Proof. intros. unfold s64. rewrite Z.mod_small; lia. Qed.

Lemma s32_id z : - 2 ^ 31 <= z < 2 ^ 31 -> s32 z = z.
Proof. intros. unfold s32. rewrite Z.mod_small; lia. Qed.

Lemma s64_range z : - 2 ^ 63 <= s64 z < 2 ^ 63.
Proof. unfold s64. pose proof (Z.mod_pos_bound (z + 2 ^ 63) (2 ^ 64)). lia. Qed.

(** ** Bits *)

(** [find_bit b i fuel] is the first index in [i, i + fuel) whose bit is set. *)
Fixpoint find_bit (b : Z) (i : Z) (fuel : nat) : option Z :=
  match fuel with
  | O => None
  | S fuel' => if Z.testbit b i then Some i else find_bit b (i + 1) fuel'
  end.

(** [__builtin_ctzll]: trailing zeros of a 64-bit word; [None] stands for the
    undefined result at zero. *)
Definition ctzll (b : Z) : option Z := find_bit b 0 64.

(** [absl::popcount] on a 64-bit word. *)
Definition popcount64 (b : Z) : Z :=
  foldr (fun i n => n + Z.b2z (Z.testbit b i)) 0 (seqZ 0 64).

Lemma find_bit_Some b i fuel j :
  find_bit b i fuel = Some j <->
  (i <= j < i + Z.of_nat fuel /\ Z.testbit b j = true /\
   forall k, i <= k < j -> Z.testbit b k = false).
Proof.
  revert i. induction fuel as [|fuel IH]; intros i; cbn [find_bit].
  - split; [done | lia].
  - destruct (Z.testbit b i) eqn:Hb.
    + split.
      * intros [= ->]. split; [lia|]. split; [done|]. lia.
      * intros (Hj & Hbj & Hmin). f_equal.
        destruct (decide (i = j)); [done|].
        rewrite (Hmin i) in Hb by lia. done.
    + rewrite IH. split.
      * intros (Hj & Hbj & Hmin). split; [lia|]. split; [done|].
        intros k Hk. destruct (decide (k = i)) as [->|]; [done|]. apply Hmin. lia.
      * intros (Hj & Hbj & Hmin). destruct (decide (i = j)) as [->|]; [congruence|].
        split; [lia|]. split; [done|]. intros. apply Hmin. lia.
Qed.

Lemma find_bit_None b i fuel :
  find_bit b i fuel = None <->
  (forall k, i <= k < i + Z.of_nat fuel -> Z.testbit b k = false).
Proof.
  revert i. induction fuel as [|fuel IH]; intros i; cbn [find_bit].
  - split; [lia | done].
  - destruct (Z.testbit b i) eqn:Hb.
    + split; [done|]. intros H. rewrite (H i) in Hb by lia. done.
    + rewrite IH. split; intros H k Hk.
      * destruct (decide (k = i)) as [->|]; [done|]. apply H. lia.
      * apply H. lia.
Qed.

Lemma ctzll_Some b j :
  ctzll b = Some j <->
  (0 <= j < 64 /\ Z.testbit b j = true /\
   forall k, 0 <= k < j -> Z.testbit b k = false).
Proof. unfold ctzll. rewrite find_bit_Some. reflexivity. Qed.

(** Single-bit set and clear, the two updates the bitmaps use. *)
Lemma testbit_set b i k :
  0 <= i -> Z.testbit (Z.lor b (Z.shiftl 1 i)) k =
  if decide (k = i) then true else Z.testbit b k.
Proof.
  intros Hi. rewrite Z.lor_spec.
  destruct (Z.ltb_spec k 0) as [|Hk].
  { rewrite !Z.testbit_neg_r by lia. case_decide; [lia|done]. }
  rewrite Z.shiftl_spec by lia.
  case_decide as Hd.
  - subst. rewrite Z.sub_diag. cbn. apply orb_true_r.
  - destruct (Z.ltb_spec k i).
    + rewrite (Z.testbit_neg_r 1) by lia. apply orb_false_r.
    + rewrite (Z.bits_above_log2 1) by (cbn; lia). apply orb_false_r.
Qed.

Lemma testbit_clear b i k :
  0 <= i -> Z.testbit (Z.land b (Z.lnot (Z.shiftl 1 i))) k =
  if decide (k = i) then false else Z.testbit b k.
Proof.
  intros Hi. rewrite Z.land_spec.
  destruct (Z.ltb_spec k 0) as [|Hk].
  { rewrite !Z.testbit_neg_r by lia. case_decide; [lia|done]. }
  rewrite Z.lnot_spec by lia. rewrite Z.shiftl_spec by lia.
  case_decide as Hd.
  - subst. rewrite Z.sub_diag. cbn. apply andb_false_r.
  - destruct (Z.ltb_spec k i).
    + rewrite (Z.testbit_neg_r 1) by lia. cbn. apply andb_true_r.
    + rewrite (Z.bits_above_log2 1) by (cbn; lia). cbn. apply andb_true_r.
Qed.

Lemma testbit_high b n k : 0 <= b < 2 ^ n -> n <= k -> Z.testbit b k = false.
Proof.
  intros Hb Hk. destruct (decide (b = 0)) as [->|]; [apply Z.bits_0|].
  assert (0 <= n).
  { destruct (Z.ltb_spec n 0); [|lia]. rewrite (Z.pow_neg_r 2 n) in Hb by lia. lia. }
  apply Z.bits_above_log2; [lia|].
  pose proof (Z.log2_lt_pow2 b n). lia.
Qed.

Lemma bits_lt_pow2 b n :
  0 <= n -> 0 <= b -> (forall k, n <= k -> Z.testbit b k = false) -> b < 2 ^ n.
Proof.
  intros Hn Hb Hk. destruct (decide (b = 0)) as [->|]; [lia|].
  apply Z.log2_lt_pow2; [lia|].
  destruct (Z.ltb_spec (Z.log2 b) n); [done|].
  specialize (Hk (Z.log2 b)). rewrite Z.bit_log2 in Hk by lia.
  discriminate Hk. lia.
Qed.

(** ** A state monad whose failure is an aborted process

    [None] stands for a failed [CHECK] (or a [GHOST_ERROR]): the process dies
    and nothing after it is executed. *)
Definition M (St A : Type) : Type := St -> option (A * St).

Definition mret {St A} (a : A) : M St A := fun s => Some (a, s).

Definition mbind {St A B} (m : M St A) (k : A -> M St B) : M St B :=
  fun s => match m s with Some (a, s') => k a s' | None => None end.

Definition mget {St} : M St St := fun s => Some (s, s).

Definition mmod {St} (f : St -> St) : M St unit := fun s => Some (tt, f s).

(** [CHECK(b)] *)
Definition CHECK {St} (b : bool) : M St unit :=
  fun s => if b then Some (tt, s) else None.

(** Dereference of a pointer that may be null. *)
Definition deref {St A} (o : option A) : M St A :=
  fun s => match o with Some a => Some (a, s) | None => None end.

Definition when {St} (b : bool) (m : M St unit) : M St unit :=
  if b then m else mret tt.

Declare Scope ghost_scope.
Delimit Scope ghost_scope with ghost.
Notation "x <- m ;; k" := (mbind m (fun x => k))
  (at level 100, m at next level, right associativity) : ghost_scope.
Notation "m ;;; k" := (mbind m (fun _ => k))
  (at level 100, right associativity) : ghost_scope.
#[global] Open Scope ghost_scope.

(** [wp m Q s]: run from [s], [m] does not abort and its result satisfies [Q]. *)
Definition wp {St A} (m : M St A) (Q : A -> St -> Prop) (s : St) : Prop :=
  match m s with Some (a, s') => Q a s' | None => False end.

Section WpLemmas.
Context {St : Type}.
Implicit Types s : St.

Lemma wp_ret {A} (a : A) (Q : A -> St -> Prop) s : Q a s -> wp (mret a) Q s.
Proof. done. Qed.

Lemma wp_bind {A B} (m : M St A) (k : A -> M St B) (Q : B -> St -> Prop) s :
  wp m (fun a => wp (k a) Q) s -> wp (mbind m k) Q s.
Proof. unfold wp, mbind. by destruct (m s) as [[]|]. Qed.

Lemma wp_get (Q : St -> St -> Prop) s : Q s s -> wp mget Q s.
Proof. done. Qed.

Lemma wp_mod f (Q : unit -> St -> Prop) s : Q tt (f s) -> wp (mmod f) Q s.
Proof. done. Qed.

Lemma wp_check b (Q : unit -> St -> Prop) s :
  b = true -> Q tt s -> wp (CHECK b) Q s.
Proof. by intros ->. Qed.

Lemma wp_deref {A} (o : option A) a (Q : A -> St -> Prop) s :
  o = Some a -> Q a s -> wp (deref o) Q s.
Proof. by intros ->. Qed.

Lemma wp_mono {A} (m : M St A) (P Q : A -> St -> Prop) s :
  wp m P s -> (forall a s', P a s' -> Q a s') -> wp m Q s.
Proof. unfold wp. destruct (m s) as [[]|]; eauto. Qed.

Lemma wp_seq {A B C} (m : M St A) (n : A -> M St B) (k : M St C) (Q : C -> St -> Prop) s :
  wp (mbind m n) (fun _ => wp k Q) s -> wp m (fun a => wp (mbind (n a) (fun _ => k)) Q) s.
Proof.
  unfold wp, mbind. destruct (m s) as [[a s1]|]; [|done]. by destruct (n a s1) as [[]|].
Qed.

Lemma wp_when b (m : M St unit) (Q : unit -> St -> Prop) s :
  (b = true -> wp m Q s) -> (b = false -> Q tt s) -> wp (when b m) Q s.
Proof. destruct b; cbn; eauto. Qed.

Lemma wp_run {A} (m : M St A) (Q : A -> St -> Prop) s :
  wp m Q s -> exists a s', m s = Some (a, s') /\ Q a s'.
Proof. unfold wp. destruct (m s) as [[]|]; naive_solver. Qed.

Lemma wp_intro {A} (m : M St A) (Q : A -> St -> Prop) s a s' :
  m s = Some (a, s') -> Q a s' -> wp m Q s.
Proof. unfold wp. by intros ->. Qed.
End WpLemmas.

(** Symbolic execution of one monadic command. *)
Ltac wp_step :=
  lazymatch goal with
  | |- wp (mbind _ _) _ _ => apply wp_bind
  | |- wp (mret _) _ _ => apply wp_ret
  | |- wp mget _ _ => apply wp_get
  | |- wp (mmod _) _ _ => apply wp_mod
  | |- wp (CHECK _) _ _ => apply wp_check
  | |- wp (deref _) _ _ => eapply wp_deref
  end.
Ltac wp_steps := repeat (wp_step; cbn beta).

(** ** Association of a list with its elements' positions *)

Lemma list_split_at {A} (l : list A) x :
  x ∈ l -> exists l1 l2, l = l1 ++ x :: l2.
Proof. apply list_elem_of_split. Qed.

Lemma NoDup_middle {A} (l1 l2 : list A) x :
  NoDup (l1 ++ x :: l2) <-> ((x ∉ l1) ∧ (x ∉ l2) ∧ NoDup (l1 ++ l2)).
Proof.
  rewrite !NoDup_app, NoDup_cons. set_solver.
Qed.

(** A sequence without repetitions splits around an element in one way. *)
Lemma NoDup_pivot {A} (l1 l2 k1 k2 : list A) x :
  NoDup (l1 ++ x :: l2) -> l1 ++ x :: l2 = k1 ++ x :: k2 -> l1 = k1 /\ l2 = k2.
Proof.
  revert k1. induction l1 as [|y l1 IH]; intros k1 Hnd E; cbn in Hnd; apply NoDup_cons in Hnd as [Hn Hnd];
    destruct k1 as [|z k1]; cbn in E; injection E; clear E; intros; subst.
  - done.
  - set_solver.
  - set_solver.
  - by destruct (IH k1 Hnd) as [-> ->].
Qed.

Lemma NoDup_snoc {A} (l : list A) x : NoDup (l ++ [x]) <-> (x ∉ l) ∧ NoDup l.
Proof. rewrite NoDup_middle, app_nil_r. set_solver. Qed.

Lemma Forall2_impl_in {A B} (P Q : A -> B -> Prop) l k :
  Forall2 P l k -> (forall x y, x ∈ l -> P x y -> Q x y) -> Forall2 Q l k.
Proof.
  induction 1 as [|x y l k Hp _ IH]; intros H; [constructor|]. constructor; [apply H; [by left|done]|].
  apply IH. intros x' y' Hx. apply H. by right.
Qed.

Lemma filter_all {A} (P : A -> Prop) `{forall x, Decision (P x)} (l : list A) :
  (forall x, x ∈ l -> P x) -> filter P l = l.
Proof.
  induction l as [|x l IH]; intros Hp; [done|]. rewrite filter_cons_True by (apply Hp; by left).
  f_equal. apply IH. intros y Hy. apply Hp. by right.
Qed.

Lemma filter_others (j : Z) (l : list Z) : j ∉ l -> filter (fun k => k <> j) l = l.
Proof.
  intros Hj. apply filter_all. intros x Hx ->. done.
Qed.

Create HintDb ghost.
Create Rewrite HintDb ghost.
#[export] Hint Resolve wp_ret wp_get wp_mod : ghost.
#[export] Hint Rewrite @length_insert @length_app @length_replicate : ghost.
