(* ===== verification/ArrListSpec.v ===== *)
(** * The array lists implement sequences

    Representation predicate and refinement theorems for [ArrList]. *)

From S2P Require Import Prelude ArrList.

(** Id of the first (last) element of a segment, or a default. *)
Definition hd_id (l : list Z) (n : Z) : Z :=
  match l with [] => n | x :: _ => __elem_to_id x end.

Fixpoint last_id (l : list Z) (p : Z) : Z :=
  match l with [] => p | x :: l' => last_id l' (__elem_to_id x) end.

Lemma last_id_app l1 l2 p : last_id (l1 ++ l2) p = last_id l2 (last_id l1 p).
Proof. revert p. induction l1; cbn; auto. Qed.

Lemma hd_id_app l1 l2 n : hd_id (l1 ++ l2) n = hd_id l1 (hd_id l2 n).
Proof. by destruct l1. Qed.

Section Rep.
Context {E : Type} `{!Inhabited E} `{!ListField E}.
Implicit Types (arr : gmap Z E) (arr_sz : Z) (head : arr_list) (l : list Z).

(** The links along [l], entered from id [p] and leaving to id [n]. *)
Fixpoint chain arr (p : Z) l (n : Z) : Prop :=
  match l with
  | [] => True
  | x :: l' =>
      e_prev arr x = p /\ e_next arr x = hd_id l' n /\ chain arr (__elem_to_id x) l' n
  end.

(** [head] and [arr] represent the sequence of elements [l]. *)
Record list_rep arr arr_sz head l : Prop := {
  rep_nodup : NoDup l;
  rep_bound : Forall (fun x => 0 <= x < arr_sz) l;
  rep_first : first head = hd_id l 0;
  rep_last : last head = last_id l 0;
  rep_chain : chain arr 0 l 0;
}.

(** ** Reading back updates *)

Lemma e_next_set_next arr i j v :
  e_next (set_next arr i v) j = if decide (i = j) then v else e_next arr j.
Proof.
  unfold e_next, set_next. rewrite lookup_total_insert.
  case_decide; [by rewrite entry_set | done].
Qed.

Lemma e_prev_set_next arr i j v : e_prev (set_next arr i v) j = e_prev arr j.
Proof.
  unfold e_prev at 1, set_next. rewrite lookup_total_insert.
  case_decide; [subst; by rewrite entry_set | done].
Qed.

Lemma e_prev_set_prev arr i j v :
  e_prev (set_prev arr i v) j = if decide (i = j) then v else e_prev arr j.
Proof.
  unfold e_prev, set_prev. rewrite lookup_total_insert.
  case_decide; [by rewrite entry_set | done].
Qed.

Lemma e_next_set_prev arr i j v : e_next (set_prev arr i v) j = e_next arr j.
Proof.
  unfold e_next at 1, set_prev. rewrite lookup_total_insert.
  case_decide; [subst; by rewrite entry_set | done].
Qed.

Lemma set_next_ne arr i j v : i <> j -> set_next arr i v !!! j = arr !!! j.
Proof. intros. unfold set_next. by apply lookup_total_insert_ne. Qed.

Lemma set_prev_ne arr i j v : i <> j -> set_prev arr i v !!! j = arr !!! j.
Proof. intros. unfold set_prev. by apply lookup_total_insert_ne. Qed.

(** Reads after writes, with the index comparisons decided. *)
Ltac links :=
  repeat first [rewrite e_prev_set_next | rewrite e_next_set_prev
               |rewrite e_next_set_next | rewrite e_prev_set_prev];
  repeat case_decide; subst; try done; try (exfalso; set_solver).

(** ** Segments *)

Lemma chain_ext arr arr' p l n :
  (forall x, x ∈ l -> e_next arr' x = e_next arr x /\ e_prev arr' x = e_prev arr x) ->
  chain arr p l n -> chain arr' p l n.
Proof.
  revert p. induction l as [|x l IH]; intros p Heq; [done|]. cbn.
  destruct (Heq x) as [-> ->]; [set_solver|]. naive_solver set_solver.
Qed.

Lemma chain_app arr p l1 l2 n :
  chain arr p (l1 ++ l2) n <->
  chain arr p l1 (hd_id l2 n) /\ chain arr (last_id l1 p) l2 n.
Proof.
  revert p. induction l1 as [|x l1 IH]; intros p; cbn; [naive_solver|].
  rewrite IH, hd_id_app. naive_solver.
Qed.

Lemma chain_set_next arr p l x n n' :
  NoDup (l ++ [x]) -> chain arr p (l ++ [x]) n ->
  chain (set_next arr x n') p (l ++ [x]) n'.
Proof.
  rewrite NoDup_app, !chain_app. cbn. intros (Hnd & Hx & _) (Hl & Hp & _ & _).
  rewrite e_prev_set_next, e_next_set_next, decide_True by done.
  split; [|done]. eapply chain_ext, Hl. intros y Hy.
  rewrite e_prev_set_next, e_next_set_next, decide_False by set_solver. done.
Qed.

Lemma chain_set_prev arr p p' x l n :
  NoDup (x :: l) -> chain arr p (x :: l) n -> chain (set_prev arr x p') p' (x :: l) n.
Proof.
  rewrite NoDup_cons. cbn. intros (Hx & Hnd) (_ & Hn & Hl).
  rewrite e_prev_set_prev, e_next_set_prev, decide_True by done.
  split; [done|]. split; [done|]. eapply chain_ext, Hl. intros y Hy.
  rewrite e_prev_set_prev, e_next_set_prev, decide_False by set_solver. done.
Qed.

Lemma chain_frame_next arr p l n x v :
  x ∉ l -> chain arr p l n -> chain (set_next arr x v) p l n.
Proof.
  intros Hx. apply chain_ext. intros y Hy.
  rewrite e_prev_set_next, e_next_set_next, decide_False by set_solver. done.
Qed.

Lemma chain_frame_prev arr p l n x v :
  x ∉ l -> chain arr p l n -> chain (set_prev arr x v) p l n.
Proof.
  intros Hx. apply chain_ext. intros y Hy.
  rewrite e_prev_set_prev, e_next_set_prev, decide_False by set_solver. done.
Qed.

(** A represented list is untouched by writes outside of it. *)
Lemma list_rep_frame arr arr' arr_sz head l :
  (forall x, x ∈ l -> arr' !!! x = arr !!! x) ->
  list_rep arr arr_sz head l -> list_rep arr' arr_sz head l.
Proof.
  intros Heq [? ? ? ? Hc]. split; try done.
  eapply chain_ext, Hc. intros x Hx. unfold e_next, e_prev. by rewrite Heq.
Qed.

(** ** Ids and elements *)

Lemma id_to_elem_elem arr_sz x :
  0 <= x < arr_sz -> __id_to_elem arr_sz (__elem_to_id x) = Some x.
Proof.
  intros. unfold __id_to_elem, __elem_to_id.
  rewrite (proj2 (Z.eqb_neq _ _)) by lia.
  rewrite (proj2 (Z.leb_gt _ _)) by lia. f_equal. lia.
Qed.

Lemma id_to_elem_hd arr_sz l n :
  Forall (fun x => 0 <= x < arr_sz) l ->
  __id_to_elem arr_sz (hd_id l n) =
  match l with [] => __id_to_elem arr_sz n | x :: _ => Some x end.
Proof. destruct 1; cbn; [done|]. by apply id_to_elem_elem. Qed.

Lemma last_id_snoc l x p : last_id (l ++ [x]) p = __elem_to_id x.
Proof. by rewrite last_id_app. Qed.

Lemma hd_id_pos arr_sz l :
  Forall (fun x => 0 <= x < arr_sz) l -> hd_id l 0 = 0 -> l = [].
Proof. destruct 1; cbn; [done|]. unfold __elem_to_id. lia. Qed.

Lemma list_rep_empty arr arr_sz head l :
  list_rep arr arr_sz head l -> arr_list_empty head = bool_decide (l = []).
Proof.
  intros H. unfold arr_list_empty. rewrite (rep_first _ _ _ _ H).
  destruct l; cbn; [done|]. unfold __elem_to_id.
  pose proof (rep_bound _ _ _ _ H) as Hb.
  apply Forall_cons in Hb as [? _]. apply Z.eqb_neq. lia.
Qed.

Lemma list_rep_first arr arr_sz head l :
  list_rep arr arr_sz head l -> arr_list_first arr_sz head = list.head l.
Proof.
  intros [? Hb Hf ? ?]. unfold arr_list_first. rewrite Hf, id_to_elem_hd by done.
  by destruct l.
Qed.
Lemma list_rep_last arr arr_sz head l x :
  list_rep arr arr_sz head (l ++ [x]) -> arr_list_last arr_sz head = Some x.
Proof.
  intros [? Hb ? Hl ?]. unfold arr_list_last. rewrite Hl, last_id_snoc.
  apply Forall_app in Hb as [_ Hb]. apply Forall_cons in Hb as [? _].
  by apply id_to_elem_elem.
Qed.

(** The empty list. *)
Lemma list_rep_init arr arr_sz : list_rep arr arr_sz arr_list_init [].
Proof. split; try done; constructor. Qed.

(** ** Insertion *)

Lemma insert_head_rep arr arr_sz head l x arr' head' :
  list_rep arr arr_sz head l -> 0 <= x < arr_sz -> x ∉ l ->
  arr_list_insert_head arr arr_sz head x = (arr', head') ->
  list_rep arr' arr_sz head' (x :: l).
Proof.
  intros Hr Hx Hnin. unfold arr_list_insert_head.
  rewrite (list_rep_empty _ _ _ _ Hr), (list_rep_first _ _ _ _ Hr).
  destruct Hr as [Hnd Hb Hf Hl Hc].
  destruct l as [|y l]; cbn [list.head]; rewrite ?bool_decide_true, ?bool_decide_false by done;
    intros [= <- <-]; (split; cbn; [by apply NoDup_cons|by constructor|done| |]).
  - done.
  - rewrite e_prev_set_next, e_prev_set_prev, e_next_set_next, !decide_True by done. done.
  - done.
  - split; [by links|]. split; [by links|].
    apply (chain_set_prev _ 0); [done|].
    apply chain_frame_next, chain_frame_prev; done.
Qed.

Lemma insert_tail_rep arr arr_sz head l x arr' head' :
  list_rep arr arr_sz head l -> 0 <= x < arr_sz -> x ∉ l ->
  arr_list_insert_tail arr arr_sz head x = (arr', head') ->
  list_rep arr' arr_sz head' (l ++ [x]).
Proof.
  intros Hr Hx Hnin. unfold arr_list_insert_tail.
  rewrite (list_rep_empty _ _ _ _ Hr).
  destruct l as [|y l0 _] using rev_ind.
  - rewrite bool_decide_true by done. destruct Hr as [Hnd Hb Hf Hl Hc].
    intros [= <- <-]. split; cbn; [by apply NoDup_singleton|by constructor|done|done|].
    rewrite e_prev_set_next, e_prev_set_prev, e_next_set_next, !decide_True by done. done.
  - rewrite (list_rep_last _ _ _ _ _ Hr), bool_decide_false by (by destruct l0).
    destruct Hr as [Hnd Hb Hf Hl Hc]. intros [= <- <-].
    split; cbn [first last].
    + by apply NoDup_snoc.
    + apply Forall_app. split; [done|]. by constructor.
    + rewrite Hf, !hd_id_app. by destruct l0.
    + by rewrite last_id_snoc.
    + rewrite chain_app. split.
      * apply (chain_set_next _ _ _ _ 0); [done|].
        by apply chain_frame_next, chain_frame_prev.
      * cbn. links.
Qed.

(** ** Splitting at a member *)

Lemma rep_middle arr arr_sz head l1 x l2 :
  list_rep arr arr_sz head (l1 ++ x :: l2) ->
  arr_list_prev arr arr_sz x = list.last l1 /\
  arr_list_next arr arr_sz x = list.head l2 /\
  e_prev arr x = last_id l1 0 /\ e_next arr x = hd_id l2 0.
Proof.
  intros [Hnd Hb Hf Hl Hc].
  apply chain_app in Hc as (Hc1 & Hp & Hn & Hc2).
  apply Forall_app in Hb as [Hb1 Hb2]. apply Forall_cons in Hb2 as [Hx Hb2].
  unfold arr_list_prev, arr_list_next. rewrite Hp, Hn.
  split_and!; try done.
  - destruct l1 as [|y l1 _] using rev_ind; [done|].
    rewrite last_id_snoc, last_snoc. apply Forall_app in Hb1 as [_ Hy].
    apply Forall_cons in Hy as [? _]. by apply id_to_elem_elem.
  - rewrite id_to_elem_hd by done. by destruct l2.
Qed.

Lemma first_eq_middle l1 x l2 :
  NoDup (l1 ++ x :: l2) ->
  (hd_id (l1 ++ x :: l2) 0 =? __elem_to_id x) = bool_decide (l1 = []).
Proof.
  rewrite NoDup_middle. intros (Hx & _). destruct l1 as [|y l1]; cbn.
  - by rewrite Z.eqb_refl.
  - apply Z.eqb_neq. unfold __elem_to_id.
    apply not_elem_of_cons in Hx as [? _]. lia.
Qed.

Lemma last_eq_middle l1 x l2 :
  NoDup (l1 ++ x :: l2) ->
  (last_id (l1 ++ x :: l2) 0 =? __elem_to_id x) = bool_decide (l2 = []).
Proof.
  rewrite NoDup_middle. intros (_ & Hx & _). rewrite last_id_app.
  destruct l2 as [|y l2 _] using rev_ind; cbn.
  - by rewrite Z.eqb_refl.
  - rewrite bool_decide_false by (by destruct l2). rewrite last_id_snoc.
    apply Z.eqb_neq. unfold __elem_to_id.
    apply not_elem_of_app in Hx as [_ Hx]. apply not_elem_of_cons in Hx as [? _]. lia.
Qed.

(** Re-linking around a gap: if [arr] holds the segments [l1] and [l2], then
    making the last of [l1] point to id [n] (when there is one), and the first
    of [l2] point back to id [p], gives the two segments with those ends. *)
Lemma relink_l arr l1 n n' :
  NoDup l1 -> chain arr 0 l1 n ->
  chain (match list.last l1 with Some p => set_next arr p n' | None => arr end) 0 l1 n'.
Proof.
  destruct l1 as [|y l1 _] using rev_ind; [done|]. rewrite last_snoc.
  intros. by apply (chain_set_next _ _ _ _ n).
Qed.

Lemma relink_r arr p p' l2 :
  NoDup l2 -> chain arr p l2 0 ->
  chain (match list.head l2 with Some n => set_prev arr n p' | None => arr end) p' l2 0.
Proof. destruct l2 as [|y l2]; [done|]. intros. by apply (chain_set_prev _ p). Qed.

Lemma relink_l_other arr l1 n' y :
  y ∉ l1 ->
  let arr' := match list.last l1 with Some p => set_next arr p n' | None => arr end in
  arr' !!! y = arr !!! y.
Proof.
  intros Hy. destruct l1 as [|z l1 _] using rev_ind; [done|]. rewrite last_snoc.
  apply set_next_ne. set_solver.
Qed.

Lemma relink_r_other arr l2 p' y :
  y ∉ l2 ->
  let arr' := match list.head l2 with Some n => set_prev arr n p' | None => arr end in
  arr' !!! y = arr !!! y.
Proof.
  intros Hy. destruct l2 as [|z l2]; [done|]. apply set_prev_ne. set_solver.
Qed.

Lemma chain_same arr arr' p l n :
  (forall x, x ∈ l -> arr' !!! x = arr !!! x) -> chain arr p l n -> chain arr' p l n.
Proof.
  intros Heq. apply chain_ext. intros x Hx. unfold e_next, e_prev. by rewrite Heq.
Qed.

Lemma e_same arr arr' x :
  arr' !!! x = arr !!! x -> e_next arr' x = e_next arr x /\ e_prev arr' x = e_prev arr x.
Proof. intros Heq. unfold e_next, e_prev. by rewrite Heq. Qed.

(** ** Removal *)

Lemma remove_rep arr arr_sz head l1 x l2 arr' head' :
  list_rep arr arr_sz head (l1 ++ x :: l2) ->
  arr_list_remove arr arr_sz head x = (arr', head') ->
  list_rep arr' arr_sz head' (l1 ++ l2).
Proof.
  intros Hr. pose proof (rep_middle _ _ _ _ _ _ Hr) as (Hprev & Hnext & Hp & Hn).
  destruct Hr as [Hnd Hb Hf Hl Hc].
  pose proof Hnd as Hnd'. apply NoDup_middle in Hnd' as (Hx1 & Hx2 & Hnd12).
  pose proof Hnd12 as Hnd''. apply NoDup_app in Hnd'' as (Hnd1 & Hdis & Hnd2).
  apply chain_app in Hc as (Hc1 & _ & _ & Hc2). cbn in Hc1.
  unfold arr_list_remove. rewrite Hprev, Hn.
  set (a1 := match list.last l1 with Some p => _ | None => _ end).
  assert (Ha1x : a1 !!! x = arr !!! x) by (by apply relink_l_other).
  destruct (e_same _ _ _ Ha1x) as [Ex1 Ex2].
  replace (arr_list_next a1 arr_sz x) with (arr_list_next arr arr_sz x)
    by (unfold arr_list_next; by rewrite Ex1).
  rewrite Hnext, Ex2, Hp.
  set (a2 := match list.head l2 with Some p => _ | None => _ end).
  assert (Ha2x : a2 !!! x = a1 !!! x) by (by apply relink_r_other).
  destruct (e_same _ _ _ Ha2x) as [Ey1 Ey2].
  rewrite Ey1, Ey2, Ex1, Ex2, Hp, Hn, Hf, first_eq_middle by done.
  assert (Hrep1 : chain a2 0 l1 (hd_id l2 0)).
  { eapply chain_same; [|by eapply relink_l].
    intros y Hy. apply relink_r_other. set_solver. }
  assert (Hrep2 : chain a2 (last_id l1 0) l2 0).
  { eapply relink_r; [done|]. eapply chain_same, Hc2.
    intros y Hy. apply relink_l_other. set_solver. }
  assert (Hrep : forall h, first h = hd_id (l1 ++ l2) 0 -> last h = last_id (l1 ++ l2) 0 ->
    list_rep (set_next (set_prev a2 x 0) x 0) arr_sz h (l1 ++ l2)).
  { intros h Hh1 Hh2. split; try done.
    - rewrite Forall_app, Forall_cons in Hb. rewrite Forall_app. naive_solver.
    - apply chain_frame_next, chain_frame_prev; [set_solver..|]. by apply chain_app. }
  case_bool_decide; subst; cbn [first last]; rewrite Hl, last_eq_middle by done;
    (case_bool_decide; subst; intros [= <- <-]; apply Hrep; cbn [first last];
     rewrite ?Hf, ?Hl, ?app_nil_r, ?hd_id_app, ?last_id_app; try done).
  - destruct l2; done.
  - by destruct l1.
  - by destruct l1.
  - by destruct l2.
Qed.
Lemma pop_first_rep_nil arr arr_sz head :
  list_rep arr arr_sz head [] -> arr_list_pop_first arr arr_sz head = (arr, head, None).
Proof.
  intros Hr. unfold arr_list_pop_first. by rewrite (list_rep_first _ _ _ _ Hr).
Qed.

Lemma pop_first_rep arr arr_sz head x l arr' head' r :
  list_rep arr arr_sz head (x :: l) ->
  arr_list_pop_first arr arr_sz head = (arr', head', r) ->
  r = Some x /\ list_rep arr' arr_sz head' l.
Proof.
  intros Hr. pose proof (rep_middle _ _ _ [] x l Hr) as (Hprev & Hnext & Hp & Hn).
  unfold arr_list_pop_first. rewrite (list_rep_first _ _ _ _ Hr). cbn [list.head].
  destruct Hr as [Hnd Hb Hf Hl Hc].
  pose proof (last_eq_middle [] x l Hnd) as Hlast. cbn [app] in Hlast.
  apply NoDup_cons in Hnd as [Hx Hnd]. destruct Hc as (_ & _ & Hc).
  rewrite Hnext. set (a1 := match list.head l with Some _ => _ | None => _ end).
  assert (Hax : a1 !!! x = arr !!! x) by (by apply relink_r_other).
  destruct (e_same _ _ _ Hax) as [-> _]. rewrite Hn, Hf, Hl. cbn [first last hd_id].
  rewrite Hlast. intros [= <- <- <-]. split; [done|]. split.
  - done.
  - by apply Forall_cons in Hb as [_ ?].
  - by case_bool_decide.
  - case_bool_decide; cbn [last]; [by subst|]. by destruct l.
  - apply chain_frame_next; [done|]. by apply (relink_r _ (__elem_to_id x)).
Qed.

Lemma insert_before_rep arr arr_sz head l1 y l2 x arr' head' :
  list_rep arr arr_sz head (l1 ++ y :: l2) -> 0 <= x < arr_sz -> x ∉ l1 ++ y :: l2 ->
  arr_list_insert_before arr arr_sz head y x = (arr', head') ->
  list_rep arr' arr_sz head' (l1 ++ x :: y :: l2).
Proof.
  intros Hr Hx Hnin. pose proof (rep_middle _ _ _ _ _ _ Hr) as (Hprev & Hnext & Hp & Hn).
  destruct Hr as [Hnd Hb Hf Hl Hc].
  pose proof Hnd as Hnd'. apply NoDup_app in Hnd' as (Hnd1 & Hdis & Hnd2).
  apply chain_app in Hc as (Hc1 & Hc2).
  unfold arr_list_insert_before. rewrite Hprev.
  set (a1 := match list.last l1 with Some p => _ | None => _ end).
  assert (Ha1y : a1 !!! y = arr !!! y) by (apply relink_l_other; set_solver).
  destruct (e_same _ _ _ Ha1y) as [_ ->]. rewrite Hp, Hf, first_eq_middle by done.
  intros [= <- <-]. split.
  - apply NoDup_middle. set_solver.
  - rewrite Forall_app, !Forall_cons in Hb |- *. naive_solver.
  - rewrite hd_id_app. case_bool_decide; [by subst|]. rewrite Hf, hd_id_app. by destruct l1.
  - rewrite last_id_app in Hl |- *. by case_bool_decide.
  - apply chain_app. split.
    + apply chain_frame_prev, chain_frame_next, chain_frame_prev; [set_solver..|].
      by apply (relink_l _ _ (hd_id (y :: l2) 0)).
    + split; [links|]. split; [links|].
      apply (chain_set_prev _ (last_id l1 0)); [done|].
      apply chain_frame_next, chain_frame_prev; [set_solver..|].
      eapply chain_same, Hc2. intros z Hz. apply relink_l_other. set_solver.
Qed.

Lemma insert_after_rep arr arr_sz head l1 y l2 x arr' head' :
  list_rep arr arr_sz head (l1 ++ y :: l2) -> 0 <= x < arr_sz -> x ∉ l1 ++ y :: l2 ->
  arr_list_insert_after arr arr_sz head y x = (arr', head') ->
  list_rep arr' arr_sz head' (l1 ++ y :: x :: l2).
Proof.
  intros Hr Hx Hnin. pose proof (rep_middle _ _ _ _ _ _ Hr) as (Hprev & Hnext & Hp & Hn).
  destruct Hr as [Hnd Hb Hf Hl Hc].
  pose proof Hnd as Hnd'. rewrite (app_assoc l1 [y] l2 : l1 ++ y :: l2 = _) in Hnd'.
  apply NoDup_app in Hnd' as (Hnd1 & Hdis & Hnd2).
  rewrite (app_assoc l1 [y] l2 : l1 ++ y :: l2 = _) in Hc.
  apply chain_app in Hc as (Hc1 & Hc2). rewrite last_id_snoc in Hc2.
  unfold arr_list_insert_after. rewrite Hnext.
  set (a1 := match list.head l2 with Some p => _ | None => _ end).
  assert (Ha1y : set_prev a1 x (__elem_to_id y) !!! y = arr !!! y).
  { rewrite set_prev_ne by set_solver. apply relink_r_other. set_solver. }
  destruct (e_same _ _ _ Ha1y) as [-> _]. rewrite Hn, Hl, last_eq_middle by done.
  intros [= <- <-]. rewrite (app_assoc l1 [y] (x :: l2) : l1 ++ y :: x :: l2 = _). split.
  - rewrite NoDup_middle, <- app_assoc. set_solver.
  - rewrite Forall_app, !Forall_cons in Hb. rewrite !Forall_app, !Forall_cons. naive_solver.
  - destruct (bool_decide (l2 = [])); cbn [first]; rewrite Hf, !hd_id_app; by destruct l1.
  - rewrite last_id_app. case_bool_decide; [by subst|]. rewrite Hl, last_id_app. by destruct l2.
  - apply chain_app. rewrite last_id_snoc. split.
    + apply (chain_set_next _ _ _ _ (hd_id l2 0)); [done|].
      apply chain_frame_next, chain_frame_prev; [set_solver..|].
      eapply chain_same, Hc1. intros z Hz. apply relink_r_other. set_solver.
    + split; [links|]. split; [links|].
      apply chain_frame_next, chain_frame_next, chain_frame_prev; [set_solver..|].
      by apply (relink_r _ (__elem_to_id y)).
Qed.

(** ** Concatenation *)

Lemma concat_rep arr arr_sz h1 h2 l1 l2 arr' h1' h2' :
  list_rep arr arr_sz h1 l1 -> list_rep arr arr_sz h2 l2 ->
  (forall x, x ∈ l1 -> x ∉ l2) -> l2 <> [] ->
  arr_list_concat arr arr_sz h1 h2 = (arr', h1', h2') ->
  list_rep arr' arr_sz h1' (l1 ++ l2) /\ list_rep arr' arr_sz h2' [].
Proof.
  intros Hr1 Hr2 Hdis Hne. unfold arr_list_concat.
  replace (arr_list_last arr_sz h1) with (list.last l1).
  2:{ destruct l1 as [|y l1 _] using rev_ind.
      - destruct Hr1 as [_ _ _ Hl _]. unfold arr_list_last. by rewrite Hl.
      - by rewrite (list_rep_last _ _ _ _ _ Hr1), last_snoc. }
  rewrite (list_rep_first _ _ _ _ Hr2), (list_rep_empty _ _ _ _ Hr1).
  destruct Hr1 as [Hnd1 Hb1 Hf1 Hl1 Hc1], Hr2 as [Hnd2 Hb2 Hf2 Hl2 Hc2].
  rewrite Hf2, Hl1. intros [= <- <- <-].
  split; [|apply list_rep_init]. split.
  - by apply NoDup_app.
  - by apply Forall_app.
  - cbn [first]. rewrite hd_id_app. case_bool_decide; [by subst|]. rewrite Hf1. by destruct l1.
  - cbn [last]. rewrite last_id_app, Hl2. by destruct l2.
  - apply chain_app. split.
    + eapply chain_same; [|by apply (relink_l arr l1 0)].
      intros z Hz. apply relink_r_other. naive_solver.
    + apply (relink_r _ 0); [done|]. eapply chain_same, Hc2.
      intros z Hz. apply relink_l_other. naive_solver.
Qed.

(** ** Iteration *)

Lemma foreach_from_rep arr arr_sz head l1 l2 max :
  list_rep arr arr_sz head (l1 ++ l2) ->
  arr_list_foreach_from arr arr_sz (list.head l2) max =
  (take max l2, list.head (drop max l2)).
Proof.
  revert l1 l2. induction max as [|max IH]; intros l1 l2 Hr.
  - by destruct l2.
  - destruct l2 as [|x l2]; [done|]. cbn.
    pose proof (rep_middle _ _ _ _ _ _ Hr) as (_ & -> & _).
    rewrite (IH (l1 ++ [x])); [done|]. by rewrite <- app_assoc.
Qed.

Lemma foreach_rep arr arr_sz head l max :
  list_rep arr arr_sz head l ->
  arr_list_foreach arr arr_sz head max = (take max l, list.head (drop max l)).
Proof.
  intros Hr. unfold arr_list_foreach. rewrite (list_rep_first _ _ _ _ Hr).
  by apply (foreach_from_rep _ _ head [] l).
Qed.

Lemma foreach_reverse_from_rep arr arr_sz head l1 l2 max :
  list_rep arr arr_sz head (l1 ++ l2) ->
  arr_list_foreach_reverse_from arr arr_sz (list.last l1) max =
  (take max (reverse l1), list.head (drop max (reverse l1))).
Proof.
  revert l1 l2. induction max as [|max IH]; intros l1 l2 Hr;
    (destruct l1 as [|x l1 _] using rev_ind; [done|]); rewrite last_snoc, reverse_snoc; [done|].
  cbn. rewrite <- app_assoc in Hr. cbn in Hr.
  pose proof (rep_middle _ _ _ _ _ _ Hr) as (-> & _). by rewrite (IH l1 (x :: l2)).
Qed.

Lemma foreach_reverse_rep arr arr_sz head l max :
  list_rep arr arr_sz head l ->
  arr_list_foreach_reverse arr arr_sz head max =
  (take max (reverse l), list.head (drop max (reverse l))).
Proof.
  intros Hr. unfold arr_list_foreach_reverse.
  replace (arr_list_last arr_sz head) with (list.last l).
  - apply (foreach_reverse_from_rep _ _ head l []). by rewrite app_nil_r.
  - destruct l as [|x l _] using rev_ind.
    + destruct Hr as [_ _ _ Hl _]. unfold arr_list_last. by rewrite Hl.
    + by rewrite (list_rep_last _ _ _ _ _ Hr), last_snoc.
Qed.
End Rep.

(** ** What the operations leave alone *)

Section Frame.
Context {E : Type} `{!Inhabited E} `{!ListField E}.
Implicit Types (arr : gmap Z E) (arr_sz : Z) (head : arr_list) (l : list Z).

(** [arr'] differs from [arr] only in the embedded links, and only at the
    indexes in [l]. *)
Definition links_only arr arr' l : Prop :=
  (forall y, y ∉ l -> arr' !!! y = arr !!! y) /\
  (forall (B : Type) (f : E -> B), (forall e x, f (set_entry e x) = f x) ->
     forall y, f (arr' !!! y) = f (arr !!! y)).

Lemma links_only_refl arr l : links_only arr arr l.
Proof. done. Qed.

Lemma links_only_next arr arr' l x v :
  x ∈ l -> links_only arr arr' l -> links_only arr (set_next arr' x v) l.
Proof.
  intros Hx [H1 H2]. split.
  - intros y Hy. rewrite set_next_ne by set_solver. auto.
  - intros B f Hf y. unfold set_next. rewrite lookup_total_insert.
    case_decide; [subst; rewrite Hf|]; auto.
Qed.

Lemma links_only_prev arr arr' l x v :
  x ∈ l -> links_only arr arr' l -> links_only arr (set_prev arr' x v) l.
Proof.
  intros Hx [H1 H2]. split.
  - intros y Hy. rewrite set_prev_ne by set_solver. auto.
  - intros B f Hf y. unfold set_prev. rewrite lookup_total_insert.
    case_decide; [subst; rewrite Hf|]; auto.
Qed.

Lemma head_elem_of l x : list.head l = Some x -> x ∈ l.
Proof. destruct l; [done|]. intros [= ->]. set_solver. Qed.

Lemma last_elem_of l x : list.last l = Some x -> x ∈ l.
Proof. apply last_Some_elem_of. Qed.

Lemma insert_head_frame arr arr_sz head l x arr' head' :
  list_rep arr arr_sz head l ->
  arr_list_insert_head arr arr_sz head x = (arr', head') -> links_only arr arr' (x :: l).
Proof.
  intros Hr. unfold arr_list_insert_head. rewrite (list_rep_first _ _ _ _ Hr).
  destruct (arr_list_empty head), (list.head l) eqn:Hh; intros [= <- _];
    repeat first [apply links_only_next | apply links_only_prev | apply links_only_refl];
    try set_solver. apply head_elem_of in Hh. set_solver.
Qed.

Lemma insert_tail_frame arr arr_sz head l x arr' head' :
  list_rep arr arr_sz head l ->
  arr_list_insert_tail arr arr_sz head x = (arr', head') -> links_only arr arr' (x :: l).
Proof.
  intros Hr. unfold arr_list_insert_tail. rewrite (list_rep_empty _ _ _ _ Hr).
  destruct l as [|y l _] using rev_ind.
  - rewrite bool_decide_true by done. intros [= <- _].
    apply links_only_next, links_only_prev, links_only_refl; set_solver.
  - rewrite bool_decide_false, (list_rep_last _ _ _ _ _ Hr) by (by destruct l).
    intros [= <- _].
    apply links_only_next, links_only_next, links_only_prev, links_only_refl; set_solver.
Qed.

Lemma remove_frame arr arr_sz head l1 x l2 arr' head' :
  list_rep arr arr_sz head (l1 ++ x :: l2) ->
  arr_list_remove arr arr_sz head x = (arr', head') ->
  links_only arr arr' (l1 ++ x :: l2).
Proof.
  intros Hr. pose proof (rep_middle _ _ _ _ _ _ Hr) as (Hprev & Hnext & _ & Hn).
  unfold arr_list_remove. rewrite Hprev.
  set (a1 := match list.last l1 with Some p => _ | None => _ end).
  assert (Ha1 : links_only arr a1 (l1 ++ x :: l2)).
  { subst a1. destruct (list.last l1) eqn:Hl; [|apply links_only_refl].
    apply links_only_next, links_only_refl. apply last_elem_of in Hl. set_solver. }
  assert (Ha1x : a1 !!! x = arr !!! x).
  { apply relink_l_other. pose proof (rep_nodup _ _ _ _ Hr) as Hnd.
    apply NoDup_middle in Hnd. tauto. }
  destruct (e_same _ _ _ Ha1x) as [Ex _].
  replace (arr_list_next a1 arr_sz x) with (list.head l2)
    by (unfold arr_list_next; by rewrite Ex, <- Hnext).
  intros [= <- _]. apply links_only_next, links_only_prev; [set_solver..|].
  destruct (list.head l2) eqn:Hl; [|done].
  apply links_only_prev; [|done]. apply head_elem_of in Hl. set_solver.
Qed.

Lemma pop_first_frame arr arr_sz head x l arr' head' r :
  list_rep arr arr_sz head (x :: l) ->
  arr_list_pop_first arr arr_sz head = (arr', head', r) -> links_only arr arr' (x :: l).
Proof.
  intros Hr. pose proof (rep_middle _ _ _ [] x l Hr) as (_ & Hnext & _).
  unfold arr_list_pop_first. rewrite (list_rep_first _ _ _ _ Hr). cbn [list.head].
  rewrite Hnext. intros [= <- _ _]. apply links_only_next; [set_solver|].
  destruct (list.head l) eqn:Hl; [|apply links_only_refl].
  apply links_only_prev, links_only_refl. apply head_elem_of in Hl. set_solver.
Qed.
End Frame.

(** ** Runs of operations

    The operations a client issues on one list, their effect on the array and
    the head, and their effect on the abstract sequence. *)

Inductive list_op :=
  | InsertHead (x : Z)
  | InsertTail (x : Z)
  | InsertBefore (y x : Z)
  | InsertAfter (y x : Z)
  | Remove (x : Z)
  | PopFirst.

Section Runs.
Context {E : Type} `{!Inhabited E} `{!ListField E}.
Implicit Types (arr : gmap Z E) (arr_sz : Z) (head : arr_list) (l : list Z).

Definition exec_op arr_sz (s : gmap Z E * arr_list) (o : list_op) : gmap Z E * arr_list :=
  let '(arr, head) := s in
  match o with
  | InsertHead x => arr_list_insert_head arr arr_sz head x
  | InsertTail x => arr_list_insert_tail arr arr_sz head x
  | InsertBefore y x => arr_list_insert_before arr arr_sz head y x
  | InsertAfter y x => arr_list_insert_after arr arr_sz head y x
  | Remove x => arr_list_remove arr arr_sz head x
  | PopFirst => (arr_list_pop_first arr arr_sz head).1
  end.

(** The same operations on a sequence. *)
Fixpoint before (y x : Z) l : list Z :=
  match l with
  | [] => []
  | z :: l' => if decide (z = y) then x :: z :: l' else z :: before y x l'
  end.

Fixpoint after (y x : Z) l : list Z :=
  match l with
  | [] => []
  | z :: l' => if decide (z = y) then z :: x :: l' else z :: after y x l'
  end.

Fixpoint without (x : Z) l : list Z :=
  match l with
  | [] => []
  | z :: l' => if decide (z = x) then l' else z :: without x l'
  end.

Definition spec_op l (o : list_op) : list Z :=
  match o with
  | InsertHead x => x :: l
  | InsertTail x => l ++ [x]
  | InsertBefore y x => before y x l
  | InsertAfter y x => after y x l
  | Remove x => without x l
  | PopFirst => tail l
  end.

(** What the macros require of the caller: an inserted element is an array
    element not already on the list; an anchor or a removed element is on it. *)
Definition op_ok arr_sz l (o : list_op) : bool :=
  let fresh x := bool_decide (0 <= x < arr_sz) && bool_decide (x ∉ l) in
  match o with
  | InsertHead x | InsertTail x => fresh x
  | InsertBefore y x | InsertAfter y x => bool_decide (y ∈ l) && fresh x
  | Remove x => bool_decide (x ∈ l)
  | PopFirst => true
  end.

Fixpoint ops_ok arr_sz l (os : list list_op) : bool :=
  match os with
  | [] => true
  | o :: os' => op_ok arr_sz l o && ops_ok arr_sz (spec_op l o) os'
  end.

Lemma split_spec l y :
  y ∈ l -> exists l1 l2, l = l1 ++ y :: l2 /\
    without y l = l1 ++ l2 /\
    forall x, before y x l = l1 ++ x :: y :: l2 /\ after y x l = l1 ++ y :: x :: l2.
Proof.
  induction l as [|z l IH]; [set_solver|]. intros Hy. cbn.
  destruct (decide (z = y)) as [->|Hne].
  - exists [], l. done.
  - destruct IH as (l1 & l2 & Hl & Hw & Hba); [set_solver|].
    exists (z :: l1), l2. cbn. rewrite Hl, Hw in *. split_and!; [done..|].
    intros x. destruct (Hba x) as [-> ->]. done.
Qed.

Lemma exec_op_rep arr arr_sz head l o :
  list_rep arr arr_sz head l -> op_ok arr_sz l o = true ->
  let '(arr', head') := exec_op arr_sz (arr, head) o in
  list_rep arr' arr_sz head' (spec_op l o).
Proof.
  intros Hr Hok. destruct (exec_op _ _ _) as [arr' head'] eqn:He.
  destruct o as [x|x|y x|y x|x|]; cbn in Hok, He |- *;
    rewrite ?andb_true_iff, ?bool_decide_eq_true in Hok.
  - eapply insert_head_rep; naive_solver.
  - eapply insert_tail_rep; naive_solver.
  - destruct Hok as (Hy & Hx & Hnin).
    destruct (split_spec l y Hy) as (l1 & l2 & -> & _ & Hba). destruct (Hba x) as [-> _].
    by eapply insert_before_rep.
  - destruct Hok as (Hy & Hx & Hnin).
    destruct (split_spec l y Hy) as (l1 & l2 & -> & _ & Hba). destruct (Hba x) as [_ ->].
    by eapply insert_after_rep.
  - destruct (split_spec l x Hok) as (l1 & l2 & -> & -> & _). by eapply remove_rep.
  - destruct (arr_list_pop_first _ _ _) as [[a h] r] eqn:Hp. cbn in He. simplify_eq.
    destruct l as [|z l].
    + rewrite (pop_first_rep_nil _ _ _ Hr) in Hp. by simplify_eq.
    + by eapply pop_first_rep in Hp as [_ ?].
Qed.
End Runs.

(** ** Claims *)

Section Claims.
Context {E : Type} `{!Inhabited E} `{!ListField E}.
Implicit Types (arr : gmap Z E) (arr_sz : Z) (head : arr_list) (l : list Z).

End Claims.


Section Claims2.
Context {E : Type} `{!Inhabited E} `{!ListField E}.
Implicit Types (arr : gmap Z E) (arr_sz : Z) (head : arr_list) (l : list Z).

(** [arr_list_concat] of two disjoint lists, the second non-empty, leaves the
    first head representing the concatenation and the second empty. *)
Theorem arr_list_concat_refines arr arr_sz h1 h2 l1 l2 :
  list_rep arr arr_sz h1 l1 -> list_rep arr arr_sz h2 l2 -> l1 ## l2 -> l2 <> [] ->
  let '(arr', h1', h2') := arr_list_concat arr arr_sz h1 h2 in
  list_rep arr' arr_sz h1' (l1 ++ l2) /\ list_rep arr' arr_sz h2' [].
Proof.
  intros Hr1 Hr2 Hd Hne. destruct (arr_list_concat _ _ _ _) as [[a1 a2] a3] eqn:Hc.
  eapply concat_rep; [done|done| |done|done]. set_solver.
Qed.

(** With an empty second list the tail pointer of a non-empty first list is
    lost: [head1->last] becomes the empty list's zero, the head no longer
    represents any sequence, and an element then inserted at the tail is not
    seen by a forward traversal. *)
Theorem arr_list_concat_empty_loses_tail arr arr_sz h1 h2 l1 x :
  list_rep arr arr_sz h1 l1 -> l1 <> [] -> list_rep arr arr_sz h2 [] ->
  0 <= x < arr_sz -> x ∉ l1 ->
  let '(arr', h1', h2') := arr_list_concat arr arr_sz h1 h2 in
  last h1' = 0 /\ (forall l, ~ list_rep arr' arr_sz h1' l) /\
  let '(arr'', h1'') := arr_list_insert_tail arr' arr_sz h1' x in
  forall max, x ∉ (arr_list_foreach arr'' arr_sz h1'' max).1.
Proof.
  intros Hr1 Hne Hr2 Hx Hnin. destruct l1 as [|y l1 _] using rev_ind; [done|].
  unfold arr_list_concat. rewrite (list_rep_last _ _ _ _ _ Hr1),
    (list_rep_first _ _ _ _ Hr2), (list_rep_empty _ _ _ _ Hr1).
  rewrite bool_decide_false by done. cbn [list.head first last].
  destruct Hr2 as [_ _ Hf2 Hl2 _]. rewrite Hf2, Hl2. cbn [hd_id last_id].
  destruct Hr1 as [Hnd Hb Hf Hl Hc].
  assert (Hnz : hd_id (l1 ++ [y]) 0 <> 0).
  { intros Hz. by apply (hd_id_pos arr_sz) in Hz. }
  split; [done|]. split.
  - intros l [_ Hb' Hf' Hl' _]. cbn [first last] in *. destruct l as [|z l _] using rev_ind.
    + rewrite Hf in Hf'. done.
    + rewrite last_id_snoc in Hl'. unfold __elem_to_id in Hl'.
      apply Forall_app in Hb' as [_ Hb']. apply Forall_cons in Hb' as [? _]. lia.
  - unfold arr_list_insert_tail, arr_list_empty, arr_list_last. cbn [first last].
    rewrite Hf, (proj2 (Z.eqb_neq _ _) Hnz). cbn [Arr.__id_to_elem Z.eqb].
    intros max. unfold arr_list_foreach, arr_list_first. cbn [first].
    rewrite <- Hf. change (__id_to_elem arr_sz (first h1)) with (arr_list_first arr_sz h1).
    match goal with |- context [arr_list_foreach_from ?a _ _ _] => set (arr2 := a) end.
    change (x ∉ (arr_list_foreach arr2 arr_sz h1 max).1).
    rewrite (foreach_rep _ _ _ (l1 ++ [y])); [intros Hin%elem_of_take; naive_solver eauto using list_elem_of_lookup_2|].
    split; try done. apply chain_frame_next, chain_frame_prev; [done..|].
    by apply (chain_set_next _ _ _ _ 0).
Qed.
End Claims2.

(** Two one-element lists of the same array, as [list_rep] sees them. *)
Definition demo_two : gmap Z arr_list_entry := ∅.

Lemma demo_singleton arr x :
  0 <= x < 4 -> e_next arr x = 0 -> e_prev arr x = 0 ->
  list_rep (E := arr_list_entry) arr 4 (mk_arr_list (x + 1) (x + 1)) [x].
Proof.
  intros Hx Hn Hp. split; cbn; try done.
  - apply NoDup_singleton.
  - by constructor.
Qed.

Lemma arr_list_concat_refines_witness :
  let '(arr', h1', h2') :=
    arr_list_concat demo_two 4 (mk_arr_list 1 1) (mk_arr_list 3 3) in
  list_rep arr' 4 h1' [0; 2] /\ list_rep arr' 4 h2' [].
Proof.
  apply (arr_list_concat_refines demo_two 4 (mk_arr_list 1 1) (mk_arr_list 3 3) [0] [2]).
  - by apply (demo_singleton _ 0).
  - by apply (demo_singleton _ 2).
  - set_solver.
  - done.
Defined.

Lemma arr_list_concat_empty_loses_tail_witness :
  let '(arr', h1', h2') := arr_list_concat demo_two 4 (mk_arr_list 1 1) arr_list_init in
  last h1' = 0 /\ (forall l, ~ list_rep arr' 4 h1' l) /\
  let '(arr'', h1'') := arr_list_insert_tail arr' 4 h1' 3 in
  forall max, 3 ∉ (arr_list_foreach arr'' 4 h1'' max).1.
Proof.
  apply (arr_list_concat_empty_loses_tail demo_two 4 (mk_arr_list 1 1) arr_list_init [0] 3).
  - by apply (demo_singleton _ 0).
  - done.
  - apply list_rep_init.
  - done.
  - set_solver.
Defined.
