(* ===== verification/GhostAbi.v ===== *)
(** * Messages between the kernel and the agents

    Models the message part of the ABI, [abi/latest/kernel/ghost.h]: the message
    types, the payload structures with all their fields, and the accessors of
    [ghost::Message] in [lib/channel.h].  The union of payloads is an inductive
    type; a [static_cast] of the payload to one of its members is a partial
    projection, undefined (here: failing) when the member is not the active one. *)

From S2P Require Import Prelude.

(** ** Message types *)

Definition _MSG_TASK_FIRST : Z := 64.
Definition _MSG_TASK_LAST : Z := _MSG_TASK_FIRST + 64 - 1.
Definition _MSG_CPU_FIRST : Z := 128.
Definition _MSG_CPU_LAST : Z := _MSG_CPU_FIRST + 64 - 1.

(** The anonymous enumeration of message types. *)
Inductive ghost_msg_type :=
  | MSG_NOP
  | MSG_TASK_DEAD | MSG_TASK_BLOCKED | MSG_TASK_WAKEUP | MSG_TASK_NEW
  | MSG_TASK_PREEMPT | MSG_TASK_YIELD | MSG_TASK_DEPARTED | MSG_TASK_SWITCHTO
  | MSG_TASK_AFFINITY_CHANGED | MSG_TASK_ON_CPU | MSG_TASK_PRIORITY_CHANGED
  | MSG_TASK_LATCH_FAILURE
  | MSG_CPU_TICK | MSG_CPU_TIMER_EXPIRED | MSG_CPU_NOT_IDLE | MSG_CPU_AVAILABLE
  | MSG_CPU_BUSY | MSG_CPU_AGENT_BLOCKED | MSG_CPU_AGENT_WAKEUP.

#[export] Instance ghost_msg_type_eq_dec : EqDecision ghost_msg_type.
Proof. solve_decision. Defined.

(** The values of the enumerators. *)
Definition msg_type_value (t : ghost_msg_type) : Z :=
  match t with
  | MSG_NOP => 0
  | MSG_TASK_DEAD => _MSG_TASK_FIRST
  | MSG_TASK_BLOCKED => _MSG_TASK_FIRST + 1
  | MSG_TASK_WAKEUP => _MSG_TASK_FIRST + 2
  | MSG_TASK_NEW => _MSG_TASK_FIRST + 3
  | MSG_TASK_PREEMPT => _MSG_TASK_FIRST + 4
  | MSG_TASK_YIELD => _MSG_TASK_FIRST + 5
  | MSG_TASK_DEPARTED => _MSG_TASK_FIRST + 6
  | MSG_TASK_SWITCHTO => _MSG_TASK_FIRST + 7
  | MSG_TASK_AFFINITY_CHANGED => _MSG_TASK_FIRST + 8
  | MSG_TASK_ON_CPU => _MSG_TASK_FIRST + 9
  | MSG_TASK_PRIORITY_CHANGED => _MSG_TASK_FIRST + 10
  | MSG_TASK_LATCH_FAILURE => _MSG_TASK_FIRST + 11
  | MSG_CPU_TICK => _MSG_CPU_FIRST
  | MSG_CPU_TIMER_EXPIRED => _MSG_CPU_FIRST + 1
  | MSG_CPU_NOT_IDLE => _MSG_CPU_FIRST + 2
  | MSG_CPU_AVAILABLE => _MSG_CPU_FIRST + 3
  | MSG_CPU_BUSY => _MSG_CPU_FIRST + 4
  | MSG_CPU_AGENT_BLOCKED => _MSG_CPU_FIRST + 5
  | MSG_CPU_AGENT_WAKEUP => _MSG_CPU_FIRST + 6
  end.

(** All the enumerators, and the reading of a raw type. *)
Definition all_msg_types : list ghost_msg_type :=
  [MSG_NOP; MSG_TASK_DEAD; MSG_TASK_BLOCKED; MSG_TASK_WAKEUP; MSG_TASK_NEW;
   MSG_TASK_PREEMPT; MSG_TASK_YIELD; MSG_TASK_DEPARTED; MSG_TASK_SWITCHTO;
   MSG_TASK_AFFINITY_CHANGED; MSG_TASK_ON_CPU; MSG_TASK_PRIORITY_CHANGED;
   MSG_TASK_LATCH_FAILURE; MSG_CPU_TICK; MSG_CPU_TIMER_EXPIRED; MSG_CPU_NOT_IDLE;
   MSG_CPU_AVAILABLE; MSG_CPU_BUSY; MSG_CPU_AGENT_BLOCKED; MSG_CPU_AGENT_WAKEUP].

Definition read_msg_type (v : Z) : option ghost_msg_type :=
  List.find (fun t => msg_type_value t =? v) all_msg_types.

Lemma read_msg_type_value t : read_msg_type (msg_type_value t) = Some t.
Proof. by destruct t. Qed.

(** ** Payloads *)

Record ghost_sw_info := mk_sw_info { swi_id : Z; swi_index : Z }.

Record ghost_msg_payload_task_new := mk_task_new {
  tn_gtid : Z; tn_parent_gtid : Z; tn_runtime : Z; tn_runnable : Z; tn_nice : Z;
  tn_sw_info : ghost_sw_info; tn_agent_data : Z }.

Record ghost_msg_payload_task_preempt := mk_task_preempt {
  tp_gtid : Z; tp_runtime : Z; tp_cpu_seqnum : Z; tp_agent_data : Z; tp_cpu : Z;
  tp_from_switchto : Z; tp_was_latched : Z }.

Record ghost_msg_payload_task_yield := mk_task_yield {
  ty_gtid : Z; ty_runtime : Z; ty_cpu_seqnum : Z; ty_agent_data : Z; ty_cpu : Z;
  ty_from_switchto : Z }.

Record ghost_msg_payload_task_blocked := mk_task_blocked {
  tb_gtid : Z; tb_runtime : Z; tb_cpu_seqnum : Z; tb_cpu : Z; tb_from_switchto : Z }.

Record ghost_msg_payload_task_dead := mk_task_dead { td_gtid : Z; td_cpu : Z }.

Record ghost_msg_payload_task_departed := mk_task_departed {
  tdp_gtid : Z; tdp_cpu_seqnum : Z; tdp_cpu : Z; tdp_from_switchto : Z;
  tdp_was_current : Z }.

Record ghost_msg_payload_task_affinity_changed := mk_task_affinity { tac_gtid : Z }.

Record ghost_msg_payload_task_priority_changed := mk_task_priority {
  tpc_gtid : Z; tpc_nice : Z }.

Record ghost_msg_payload_task_wakeup := mk_task_wakeup {
  tw_gtid : Z; tw_agent_data : Z; tw_deferrable : Z; tw_last_ran_cpu : Z;
  tw_wake_up_cpu : Z; tw_waker_cpu : Z }.

Record ghost_msg_payload_task_switchto := mk_task_switchto {
  ts_gtid : Z; ts_runtime : Z; ts_cpu_seqnum : Z; ts_cpu : Z }.

Record ghost_msg_payload_task_on_cpu := mk_task_on_cpu {
  toc_gtid : Z; toc_commit_time : Z; toc_cpu_seqnum : Z; toc_cpu : Z }.

Record ghost_msg_payload_task_latch_failure := mk_latch_failure {
  tlf_gtid : Z; tlf_errno : Z }.

Record ghost_msg_payload_cpu_not_idle := mk_cpu_not_idle { cni_cpu : Z; cni_next_gtid : Z }.
Record ghost_msg_payload_cpu_tick := mk_cpu_tick { ct_cpu : Z; ct_is_agent : Z }.
Record ghost_msg_payload_timer := mk_timer { tm_cpu : Z; tm_type : Z; tm_cookie : Z }.
Record ghost_msg_payload_cpu_available := mk_cpu_available { ca_cpu : Z }.
Record ghost_msg_payload_cpu_busy := mk_cpu_busy { cb_cpu : Z }.
Record ghost_msg_payload_agent_blocked := mk_agent_blocked { ab_cpu : Z }.
Record ghost_msg_payload_agent_wakeup := mk_agent_wakeup { aw_cpu : Z }.

(** The payload area: [NoPayload] for [MSG_NOP], otherwise the active member of
    the union in [struct bpf_ghost_msg]. *)
Inductive ghost_payload :=
  | NoPayload
  | P_dead (p : ghost_msg_payload_task_dead)
  | P_blocked (p : ghost_msg_payload_task_blocked)
  | P_wakeup (p : ghost_msg_payload_task_wakeup)
  | P_newt (p : ghost_msg_payload_task_new)
  | P_preempt (p : ghost_msg_payload_task_preempt)
  | P_yield (p : ghost_msg_payload_task_yield)
  | P_departed (p : ghost_msg_payload_task_departed)
  | P_switchto (p : ghost_msg_payload_task_switchto)
  | P_affinity (p : ghost_msg_payload_task_affinity_changed)
  | P_priority (p : ghost_msg_payload_task_priority_changed)
  | P_on_cpu (p : ghost_msg_payload_task_on_cpu)
  | P_latch_failure (p : ghost_msg_payload_task_latch_failure)
  | P_cpu_tick (p : ghost_msg_payload_cpu_tick)
  | P_timer (p : ghost_msg_payload_timer)
  | P_cpu_not_idle (p : ghost_msg_payload_cpu_not_idle)
  | P_cpu_available (p : ghost_msg_payload_cpu_available)
  | P_cpu_busy (p : ghost_msg_payload_cpu_busy)
  | P_agent_blocked (p : ghost_msg_payload_agent_blocked)
  | P_agent_wakeup (p : ghost_msg_payload_agent_wakeup).

(** The message type that announces each member. *)
Definition payload_type (p : ghost_payload) : ghost_msg_type :=
  match p with
  | NoPayload => MSG_NOP
  | P_dead _ => MSG_TASK_DEAD
  | P_blocked _ => MSG_TASK_BLOCKED
  | P_wakeup _ => MSG_TASK_WAKEUP
  | P_newt _ => MSG_TASK_NEW
  | P_preempt _ => MSG_TASK_PREEMPT
  | P_yield _ => MSG_TASK_YIELD
  | P_departed _ => MSG_TASK_DEPARTED
  | P_switchto _ => MSG_TASK_SWITCHTO
  | P_affinity _ => MSG_TASK_AFFINITY_CHANGED
  | P_priority _ => MSG_TASK_PRIORITY_CHANGED
  | P_on_cpu _ => MSG_TASK_ON_CPU
  | P_latch_failure _ => MSG_TASK_LATCH_FAILURE
  | P_cpu_tick _ => MSG_CPU_TICK
  | P_timer _ => MSG_CPU_TIMER_EXPIRED
  | P_cpu_not_idle _ => MSG_CPU_NOT_IDLE
  | P_cpu_available _ => MSG_CPU_AVAILABLE
  | P_cpu_busy _ => MSG_CPU_BUSY
  | P_agent_blocked _ => MSG_CPU_AGENT_BLOCKED
  | P_agent_wakeup _ => MSG_CPU_AGENT_WAKEUP
  end.

(** ** [ghost::Message] *)

Module Message.
Record ghost_msg := mk_msg { type : Z; seqnum : Z; payload : ghost_payload }.

Definition is_cpu_msg (m : ghost_msg) : bool :=
  (_MSG_CPU_FIRST <=? type m) && (type m <=? _MSG_CPU_LAST).

Definition is_task_msg (m : ghost_msg) : bool :=
  (_MSG_TASK_FIRST <=? type m) && (type m <=? _MSG_TASK_LAST).

(** [Message::gtid]: the first 64-bit word of the payload of a task message. *)
Definition gtid (m : ghost_msg) : option Z :=
  match payload m with
  | P_dead p => Some (td_gtid p)
  | P_blocked p => Some (tb_gtid p)
  | P_wakeup p => Some (tw_gtid p)
  | P_newt p => Some (tn_gtid p)
  | P_preempt p => Some (tp_gtid p)
  | P_yield p => Some (ty_gtid p)
  | P_departed p => Some (tdp_gtid p)
  | P_switchto p => Some (ts_gtid p)
  | P_affinity p => Some (tac_gtid p)
  | P_priority p => Some (tpc_gtid p)
  | P_on_cpu p => Some (toc_gtid p)
  | P_latch_failure p => Some (tlf_gtid p)
  | _ => None
  end.

(** [Message::cpu]: the first [int] of the payload of a cpu message. *)
Definition cpu (m : ghost_msg) : option Z :=
  match payload m with
  | P_cpu_tick p => Some (ct_cpu p)
  | P_timer p => Some (tm_cpu p)
  | P_cpu_not_idle p => Some (cni_cpu p)
  | P_cpu_available p => Some (ca_cpu p)
  | P_cpu_busy p => Some (cb_cpu p)
  | P_agent_blocked p => Some (ab_cpu p)
  | P_agent_wakeup p => Some (aw_cpu p)
  | _ => None
  end.

(** The kernel writes the type that announces the payload. *)
Definition of_payload (sn : Z) (p : ghost_payload) : ghost_msg :=
  mk_msg (msg_type_value (payload_type p)) sn p.
End Message.

(** ** Casts of the payload *)

Definition as_task_new (p : ghost_payload) := match p with P_newt p => Some p | _ => None end.
Definition as_task_wakeup (p : ghost_payload) := match p with P_wakeup p => Some p | _ => None end.
Definition as_task_departed (p : ghost_payload) :=
  match p with P_departed p => Some p | _ => None end.
Definition as_task_yield (p : ghost_payload) := match p with P_yield p => Some p | _ => None end.
Definition as_task_blocked (p : ghost_payload) :=
  match p with P_blocked p => Some p | _ => None end.
Definition as_task_preempt (p : ghost_payload) :=
  match p with P_preempt p => Some p | _ => None end.
Definition as_task_priority (p : ghost_payload) :=
  match p with P_priority p => Some p | _ => None end.
Definition as_cpu_tick (p : ghost_payload) := match p with P_cpu_tick p => Some p | _ => None end.

(** C's conversion of an integer to a condition. *)
Definition truthy (z : Z) : bool := negb (z =? 0).

(** The two groups of types do not overlap, and every task (cpu) message carries
    a gtid (a cpu). *)
Lemma task_msg_has_gtid sn p :
  Message.is_task_msg (Message.of_payload sn p) = true ->
  exists g, Message.gtid (Message.of_payload sn p) = Some g.
Proof. destruct p; cbn; eauto; done. Qed.

Lemma cpu_msg_has_cpu sn p :
  Message.is_cpu_msg (Message.of_payload sn p) = true ->
  exists c, Message.cpu (Message.of_payload sn p) = Some c.
Proof. destruct p; cbn; eauto; done. Qed.
