(* ===== verification/Dispatch.v ===== *)
(** * The dispatching scheduler base class

    Models [lib/scheduler.h]: the task base class [Task] with [Advance], the
    malloc task allocator, and [BasicDispatchScheduler::DispatchMessage], which
    looks up the task of a message and calls the scheduler's callback.  The
    callbacks are the class [DispatchHandlers] (the virtual methods); a scheduler
    is an instance of it.

    A task pointer is the gtid under which the allocator stores the task; reading
    through a pointer whose task has been freed fails, so "does not fail" includes
    "dereferences no dangling task pointer". *)

From S2P Require Import Prelude GhostAbi.
Import Message.

(** A task type derived from [Task<>]: its constructor and its [seqnum]. *)
Class TaskType (T : Type) := {
  new_task : Z -> ghost_sw_info -> T;
  t_seqnum : T -> Z;
  set_seqnum : Z -> T -> T;
}.

(** A scheduler state that owns an allocator's [task_map_]. *)
Class HasTasks (St T : Type) := {
  task_map_ : St -> gmap Z T;
  set_task_map_ : gmap Z T -> St -> St;
  task_map_set : forall m s, task_map_ (set_task_map_ m s) = m;
}.

(** [GHOST_ERROR]: the process exits. *)
Definition GHOST_ERROR {St A} : M St A := fun _ => None.

Module Allocator.
Section Allocator.
Context {St T : Type} `{!HasTasks St T} `{!TaskType T}.

(** [GetTask(gtid)]: is there a task? *)
Definition GetTask (g : Z) : M St bool :=
  s <- mget ;; mret (bool_decide (is_Some (task_map_ s !! g))).

(** [GetTask(gtid, sw_info)]: find or allocate; true when allocated. *)
Definition GetTask_alloc (g : Z) (swi : ghost_sw_info) : M St bool :=
  found <- GetTask g ;;
  if found then mret false
  else mmod (fun s => set_task_map_ (<[g := new_task g swi]> (task_map_ s)) s) ;;; mret true.

Definition FreeTask (g : Z) : M St unit :=
  mmod (fun s => set_task_map_ (delete g (task_map_ s)) s).

(** [ForEachTask]: visit the tasks in the map's order until the callback
    returns false; the callback's captured state is threaded through. *)
Fixpoint visit {A} (func : Z -> T -> A -> bool * A) (l : list (Z * T)) (a : A) : A :=
  match l with
  | [] => a
  | (g, t) :: l' => let '(go, a') := func g t a in if go then visit func l' a' else a'
  end.

Definition ForEachTask {A} (func : Z -> T -> A -> bool * A) (a : A) : M St A :=
  s <- mget ;; mret (visit func (map_to_list (task_map_ s)) a).

(** Reads and writes through a task pointer. *)
Definition read_task (g : Z) : M St T :=
  s <- mget ;; deref (task_map_ s !! g).

Definition write_task (g : Z) (f : T -> T) : M St unit :=
  t <- read_task g ;; mmod (fun s => set_task_map_ (<[g := f t]> (task_map_ s)) s).

(** [Task::Advance] *)
Definition Advance (g : Z) (next_seqnum : Z) : M St unit :=
  t <- read_task g ;;
  CHECK (t_seqnum t <? next_seqnum) ;;;
  write_task g (set_seqnum next_seqnum).
End Allocator.
End Allocator.
Export Allocator.

(** The virtual callbacks of [BasicDispatchScheduler]. *)
Class DispatchHandlers (St : Type) := {
  TaskNew : Z -> ghost_msg -> M St unit;
  TaskRunnable : Z -> ghost_msg -> M St unit;
  TaskDead : Z -> ghost_msg -> M St unit;
  TaskDeparted : Z -> ghost_msg -> M St unit;
  TaskYield : Z -> ghost_msg -> M St unit;
  TaskBlocked : Z -> ghost_msg -> M St unit;
  TaskPreempted : Z -> ghost_msg -> M St unit;
  TaskSwitchto : Z -> ghost_msg -> M St unit;
  TaskAffinityChanged : Z -> ghost_msg -> M St unit;
  TaskPriorityChanged : Z -> ghost_msg -> M St unit;
  TaskOnCpu_msg : Z -> ghost_msg -> M St unit;
  CpuTick : ghost_msg -> M St unit;
  CpuNotIdle : ghost_msg -> M St unit;
  CpuTimerExpired : ghost_msg -> M St unit;
  CpuAvailable : ghost_msg -> M St unit;
  CpuBusy : ghost_msg -> M St unit;
  AgentBlocked : ghost_msg -> M St unit;
  AgentWakeup : ghost_msg -> M St unit;
}.

(** The body of a virtual callback that is not overridden. *)
Definition not_overridden {St} : M St unit := mret tt.

Section Dispatch.
Context {St T : Type} `{!HasTasks St T} `{!TaskType T} `{!DispatchHandlers St}.

Definition DispatchCpuMessage (msg : ghost_msg) : M St unit :=
  match read_msg_type (type msg) with
  | Some MSG_CPU_TICK => CpuTick msg
  | Some MSG_CPU_NOT_IDLE => CpuNotIdle msg
  | Some MSG_CPU_TIMER_EXPIRED => CpuTimerExpired msg
  | Some MSG_CPU_AVAILABLE => CpuAvailable msg
  | Some MSG_CPU_BUSY => CpuBusy msg
  | Some MSG_CPU_AGENT_BLOCKED => AgentBlocked msg
  | Some MSG_CPU_AGENT_WAKEUP => AgentWakeup msg
  | _ => GHOST_ERROR
  end.

(** The switch on the type of a task message; true when the sequence number
    is still to be advanced. *)
Definition DispatchTaskMessage (task : Z) (msg : ghost_msg) : M St bool :=
  match read_msg_type (type msg) with
  | Some MSG_NOP => GHOST_ERROR
  | Some MSG_TASK_NEW => TaskNew task msg ;;; mret false
  | Some MSG_TASK_PREEMPT => TaskPreempted task msg ;;; mret true
  | Some MSG_TASK_DEAD => TaskDead task msg ;;; mret false
  | Some MSG_TASK_WAKEUP => TaskRunnable task msg ;;; mret true
  | Some MSG_TASK_BLOCKED => TaskBlocked task msg ;;; mret true
  | Some MSG_TASK_YIELD => TaskYield task msg ;;; mret true
  | Some MSG_TASK_DEPARTED => TaskDeparted task msg ;;; mret false
  | Some MSG_TASK_SWITCHTO => TaskSwitchto task msg ;;; mret true
  | Some MSG_TASK_AFFINITY_CHANGED => TaskAffinityChanged task msg ;;; mret true
  | Some MSG_TASK_PRIORITY_CHANGED => TaskPriorityChanged task msg ;;; mret true
  | Some MSG_TASK_ON_CPU => TaskOnCpu_msg task msg ;;; mret true
  | _ => GHOST_ERROR
  end.

(** The lookup of the message's task: true when there is a task to dispatch to
    (allocated now for [MSG_TASK_NEW], known already otherwise). *)
Definition LookupTask (g : Z) (msg : ghost_msg) : M St bool :=
  if type msg =? msg_type_value MSG_TASK_NEW then
    p <- deref (as_task_new (payload msg)) ;; GetTask_alloc g (tn_sw_info p)
  else GetTask g.

Definition DispatchMessage (msg : ghost_msg) : M St unit :=
  if type msg =? msg_type_value MSG_NOP then mret tt
  else if is_cpu_msg msg then DispatchCpuMessage msg
  else
    g <- deref (gtid msg) ;;
    CHECK (negb (g =? 0)) ;;;
    found <- LookupTask g msg ;;
    if found then
      update_seqnum <- DispatchTaskMessage g msg ;;
      when update_seqnum (Advance g (seqnum msg))
    else mret tt.

(** [while (!(msg = Peek(channel)).empty()) { DispatchMessage; Consume }]: the
    messages of the channel, oldest first. *)
Fixpoint DispatchAll (msgs : list ghost_msg) : M St unit :=
  match msgs with
  | [] => mret tt
  | msg :: msgs' => DispatchMessage msg ;;; DispatchAll msgs'
  end.
End Dispatch.

(** ** Reasoning rules *)

Section Rules.
Context {St T : Type} `{!HasTasks St T} `{!TaskType T}.
Implicit Types (s : St).

Lemma wp_read_task g t (Q : T -> St -> Prop) s :
  task_map_ s !! g = Some t -> Q t s -> wp (read_task g) Q s.
Proof. intros Hg HQ. unfold read_task. wp_steps; done. Qed.

Lemma wp_write_task g f t (Q : unit -> St -> Prop) s :
  task_map_ s !! g = Some t ->
  Q tt (set_task_map_ (<[g := f t]> (task_map_ s)) s) -> wp (write_task g f) Q s.
Proof. intros Hg HQ. unfold write_task. wp_step. by eapply wp_read_task. Qed.

Lemma wp_FreeTask g (Q : unit -> St -> Prop) s :
  Q tt (set_task_map_ (delete g (task_map_ s)) s) -> wp (FreeTask g) Q s.
Proof. done. Qed.

Lemma wp_GetTask g (Q : bool -> St -> Prop) s :
  Q (bool_decide (is_Some (task_map_ s !! g))) s -> wp (GetTask g) Q s.
Proof. done. Qed.

Lemma wp_Advance g n t (Q : unit -> St -> Prop) s :
  task_map_ s !! g = Some t -> t_seqnum t < n ->
  Q tt (set_task_map_ (<[g := set_seqnum n t]> (task_map_ s)) s) -> wp (Advance g n) Q s.
Proof.
  intros Hg Hlt HQ. unfold Advance. wp_step. eapply wp_read_task; [done|].
  wp_step. apply wp_check; [by apply Z.ltb_lt|]. by eapply wp_write_task.
Qed.

Context `{!DispatchHandlers St}.

Lemma DispatchMessage_task msg g (Q : unit -> St -> Prop) s :
  type msg <> msg_type_value MSG_NOP -> is_cpu_msg msg = false -> type msg <> msg_type_value MSG_TASK_NEW ->
  gtid msg = Some g -> g <> 0 ->
  (task_map_ s !! g = None -> Q tt s) ->
  (is_Some (task_map_ s !! g) ->
    wp (DispatchTaskMessage g msg) (fun u => wp (when u (Advance g (seqnum msg))) Q) s) ->
  wp (DispatchMessage msg) Q s.
Proof.
  intros Hnop Hcpu Hnew Hg Hnz Hnone Hsome. unfold DispatchMessage, LookupTask.
  rewrite (proj2 (Z.eqb_neq _ _) Hnop), Hcpu, (proj2 (Z.eqb_neq _ _) Hnew), Hg.
  wp_step. apply (wp_deref _ g); [done|]. wp_step. apply wp_check.
  { by rewrite (proj2 (Z.eqb_neq _ _) Hnz). }
  wp_step. apply wp_GetTask. case_bool_decide as Hb.
  - wp_step. by apply Hsome.
  - apply wp_ret, Hnone. by apply eq_None_not_Some.
Qed.

(** A [MSG_TASK_NEW] allocates the task unless it is known. *)
Lemma DispatchMessage_new sn p (Q : unit -> St -> Prop) s :
  tn_gtid p <> 0 -> (is_Some (task_map_ s !! tn_gtid p) -> Q tt s) ->
  (task_map_ s !! tn_gtid p = None ->
    wp (TaskNew (tn_gtid p) (of_payload sn (P_newt p))) Q
      (set_task_map_ (<[tn_gtid p := new_task (tn_gtid p) (tn_sw_info p)]> (task_map_ s)) s)) ->
  wp (DispatchMessage (of_payload sn (P_newt p))) Q s.
Proof.
  intros Hg Hknown Hnew. unfold DispatchMessage. cbn [type of_payload].
  change (msg_type_value (payload_type (P_newt p)) =? msg_type_value MSG_NOP) with false.
  change (is_cpu_msg _) with false. cbv iota.
  wp_step. apply (wp_deref _ (tn_gtid p)); [done|]. wp_step. apply wp_check.
  { by rewrite (proj2 (Z.eqb_neq _ _)). }
  wp_step. unfold LookupTask, GetTask_alloc. change (_ =? _) with true. cbv iota.
  wp_step. apply (wp_deref _ p); [done|]. wp_step. apply wp_GetTask. case_bool_decide as Hex.
  - apply wp_ret, wp_ret. by apply Hknown.
  - apply wp_bind, wp_mod, wp_ret, wp_bind. unfold DispatchTaskMessage.
    change (read_msg_type _) with (Some MSG_TASK_NEW). cbv iota. apply wp_bind.
    eapply wp_mono; [apply Hnew; by apply eq_None_not_Some|]. intros [] s' HQ. by apply wp_ret, wp_ret.
Qed.
End Rules.

(** [ForEachTask] with a callback that counts visits every task once. *)
Lemma visit_count {T} (l : list (Z * T)) n :
  visit (fun _ _ k => (true, k + 1)) l n = n + Z.of_nat (length l).
Proof.
  revert n. induction l as [|[g t] l IH]; intros n; cbn; [lia|]. rewrite IH. lia.
Qed.

(** ** Claims *)

Section Claims.
Context {St T : Type} `{!HasTasks St T} `{!TaskType T} `{!DispatchHandlers St}.
Implicit Types (s : St).

(** The messages [DispatchMessage] does not hand to a callback: a [MSG_NOP], a
    task message about an unknown gtid and a [MSG_TASK_NEW] about a known one
    change nothing; gtid 0 and, for a known task, a type with no case
    ([MSG_TASK_LATCH_FAILURE] or an unassigned number) abort the process. *)
Theorem dispatch_ignores_or_aborts (msg : ghost_msg) g s :
  is_cpu_msg msg = false -> gtid msg = Some g ->
  (type msg = msg_type_value MSG_NOP -> DispatchMessage msg s = Some (tt, s)) /\
  (type msg <> msg_type_value MSG_NOP -> g = 0 -> DispatchMessage msg s = None) /\
  (type msg <> msg_type_value MSG_NOP -> type msg <> msg_type_value MSG_TASK_NEW -> g <> 0 ->
     task_map_ s !! g = None -> DispatchMessage msg s = Some (tt, s)) /\
  (type msg = msg_type_value MSG_TASK_NEW -> is_Some (as_task_new (payload msg)) -> g <> 0 ->
     is_Some (task_map_ s !! g) -> DispatchMessage msg s = Some (tt, s)) /\
  (type msg <> msg_type_value MSG_NOP -> type msg <> msg_type_value MSG_TASK_NEW ->
     read_msg_type (type msg) = None \/ read_msg_type (type msg) = Some MSG_TASK_LATCH_FAILURE ->
     is_Some (task_map_ s !! g) -> DispatchMessage msg s = None).
Proof.
  intros Hcpu Hg. unfold DispatchMessage, LookupTask. rewrite Hcpu, Hg. unfold deref.
  split_and!.
  - intros ->. done.
  - intros Hnop ->. by rewrite (proj2 (Z.eqb_neq _ _) Hnop).
  - intros Hnop Hnew Hnz Hno.
    rewrite (proj2 (Z.eqb_neq _ _) Hnop), (proj2 (Z.eqb_neq _ _) Hnew).
    unfold mbind, CHECK, GetTask, mget, mret. cbv beta.
    rewrite (proj2 (Z.eqb_neq _ _) Hnz). cbn [negb]. cbv beta iota delta [mbind].
    rewrite bool_decide_false; [done|]. rewrite Hno. by intros [? ?].
  - intros Hnew [p Hp] Hnz Hsome.
    assert (Hnop : (type msg =? msg_type_value MSG_NOP) = false) by (by rewrite Hnew).
    rewrite Hnop, (proj2 (Z.eqb_eq _ _) Hnew).
    unfold mbind, CHECK, GetTask_alloc, GetTask, mbind, deref, mget, mret.
    rewrite (proj2 (Z.eqb_neq _ _) Hnz), Hp. cbn [negb].
    by rewrite bool_decide_true.
  - intros Hnop Hnew Hty Hsome.
    rewrite (proj2 (Z.eqb_neq _ _) Hnop), (proj2 (Z.eqb_neq _ _) Hnew).
    unfold mbind, CHECK, GetTask, mget, mret. destruct (negb (g =? 0)); [|done]. cbn.
    rewrite bool_decide_true by done. unfold DispatchTaskMessage.
    by destruct Hty as [-> | ->].
Qed.
End Claims.
