(* ===== verification/PrioArray.v ===== *)
(** * The priority array of the O(1) scheduler

    Models [struct PrioArray] of [schedulers/o1/o1_scheduler.h]: forty FIFO
    buckets with a 64-bit occupancy bitmap, the highest priority found by
    counting trailing zeros.  Task pointers are gtids (see [Dispatch]).  A failed
    [CHECK] is [None], and so is [front()] of an empty deque. *)

From S2P Require Import Prelude.

Definition kNumPrio : Z := 40.
Definition kBasePrio : Z := 100.

Record PrioArray := mkPrioArray { bitmap : Z; queues : gmap Z (list Z) }.

Definition empty_array : PrioArray := mkPrioArray 0 ∅.

#[export] Instance PrioArray_inhabited : Inhabited PrioArray := populate empty_array.

Module Prio.
Definition empty (a : PrioArray) : bool := bitmap a =? 0.

Definition size (a : PrioArray) : Z :=
  foldl (fun total i => total + Z.of_nat (length (queues a !!! i))) 0 (seqZ 0 kNumPrio).

(** [push(task, front)] of a task of static priority [static_priority]. *)
Definition push (a : PrioArray) (task static_priority : Z) (front : bool) : option PrioArray :=
  let idx := static_priority - kBasePrio in
  if negb (0 <=? idx) then None
  else if negb (idx <? kNumPrio) then None
  else
    let q := queues a !!! idx in
    let q' := if front then task :: q else q ++ [task] in
    Some (mkPrioArray (Z.lor (bitmap a) (Z.shiftl 1 idx)) (<[idx := q']> (queues a))).

(** Clear the bit of a bucket that has become empty. *)
Definition clear_if_empty (idx : Z) (q : list Z) (b : Z) : Z :=
  match q with
  | [] => Z.land b (Z.lnot (Z.shiftl 1 idx))
  | _ => b
  end.

Definition pop (a : PrioArray) : option (option Z * PrioArray) :=
  if bitmap a =? 0 then Some (None, a)
  else match ctzll (bitmap a) with
       | None => None
       | Some idx =>
           match queues a !!! idx with
           | [] => None
           | task :: q =>
               Some (Some task,
                     mkPrioArray (clear_if_empty idx q (bitmap a)) (<[idx := q]> (queues a)))
           end
       end.

(** [std::find] and [deque::erase]: remove the first occurrence. *)
Fixpoint remove_first (task : Z) (q : list Z) : option (list Z) :=
  match q with
  | [] => None
  | x :: q' => if x =? task then Some q'
               else match remove_first task q' with
                    | Some r => Some (x :: r)
                    | None => None
                    end
  end.

Definition erase (a : PrioArray) (task static_priority : Z) : option (bool * PrioArray) :=
  let idx := static_priority - kBasePrio in
  if negb (0 <=? idx) then None
  else if negb (idx <? kNumPrio) then None
  else match remove_first task (queues a !!! idx) with
       | None => Some (false, a)
       | Some q =>
           Some (true,
                 mkPrioArray (clear_if_empty idx q (bitmap a)) (<[idx := q]> (queues a)))
       end.
End Prio.

(** ** Well-formedness and the order of dispatch *)

(** Bit [i] is set exactly when bucket [i] holds a task. *)
Record prio_wf (a : PrioArray) : Prop := {
  wf_bitmap : 0 <= bitmap a < 2 ^ kNumPrio;
  wf_bits : forall i, 0 <= i < kNumPrio ->
    Z.testbit (bitmap a) i = bool_decide (queues a !!! i <> []);
}.

(** All the tasks, in the order they would be popped. *)
Definition buckets (a : PrioArray) (i n : Z) : list Z :=
  concat ((fun k => queues a !!! k) <$> seqZ i n).

Definition order (a : PrioArray) : list Z := buckets a 0 kNumPrio.

(** [task] is in the bucket of static priority [p]. *)
Definition in_bucket (a : PrioArray) (task p : Z) : Prop :=
  0 <= p - kBasePrio < kNumPrio /\ task ∈ queues a !!! (p - kBasePrio).

Lemma prio_wf_empty_array : prio_wf empty_array.
Proof.
  split; [done|]. intros i Hi. cbn [bitmap empty_array]. rewrite Z.bits_0.
  symmetry. apply bool_decide_eq_false. intros H. apply H. done.
Qed.

Lemma buckets_split a i n k :
  i <= k < i + n ->
  buckets a i n = buckets a i (k - i) ++ queues a !!! k ++ buckets a (k + 1) (i + n - k - 1).
Proof.
  intros Hk. unfold buckets.
  replace n with ((k - i) + (1 + (i + n - k - 1))) at 1 by lia.
  rewrite seqZ_app by lia. rewrite fmap_app, concat_app. f_equal.
  replace (i + (k - i)) with k by lia.
  rewrite seqZ_app by lia. rewrite fmap_app, concat_app. f_equal.
  rewrite seqZ_cons by lia. cbn [fmap list_fmap concat]. rewrite seqZ_nil by lia.
  apply app_nil_r.
Qed.

Lemma buckets_ext a a' i n :
  (forall k, i <= k < i + n -> queues a !!! k = queues a' !!! k) -> buckets a i n = buckets a' i n.
Proof.
  intros H. unfold buckets. f_equal. apply list_fmap_ext. intros j k Hj. apply H.
  apply lookup_seqZ in Hj as [-> ?]. lia.
Qed.

Lemma buckets_nil a i n :
  (forall k, i <= k < i + n -> queues a !!! k = []) -> buckets a i n = [].
Proof.
  intros H. unfold buckets. apply concat_nil_Forall. apply Forall_fmap, Forall_forall.
  intros k Hk. apply H. apply elem_of_seqZ in Hk. lia.
Qed.

Lemma elem_of_order a t : t ∈ order a <-> exists p, in_bucket a t p.
Proof.
  unfold order, buckets. rewrite list_elem_of_In, in_concat. split.
  - intros (q & Hq & Ht). apply list_elem_of_In, list_elem_of_fmap in Hq as (k & -> & Hk).
    apply elem_of_seqZ in Hk. exists (k + kBasePrio). unfold in_bucket.
    replace (k + kBasePrio - kBasePrio) with k by lia. rewrite list_elem_of_In. split; [lia|done].
  - intros (p & Hp & Ht). exists (queues a !!! (p - kBasePrio)). split.
    + apply list_elem_of_In, list_elem_of_fmap. eexists. split; [done|].
      apply elem_of_seqZ. lia.
    + by apply list_elem_of_In.
Qed.

(** Replacing one bucket. *)
Lemma order_insert b a k q :
  0 <= k < kNumPrio ->
  order (mkPrioArray b (<[k := q]> (queues a))) =
  buckets a 0 k ++ q ++ buckets a (k + 1) (kNumPrio - k - 1).
Proof.
  intros Hk. unfold order. rewrite (buckets_split _ _ _ k) by lia.
  f_equal; [|f_equal].
  - replace (k - 0) with k by lia. apply buckets_ext. intros j Hj. cbn.
    rewrite lookup_total_insert_ne by lia. done.
  - cbn. by rewrite lookup_total_insert_eq.
  - replace (0 + kNumPrio - k - 1) with (kNumPrio - k - 1) by lia.
    apply buckets_ext. intros j Hj. cbn. rewrite lookup_total_insert_ne by lia. done.
Qed.

Lemma order_at a k :
  0 <= k < kNumPrio ->
  order a = buckets a 0 k ++ queues a !!! k ++ buckets a (k + 1) (kNumPrio - k - 1).
Proof.
  intros Hk. unfold order. rewrite (buckets_split _ _ _ k) by lia.
  by replace (k - 0) with k by lia.
Qed.

(** The two bitmap updates keep the array well formed. *)
Lemma wf_set a k q :
  prio_wf a -> 0 <= k < kNumPrio -> q <> [] ->
  prio_wf (mkPrioArray (Z.lor (bitmap a) (Z.shiftl 1 k)) (<[k := q]> (queues a))).
Proof.
  intros [Hb Hbits] Hk Hq. assert (0 <= Z.shiftl 1 k) by (apply Z.shiftl_nonneg; lia).
  split; cbn [bitmap queues].
  - split; [apply Z.lor_nonneg; lia|]. apply bits_lt_pow2; [done|apply Z.lor_nonneg; lia|].
    intros j Hj. rewrite testbit_set by lia. rewrite decide_False by lia.
    by eapply testbit_high.
  - intros i Hi. rewrite testbit_set by lia. case_decide as He.
    + subst. rewrite lookup_total_insert_eq. symmetry. by apply bool_decide_eq_true.
    + rewrite lookup_total_insert_ne by done. by apply Hbits.
Qed.

Lemma wf_clear a k q :
  prio_wf a -> 0 <= k < kNumPrio -> queues a !!! k <> [] ->
  prio_wf (mkPrioArray (Prio.clear_if_empty k q (bitmap a)) (<[k := q]> (queues a))).
Proof.
  intros [Hb Hbits] Hk Hne. pose proof (Hbits k Hk) as Hbk.
  rewrite bool_decide_true in Hbk by done.
  destruct q as [|x q]; cbn [Prio.clear_if_empty].
  - assert (Hnn : 0 <= Z.land (bitmap a) (Z.lnot (Z.shiftl 1 k))) by (apply Z.land_nonneg; lia).
    split; cbn [bitmap queues].
    + split; [done|]. apply bits_lt_pow2; [done|done|].
      intros j Hj. rewrite testbit_clear by lia. case_decide; [done|]. by eapply testbit_high.
    + intros i Hi. rewrite testbit_clear by lia. case_decide as He.
      * subst. by rewrite lookup_total_insert_eq.
      * rewrite lookup_total_insert_ne by done. by apply Hbits.
  - split; cbn [bitmap queues]; [done|]. intros i Hi. rewrite lookup_total_insert.
    case_decide; [subst|by apply Hbits]. rewrite Hbk. symmetry. by apply bool_decide_eq_true.
Qed.

(** ** The operations *)

Lemma push_spec a t p (front : bool) :
  prio_wf a -> 0 <= p - kBasePrio < kNumPrio ->
  let k := p - kBasePrio in
  let q := queues a !!! k in
  let q' := if front then t :: q else q ++ [t] in
  let a' := mkPrioArray (Z.lor (bitmap a) (Z.shiftl 1 k)) (<[k := q']> (queues a)) in
  Prio.push a t p front = Some a' /\ prio_wf a' /\ queues a' = <[k := q']> (queues a).
Proof.
  intros Hwf Hp k q q' a'. unfold Prio.push.
  rewrite (proj2 (Z.leb_le _ _)), (proj2 (Z.ltb_lt _ _)) by lia. split; [done|].
  split; [|done]. apply wf_set; [done|done|]. subst q'. destruct front; [done|].
  by destruct q.
Qed.

Lemma empty_order a : prio_wf a -> (Prio.empty a = true <-> order a = []).
Proof.
  intros [Hb Hbits]. unfold Prio.empty. rewrite Z.eqb_eq. split.
  - intros H0. apply buckets_nil. intros k Hk. specialize (Hbits k Hk).
    rewrite H0, Z.bits_0 in Hbits. symmetry in Hbits. apply bool_decide_eq_false in Hbits.
    by destruct (queues a !!! k); [|destruct Hbits].
  - intros Ho. apply Z.bits_inj'. intros k Hk. rewrite Z.bits_0.
    destruct (decide (k < kNumPrio)); [|eapply testbit_high; [exact Hb|lia]].
    rewrite Hbits by lia. apply bool_decide_eq_false. intros Hne. apply Hne.
    rewrite (order_at a k) in Ho by lia. apply app_eq_nil in Ho as [_ Ho].
    by apply app_eq_nil in Ho as [? _].
Qed.

(** A non-empty array: the first non-empty bucket is the one [ctzll] finds. *)
Lemma ctzll_wf a :
  prio_wf a -> Prio.empty a = false ->
  exists k, ctzll (bitmap a) = Some k /\ 0 <= k < kNumPrio /\ queues a !!! k <> [] /\
    forall j, 0 <= j < k -> queues a !!! j = [].
Proof.
  intros Hwf Hne. destruct (ctzll (bitmap a)) as [k|] eqn:Hc.
  - exists k. apply ctzll_Some in Hc as (Hk & Hbit & Hmin). destruct Hwf as [Hb Hbits].
    assert (k < kNumPrio).
    { destruct (Z.ltb_spec k kNumPrio); [done|].
      by rewrite (testbit_high _ _ _ Hb) in Hbit by lia. }
    split_and!; try done; try lia.
    + rewrite Hbits in Hbit by lia. by apply bool_decide_eq_true in Hbit.
    + intros j Hj. specialize (Hmin j Hj). rewrite Hbits in Hmin by lia.
      apply bool_decide_eq_false in Hmin. by destruct (queues a !!! j); [|destruct Hmin].
  - unfold ctzll in Hc. rewrite find_bit_None in Hc. unfold Prio.empty in Hne.
    apply Z.eqb_neq in Hne. destruct Hne. destruct Hwf as [Hb _]. apply Z.bits_inj'.
    intros j Hj. rewrite Z.bits_0. destruct (decide (j < 64)); [apply Hc; lia|].
    eapply testbit_high; [done|]. unfold kNumPrio. lia.
Qed.

(** [pop] takes the head of the dispatch order. *)
Lemma pop_spec a :
  prio_wf a -> Prio.empty a = false ->
  exists k t q a',
    Prio.pop a = Some (Some t, a') /\ prio_wf a' /\ 0 <= k < kNumPrio /\
    queues a !!! k = t :: q /\ queues a' = <[k := q]> (queues a) /\
    (forall j, 0 <= j < k -> queues a !!! j = []) /\ order a = t :: order a'.
Proof.
  intros Hwf Hne. destruct (ctzll_wf a Hwf Hne) as (k & Hc & Hk & Hq & Hmin).
  destruct (queues a !!! k) as [|t q] eqn:Eq; [done|].
  exists k, t, q, (mkPrioArray (Prio.clear_if_empty k q (bitmap a)) (<[k := q]> (queues a))).
  split_and!; try done; try lia.
  - unfold Prio.pop. unfold Prio.empty in Hne. by rewrite Hne, Hc, Eq.
  - apply wf_clear; [done|done|]. by rewrite Eq.
  - rewrite order_insert, (order_at a k), Eq by lia.
    rewrite buckets_nil; [done|]. intros j Hj. apply Hmin. lia.
Qed.

Lemma remove_first_split t q :
  t ∈ q -> exists q1 q2, q = q1 ++ t :: q2 /\ t ∉ q1 /\ Prio.remove_first t q = Some (q1 ++ q2).
Proof.
  induction q as [|x q IH]; [set_solver|]. intros Ht. cbn.
  destruct (Z.eqb_spec x t) as [->|Hne].
  - exists [], q. set_solver.
  - destruct IH as (q1 & q2 & -> & Hq1 & ->); [set_solver|]. exists (x :: q1), q2. set_solver.
Qed.

Lemma remove_first_None t q : t ∉ q -> Prio.remove_first t q = None.
Proof.
  induction q as [|x q IH]; [done|]. intros Ht. cbn.
  rewrite (proj2 (Z.eqb_neq _ _)) by set_solver. by rewrite IH by set_solver.
Qed.

Lemma erase_in a t p :
  prio_wf a -> in_bucket a t p ->
  exists q1 q2 a',
    Prio.erase a t p = Some (true, a') /\ prio_wf a' /\
    queues a !!! (p - kBasePrio) = q1 ++ t :: q2 /\
    queues a' = <[p - kBasePrio := q1 ++ q2]> (queues a).
Proof.
  intros Hwf [Hp Ht]. destruct (remove_first_split _ _ Ht) as (q1 & q2 & Hq & _ & Hr).
  exists q1, q2. eexists. split_and!.
  - unfold Prio.erase. rewrite (proj2 (Z.leb_le _ _)), (proj2 (Z.ltb_lt _ _)) by lia.
    cbn [negb]. by rewrite Hr.
  - apply wf_clear; [done|done|]. rewrite Hq. by destruct q1.
  - done.
  - done.
Qed.

Lemma erase_not_in a t p :
  0 <= p - kBasePrio < kNumPrio -> ~ in_bucket a t p -> Prio.erase a t p = Some (false, a).
Proof.
  intros Hp Hn. unfold Prio.erase. rewrite (proj2 (Z.leb_le _ _)), (proj2 (Z.ltb_lt _ _)) by lia.
  cbn [negb]. rewrite remove_first_None; [done|]. intros Ht. by apply Hn.
Qed.

Lemma size_order a : Prio.size a = Z.of_nat (length (order a)).
Proof.
  unfold Prio.size, order, buckets.
  assert (H : forall l acc, foldl (fun total i => total + Z.of_nat (length (queues a !!! i))) acc l
    = acc + Z.of_nat (length (concat ((fun k => queues a !!! k) <$> l)))).
  { induction l as [|x l IH]; intros acc; cbn [foldl fmap list_fmap concat length]; [lia|].
    rewrite IH, length_app. lia. }
  rewrite H. lia.
Qed.
