(* ===== verification/O1Sched.v ===== *)
(** * The O(1) scheduler

    Models [schedulers/o1/o1_scheduler.h] and [.cc]: the task structure, the
    two-array runqueue [O1Rq], and every callback of [O1Scheduler] up to
    [O1Schedule] and [Schedule].

    - A task pointer is the task's gtid; the tasks live in the allocator's map.
    - [cpu_states_] is a map with default-constructed entries.
    - Times and durations are integers, in nanoseconds.
    - What the kernel answers is the environment [Env]: the [n]-th interaction
      reads the answer number [n] (the state counts them), so the theorems hold
      for every sequence of answers.
    - [O1Schedule] spins while the task it picked is still on a CPU; [spin_fuel]
      bounds the spin, and running out of it is a failure of the model.
    - Requests sent to the kernel (pings, transactions, yields) are recorded in
      [trace], newest first. *)

From S2P Require Import Prelude GhostAbi Dispatch PrioArray.

Definition MAX_CPUS : Z := 512.
Definition RTLA_ON_IDLE : Z := Z.shiftl 1 5.
Definition COMMIT_AT_TXN_COMMIT : Z := Z.shiftl 1 1.

(** ** Tasks *)

Inductive O1TaskState := kBlocked | kRunnable | kQueued | kOnCpu.

#[export] Instance O1TaskState_eq_dec : EqDecision O1TaskState.
Proof. solve_decision. Defined.

Record O1Task := mkO1Task {
  o1_seqnum : Z;
  static_priority : Z;
  run_state : O1TaskState;
  cpu : Z;
  preempted : bool;
  prio_boost : bool;
  runtime_at_last_pick : Z;
  remaining_time : Z }.

(** The constructor: member initialisers of [O1Task] and [Task]. *)
Definition O1Task_new (gtid : Z) (sw_info : ghost_sw_info) : O1Task :=
  mkO1Task 0 120 kBlocked (-1) false false 0 0.

Definition blocked (t : O1Task) : bool := bool_decide (run_state t = kBlocked).
Definition queued (t : O1Task) : bool := bool_decide (run_state t = kQueued).
Definition oncpu (t : O1Task) : bool := bool_decide (run_state t = kOnCpu).

(** Field updates. *)
Definition set_o1_seqnum (v : Z) (t : O1Task) : O1Task :=
  mkO1Task v (static_priority t) (run_state t) (cpu t) (preempted t) (prio_boost t)
    (runtime_at_last_pick t) (remaining_time t).
Definition set_static_priority (v : Z) (t : O1Task) : O1Task :=
  mkO1Task (o1_seqnum t) v (run_state t) (cpu t) (preempted t) (prio_boost t)
    (runtime_at_last_pick t) (remaining_time t).
Definition set_run_state (v : O1TaskState) (t : O1Task) : O1Task :=
  mkO1Task (o1_seqnum t) (static_priority t) v (cpu t) (preempted t) (prio_boost t)
    (runtime_at_last_pick t) (remaining_time t).
Definition set_cpu (v : Z) (t : O1Task) : O1Task :=
  mkO1Task (o1_seqnum t) (static_priority t) (run_state t) v (preempted t) (prio_boost t)
    (runtime_at_last_pick t) (remaining_time t).
Definition set_preempted (v : bool) (t : O1Task) : O1Task :=
  mkO1Task (o1_seqnum t) (static_priority t) (run_state t) (cpu t) v (prio_boost t)
    (runtime_at_last_pick t) (remaining_time t).
Definition set_prio_boost (v : bool) (t : O1Task) : O1Task :=
  mkO1Task (o1_seqnum t) (static_priority t) (run_state t) (cpu t) (preempted t) v
    (runtime_at_last_pick t) (remaining_time t).
Definition set_runtime_at_last_pick (v : Z) (t : O1Task) : O1Task :=
  mkO1Task (o1_seqnum t) (static_priority t) (run_state t) (cpu t) (preempted t) (prio_boost t)
    v (remaining_time t).
Definition set_remaining_time (v : Z) (t : O1Task) : O1Task :=
  mkO1Task (o1_seqnum t) (static_priority t) (run_state t) (cpu t) (preempted t) (prio_boost t)
    (runtime_at_last_pick t) v.

#[export] Instance O1Task_type : TaskType O1Task :=
  { new_task := O1Task_new; t_seqnum := o1_seqnum; set_seqnum := set_o1_seqnum }.

(** ** Runqueue, per-CPU and scheduler state *)

Record O1Rq := mkO1Rq { active_ : PrioArray; expired_ : PrioArray }.

Record CpuState := mkCpuState { current : option Z; run_queue : O1Rq; preempt_curr : bool }.

#[export] Instance CpuState_inhabited : Inhabited CpuState :=
  populate (mkCpuState None (mkO1Rq empty_array empty_array) false).

(** Requests to the kernel. *)
Inductive request :=
  | Ping (cpu : Z)
  | Commit (cpu target target_barrier agent_barrier commit_flags : Z)
  | LocalYield (cpu agent_barrier flags : Z).

Record O1State := mkO1State {
  tasks : gmap Z O1Task;
  cpu_states_ : gmap Z CpuState;
  next_ : nat;                   (* the static iterator of [AssignCpu] *)
  reads : nat;                   (* interactions with the environment so far *)
  trace : list request }.

Definition set_tasks (m : gmap Z O1Task) (s : O1State) : O1State :=
  mkO1State m (cpu_states_ s) (next_ s) (reads s) (trace s).
Definition set_cpu_states (m : gmap Z CpuState) (s : O1State) : O1State :=
  mkO1State (tasks s) m (next_ s) (reads s) (trace s).

#[export] Instance O1State_tasks : HasTasks O1State O1Task :=
  { task_map_ := tasks; set_task_map_ := set_tasks; task_map_set _ _ := eq_refl }.

(** The answers of the kernel and the configuration of the enclave. *)
Record Env := mkEnv {
  cpus : list Z;                   (* CPUs of the enclave, in iteration order *)
  Now : nat -> Z;                  (* [absl::Now()] *)
  AssociateTask_ok : nat -> bool;  (* [Channel::AssociateTask] *)
  Commit_ok : nat -> bool;         (* [RunRequest::Commit] *)
  status_on_cpu : nat -> bool;     (* [status_word.on_cpu()] *)
  spin_fuel : nat }.

Module O1.
Section O1.
Context (env : Env).
Notation M := (M O1State).

(** One interaction with the environment. *)
Definition ask {A} (f : nat -> A) : M A := fun s =>
  Some (f (reads s),
        mkO1State (tasks s) (cpu_states_ s) (next_ s) (S (reads s)) (trace s)).

Definition emit (r : request) : M unit :=
  mmod (fun s => mkO1State (tasks s) (cpu_states_ s) (next_ s) (reads s) (r :: trace s)).

(** [cpu_state(cpu)], and updates through the pointer it returns. *)
Definition cpu_state (c : Z) : M CpuState :=
  s <- mget ;; mret (cpu_states_ s !!! c).

Definition write_cpu_state (c : Z) (f : CpuState -> CpuState) : M unit :=
  mmod (fun s => set_cpu_states (<[c := f (cpu_states_ s !!! c)]> (cpu_states_ s)) s).

Definition set_current (o : option Z) (cs : CpuState) : CpuState :=
  mkCpuState o (run_queue cs) (preempt_curr cs).
Definition set_run_queue (rq : O1Rq) (cs : CpuState) : CpuState :=
  mkCpuState (current cs) rq (preempt_curr cs).
Definition set_preempt_curr (b : bool) (cs : CpuState) : CpuState :=
  mkCpuState (current cs) (run_queue cs) b.

(** [cpu_state_of(task)]: the CPU whose state it returns. *)
Definition cpu_state_of (task : Z) : M Z :=
  t <- read_task task ;;
  CHECK (0 <=? cpu t) ;;; CHECK (cpu t <? MAX_CPUS) ;;; mret (cpu t).

(** *** [O1Task] *)

Definition SetRemainingTime (task : Z) : M unit :=
  write_task task (set_remaining_time 10000000).

Definition SetRuntimeAtLastPick (task : Z) : M unit :=
  now <- ask (Now env) ;; write_task task (set_runtime_at_last_pick now).

Definition UpdateRemainingTime (task : Z) (isOff : bool) : M bool :=
  now <- ask (Now env) ;;
  write_task task (fun t =>
    set_remaining_time (remaining_time t - (now - runtime_at_last_pick t)) t) ;;;
  if negb isOff then
    SetRuntimeAtLastPick task ;;;
    t <- read_task task ;;
    if remaining_time t <=? 0 then mret true else mret false
  else mret false.

(** *** [O1Rq], the runqueue of CPU [c] *)

Definition rq_push (c : Z) (to_active : bool) (task : Z) : M unit :=
  cs <- cpu_state c ;;
  t <- read_task task ;;
  let rq := run_queue cs in
  if to_active then
    a <- deref (Prio.push (active_ rq) task (static_priority t) (prio_boost t)) ;;
    write_cpu_state c (set_run_queue (mkO1Rq a (expired_ rq)))
  else
    a <- deref (Prio.push (expired_ rq) task (static_priority t) (prio_boost t)) ;;
    write_cpu_state c (set_run_queue (mkO1Rq (active_ rq) a)).

Definition Enqueue (c task : Z) : M unit :=
  t <- read_task task ;;
  CHECK (0 <=? cpu t) ;;;
  CHECK (bool_decide (run_state t = kRunnable)) ;;;
  write_task task (set_run_state kQueued) ;;;
  if 0 <? remaining_time t then rq_push c true task
  else SetRemainingTime task ;;; rq_push c false task.

Definition EnqueueActive (c task : Z) : M unit :=
  t <- read_task task ;;
  CHECK (0 <=? cpu t) ;;;
  CHECK (bool_decide (run_state t = kRunnable)) ;;;
  write_task task (set_run_state kQueued) ;;;
  rq_push c true task.

Definition EnqueueExpired (c task : Z) : M unit :=
  t <- read_task task ;;
  CHECK (0 <=? cpu t) ;;;
  CHECK (bool_decide (run_state t = kRunnable)) ;;;
  write_task task (set_run_state kQueued) ;;;
  SetRemainingTime task ;;;
  rq_push c false task.

Definition Swap (rq : O1Rq) : O1Rq := mkO1Rq (expired_ rq) (active_ rq).

Definition Dequeue (c : Z) : M (option Z) :=
  cs <- cpu_state c ;;
  let rq := run_queue cs in
  if Prio.empty (active_ rq) && Prio.empty (expired_ rq) then mret None
  else
    let rq := if Prio.empty (active_ rq) then Swap rq else rq in
    r <- deref (Prio.pop (active_ rq)) ;;
    let '(popped, a) := r in
    write_cpu_state c (set_run_queue (mkO1Rq a (expired_ rq))) ;;;
    task <- deref popped ;;
    t <- read_task task ;;
    CHECK (queued t) ;;;
    write_task task (set_run_state kRunnable) ;;;
    mret (Some task).

Definition Erase (c task : Z) : M unit :=
  t <- read_task task ;;
  CHECK (queued t) ;;;
  cs <- cpu_state c ;;
  let rq := run_queue cs in
  r <- deref (Prio.erase (active_ rq) task (static_priority t)) ;;
  let '(found, a) := r in
  if found then
    write_cpu_state c (set_run_queue (mkO1Rq a (expired_ rq))) ;;;
    write_task task (set_run_state kRunnable)
  else
    r <- deref (Prio.erase (expired_ rq) task (static_priority t)) ;;
    let '(found, x) := r in
    if found then
      write_cpu_state c (set_run_queue (mkO1Rq (active_ rq) x)) ;;;
      write_task task (set_run_state kRunnable)
    else CHECK false.

Definition Size (rq : O1Rq) : Z := Prio.size (active_ rq) + Prio.size (expired_ rq).
Definition Empty (rq : O1Rq) : bool := Size rq =? 0.

(** *** [O1Scheduler] *)

(** [enclave()->GetAgent(cpu)->Ping()]: only the enclave's CPUs have agents. *)
Definition PingAgent (c : Z) : M unit :=
  CHECK (bool_decide (c ∈ cpus env)) ;;; emit (Ping c).

Definition AssignCpu : M Z := fun s =>
  let next := if (next_ s =? length (cpus env))%nat then O else next_ s in
  match cpus env !! next with
  | None => None
  | Some c =>
      Some (c, mkO1State (tasks s) (cpu_states_ s) (S next) (reads s) (trace s))
  end.

Definition Migrate (task c : Z) (seqnum : Z) : M unit :=
  t <- read_task task ;;
  CHECK (bool_decide (run_state t = kRunnable)) ;;;
  CHECK (cpu t =? -1) ;;;
  ok <- ask (AssociateTask_ok env) ;;
  CHECK ok ;;;
  write_task task (set_cpu c) ;;;
  Enqueue c task ;;;
  PingAgent c.

Definition TaskNew (task : Z) (msg : Message.ghost_msg) : M unit :=
  payload <- deref (as_task_new (Message.payload msg)) ;;
  SetRemainingTime task ;;;
  write_task task (set_o1_seqnum (Message.seqnum msg)) ;;;
  write_task task (set_run_state kBlocked) ;;;
  write_task task (set_static_priority (120 + tn_nice payload)) ;;;
  if truthy (tn_runnable payload) then
    write_task task (set_run_state kRunnable) ;;;
    c <- AssignCpu ;;
    Migrate task c (Message.seqnum msg)
  else mret tt.

Definition TaskRunnable (task : Z) (msg : Message.ghost_msg) : M unit :=
  payload <- deref (as_task_wakeup (Message.payload msg)) ;;
  t <- read_task task ;;
  CHECK (blocked t) ;;;
  write_task task (set_run_state kRunnable) ;;;
  write_task task (set_prio_boost (negb (truthy (tw_deferrable payload)))) ;;;
  if cpu t <? 0 then
    c <- AssignCpu ;;
    Migrate task c (Message.seqnum msg)
  else
    c <- cpu_state_of task ;;
    Enqueue c task.

Definition TaskOffCpu (task : Z) (is_blocked from_switchto : bool) : M unit :=
  c <- cpu_state_of task ;;
  t <- read_task task ;;
  (if oncpu t then
     expired <- UpdateRemainingTime task true ;;
     when expired (write_cpu_state c (set_preempt_curr true)) ;;;
     cs <- cpu_state c ;;
     when (bool_decide (current cs = Some task)) (write_cpu_state c (set_current None))
   else
     CHECK from_switchto ;;;
     CHECK (bool_decide (run_state t = kBlocked))) ;;;
  write_task task (set_run_state (if is_blocked then kBlocked else kRunnable)).

(** The agent of the CPU a switchto chain ended on is told to reschedule. *)
Definition PingSwitchto (from_switchto c : Z) : M unit :=
  when (truthy from_switchto) (PingAgent c).

Definition TaskDeparted (task : Z) (msg : Message.ghost_msg) : M unit :=
  payload <- deref (as_task_departed (Message.payload msg)) ;;
  t <- read_task task ;;
  (if oncpu t || truthy (tdp_from_switchto payload) then
     TaskOffCpu task false (truthy (tdp_from_switchto payload))
   else if queued t then
     c <- cpu_state_of task ;; Erase c task
   else CHECK (blocked t)) ;;;
  PingSwitchto (tdp_from_switchto payload) (tdp_cpu payload) ;;;
  FreeTask task.

Definition TaskDead (task : Z) (msg : Message.ghost_msg) : M unit :=
  t <- read_task task ;;
  CHECK (blocked t) ;;;
  FreeTask task.

Definition TaskYield (task : Z) (msg : Message.ghost_msg) : M unit :=
  payload <- deref (as_task_yield (Message.payload msg)) ;;
  TaskOffCpu task false (truthy (ty_from_switchto payload)) ;;;
  c <- cpu_state_of task ;;
  Enqueue c task ;;;
  PingSwitchto (ty_from_switchto payload) (ty_cpu payload).

Definition TaskBlocked (task : Z) (msg : Message.ghost_msg) : M unit :=
  payload <- deref (as_task_blocked (Message.payload msg)) ;;
  TaskOffCpu task true (truthy (tb_from_switchto payload)) ;;;
  PingSwitchto (tb_from_switchto payload) (tb_cpu payload).

Definition TaskPreempted (task : Z) (msg : Message.ghost_msg) : M unit :=
  payload <- deref (as_task_preempt (Message.payload msg)) ;;
  TaskOffCpu task false (truthy (tp_from_switchto payload)) ;;;
  write_task task (set_preempted true) ;;;
  write_task task (set_prio_boost true) ;;;
  c <- cpu_state_of task ;;
  Enqueue c task ;;;
  PingSwitchto (tp_from_switchto payload) (tp_cpu payload).

Definition TaskPriorityChanged (task : Z) (msg : Message.ghost_msg) : M unit :=
  payload <- deref (as_task_priority (Message.payload msg)) ;;
  let new_priority := 120 + tpc_nice payload in
  t <- read_task task ;;
  if queued t then
    c <- cpu_state_of task ;;
    Erase c task ;;;
    write_task task (set_static_priority new_priority) ;;;
    Enqueue c task
  else write_task task (set_static_priority new_priority).

Definition TaskSwitchto (task : Z) (msg : Message.ghost_msg) : M unit :=
  TaskOffCpu task true false.

Definition CheckPreemptTick (c : Z) : M unit :=
  cs <- cpu_state c ;;
  match current cs with
  | None => mret tt
  | Some task =>
      expired <- UpdateRemainingTime task false ;;
      when expired (write_cpu_state c (set_preempt_curr true))
  end.

Definition CpuTick (msg : Message.ghost_msg) : M unit :=
  payload <- deref (as_cpu_tick (Message.payload msg)) ;;
  CheckPreemptTick (ct_cpu payload).

Definition TaskOnCpu (task c : Z) : M unit :=
  write_cpu_state c (set_current (Some task)) ;;;
  write_task task (set_run_state kOnCpu) ;;;
  SetRuntimeAtLastPick task ;;;
  write_task task (set_cpu c) ;;;
  write_task task (set_preempted false) ;;;
  write_task task (set_prio_boost false).

(** [while (next->status_word.on_cpu()) Pause();] *)
Fixpoint WaitOffCpu (fuel : nat) : M unit :=
  match fuel with
  | O => CHECK false
  | S fuel' => on <- ask (status_on_cpu env) ;; if on then WaitOffCpu fuel' else mret tt
  end.

(** The [preempt_curr] part of [O1Schedule]. *)
Definition HandlePreemptCurr (c : Z) : M unit :=
  cs <- cpu_state c ;;
  when (preempt_curr cs)
    (write_cpu_state c (set_preempt_curr false) ;;;
     match current cs with
     | None => mret tt
     | Some prev =>
         if negb (Empty (run_queue cs)) then write_cpu_state c (set_current None)
         else SetRemainingTime prev
     end).

(** Pick the task to run: the current one, or the runqueue's next. *)
Definition PickNext (c : Z) (boosted : bool) : M (option Z) :=
  if negb boosted then
    cs <- cpu_state c ;;
    match current cs with
    | Some next => mret (Some next)
    | None => Dequeue c
    end
  else mret None.

(** The transaction for [next], with its success and failure paths. *)
Definition CommitNext (c next agent_barrier : Z) : M unit :=
  WaitOffCpu (spin_fuel env) ;;;
  t <- read_task next ;;
  emit (Commit c next (o1_seqnum t) agent_barrier COMMIT_AT_TXN_COMMIT) ;;;
  ok <- ask (Commit_ok env) ;;
  if ok then TaskOnCpu next c
  else
    cs <- cpu_state c ;;
    when (bool_decide (current cs = Some next)) (TaskOffCpu next false false) ;;;
    write_task next (set_prio_boost true) ;;;
    Enqueue c next.

Definition O1Schedule (c agent_barrier : Z) (boosted : bool) : M unit :=
  HandlePreemptCurr c ;;;
  next <- PickNext c boosted ;;
  match next with
  | Some next => CommitNext c next agent_barrier
  | None =>
      cs <- cpu_state c ;;
      let idle_kick :=
        boosted && (bool_decide (is_Some (current cs)) || negb (Empty (run_queue cs))) in
      emit (LocalYield c agent_barrier (if idle_kick then RTLA_ON_IDLE else 0))
  end.

#[export] Instance O1Handlers : DispatchHandlers O1State := {
  Dispatch.TaskNew := TaskNew;
  Dispatch.TaskRunnable := TaskRunnable;
  Dispatch.TaskDead := TaskDead;
  Dispatch.TaskDeparted := TaskDeparted;
  Dispatch.TaskYield := TaskYield;
  Dispatch.TaskBlocked := TaskBlocked;
  Dispatch.TaskPreempted := TaskPreempted;
  Dispatch.TaskSwitchto := TaskSwitchto;
  Dispatch.TaskAffinityChanged _ _ := not_overridden;
  Dispatch.TaskPriorityChanged := TaskPriorityChanged;
  Dispatch.TaskOnCpu_msg _ _ := not_overridden;
  Dispatch.CpuTick := CpuTick;
  Dispatch.CpuNotIdle _ := not_overridden;
  Dispatch.CpuTimerExpired _ := not_overridden;
  Dispatch.CpuAvailable _ := not_overridden;
  Dispatch.CpuBusy _ := not_overridden;
  Dispatch.AgentBlocked _ := not_overridden;
  Dispatch.AgentWakeup _ := not_overridden;
}.

(** [Schedule]: drain the CPU's channel, then schedule.  [msgs] are the
    messages in the channel, [agent_barrier] and [boosted] the agent's status
    word. *)
Definition Schedule (c agent_barrier : Z) (boosted : bool) (msgs : list Message.ghost_msg) :
    M unit :=
  DispatchAll msgs ;;; O1Schedule c agent_barrier boosted.

(** [O1Scheduler::Empty(cpu)], the agent loop's exit test. *)
Definition sched_Empty (c : Z) : M bool :=
  cs <- cpu_state c ;; mret (Empty (run_queue cs)).

Definition CountAllTasks : M Z := ForEachTask (fun _ _ n => (true, n + 1)) 0.

(** The scheduler as constructed: no task, every CPU state default. *)
Definition initial : O1State := mkO1State ∅ ∅ (length (cpus env)) 0 [].
End O1.
End O1.
