(* ===== verification/O1Inv.v ===== *)
(** * The runqueue invariant of the O(1) scheduler

    The invariant that links task states, runqueues and current tasks, and the
    lemmas that every runqueue operation preserves it.  While a handler works on
    a task, that task is "in hand": [inv env (Some x) s] is the invariant for all
    tasks but [x], which is on no runqueue and current nowhere. *)

From S2P Require Import Prelude GhostAbi Dispatch PrioArray O1Sched.
Import O1.

Definition rq (s : O1State) (c : Z) : O1Rq := run_queue (cpu_states_ s !!! c).
Definition cur (s : O1State) (c : Z) : option Z := current (cpu_states_ s !!! c).

Definition in_rq (r : O1Rq) (t p : Z) : Prop :=
  in_bucket (active_ r) t p \/ in_bucket (expired_ r) t p.

Record rq_wf (r : O1Rq) : Prop := {
  rq_active : prio_wf (active_ r);
  rq_expired : prio_wf (expired_ r);
  rq_nodup : NoDup (order (active_ r) ++ order (expired_ r));
}.

Definition prio_ok (p : Z) : Prop := 0 <= p - kBasePrio < kNumPrio.

(** A task between handlers. *)
Definition task_ok (env : Env) (t : O1Task) : Prop :=
  prio_ok (static_priority t) /\ run_state t <> kRunnable /\
  ((run_state t = kBlocked /\ cpu t = -1) \/ cpu t ∈ cpus env) /\
  (run_state t = kQueued -> 0 < remaining_time t).

Record inv (env : Env) (h : option Z) (s : O1State) : Prop := {
  inv_rq : forall c, rq_wf (rq s c);
  inv_in : forall c t p, in_rq (rq s c) t p ->
    h <> Some t /\ exists tk, tasks s !! t = Some tk /\ run_state tk = kQueued /\
                              cpu tk = c /\ static_priority tk = p;
  inv_queued : forall t tk, h <> Some t -> tasks s !! t = Some tk -> run_state tk = kQueued ->
    in_rq (rq s (cpu tk)) t (static_priority tk);
  inv_cur : forall c t, cur s c = Some t ->
    h <> Some t /\ exists tk, tasks s !! t = Some tk /\ run_state tk = kOnCpu /\ cpu tk = c;
  inv_task : forall t tk, h <> Some t -> tasks s !! t = Some tk -> task_ok env tk;
  inv_next : (next_ s <= length (cpus env))%nat;
}.

(** The enclave has CPUs, and their ids index [cpu_states_]. *)
Record env_ok (env : Env) : Prop := {
  env_cpus_ne : cpus env <> [];
  env_cpus_range : forall c, c ∈ cpus env -> 0 <= c < MAX_CPUS;
  env_assoc : forall n, AssociateTask_ok env n = true;
  env_spin : forall n, exists k, (k < spin_fuel env)%nat /\ status_on_cpu env (n + k) = false;
}.

(** ** State updates *)

Definition upd_task (x : Z) (tk : O1Task) (s : O1State) : O1State :=
  set_tasks (<[x := tk]> (tasks s)) s.
Definition del_task (x : Z) (s : O1State) : O1State := set_tasks (delete x (tasks s)) s.
Definition upd_cs (c : Z) (f : CpuState -> CpuState) (s : O1State) : O1State :=
  set_cpu_states (<[c := f (cpu_states_ s !!! c)]> (cpu_states_ s)) s.

Lemma rq_upd_cs c f s c' :
  rq (upd_cs c f s) c' = if decide (c = c') then run_queue (f (cpu_states_ s !!! c)) else rq s c'.
Proof. unfold rq, upd_cs. cbn. rewrite lookup_total_insert. by case_decide. Qed.

Lemma cur_upd_cs c f s c' :
  cur (upd_cs c f s) c' = if decide (c = c') then current (f (cpu_states_ s !!! c)) else cur s c'.
Proof. unfold cur, upd_cs. cbn. rewrite lookup_total_insert. by case_decide. Qed.

(** Fields the invariant does not look at. *)
Record same_sched (s s' : O1State) : Prop := {
  same_tasks : tasks s' = tasks s;
  same_cpus : cpu_states_ s' = cpu_states_ s;
  same_next : next_ s' = next_ s;
}.

Lemma inv_same env h s s' : same_sched s s' -> inv env h s -> inv env h s'.
Proof.
  intros [Ht Hc Hn] [? ? ? ? ? ?]. split; unfold rq, cur in *; rewrite ?Ht, ?Hc, ?Hn; done.
Qed.

(** ** The task in hand *)

Lemma inv_hole_write env x tk s : inv env (Some x) s -> inv env (Some x) (upd_task x tk s).
Proof.
  intros [Hrq Hin Hq Hcur Htk Hn]. split; try done.
  - intros c t p Ht. destruct (Hin c t p Ht) as (Hne & tk' & Htk' & ?).
    split; [done|]. exists tk'. cbn. rewrite lookup_insert_ne by congruence. done.
  - intros t tk' Hne. cbn. rewrite lookup_insert_ne by congruence. by apply Hq.
  - intros c t Ht. destruct (Hcur c t Ht) as (Hne & tk' & Htk' & ?).
    split; [done|]. exists tk'. cbn. rewrite lookup_insert_ne by congruence. done.
  - intros t tk' Hne. cbn. rewrite lookup_insert_ne by congruence. by apply Htk.
Qed.

Lemma inv_hole_delete env x s : inv env (Some x) s -> inv env None (del_task x s).
Proof.
  intros [Hrq Hin Hq Hcur Htk Hn]. split; try done.
  - intros c t p Ht. destruct (Hin c t p Ht) as (Hne & tk' & Htk' & ?).
    split; [done|]. exists tk'. cbn. rewrite lookup_delete_ne by congruence. done.
  - intros t tk' _. cbn. rewrite lookup_delete_Some. intros [Hne ?]. apply Hq; congruence.
  - intros c t Ht. destruct (Hcur c t Ht) as (Hne & tk' & Htk' & ?).
    split; [done|]. exists tk'. cbn. rewrite lookup_delete_ne by congruence. done.
  - intros t tk' _. cbn. rewrite lookup_delete_Some. intros [Hne ?]. eapply Htk; [|done]. congruence.
Qed.

(** A task that does not exist, or is blocked, can be taken in hand. *)
Lemma inv_open env x s :
  inv env None s ->
  (forall tk, tasks s !! x = Some tk -> run_state tk = kBlocked) -> inv env (Some x) s.
Proof.
  intros [Hrq Hin Hq Hcur Htk Hn] Hx. split; try done.
  - intros c t p Ht. destruct (Hin c t p Ht) as (_ & tk & Htk' & Hst & ?). split; [|eauto].
    intros [= ->]. rewrite (Hx tk) in Hst by done. done.
  - intros t tk _. by apply Hq.
  - intros c t Ht. destruct (Hcur c t Ht) as (_ & tk & Htk' & Hst & ?). split; [|eauto].
    intros [= ->]. rewrite (Hx tk) in Hst by done. done.
  - intros t tk _. by apply Htk.
Qed.

(** A task in hand that has become blocked can be put down. *)
Lemma inv_close_blocked env x tk s :
  inv env (Some x) s -> tasks s !! x = Some tk -> run_state tk = kBlocked -> task_ok env tk ->
  inv env None s.
Proof.
  intros [Hrq Hin Hq Hcur Htk Hn] Hx Hst Hok. split; try done.
  - intros c t p Ht. destruct (Hin c t p Ht) as (_ & ?). done.
  - intros t tk' _ Ht Hst'. apply Hq; [|done..]. intros [= ->]. simplify_eq. congruence.
  - intros c t Ht. destruct (Hcur c t Ht) as (_ & ?). done.
  - intros t tk' _ Ht. destruct (decide (t = x)) as [->|]; [by simplify_eq|].
    apply (Htk t); [congruence|done].
Qed.

(** A write that keeps a task's state, CPU and (if queued) priority. *)
Lemma inv_update env x tk tk' s :
  inv env None s -> tasks s !! x = Some tk ->
  run_state tk' = run_state tk -> cpu tk' = cpu tk ->
  (run_state tk = kQueued -> static_priority tk' = static_priority tk) ->
  task_ok env tk' -> inv env None (upd_task x tk' s).
Proof.
  intros [Hrq Hin Hq Hcur Htk Hn] Hx Hst Hcpu Hp Hok. split; try done.
  - intros c t p Ht. split; [done|]. destruct (Hin c t p Ht) as (_ & tk1 & Htk1 & ? & ? & ?).
    cbn. destruct (decide (t = x)) as [->|].
    + rewrite lookup_insert_eq. exists tk'. simplify_eq. rewrite Hst, Hp by done. done.
    + rewrite lookup_insert_ne by done. by exists tk1.
  - intros t tk1 _. cbn. rewrite lookup_insert. case_decide as He.
    + intros [= <-] Hq'. subst t. rewrite Hst in Hq'. rewrite Hcpu, Hp by done. by apply Hq.
    + by apply Hq.
  - intros c t Ht. split; [done|]. destruct (Hcur c t Ht) as (_ & tk1 & Htk1 & ? & ?).
    cbn. destruct (decide (t = x)) as [->|].
    + rewrite lookup_insert_eq. exists tk'. simplify_eq. by rewrite Hst.
    + rewrite lookup_insert_ne by done. by exists tk1.
  - intros t tk1 _. cbn. rewrite lookup_insert. case_decide; [by intros [= <-]|]. by apply Htk.
Qed.

(** Writes to a CPU's [current] and [preempt_curr]. *)
Lemma inv_clear_current env h c s : inv env h s -> inv env h (upd_cs c (set_current None) s).
Proof.
  intros [Hrq Hin Hq Hcur Htk Hn].
  assert (Hr : forall c', rq (upd_cs c (set_current None) s) c' = rq s c').
  { intros c'. rewrite rq_upd_cs. by case_decide; subst. }
  split; try done.
  - intros c'. by rewrite Hr.
  - intros c' t p. rewrite Hr. apply Hin.
  - intros t tk. rewrite Hr. apply Hq.
  - intros c' t. rewrite cur_upd_cs. case_decide; [done|]. apply Hcur.
Qed.

Lemma inv_preempt_curr env h c b s : inv env h s -> inv env h (upd_cs c (set_preempt_curr b) s).
Proof.
  intros [Hrq Hin Hq Hcur Htk Hn].
  assert (Hr : forall c', rq (upd_cs c (set_preempt_curr b) s) c' = rq s c').
  { intros c'. rewrite rq_upd_cs. by case_decide; subst. }
  split; try done.
  - intros c'. by rewrite Hr.
  - intros c' t p. rewrite Hr. apply Hin.
  - intros t tk. rewrite Hr. apply Hq.
  - intros c' t. rewrite cur_upd_cs. case_decide; [|apply Hcur]. subst. apply Hcur.
Qed.

(** ** Array membership under the operations *)

Definition push_arr (a : PrioArray) (t p : Z) (front : bool) : PrioArray :=
  let q := queues a !!! (p - kBasePrio) in
  mkPrioArray (Z.lor (bitmap a) (Z.shiftl 1 (p - kBasePrio)))
    (<[p - kBasePrio := if front then t :: q else q ++ [t]]> (queues a)).

Lemma push_run a t p front : prio_ok p -> Prio.push a t p front = Some (push_arr a t p front).
Proof.
  unfold prio_ok. intros Hp. unfold Prio.push.
  by rewrite (proj2 (Z.leb_le _ _)), (proj2 (Z.ltb_lt _ _)) by lia.
Qed.

Lemma push_wf a t p front : prio_wf a -> prio_ok p -> prio_wf (push_arr a t p front).
Proof. intros Hwf Hp. by destruct (push_spec a t p front Hwf Hp) as (_ & ? & _). Qed.

Lemma in_bucket_push a t p front t' p' :
  prio_ok p ->
  in_bucket (push_arr a t p front) t' p' <-> (t' = t /\ p' = p) \/ in_bucket a t' p'.
Proof.
  unfold prio_ok, in_bucket, push_arr. cbn. intros Hp. rewrite lookup_total_insert.
  case_decide as He.
  - assert (p' = p) by lia. subst. destruct front; set_solver.
  - assert (p' <> p) by (intros ->; done). naive_solver.
Qed.

Lemma order_push a t p front : prio_ok p -> order (push_arr a t p front) ≡ₚ t :: order a.
Proof.
  unfold prio_ok, push_arr. intros Hp. rewrite order_insert, (order_at a _ Hp) by done.
  destruct front; solve_Permutation.
Qed.

(** Removing an occurrence from a bucket. *)
Lemma in_bucket_cut a b k q1 t q2 t' p' :
  0 <= k < kNumPrio -> queues a !!! k = q1 ++ t :: q2 -> NoDup (order a) ->
  in_bucket (mkPrioArray b (<[k := q1 ++ q2]> (queues a))) t' p' <->
  in_bucket a t' p' /\ t' <> t.
Proof.
  intros Hk Hq Hnd. rewrite (order_at a k Hk), Hq in Hnd.
  unfold in_bucket at 1. cbn. rewrite lookup_total_insert.
  assert (Hother : forall j, 0 <= j < kNumPrio -> j <> k -> t ∉ queues a !!! j).
  { intros j Hj Hjk Hin.
    assert (Hdup : t ∈ buckets a 0 k ++ buckets a (k + 1) (kNumPrio - k - 1)).
    { rewrite elem_of_app. unfold buckets. rewrite !list_elem_of_In, !in_concat.
      destruct (decide (j < k)); [left|right]; exists (queues a !!! j); split;
        try (by apply list_elem_of_In); apply list_elem_of_In, list_elem_of_fmap;
        exists j; (split; [done|]); apply elem_of_seqZ; lia. }
    rewrite <- app_assoc in Hnd. cbn in Hnd. rewrite app_assoc in Hnd.
    apply NoDup_middle in Hnd as (Hn1 & Hn2 & _). set_solver. }
  assert (Hsame : t ∉ q1 ++ q2).
  { rewrite NoDup_app in Hnd. destruct Hnd as (_ & _ & Hnd). apply NoDup_app in Hnd as (Hnd & _).
    apply NoDup_middle in Hnd. set_solver. }
  unfold in_bucket. case_decide as He.
  - subst k. rewrite Hq. set_solver.
  - split; [|naive_solver]. intros [Hr Ht]. split; [done|]. intros ->. by eapply (Hother (p' - kBasePrio)).
Qed.

Lemma order_cut a b k q1 t q2 :
  0 <= k < kNumPrio -> queues a !!! k = q1 ++ t :: q2 ->
  order a ≡ₚ t :: order (mkPrioArray b (<[k := q1 ++ q2]> (queues a))).
Proof.
  intros Hk Hq. rewrite order_insert, (order_at a k Hk), Hq by done.
  solve_Permutation.
Qed.

(** ** Exact effects of the runqueue operations *)

Lemma wp_exact {St A} (m : M St A) r s1 s :
  wp m (fun a s' => a = r /\ s' = s1) s -> m s = Some (r, s1).
Proof. intros H. apply wp_run in H as (a & s' & ? & -> & ->). done. Qed.

(** One symbolic step through the scheduler's primitives; the tasks involved are
    found in the context. *)
Lemma lookup_upd x tk s y :
  tasks (upd_task x tk s) !! y = if decide (x = y) then Some tk else tasks s !! y.
Proof. cbn. apply lookup_insert. Qed.

Lemma upd_upd_task x tk tk' s : upd_task x tk' (upd_task x tk s) = upd_task x tk' s.
Proof. unfold upd_task. destruct s. cbn. unfold set_tasks. cbn. by rewrite insert_insert_eq. Qed.

Lemma upd_cs_task c f x tk s : upd_cs c f (upd_task x tk s) = upd_task x tk (upd_cs c f s).
Proof. done. Qed.

Lemma wp_read x tk (Q : O1Task -> O1State -> Prop) s :
  tasks s !! x = Some tk -> Q tk s -> wp (read_task x) Q s.
Proof. intros Hx HQ. by apply (wp_read_task (St := O1State) x tk). Qed.

Lemma wp_write x f tk (Q : unit -> O1State -> Prop) s :
  tasks s !! x = Some tk -> Q tt (upd_task x (f tk) s) -> wp (write_task x f) Q s.
Proof. intros Hx HQ. by apply (wp_write_task (St := O1State) x f tk). Qed.

Lemma wp_cpu_state c (Q : CpuState -> O1State -> Prop) s :
  Q (cpu_states_ s !!! c) s -> wp (cpu_state c) Q s.
Proof. done. Qed.

Lemma wp_write_cs c f (Q : unit -> O1State -> Prop) s :
  Q tt (upd_cs c f s) -> wp (write_cpu_state c f) Q s.
Proof. done. Qed.

Lemma bool_decide_eq_refl {A} `{EqDecision A} (x y : A) : x = y -> bool_decide (x = y) = true.
Proof. intros ->. by apply bool_decide_eq_true. Qed.

(** Solve a lookup of the task being updated. *)
Ltac task_lookup :=
  first [ eassumption | rewrite lookup_upd, decide_True by done; reflexivity ].

Ltac o1_step :=
  lazymatch goal with
  | |- wp (mbind _ _) _ _ => apply wp_bind
  | |- wp (mret _) _ _ => apply wp_ret
  | |- wp (read_task _) _ _ => eapply wp_read; [task_lookup|]
  | |- wp (write_task _ _) _ _ => eapply wp_write; [task_lookup|]
  | |- wp (cpu_state _) _ _ => apply wp_cpu_state
  | |- wp (write_cpu_state _ _) _ _ => apply wp_write_cs
  | |- wp (CHECK _) _ _ =>
      apply wp_check;
      [first [by apply Z.leb_le | by apply Z.ltb_lt | by apply Z.eqb_eq
             | by apply bool_decide_eq_refl | done]|]
  end; cbn beta iota delta [negb].
Ltac o1_steps := cbn beta iota delta [negb]; repeat o1_step.

Definition queued_task (tk : O1Task) : O1Task :=
  set_run_state kQueued (if 0 <? remaining_time tk then tk else set_remaining_time 10000000 tk).

Definition enq_rq (r : O1Rq) (x : Z) (tk : O1Task) : O1Rq :=
  if 0 <? remaining_time tk
  then mkO1Rq (push_arr (active_ r) x (static_priority tk) (prio_boost tk)) (expired_ r)
  else mkO1Rq (active_ r) (push_arr (expired_ r) x (static_priority tk) (prio_boost tk)).

Definition enq (c x : Z) (tk : O1Task) (s : O1State) : O1State :=
  upd_cs c (set_run_queue (enq_rq (rq s c) x tk)) (upd_task x (queued_task tk) s).

Lemma wp_Enqueue c x tk (Q : unit -> O1State -> Prop) s :
  tasks s !! x = Some tk -> 0 <= cpu tk -> run_state tk = kRunnable ->
  prio_ok (static_priority tk) -> Q tt (enq c x tk s) -> wp (Enqueue c x) Q s.
Proof.
  intros Hx Hcpu Hst Hp HQ. unfold Enqueue. o1_steps.
  unfold enq, enq_rq, queued_task in HQ. destruct (0 <? remaining_time tk).
  - unfold rq_push. o1_steps. eapply wp_deref; [by apply push_run|]. o1_steps. exact HQ.
  - unfold SetRemainingTime, rq_push. o1_steps. eapply wp_deref; [by apply push_run|]. o1_steps.
    rewrite upd_upd_task. exact HQ.
Qed.

Lemma order_enq r x tk :
  prio_ok (static_priority tk) ->
  order (active_ (enq_rq r x tk)) ++ order (expired_ (enq_rq r x tk)) ≡ₚ
  x :: order (active_ r) ++ order (expired_ r).
Proof.
  intros Hp. unfold enq_rq. destruct (0 <? remaining_time tk); cbn [active_ expired_];
    rewrite order_push by done; [done|]. by rewrite <- Permutation_middle.
Qed.

Lemma in_rq_enq r x tk t p :
  prio_ok (static_priority tk) ->
  in_rq (enq_rq r x tk) t p <-> (t = x /\ p = static_priority tk) \/ in_rq r t p.
Proof.
  intros Hp. unfold enq_rq, in_rq. destruct (0 <? remaining_time tk); cbn [active_ expired_];
    rewrite in_bucket_push by done; naive_solver.
Qed.

Lemma elem_of_orders r t :
  t ∈ order (active_ r) ++ order (expired_ r) <-> exists p, in_rq r t p.
Proof. rewrite elem_of_app, !elem_of_order. unfold in_rq. naive_solver. Qed.

Lemma rq_wf_enq r x tk :
  rq_wf r -> prio_ok (static_priority tk) -> (forall p, ~ in_rq r x p) -> rq_wf (enq_rq r x tk).
Proof.
  intros [Ha He Hnd] Hp Hx. split.
  - unfold enq_rq. destruct (0 <? remaining_time tk); cbn [active_ expired_]; [by apply push_wf|done].
  - unfold enq_rq. destruct (0 <? remaining_time tk); cbn [active_ expired_]; [done|by apply push_wf].
  - rewrite order_enq by done. apply NoDup_cons. split; [|done].
    rewrite elem_of_orders. naive_solver.
Qed.

(** Enqueueing the task in hand restores the invariant. *)
Lemma inv_enq env c x tk s :
  inv env (Some x) s -> prio_ok (static_priority tk) -> cpu tk = c -> c ∈ cpus env ->
  inv env None (enq c x tk s).
Proof.
  intros [Hrq Hin Hq Hcur Htk Hn] Hp Hc Hcpus.
  assert (Hnot : forall c p, ~ in_rq (rq s c) x p) by (intros c' p Hi; by destruct (Hin c' x p Hi)).
  assert (Hr : forall c', rq (enq c x tk s) c' =
    if decide (c = c') then enq_rq (rq s c) x tk else rq s c').
  { intros c'. unfold enq. rewrite rq_upd_cs. by case_decide. }
  assert (Hqt : run_state (queued_task tk) = kQueued /\ cpu (queued_task tk) = c /\
    static_priority (queued_task tk) = static_priority tk /\ 0 < remaining_time (queued_task tk)).
  { unfold queued_task. destruct (Z.ltb_spec 0 (remaining_time tk)); cbn; split_and!; done. }
  destruct Hqt as (Hq1 & Hq2 & Hq3 & Hq4).
  split.
  - intros c'. rewrite Hr. case_decide; [|done]. apply rq_wf_enq; [apply Hrq|done|apply Hnot].
  - intros c' t p. rewrite Hr. intros Hi. split; [done|]. unfold enq, upd_cs. cbn [tasks set_cpu_states].
    rewrite lookup_upd. destruct (decide (x = t)) as [<-|He].
    + exists (queued_task tk). case_decide as Hd; [|by apply Hnot in Hi].
      rewrite in_rq_enq in Hi by done. destruct Hi as [[_ ->]|Hi]; [|by apply Hnot in Hi].
      by rewrite Hq2.
    + assert (Hi' : in_rq (rq s c') t p).
      { case_decide; [|done]. subst c'. rewrite in_rq_enq in Hi by done. naive_solver. }
      by destruct (Hin c' t p Hi').
  - intros t tk' _ Ht Hst. rewrite Hr. revert Ht. unfold enq, upd_cs.
    cbn [tasks set_cpu_states]. rewrite lookup_upd.
    destruct (decide (x = t)) as [<-|Hne].
    + intros [= <-]. rewrite Hq2, Hq3, decide_True by done. apply in_rq_enq; [done|]. auto.
    + intros Ht. assert (Hi : in_rq (rq s (cpu tk')) t (static_priority tk')).
      { apply Hq; congruence. }
      case_decide as Hd; [|done]. apply in_rq_enq; [done|]. right. by rewrite Hd.
  - intros c' t. unfold enq. rewrite cur_upd_cs. intros Ht. split; [done|].
    assert (Ht' : cur s c' = Some t) by (by case_decide; subst).
    destruct (Hcur c' t Ht') as (Hne & tk' & ? & ?). exists tk'. split; [|done].
    unfold upd_cs. cbn [tasks set_cpu_states]. rewrite lookup_upd, decide_False by congruence. done.
  - intros t tk' _. unfold enq, upd_cs. cbn [tasks set_cpu_states]. rewrite lookup_upd.
    case_decide as He; [|apply Htk; congruence]. intros [= <-]. unfold task_ok.
    rewrite Hq1, Hq2, Hq3. split_and!; [done|done|by right|done].
  - done.
Qed.

(** ** Removal from a runqueue *)

(** [r'] is [r] without [x]. *)
Record rq_cut (r : O1Rq) (x : Z) (r' : O1Rq) : Prop := {
  cut_wf : rq_wf r';
  cut_in : forall t p, in_rq r' t p <-> in_rq r t p /\ t <> x;
}.

Lemma arr_cut a a' k q1 x q2 :
  prio_wf a' -> 0 <= k < kNumPrio -> queues a !!! k = q1 ++ x :: q2 -> NoDup (order a) ->
  queues a' = <[k := q1 ++ q2]> (queues a) ->
  order a ≡ₚ x :: order a' /\ forall t p, in_bucket a' t p <-> in_bucket a t p /\ t <> x.
Proof.
  intros Hwf Hk Hq Hnd Hq'. destruct a' as [b qs]. cbn in Hq'. subst qs. split.
  - by apply order_cut.
  - intros t p. by apply in_bucket_cut.
Qed.

Lemma not_in_bucket_of_order a x p : x ∉ order a -> ~ in_bucket a x p.
Proof. intros Hn Hi. apply Hn. apply elem_of_order. eauto. Qed.

Lemma cut_active r x a' :
  rq_wf r -> prio_wf a' -> order (active_ r) ≡ₚ x :: order a' ->
  (forall t p, in_bucket a' t p <-> in_bucket (active_ r) t p /\ t <> x) ->
  rq_cut r x (mkO1Rq a' (expired_ r)).
Proof.
  intros [Ha He Hnd] Ha' Ho Hin. rewrite Ho in Hnd. cbn in Hnd. apply NoDup_cons in Hnd as [Hx Hnd].
  split; [by split|]. intros t p. unfold in_rq. cbn [active_ expired_]. rewrite Hin.
  assert (~ in_bucket (expired_ r) x p) by (apply not_in_bucket_of_order; set_solver).
  naive_solver.
Qed.

Lemma cut_expired r x a' :
  rq_wf r -> prio_wf a' -> order (expired_ r) ≡ₚ x :: order a' ->
  (forall t p, in_bucket a' t p <-> in_bucket (expired_ r) t p /\ t <> x) ->
  rq_cut r x (mkO1Rq (active_ r) a').
Proof.
  intros [Ha He Hnd] Ha' Ho Hin. rewrite Ho, <- Permutation_middle in Hnd.
  apply NoDup_cons in Hnd as [Hx Hnd].
  split; [by split|]. intros t p. unfold in_rq. cbn [active_ expired_]. rewrite Hin.
  assert (~ in_bucket (active_ r) x p) by (apply not_in_bucket_of_order; set_solver).
  naive_solver.
Qed.

(** Taking a queued task off its runqueue, into the hand. *)
Lemma inv_cut env c x r' tk' s :
  inv env None s -> (exists p, in_rq (rq s c) x p) -> rq_cut (rq s c) x r' ->
  inv env (Some x) (upd_task x tk' (upd_cs c (set_run_queue r') s)).
Proof.
  intros [Hrq Hin Hq Hcur Htk Hn] (p & Hx) [Hwf Hcut]. apply inv_hole_write.
  destruct (Hin c x p Hx) as (_ & tk & Hxt & Hst & Hc & _).
  assert (Hr : forall c', rq (upd_cs c (set_run_queue r') s) c' =
    if decide (c = c') then r' else rq s c').
  { intros c'. rewrite rq_upd_cs. by case_decide. }
  assert (Hin' : forall c' t q, in_rq (rq (upd_cs c (set_run_queue r') s) c') t q ->
    in_rq (rq s c') t q /\ t <> x).
  { intros c' t q. rewrite Hr. case_decide as Hd; [subst c'; by rewrite Hcut|]. intros Hi.
    split; [done|]. intros ->. destruct (Hin _ _ _ Hi) as (_ & tk2 & Ht2 & _ & Hc2 & _).
    congruence. }
  split; try done.
  - intros c'. rewrite Hr. by case_decide.
  - intros c' t q Hi. apply Hin' in Hi as [Hi Hne]. split; [congruence|].
    by destruct (Hin c' t q Hi) as [_ ?].
  - intros t tk2 Hne Ht Hst2. rewrite Hr. pose proof (Hq t tk2 (ltac:(done)) Ht Hst2) as Hi.
    case_decide as Hd; [|done]. apply Hcut. rewrite Hd. split; [done|congruence].
  - intros c' t. rewrite cur_upd_cs. intros Ht.
    assert (Ht' : cur s c' = Some t) by (by case_decide; subst).
    destruct (Hcur c' t Ht') as (_ & tk2 & Ht2 & Hst2 & ?). split; [|by exists tk2].
    intros [= ->]. simplify_eq. congruence.
  - intros t tk2 _. by apply Htk.
Qed.

Lemma wp_Erase env x tk (Q : unit -> O1State -> Prop) s :
  inv env None s -> tasks s !! x = Some tk -> run_state tk = kQueued ->
  (forall r', rq_cut (rq s (cpu tk)) x r' ->
    Q tt (upd_task x (set_run_state kRunnable tk) (upd_cs (cpu tk) (set_run_queue r') s))) ->
  wp (Erase (cpu tk) x) Q s.
Proof.
  intros Hinv Hx Hst HQ.
  pose proof (inv_queued _ _ _ Hinv x tk ltac:(done) Hx Hst) as Hi.
  pose proof (inv_rq _ _ _ Hinv (cpu tk)) as Hwf. pose proof Hwf as [Ha He Hnd].
  apply NoDup_app in Hnd as (Hnda & Hdis & Hnde).
  unfold Erase. o1_steps. fold (rq s (cpu tk)).
  destruct (decide (x ∈ order (active_ (rq s (cpu tk))))) as [Hact|Hact].
  - assert (Hb : in_bucket (active_ (rq s (cpu tk))) x (static_priority tk)).
    { destruct Hi as [?|Hi]; [done|]. exfalso. apply (Hdis x Hact). apply elem_of_order. eauto. }
    destruct (erase_in _ _ _ Ha Hb) as (q1 & q2 & a' & Her & Hwf' & Hq1 & Hq2).
    eapply wp_deref; [exact Her|]. o1_steps. apply (HQ (mkO1Rq a' (expired_ (rq s (cpu tk))))).
    destruct (arr_cut _ a' _ q1 x q2 Hwf' (proj1 Hb) Hq1 Hnda Hq2) as [Ho Hcut].
    by apply cut_active.
  - assert (Hb : in_bucket (expired_ (rq s (cpu tk))) x (static_priority tk)).
    { destruct Hi as [Hi|?]; [|done]. exfalso. apply Hact. apply elem_of_order. eauto. }
    destruct (erase_in _ _ _ He Hb) as (q1 & q2 & a' & Her & Hwf' & Hq1 & Hq2).
    eapply wp_deref; [apply erase_not_in; [apply Hb|by apply not_in_bucket_of_order]|].
    o1_steps. eapply wp_deref; [exact Her|]. o1_steps. apply (HQ (mkO1Rq (active_ (rq s (cpu tk))) a')).
    destruct (arr_cut _ a' _ q1 x q2 Hwf' (proj1 Hb) Hq1 Hnde Hq2) as [Ho Hcut].
    by apply cut_expired.
Qed.

(** What [Dequeue] picks: the head of the active array's dispatch order, after
    swapping the arrays when the active one is empty. *)
Definition base_rq (r : O1Rq) : O1Rq := if Prio.empty (active_ r) then Swap r else r.

Definition rq_order (r : O1Rq) : list Z :=
  order (active_ (base_rq r)) ++ order (expired_ (base_rq r)).

Record picked (r : O1Rq) (x : Z) (r' : O1Rq) : Prop := {
  pick_cut : rq_cut r x r';
  pick_active : order (active_ (base_rq r)) = x :: order (active_ r');
  pick_expired : expired_ r' = expired_ (base_rq r);
  pick_prio : exists p, in_rq r x p /\ forall t q, in_bucket (active_ r') t q -> p <= q;
}.

Lemma base_rq_wf r : rq_wf r -> rq_wf (base_rq r).
Proof.
  intros [? ? Hnd]. unfold base_rq, Swap. destruct (Prio.empty _); split; cbn; try done.
  by rewrite Permutation_app_comm.
Qed.

Lemma in_rq_base r t p : in_rq (base_rq r) t p <-> in_rq r t p.
Proof. unfold base_rq, Swap, in_rq. destruct (Prio.empty _); cbn; naive_solver. Qed.

Lemma base_rq_nonempty r :
  Prio.empty (active_ r) && Prio.empty (expired_ r) = false ->
  Prio.empty (active_ (base_rq r)) = false.
Proof. unfold base_rq. destruct (Prio.empty (active_ r)) eqn:E; cbn; done. Qed.

Lemma wp_Dequeue env c (Q : option Z -> O1State -> Prop) s :
  inv env None s ->
  (Prio.empty (active_ (rq s c)) = true -> Prio.empty (expired_ (rq s c)) = true -> Q None s) ->
  (forall x tk r', tasks s !! x = Some tk -> run_state tk = kQueued -> cpu tk = c ->
    picked (rq s c) x r' ->
    Q (Some x) (upd_task x (set_run_state kRunnable tk) (upd_cs c (set_run_queue r') s))) ->
  wp (Dequeue c) Q s.
Proof.
  intros Hinv HNone HSome. unfold Dequeue. o1_steps. fold (rq s c). fold (base_rq (rq s c)).
  destruct (_ && _) eqn:Hemp; [apply andb_true_iff in Hemp as [? ?]; o1_steps; auto|].
  apply base_rq_nonempty in Hemp.
  pose proof (base_rq_wf _ (inv_rq _ _ _ Hinv c)) as Hwf.
  destruct (pop_spec _ (rq_active _ Hwf) Hemp)
    as (k & x & q & a' & Hpop & Hwf' & Hk & Hq & Hq' & Hmin & Ho).
  assert (Hcut : rq_cut (rq s c) x (mkO1Rq a' (expired_ (base_rq (rq s c))))).
  { pose proof Hwf as [_ _ Hnd]. apply NoDup_app in Hnd as (Hnd & _).
    destruct (arr_cut _ a' k [] x q Hwf' Hk Hq Hnd Hq') as [Ho' Hc].
    destruct (cut_active _ _ _ Hwf Hwf' Ho' Hc) as [? Hin]. split; [done|].
    intros t p. rewrite Hin, in_rq_base. done. }
  assert (Hx : in_rq (rq s c) x (k + kBasePrio)).
  { apply in_rq_base. left. unfold in_bucket. replace (k + kBasePrio - kBasePrio) with k by lia.
    rewrite Hq. set_solver. }
  destruct (inv_in _ _ _ Hinv c x _ Hx) as (_ & tk & Htk & Hst & Hc & _).
  assert (Hprio : forall t q, in_bucket a' t q -> k + kBasePrio <= q).
  { intros t r [Hr Ht]. rewrite Hq' in Ht. destruct (Z.le_gt_cases (k + kBasePrio) r); [done|].
    rewrite lookup_total_insert_ne, Hmin in Ht by lia. by apply not_elem_of_nil in Ht. }
  o1_steps. eapply wp_deref; [exact Hpop|]. o1_steps.
  eapply wp_deref; [done|]. o1_steps. apply (HSome x tk _ Htk Hst Hc). split; eauto.
Qed.

(** The picked task is in hand. *)
Lemma inv_picked env c x tk' r' s :
  inv env None s -> picked (rq s c) x r' ->
  inv env (Some x) (upd_task x tk' (upd_cs c (set_run_queue r') s)).
Proof.
  intros Hinv [Hcut Ho _ _]. apply inv_cut; [done| |done].
  assert (Hx : x ∈ order (active_ (base_rq (rq s c)))) by (rewrite Ho; set_solver).
  apply elem_of_order in Hx as (p & Hp). exists p. apply in_rq_base. by left.
Qed.
