(* ===== verification/O1Handlers.v ===== *)
(** * The handlers of the O(1) scheduler keep its invariant

    For every callback and for [O1Schedule]: under the kernel's protocol
    ([msg_ok]) it does not abort, and it re-establishes the invariant of
    [O1Inv]. *)

From S2P Require Import Prelude GhostAbi Dispatch PrioArray O1Sched O1Inv.
Import O1.

(** ** More primitive steps *)

Definition bump (s : O1State) : O1State :=
  mkO1State (tasks s) (cpu_states_ s) (next_ s) (S (reads s)) (trace s).
Definition log (r : request) (s : O1State) : O1State :=
  mkO1State (tasks s) (cpu_states_ s) (next_ s) (reads s) (r :: trace s).
Definition set_next_ (n : nat) (s : O1State) : O1State :=
  mkO1State (tasks s) (cpu_states_ s) n (reads s) (trace s).

Lemma inv_bump env h s : inv env h s -> inv env h (bump s).
Proof. by apply inv_same. Qed.
Lemma inv_log env h r s : inv env h s -> inv env h (log r s).
Proof. by apply inv_same. Qed.
Lemma inv_set_next env h n s :
  (n <= length (cpus env))%nat -> inv env h s -> inv env h (set_next_ n s).
Proof. intros ? [? ? ? ? ? ?]. by split. Qed.

#[export] Hint Resolve inv_bump inv_log inv_hole_write inv_clear_current inv_preempt_curr : ghost.

Lemma wp_ask {A} (f : nat -> A) (Q : A -> O1State -> Prop) s :
  Q (f (reads s)) (bump s) -> wp (ask f) Q s.
Proof. done. Qed.

Lemma wp_emit r (Q : unit -> O1State -> Prop) s : Q tt (log r s) -> wp (emit r) Q s.
Proof. done. Qed.

(** Lookup of the task in hand through the pending updates. *)
Ltac tlook :=
  repeat first
    [ rewrite lookup_upd, decide_True by done
    | rewrite lookup_upd, decide_False by done
    | progress change (tasks (bump ?s)) with (tasks s)
    | progress change (tasks (log ?r ?s)) with (tasks s)
    | progress change (tasks (set_next_ ?n ?s)) with (tasks s)
    | progress change (tasks (upd_cs ?c ?f ?s)) with (tasks s) ];
  first [eassumption | reflexivity].

Ltac h_step :=
  lazymatch goal with
  | |- wp (read_task _) _ _ => eapply wp_read; [tlook|]
  | |- wp (write_task _ _) _ _ => eapply wp_write; [tlook|]
  | |- wp (ask _) _ _ => apply wp_ask
  | |- wp (emit _) _ _ => apply wp_emit
  | |- _ => o1_step
  end; cbn beta iota delta [negb].
Ltac h_steps := cbn beta iota delta [negb]; repeat h_step.

(** ** [cpu_state_of], [TaskOffCpu], [TaskOnCpu] *)

Lemma wp_cpu_state_of env x tk (Q : Z -> O1State -> Prop) s :
  env_ok env -> tasks s !! x = Some tk -> cpu tk ∈ cpus env -> Q (cpu tk) s ->
  wp (cpu_state_of x) Q s.
Proof.
  intros Henv Hx Hc HQ. destruct (env_cpus_range _ Henv _ Hc).
  unfold cpu_state_of. h_steps. exact HQ.
Qed.

Lemma inv_open_oncpu env x tk s :
  inv env None s -> tasks s !! x = Some tk -> run_state tk = kOnCpu ->
  cur s (cpu tk) <> Some x -> inv env (Some x) s.
Proof.
  intros [Hrq Hin Hq Hcur Htk Hn] Hx Hst Hc. split; try done.
  - intros c t p Ht. destruct (Hin c t p Ht) as (_ & tk' & Htk' & Hst' & ?). split; [|eauto].
    intros [= ->]. congruence.
  - intros t tk' _. by apply Hq.
  - intros c t Ht. destruct (Hcur c t Ht) as (_ & tk' & Htk' & Hst' & ?). split; [|eauto].
    intros [= ->]. congruence.
  - intros t tk' _. by apply Htk.
Qed.

Definition clear_cur (c x : Z) (s : O1State) : O1State :=
  if bool_decide (cur s c = Some x) then upd_cs c (set_current None) s else s.

Definition off_state (is_blocked : bool) : O1TaskState := if is_blocked then kBlocked else kRunnable.

(** Charge a task for the time since it was picked. *)
Definition charge (now : Z) (tk : O1Task) : O1Task :=
  set_remaining_time (remaining_time tk - (now - runtime_at_last_pick tk)) tk.

Definition offcpu (env : Env) (x : Z) (tk : O1Task) (is_blocked : bool) (s : O1State) : O1State :=
  if oncpu tk
  then upd_task x (set_run_state (off_state is_blocked) (charge (Now env (reads s)) tk))
         (clear_cur (cpu tk) x (bump s))
  else upd_task x (set_run_state (off_state is_blocked) tk) s.

(** A task that can go off its CPU: running, or the target of a switchto chain. *)
Definition can_off (tk : O1Task) (from_switchto : bool) : Prop :=
  run_state tk = kOnCpu \/ (run_state tk = kBlocked /\ from_switchto = true).

Lemma wp_TaskOffCpu env x tk b fs (Q : unit -> O1State -> Prop) s :
  env_ok env -> tasks s !! x = Some tk -> cpu tk ∈ cpus env -> can_off tk fs ->
  Q tt (offcpu env x tk b s) -> wp (TaskOffCpu env x b fs) Q s.
Proof.
  intros Henv Hx Hc Hoff HQ. unfold TaskOffCpu. h_step. eapply wp_cpu_state_of; [done..|].
  h_step. h_step. h_step. unfold offcpu in HQ. destruct (oncpu tk) eqn:Hon.
  - h_step. unfold UpdateRemainingTime. h_steps. apply wp_when; [done|intros _].
    h_steps. unfold clear_cur, charge in HQ. apply wp_when; intros Hb.
    + change (bool_decide (cur (bump s) (cpu tk) = Some x) = true) in Hb. rewrite Hb in HQ.
      h_steps. rewrite ?upd_cs_task, upd_upd_task. exact HQ.
    + change (bool_decide (cur (bump s) (cpu tk) = Some x) = false) in Hb. rewrite Hb in HQ.
      h_steps. rewrite ?upd_cs_task, upd_upd_task. exact HQ.
  - destruct Hoff as [Hoff|[Hst ->]]; [unfold oncpu in Hon; by rewrite bool_decide_true in Hon|].
    h_steps. exact HQ.
Qed.

Lemma cur_clear_cur c x s : cur (clear_cur c x s) c <> Some x.
Proof.
  unfold clear_cur. case_bool_decide as H; [|done]. rewrite cur_upd_cs. by rewrite decide_True.
Qed.

Lemma inv_clear_cur env h c x s : inv env h s -> inv env h (clear_cur c x s).
Proof. unfold clear_cur. case_bool_decide; eauto with ghost. Qed.

Lemma tasks_clear_cur c x s : tasks (clear_cur c x s) = tasks s.
Proof. unfold clear_cur. by case_bool_decide. Qed.

(** After [TaskOffCpu] the task is in hand, in the state asked for, on its CPU. *)
Lemma inv_offcpu env x tk fs b s :
  inv env None s -> tasks s !! x = Some tk -> can_off tk fs -> inv env (Some x) (offcpu env x tk b s).
Proof.
  intros Hinv Hx Hoff. unfold offcpu. destruct (oncpu tk) eqn:Hon; apply inv_hole_write.
  - apply bool_decide_eq_true in Hon. eapply (inv_open_oncpu _ _ tk); [|by rewrite tasks_clear_cur|done|].
    + by apply inv_clear_cur, inv_bump.
    + apply cur_clear_cur.
  - apply bool_decide_eq_false in Hon. apply inv_open; [done|]. intros tk' Htk'. simplify_eq.
    destruct Hoff as [?|[? _]]; done.
Qed.

Definition offcpu_task (env : Env) (tk : O1Task) (b : bool) (s : O1State) : O1Task :=
  set_run_state (off_state b) (if oncpu tk then charge (Now env (reads s)) tk else tk).

Lemma lookup_offcpu env x tk b s : tasks (offcpu env x tk b s) !! x = Some (offcpu_task env tk b s).
Proof.
  unfold offcpu, offcpu_task. destruct (oncpu tk); by rewrite lookup_upd, decide_True.
Qed.

Lemma offcpu_task_fields env tk b s :
  run_state (offcpu_task env tk b s) = off_state b /\
  cpu (offcpu_task env tk b s) = cpu tk /\
  static_priority (offcpu_task env tk b s) = static_priority tk /\
  o1_seqnum (offcpu_task env tk b s) = o1_seqnum tk.
Proof. unfold offcpu_task. by destruct (oncpu tk). Qed.

(** The task that is now running. *)
Definition oncpu_task (c now : Z) (tk : O1Task) : O1Task :=
  mkO1Task (o1_seqnum tk) (static_priority tk) kOnCpu c false false now (remaining_time tk).

Definition running (env : Env) (c x : Z) (tk : O1Task) (s : O1State) : O1State :=
  upd_task x (oncpu_task c (Now env (reads s)) tk) (upd_cs c (set_current (Some x)) (bump s)).

Lemma wp_TaskOnCpu env x tk c (Q : unit -> O1State -> Prop) s :
  tasks s !! x = Some tk -> Q tt (running env c x tk s) -> wp (TaskOnCpu env x c) Q s.
Proof.
  intros Hx HQ. unfold TaskOnCpu, SetRuntimeAtLastPick. h_steps.
  unfold running, oncpu_task in HQ.
  match goal with |- Q tt ?s' => replace s' with (running env c x tk s); [exact HQ|] end.
  unfold running. change (bump (upd_task x ?a ?b)) with (upd_task x a (bump b)).
  rewrite !upd_upd_task. done.
Qed.

(** Putting a task on a CPU: the task in hand, or the CPU's current one again. *)
Lemma inv_running env c x tk s :
  c ∈ cpus env -> prio_ok (static_priority tk) -> inv env (Some x) s ->
  inv env None (running env c x tk s).
Proof.
  intros Hc Hp [Hrq Hin Hq Hcur Htk Hn]. unfold running.
  set (s1 := upd_cs c (set_current (Some x)) (bump s)).
  assert (Hr : forall c', rq (upd_task x (oncpu_task c (Now env (reads s)) tk) s1) c' = rq s c').
  { intros c'. change (rq s1 c' = rq s c'). subst s1. rewrite rq_upd_cs. by case_decide; subst. }
  split.
  - intros c'. rewrite Hr. apply Hrq.
  - intros c' t p. rewrite Hr. intros Hi. split; [done|]. rewrite lookup_upd.
    destruct (Hin c' t p Hi) as (Hne & ?). by rewrite decide_False by congruence.
  - intros t tk' _. rewrite lookup_upd, Hr. destruct (decide (x = t)) as [<-|Hne].
    + intros [= <-]. done.
    + apply Hq. congruence.
  - intros c' t. change (cur s1 c' = Some t -> None <> Some t /\ exists tk0,
      tasks (upd_task x (oncpu_task c (Now env (reads s)) tk) s1) !! t = Some tk0 /\
      run_state tk0 = kOnCpu /\ cpu tk0 = c').
    subst s1. rewrite cur_upd_cs. case_decide as Hd.
    + intros [= <-]. split; [done|]. rewrite lookup_upd, decide_True by done. subst. eauto.
    + intros Ht. split; [done|]. destruct (Hcur c' t Ht) as (Hne & ?).
      by rewrite lookup_upd, decide_False by congruence.
  - intros t tk' _. rewrite lookup_upd. destruct (decide (x = t)) as [<-|Hne].
    + intros [= <-]. unfold task_ok. cbn. split_and!; [done|done|by right|done].
    + apply Htk. congruence.
  - done.
Qed.

(** The current task, re-committed: it stays where it is. *)
Lemma running_clear env c x tk s : running env c x tk (clear_cur c x s) = running env c x tk s.
Proof.
  unfold clear_cur. case_bool_decide; [|done]. unfold running, upd_cs, upd_task, bump, set_tasks.
  cbn. by rewrite insert_insert_eq, lookup_total_insert_eq.
Qed.

Lemma inv_running_current env c x tk s :
  inv env None s -> cur s c = Some x -> tasks s !! x = Some tk ->
  c ∈ cpus env /\ inv env None (running env c x tk s).
Proof.
  intros Hinv Hcur Hx. destruct (inv_cur _ _ _ Hinv c x Hcur) as (_ & tk' & Hx' & Hst & Hcpu).
  rewrite Hx in Hx'. injection Hx' as <-.
  destruct (inv_task _ _ _ Hinv x tk ltac:(done) Hx) as (Hp & _ & Hc & _).
  assert (c ∈ cpus env) by (destruct Hc as [[? _]|]; congruence).
  split; [done|]. rewrite <- running_clear. apply inv_running; [done..|].
  subst c. eapply (inv_open_oncpu _ _ tk); [by apply inv_clear_cur|by rewrite tasks_clear_cur|done|].
  apply cur_clear_cur.
Qed.

(** ** Placement *)

Lemma wp_PingAgent env c (Q : unit -> O1State -> Prop) s :
  c ∈ cpus env -> Q tt (log (Ping c) s) -> wp (PingAgent env c) Q s.
Proof.
  intros Hc HQ. unfold PingAgent. h_step. apply wp_check; [by apply bool_decide_eq_true|].
  h_steps. exact HQ.
Qed.

Lemma wp_PingSwitchto env fs c (Q : unit -> O1State -> Prop) s :
  (truthy fs = true -> c ∈ cpus env) -> (forall s', same_sched s s' -> Q tt s') ->
  wp (PingSwitchto env fs c) Q s.
Proof.
  intros Hc HQ. unfold PingSwitchto. apply wp_when; intros Hb; [|by apply HQ].
  apply wp_PingAgent; [by apply Hc|]. by apply HQ.
Qed.

(** The CPU [AssignCpu] returns next, and where its iterator goes. *)
Definition assign_pos (env : Env) (s : O1State) : nat :=
  if (next_ s =? length (cpus env))%nat then O else next_ s.

Lemma wp_AssignCpu env h (Q : Z -> O1State -> Prop) s :
  env_ok env -> inv env h s ->
  (forall c, cpus env !! assign_pos env s = Some c -> c ∈ cpus env ->
    (S (assign_pos env s) <= length (cpus env))%nat -> Q c (set_next_ (S (assign_pos env s)) s)) ->
  wp (AssignCpu env) Q s.
Proof.
  intros Henv Hinv HQ. pose proof (inv_next _ _ _ Hinv) as Hn. pose proof (env_cpus_ne _ Henv) as Hne.
  unfold wp, AssignCpu. fold (assign_pos env s).
  assert (Hlt : (assign_pos env s < length (cpus env))%nat).
  { unfold assign_pos. destruct (Nat.eqb_spec (next_ s) (length (cpus env))); [|lia].
    destruct (cpus env); [done|cbn; lia]. }
  destruct (lookup_lt_is_Some_2 _ _ Hlt) as [c Hc]. rewrite Hc.
  apply HQ; [done| |lia]. by eapply list_elem_of_lookup_2.
Qed.

Lemma wp_Migrate env x tk c sn (Q : unit -> O1State -> Prop) s :
  env_ok env -> inv env (Some x) s -> tasks s !! x = Some tk ->
  run_state tk = kRunnable -> cpu tk = -1 -> prio_ok (static_priority tk) -> c ∈ cpus env ->
  (forall s', inv env None s' -> tasks s' !! x = Some (queued_task (set_cpu c tk)) -> Q tt s') ->
  wp (Migrate env x c sn) Q s.
Proof.
  intros Henv Hinv Hx Hst Hcpu Hp Hc HQ. unfold Migrate. h_steps.
  apply wp_check; [by apply env_assoc|]. h_steps.
  destruct (env_cpus_range _ Henv c Hc) as [Hlo Hhi].
  eapply (wp_Enqueue _ _ (set_cpu c tk)); [tlook|done..|].
  apply wp_PingAgent; [done|]. apply HQ.
  - apply inv_log, inv_enq; [|done..]. by apply inv_hole_write, inv_bump.
  - unfold enq. tlook.
Qed.

(** ** The kernel's protocol

    What a message says about the state of its task: the kernel reports state
    changes in order, a wakeup only for a blocked task, a task getting off a CPU
    only for a task that was on one (or ended a switchto chain there), and nice
    values are in range. *)

Definition nice_ok (n : Z) : Prop := -20 <= n <= 19.

Definition placed (env : Env) (tk : O1Task) : Prop := cpu tk ∈ cpus env.

Definition off_msg_ok (env : Env) (tk : O1Task) (fs c : Z) : Prop :=
  placed env tk /\ can_off tk (truthy fs) /\ (truthy fs = true -> c ∈ cpus env).

Definition task_msg_ok (env : Env) (tk : O1Task) (p : ghost_payload) : Prop :=
  match p with
  | P_dead _ => run_state tk = kBlocked
  | P_blocked p => off_msg_ok env tk (tb_from_switchto p) (tb_cpu p)
  | P_wakeup _ => run_state tk = kBlocked
  | P_newt p => nice_ok (tn_nice p)
  | P_preempt p => off_msg_ok env tk (tp_from_switchto p) (tp_cpu p)
  | P_yield p => off_msg_ok env tk (ty_from_switchto p) (ty_cpu p)
  | P_departed p =>
      if truthy (tdp_from_switchto p) then off_msg_ok env tk (tdp_from_switchto p) (tdp_cpu p)
      else True
  | P_switchto _ => placed env tk /\ run_state tk = kOnCpu
  | P_affinity _ | P_on_cpu _ => True
  | P_priority p => nice_ok (tpc_nice p)
  | _ => False
  end.

Lemma prio_ok_nice n : nice_ok n -> prio_ok (120 + n).
Proof. unfold nice_ok, prio_ok, kBasePrio, kNumPrio. lia. Qed.

(** ** The callbacks *)

Section Callbacks.
Context (env : Env) (Henv : env_ok env).

(** After a callback about [x]: the invariant, and [x]'s sequence number. *)
Definition post (x sn : Z) (s : O1State) : Prop :=
  inv env None s /\ exists tk, tasks s !! x = Some tk /\ o1_seqnum tk = sn.

Lemma post_same x sn s s' : same_sched s s' -> post x sn s -> post x sn s'.
Proof. intros Hs [Hi Hx]. split; [by eapply inv_same|]. by rewrite (same_tasks _ _ Hs). Qed.

(** Enqueue the task in hand on its CPU. *)
Lemma wp_Enqueue_post x tk s :
  inv env (Some x) s -> tasks s !! x = Some tk -> run_state tk = kRunnable ->
  prio_ok (static_priority tk) -> cpu tk ∈ cpus env ->
  wp (Enqueue (cpu tk) x) (fun _ => post x (o1_seqnum tk)) s.
Proof.
  intros Hi Hx Hst Hp Hc. destruct (env_cpus_range _ Henv _ Hc).
  eapply wp_Enqueue; [done..|]. split; [by apply inv_enq|].
  exists (queued_task tk). unfold enq. split; [tlook|]. unfold queued_task.
  by destruct (0 <? remaining_time tk).
Qed.

(** [cpu_state_of] then [Enqueue]. *)
Lemma wp_requeue x tk s :
  inv env (Some x) s -> tasks s !! x = Some tk -> run_state tk = kRunnable ->
  prio_ok (static_priority tk) -> cpu tk ∈ cpus env ->
  wp (c <- cpu_state_of x ;; Enqueue c x) (fun _ => post x (o1_seqnum tk)) s.
Proof.
  intros. h_step. eapply wp_cpu_state_of; [done..|]. by apply wp_Enqueue_post.
Qed.

Lemma TaskNew_ok x sn p s :
  inv env None s -> nice_ok (tn_nice p) ->
  (exists tk, tasks s !! x = Some tk /\ run_state tk = kBlocked /\ cpu tk = -1) ->
  wp (TaskNew env x (Message.of_payload sn (P_newt p))) (fun _ => post x sn) s.
Proof.
  intros Hi Hn (tk & Hx & Hst & Hcpu). apply prio_ok_nice in Hn.
  unfold TaskNew, SetRemainingTime. h_step. eapply wp_deref; [done|]. h_steps.
  rewrite !upd_upd_task. set (tk1 := set_static_priority _ _).
  assert (Hi0 : inv env (Some x) s) by (apply inv_open; [done|]; intros ? ?; congruence).
  pose proof (inv_hole_write _ _ tk1 _ Hi0) as Hi1.
  destruct (truthy (tn_runnable p)).
  - h_steps. rewrite upd_upd_task. eapply (wp_AssignCpu _ (Some x)); [done|by apply inv_hole_write|].
    intros c _ Hc Hpos. eapply (wp_Migrate _ _ (set_run_state kRunnable tk1));
      [done| |tlook|done..|].
    + apply inv_set_next; [done|]. by apply inv_hole_write.
    + intros s' Hi' Hx'. split; [done|]. eexists. split; [exact Hx'|].
      unfold queued_task. by destruct (0 <? _).
  - h_steps. split; [|exists tk1; split; [tlook|done]].
    eapply (inv_close_blocked _ x tk1); [done|tlook|done|].
    unfold task_ok. cbn. split_and!; [done|done|left; done|done].
Qed.

Lemma TaskRunnable_ok x tk sn p s :
  inv env None s -> tasks s !! x = Some tk -> run_state tk = kBlocked ->
  wp (TaskRunnable env x (Message.of_payload sn (P_wakeup p))) (fun _ => post x (o1_seqnum tk)) s.
Proof.
  intros Hi Hx Hst. destruct (inv_task _ _ _ Hi x tk ltac:(done) Hx) as (Hp & _ & Hcpu & _).
  unfold TaskRunnable. h_step. eapply wp_deref; [done|]. h_steps. rewrite upd_upd_task.
  set (tk1 := set_prio_boost _ _).
  assert (Hi0 : inv env (Some x) s) by (apply inv_open; [done|]; intros ? ?; congruence).
  pose proof (inv_hole_write _ _ tk1 _ Hi0) as Hi1.
  destruct (Z.ltb_spec (cpu tk) 0) as [Hneg|Hpos].
  - h_step. eapply wp_AssignCpu; [done|done|]. intros c _ Hc Hpos.
    eapply (wp_Migrate _ _ tk1); [done|by apply inv_set_next|tlook|done| |done|done|].
    + destruct Hcpu as [[_ ?]|Hin]; [done|]. destruct (env_cpus_range _ Henv _ Hin). lia.
    + intros s' Hi' Hx'. split; [done|]. eexists. split; [exact Hx'|].
      unfold queued_task. by destruct (0 <? _).
  - assert (cpu tk ∈ cpus env) by (destruct Hcpu as [[_ ?]|Hin]; [lia|done]).
    by apply (wp_requeue x tk1); [|tlook|..].
Qed.

Lemma off_enqueue_ok x tk fs (upd : O1Task -> O1Task) s :
  inv env None s -> tasks s !! x = Some tk -> placed env tk -> can_off tk fs ->
  (forall t, run_state (upd t) = run_state t /\ cpu (upd t) = cpu t /\
    static_priority (upd t) = static_priority t /\ o1_seqnum (upd t) = o1_seqnum t) ->
  wp (c <- cpu_state_of x ;; Enqueue c x) (fun _ => post x (o1_seqnum tk))
    (upd_task x (upd (offcpu_task env tk false s)) (offcpu env x tk false s)).
Proof.
  intros Hi Hx Hpl Hoff Hu. destruct (Hu (offcpu_task env tk false s)) as (H1 & H2 & H3 & H4).
  destruct (offcpu_task_fields env tk false s) as (G1 & G2 & G3 & G4).
  destruct (inv_task _ _ _ Hi x tk ltac:(done) Hx) as (Hp & _).
  replace (o1_seqnum tk) with (o1_seqnum (upd (offcpu_task env tk false s))) by congruence.
  apply wp_requeue; [|tlook|by rewrite H1, G1|congruence|unfold placed in Hpl; congruence].
  by eapply inv_hole_write, inv_offcpu.
Qed.

Lemma upd_task_id x tk s : tasks s !! x = Some tk -> upd_task x tk s = s.
Proof. intros Hx. unfold upd_task. rewrite insert_id by done. by destruct s. Qed.

Lemma TaskYield_ok x tk sn p s :
  inv env None s -> tasks s !! x = Some tk ->
  off_msg_ok env tk (ty_from_switchto p) (ty_cpu p) ->
  wp (TaskYield env x (Message.of_payload sn (P_yield p))) (fun _ => post x (o1_seqnum tk)) s.
Proof.
  intros Hi Hx (Hpl & Hoff & Hc). unfold TaskYield. h_step. eapply wp_deref; [done|].
  h_steps. eapply wp_TaskOffCpu; [done..|].
  rewrite <- (upd_task_id x _ _ (lookup_offcpu env x tk false s)).
  h_step. apply wp_seq. eapply wp_mono; [by eapply (off_enqueue_ok x tk _ (fun t => t))|].
  intros ? s1 Hpost. apply wp_PingSwitchto; [done|]. intros s' Hs. by eapply post_same.
Qed.

Lemma TaskPreempted_ok x tk sn p s :
  inv env None s -> tasks s !! x = Some tk ->
  off_msg_ok env tk (tp_from_switchto p) (tp_cpu p) ->
  wp (TaskPreempted env x (Message.of_payload sn (P_preempt p))) (fun _ => post x (o1_seqnum tk)) s.
Proof.
  intros Hi Hx (Hpl & Hoff & Hc). unfold TaskPreempted. h_step. eapply wp_deref; [done|].
  h_steps. eapply wp_TaskOffCpu; [done..|].
  pose proof (lookup_offcpu env x tk false s) as Hl. h_steps. rewrite upd_upd_task.
  apply wp_seq. eapply wp_mono;
    [by eapply (off_enqueue_ok x tk _ (fun t => set_prio_boost true (set_preempted true t)))|].
  intros ? s1 Hpost. apply wp_PingSwitchto; [done|]. intros s' Hs. by eapply post_same.
Qed.

(** Going off the CPU to block. *)
Lemma offcpu_blocked_post x tk fs s :
  inv env None s -> tasks s !! x = Some tk -> placed env tk -> can_off tk fs ->
  post x (o1_seqnum tk) (offcpu env x tk true s).
Proof.
  intros Hi Hx Hpl Hoff. destruct (offcpu_task_fields env tk true s) as (G1 & G2 & G3 & G4).
  destruct (inv_task _ _ _ Hi x tk ltac:(done) Hx) as (Hp & _).
  pose proof (lookup_offcpu env x tk true s) as Hl. split; [|eauto].
  eapply inv_close_blocked; [by eapply inv_offcpu|exact Hl|by rewrite G1|].
  unfold task_ok, placed in *. rewrite G1, G2, G3. split_and!; [done|done|by right|done].
Qed.

Lemma TaskBlocked_ok x tk sn p s :
  inv env None s -> tasks s !! x = Some tk ->
  off_msg_ok env tk (tb_from_switchto p) (tb_cpu p) ->
  wp (TaskBlocked env x (Message.of_payload sn (P_blocked p))) (fun _ => post x (o1_seqnum tk)) s.
Proof.
  intros Hi Hx (Hpl & Hoff & Hc). unfold TaskBlocked. h_step. eapply wp_deref; [done|].
  h_steps. eapply wp_TaskOffCpu; [done..|]. apply wp_PingSwitchto; [done|].
  intros s' Hs. eapply post_same; [done|]. by eapply offcpu_blocked_post.
Qed.

Lemma oncpu_placed x tk s :
  inv env None s -> tasks s !! x = Some tk -> run_state tk <> kBlocked -> placed env tk.
Proof.
  intros Hi Hx Hst. destruct (inv_task _ _ _ Hi x tk ltac:(done) Hx) as (_ & _ & [[? _]|?] & _); done.
Qed.

Lemma TaskSwitchto_ok x tk msg s :
  inv env None s -> tasks s !! x = Some tk -> run_state tk = kOnCpu ->
  wp (TaskSwitchto env x msg) (fun _ => post x (o1_seqnum tk)) s.
Proof.
  intros Hi Hx Hst. assert (placed env tk) by (eapply oncpu_placed; [done..|congruence]).
  eapply wp_TaskOffCpu; [done..|by left|]. eapply (offcpu_blocked_post x tk false); [done..|by left].
Qed.

Lemma TaskPriorityChanged_ok x tk sn p s :
  inv env None s -> tasks s !! x = Some tk -> nice_ok (tpc_nice p) ->
  wp (TaskPriorityChanged x (Message.of_payload sn (P_priority p)))
    (fun _ => post x (o1_seqnum tk)) s.
Proof.
  intros Hi Hx Hn. apply prio_ok_nice in Hn.
  destruct (inv_task _ _ _ Hi x tk ltac:(done) Hx) as (Hp & Hnr & Hcpu & Hrem).
  unfold TaskPriorityChanged. h_step. eapply wp_deref; [done|]. h_steps.
  destruct (queued tk) eqn:Hq.
  - apply bool_decide_eq_true in Hq.
    assert (placed env tk) by (eapply oncpu_placed; [done..|congruence]).
    h_step. eapply wp_cpu_state_of; [done..|]. h_step.
    eapply wp_Erase; [done..|]. intros r' Hcut. h_steps. rewrite upd_upd_task.
    apply (wp_Enqueue_post x (set_static_priority (120 + tpc_nice p) (set_run_state kRunnable tk)));
      [|tlook|done..].
    apply inv_cut; [done| |done]. exists (static_priority tk). by eapply inv_queued.
  - apply bool_decide_eq_false in Hq. h_steps. split; [|eexists; split; [tlook|done]].
    eapply inv_update; [done|done|done|done|done|]. unfold task_ok. cbn. done.
Qed.

Lemma TaskDead_ok x tk msg s :
  inv env None s -> tasks s !! x = Some tk -> run_state tk = kBlocked ->
  wp (TaskDead x msg) (fun _ => inv env None) s.
Proof.
  intros Hi Hx Hst. unfold TaskDead. h_steps. apply wp_FreeTask.
  apply inv_hole_delete, inv_open; [done|]. intros ? ?. congruence.
Qed.

Lemma TaskDeparted_ok x tk sn p s :
  inv env None s -> tasks s !! x = Some tk ->
  task_msg_ok env tk (P_departed p) ->
  wp (TaskDeparted env x (Message.of_payload sn (P_departed p))) (fun _ => inv env None) s.
Proof.
  intros Hi Hx Hok. cbn in Hok. unfold TaskDeparted. h_step. eapply wp_deref; [done|]. h_steps.
  assert (Hfin : forall s1, inv env (Some x) s1 -> wp
    (PingSwitchto env (tdp_from_switchto p) (tdp_cpu p) ;;; FreeTask x) (fun _ => inv env None) s1).
  { intros s1 Hi1. h_step. apply wp_PingSwitchto.
    - intros Hfs. rewrite Hfs in Hok. by apply Hok.
    - intros s2 Hs. apply wp_FreeTask, inv_hole_delete. by eapply inv_same. }
  destruct (oncpu tk || truthy (tdp_from_switchto p)) eqn:Hor.
  - assert (Hoff : placed env tk /\ can_off tk (truthy (tdp_from_switchto p))).
    { unfold off_msg_ok in Hok. destruct (truthy (tdp_from_switchto p)); [by destruct Hok as (? & ? & _)|].
      rewrite orb_false_r in Hor. apply bool_decide_eq_true in Hor.
      split; [eapply oncpu_placed; [done..|congruence]|by left]. }
    destruct Hoff as [Hpl Hoff]. eapply wp_TaskOffCpu; [done..|]. apply Hfin. by eapply inv_offcpu.
  - apply orb_false_iff in Hor as [Hon _]. apply bool_decide_eq_false in Hon.
    destruct (queued tk) eqn:Hq.
    + apply bool_decide_eq_true in Hq.
      assert (placed env tk) by (eapply oncpu_placed; [done..|congruence]).
      h_step. eapply wp_cpu_state_of; [done..|]. eapply wp_Erase; [done..|].
      intros r' Hcut. apply Hfin. apply inv_cut; [done| |done].
      exists (static_priority tk). by eapply inv_queued.
    + apply bool_decide_eq_false in Hq.
      destruct (inv_task _ _ _ Hi x tk ltac:(done) Hx) as (_ & Hnr & _).
      assert (Hst : run_state tk = kBlocked) by (destruct (run_state tk); congruence).
      h_step. apply Hfin, inv_open; [done|]. intros ? ?. congruence.
Qed.

(** [UpdateRemainingTime] of the current task. *)
Lemma CpuTick_ok sn p s :
  inv env None s -> wp (CpuTick env (Message.of_payload sn (P_cpu_tick p))) (fun _ => inv env None) s.
Proof.
  intros Hi. unfold CpuTick. h_step. eapply wp_deref; [done|]. unfold CheckPreemptTick. h_steps.
  destruct (current _) as [x|] eqn:Hc; [|by h_steps].
  destruct (inv_cur _ _ _ Hi _ x Hc) as (_ & tk & Hx & Hst & Hcpu).
  destruct (inv_task _ _ _ Hi x tk ltac:(done) Hx) as (Hp & _ & Hpl & _).
  unfold UpdateRemainingTime, SetRuntimeAtLastPick. h_steps.
  change (bump (upd_task x ?a ?b)) with (upd_task x a (bump b)). rewrite upd_upd_task.
  set (tk1 := set_runtime_at_last_pick _ _).
  assert (Hi1 : inv env None (upd_task x tk1 (bump (bump s)))).
  { eapply (inv_update _ _ tk); [by do 2 apply inv_bump|exact Hx|done..|].
    unfold task_ok. cbn. rewrite Hst. split_and!; try done. by right; destruct Hpl as [[? _]|]; congruence. }
  destruct (_ <=? 0); h_steps; apply wp_when; intros _; h_steps; eauto with ghost.
Qed.
End Callbacks.
