(* ===== verification/O1Safety.v ===== *)
(** * Safety of the O(1) scheduler

    [O1Schedule] and [DispatchMessage] re-establish the invariant and never
    abort; hence every state the scheduler can reach by dispatching messages and
    scheduling CPUs, in any interleaving, satisfies the invariant.  A step is one
    message or one scheduling decision of one CPU. *)

From S2P Require Import Prelude GhostAbi Dispatch PrioArray O1Sched O1Inv O1Handlers.
Import O1.

Section Schedule.
Context (env : Env) (Henv : env_ok env).

Lemma wp_WaitOffCpu fuel (Q : unit -> O1State -> Prop) s :
  (exists k, (k < fuel)%nat /\ status_on_cpu env (reads s + k) = false) ->
  (forall s', same_sched s s' -> (reads s <= reads s')%nat -> Q tt s') ->
  wp (WaitOffCpu env fuel) Q s.
Proof.
  revert s. induction fuel as [|fuel IH]; intros s (k & Hk & Hoff) HQ; [lia|].
  cbn [WaitOffCpu]. h_steps. destruct (status_on_cpu env (reads s)) eqn:Hon.
  - apply IH.
    + destruct k as [|k]; [rewrite Nat.add_0_r in Hoff; congruence|].
      exists k. split; [lia|]. cbn [reads bump]. rewrite <- Hoff. f_equal. lia.
    + intros s' [? ? ?] Hle. apply HQ; [done|]. cbn in Hle. lia.
  - h_steps. apply HQ; [done|]. cbn. lia.
Qed.

(** [next] can be committed on [c]: it is the CPU's current task, or it is in
    hand after [Dequeue]. *)
Definition ready (c x : Z) (s : O1State) : Prop :=
  (inv env None s /\ cur s c = Some x) \/
  (inv env (Some x) s /\ exists tk, tasks s !! x = Some tk /\ run_state tk = kRunnable /\
     cpu tk = c /\ prio_ok (static_priority tk)).

Lemma ready_same c x s s' : same_sched s s' -> ready c x s -> ready c x s'.
Proof.
  intros Hs [[Hi Hc]|[Hi Hx]]; [left|right]; (split; [by eapply inv_same|]); destruct Hs as [Ht Hcs _].
  - unfold cur. by rewrite Hcs.
  - by rewrite Ht.
Qed.

Lemma HandlePreemptCurr_ok c s :
  inv env None s -> wp (HandlePreemptCurr c) (fun _ => inv env None) s.
Proof.
  intros Hi. unfold HandlePreemptCurr. h_steps. apply wp_when; intros _; [|done]. h_steps.
  destruct (current _) as [x|] eqn:Hc; [|h_steps; eauto with ghost].
  destruct (Empty _); h_steps; [|eauto with ghost].
  destruct (inv_cur _ _ _ Hi c x Hc) as (_ & tk & Hx & Hst & Hcpu).
  destruct (inv_task _ _ _ Hi x tk ltac:(done) Hx) as (Hp & _ & Hpl & _).
  unfold SetRemainingTime. h_steps. eapply (inv_update _ _ tk); [eauto with ghost|exact Hx|done..|].
  unfold task_ok. cbn. rewrite Hst. split_and!; try done. by right; destruct Hpl as [[? _]|]; congruence.
Qed.

Lemma PickNext_ok c b s :
  inv env None s ->
  wp (PickNext c b) (fun r s' => match r with Some x => ready c x s' | None => inv env None s' end) s.
Proof.
  intros Hi. unfold PickNext. destruct b; h_steps; [done|].
  destruct (current _) as [x|] eqn:Hc; h_steps; [by left|].
  eapply wp_Dequeue; [done|done|]. intros x tk r' Hx Hst Hcpu Hpick. right.
  split; [by apply inv_picked|]. exists (set_run_state kRunnable tk).
  destruct (inv_task _ _ _ Hi x tk ltac:(done) Hx) as (Hp & _). split; [tlook|done].
Qed.

(** A failed commit puts the task back on its runqueue. *)
Lemma commit_failed_ok c x s :
  c ∈ cpus env -> ready c x s ->
  wp (cs <- cpu_state c ;;
      when (bool_decide (current cs = Some x)) (TaskOffCpu env x false false) ;;;
      write_task x (set_prio_boost true) ;;; Enqueue c x) (fun _ => inv env None) s.
Proof.
  intros Hc Hr. h_steps.
  assert (Hfin : forall tk s1, inv env (Some x) s1 -> tasks s1 !! x = Some tk ->
    run_state tk = kRunnable -> cpu tk = c -> prio_ok (static_priority tk) ->
    wp (write_task x (set_prio_boost true) ;;; Enqueue c x) (fun _ => inv env None) s1).
  { intros tk s1 Hi1 Hx1 Hst1 Hcpu1 Hp1. h_steps. destruct (env_cpus_range _ Henv c Hc).
    eapply wp_Enqueue; [tlook|cbn; lia|done|done|]. apply inv_enq; [|done..]. by apply inv_hole_write. }
  destruct Hr as [[Hi Hcur]|[Hi (tk & Hx & Hst & Hcpu & Hp)]].
  - apply wp_when; intros Hb; [|apply bool_decide_eq_false in Hb; done].
    destruct (inv_cur _ _ _ Hi c x Hcur) as (_ & tk & Hx & Hst & Hcpu).
    destruct (inv_task _ _ _ Hi x tk ltac:(done) Hx) as (Hp & _).
    eapply wp_TaskOffCpu; [done..|by rewrite Hcpu|by left|].
    destruct (offcpu_task_fields env tk false s) as (G1 & G2 & G3 & _).
    eapply Hfin; [by apply (inv_offcpu _ _ _ false); [..|left]|apply lookup_offcpu|by rewrite G1|congruence|congruence].
  - apply wp_when; intros Hb; [|by eapply Hfin].
    apply bool_decide_eq_true in Hb. by destruct (inv_cur _ _ _ Hi c x Hb).
Qed.

Lemma CommitNext_ok c x ab s :
  c ∈ cpus env -> ready c x s -> wp (CommitNext env c x ab) (fun _ => inv env None) s.
Proof.
  intros Hc Hr. unfold CommitNext. h_step. apply wp_WaitOffCpu; [apply (env_spin _ Henv)|].
  intros s1 Hs1 _. apply (ready_same _ _ _ _ Hs1) in Hr.
  assert (Htk : exists tk, tasks s1 !! x = Some tk).
  { destruct Hr as [[Hi Hcur]|[Hi (tk & Hx & _)]]; [|eauto].
    destruct (inv_cur _ _ _ Hi c x Hcur) as (_ & tk & Hx & _). eauto. }
  destruct Htk as [tk Hx]. h_steps.
  match goal with |- wp (if _ then _ else _) _ ?s2 => set (s' := s2) end.
  assert (Hr' : ready c x s') by (by eapply ready_same; [|exact Hr]).
  destruct (Commit_ok env _).
  - eapply wp_TaskOnCpu; [exact Hx|]. destruct Hr' as [[Hi Hcur]|[Hi (tk' & Hx' & _ & _ & Hp)]].
    + by eapply inv_running_current.
    + apply inv_running; [done| |done]. change (tasks s' !! x) with (tasks s1 !! x) in Hx'. congruence.
  - by apply commit_failed_ok.
Qed.

Lemma O1Schedule_ok c ab b s :
  c ∈ cpus env -> inv env None s -> wp (O1Schedule env c ab b) (fun _ => inv env None) s.
Proof.
  intros Hc Hi. unfold O1Schedule. h_step. eapply wp_mono; [by apply HandlePreemptCurr_ok|].
  intros ? s1 Hi1. h_step. eapply wp_mono; [by apply PickNext_ok|].
  intros [x|] s2 Hr; [by apply CommitNext_ok|]. h_steps. eauto with ghost.
Qed.
End Schedule.

(** ** Dispatch *)

(** Does the dispatcher advance the task's sequence number after this message? *)
Definition advances (p : ghost_payload) : bool :=
  match p with P_newt _ | P_dead _ | P_departed _ => false | _ => true end.

Definition is_new (p : ghost_payload) : bool := match p with P_newt _ => true | _ => false end.

(** The kernel's protocol for a message in state [s]. *)
Definition msg_ok (env : Env) (s : O1State) (msg : Message.ghost_msg) : Prop :=
  let p := Message.payload msg in
  msg = Message.of_payload (Message.seqnum msg) p /\
  match Message.gtid msg with
  | None => True
  | Some g =>
      g <> 0 /\
      match tasks s !! g with
      | None => match p with P_newt q => nice_ok (tn_nice q) | _ => True end
      | Some tk =>
          if is_new p then True
          else task_msg_ok env tk p /\ (advances p = true -> o1_seqnum tk < Message.seqnum msg)
      end
  end.

Section DispatchOk.
Context (env : Env) (Henv : env_ok env).
#[local] Instance handlers : DispatchHandlers O1State := O1Handlers env.

Lemma advance_ok x sn n s :
  post env x sn s -> sn < n -> wp (Advance x n) (fun _ => inv env None) s.
Proof.
  intros [Hi (tk & Hx & Hsn)] Hlt. eapply (wp_Advance (St := O1State)); [exact Hx|cbn; lia|].
  pose proof (inv_task _ _ _ Hi x tk ltac:(done) Hx) as Hok.
  by eapply (inv_update _ _ tk (set_o1_seqnum n tk)).
Qed.

(** A callback that leaves the sequence number to the dispatcher. *)
Lemma callback_advance (m : M O1State unit) x sn n s :
  wp m (fun _ => post env x sn) s -> sn < n ->
  wp (m ;;; mret true) (fun u => wp (when u (Advance x n)) (fun _ => inv env None)) s.
Proof.
  intros Hm Hlt. apply wp_bind. eapply wp_mono; [exact Hm|]. intros ? s' Hp.
  apply wp_ret. cbn [when]. by apply (advance_ok x sn).
Qed.

Lemma task_dispatch_ok g tk sn p s :
  inv env None s -> tasks s !! g = Some tk -> is_new p = false -> task_msg_ok env tk p ->
  (advances p = true -> o1_seqnum tk < sn) ->
  wp (DispatchTaskMessage g (Message.of_payload sn p))
    (fun u => wp (when u (Advance g sn)) (fun _ => inv env None)) s.
Proof.
  intros Hi Hx Hnew Hok Hsn. unfold DispatchTaskMessage.
  change (Message.type (Message.of_payload sn p)) with (msg_type_value (payload_type p)).
  rewrite read_msg_type_value.
  assert (Hnop : post env g (o1_seqnum tk) s) by (split; eauto).
  destruct p; cbn in Hnew, Hok, Hsn; try done; cbn [payload_type];
    try (eapply callback_advance; [|by apply Hsn]).
  - apply wp_bind. eapply wp_mono; [by eapply TaskDead_ok|]. done.
  - by apply TaskBlocked_ok.
  - by apply TaskRunnable_ok.
  - by apply TaskPreempted_ok.
  - by apply TaskYield_ok.
  - apply wp_bind. eapply wp_mono; [by eapply TaskDeparted_ok|]. done.
  - destruct Hok. by apply TaskSwitchto_ok.
  - exact Hnop.
  - by apply TaskPriorityChanged_ok.
  - exact Hnop.
Qed.

Lemma new_dispatch_ok sn p s :
  inv env None s -> tn_gtid p <> 0 ->
  (tasks s !! tn_gtid p = None -> nice_ok (tn_nice p)) ->
  wp (DispatchMessage (Message.of_payload sn (P_newt p))) (fun _ => inv env None) s.
Proof.
  intros Hi Hg Hn. apply DispatchMessage_new; [done|done|]. cbn. intros Hex.
  eapply wp_mono; [apply (TaskNew_ok env Henv (tn_gtid p) sn p); [|by apply Hn|]|by intros ? s' [Hi' _]].
  - apply (inv_close_blocked _ (tn_gtid p) (O1Task_new (tn_gtid p) (tn_sw_info p))).
    + apply inv_hole_write, inv_open; [done|]. intros ? ?. congruence.
    + cbn. apply lookup_insert_eq.
    + done.
    + unfold task_ok. cbn. split_and!; [done|done|by left|done].
  - eexists. split; [cbn; apply lookup_insert_eq|done].
Qed.

Lemma DispatchMessage_ok msg s :
  inv env None s -> msg_ok env s msg -> wp (DispatchMessage msg) (fun _ => inv env None) s.
Proof.
  intros Hi [Hmsg Hok]. destruct msg as [ty sn p]. cbn in Hmsg. injection Hmsg as ->.
  change (wp (DispatchMessage (Message.of_payload sn p)) (fun _ => inv env None) s).
  destruct (is_new p) eqn:Hnew.
  { destruct p; try done. cbn in Hok. destruct Hok as [Hg Hok].
    apply new_dispatch_ok; [done..|]. intros Hnone. by rewrite Hnone in Hok. }
  destruct (Message.is_cpu_msg (Message.of_payload sn p)) eqn:Hcpu.
  { destruct p; try done; try (by apply wp_ret). by apply CpuTick_ok. }
  destruct (Message.gtid (Message.of_payload sn p)) as [g|] eqn:Hg; [|by destruct p].
  cbn [Message.gtid Message.of_payload Message.payload] in Hg, Hok.
  change (Message.gtid _) with (Message.gtid (Message.of_payload sn p)) in Hok.
  cbn [Message.gtid Message.of_payload Message.payload] in Hok.
  rewrite Hg in Hok. destruct Hok as [Hnz Hok]. cbn [Message.payload Message.seqnum] in Hok.
  eapply (DispatchMessage_task _ g); try done.
  - destruct p; done.
  - destruct p; done.
  - intros [tk Hx]. cbn in Hx. rewrite Hx, Hnew in Hok. destruct Hok as [Hok Hsn].
    by eapply task_dispatch_ok.
Qed.
End DispatchOk.

(** ** The scheduler as a transition system *)

(** One step: an agent dispatches one message, or makes one scheduling decision
    for its CPU. *)
Inductive event :=
  | Deliver (msg : Message.ghost_msg)
  | Decide (c agent_barrier : Z) (boosted : bool).

Definition run_event (env : Env) (ev : event) : M O1State unit :=
  match ev with
  | Deliver msg => @DispatchMessage _ _ _ _ (O1Handlers env) msg
  | Decide c ab b => O1Schedule env c ab b
  end.

Definition event_ok (env : Env) (s : O1State) (ev : event) : Prop :=
  match ev with
  | Deliver msg => msg_ok env s msg
  | Decide c _ _ => c ∈ cpus env
  end.

Inductive step (env : Env) : O1State -> event -> O1State -> Prop :=
  | step_run s ev s' :
      event_ok env s ev -> run_event env ev s = Some (tt, s') -> step env s ev s'.

Inductive reachable (env : Env) : O1State -> Prop :=
  | reach_initial : reachable env (initial env)
  | reach_step s ev s' : reachable env s -> step env s ev s' -> reachable env s'.

Lemma inv_initial env : inv env None (initial env).
Proof.
  assert (Hcs : forall c, cpu_states_ (initial env) !!! c = inhabitant) by (intros c; apply lookup_total_empty).
  assert (Hno : forall t p, ~ in_bucket empty_array t p).
  { intros t p [_ Ht]. cbn in Ht. rewrite lookup_total_empty in Ht. by apply not_elem_of_nil in Ht. }
  assert (Ho : order empty_array = []) by (apply buckets_nil; intros; cbn; by rewrite lookup_total_empty).
  split; unfold rq, cur; cbn [tasks initial next_].
  - intros c. rewrite Hcs. split; cbn; [apply prio_wf_empty_array..|]. rewrite Ho. constructor.
  - intros c t p. rewrite Hcs. cbn. intros [H|H]; by apply Hno in H.
  - done.
  - intros c t. by rewrite Hcs.
  - done.
  - done.
Qed.

Lemma event_inv env s ev :
  env_ok env -> inv env None s -> event_ok env s ev ->
  exists s', run_event env ev s = Some (tt, s') /\ inv env None s'.
Proof.
  intros Henv Hi Hok.
  assert (Hwp : wp (run_event env ev) (fun _ => inv env None) s).
  { destruct ev; [by apply DispatchMessage_ok|by apply O1Schedule_ok]. }
  apply wp_run in Hwp as ([] & s' & ? & ?). eauto.
Qed.

Lemma reachable_inv env s : env_ok env -> reachable env s -> inv env None s.
Proof.
  intros Henv. induction 1 as [|s ev s' _ Hi Hstep]; [apply inv_initial|].
  destruct Hstep as [s ev s' Hok Hrun]. destruct (event_inv _ _ _ Henv Hi Hok) as (s1 & Hrun1 & ?).
  congruence.
Qed.

(** A two-CPU enclave for the witnesses: the clock advances 10 ms per reading,
    transactions succeed, tasks are off their CPU at once. *)
Definition demo_env : Env :=
  mkEnv [0; 1] (fun n => 10000000 * Z.of_nat n) (fun _ => true) (fun _ => true) (fun _ => false) 1.

Lemma demo_env_ok : env_ok demo_env.
Proof.
  split; [done| |done|].
  - intros c Hc. cbn in Hc. unfold MAX_CPUS. set_solver by lia.
  - intros n. exists O. cbn. split; [lia|done].
Qed.

Definition demo_new (g sn nice : Z) : Message.ghost_msg :=
  Message.of_payload sn (P_newt (mk_task_new g 0 0 1 nice (mk_sw_info 0 0) 0)).

Definition demo_preempt (g sn c : Z) : Message.ghost_msg :=
  Message.of_payload sn (P_preempt (mk_task_preempt g 0 0 0 c 0 0)).

(** ** Claims *)

(** C1: in every state reachable by dispatching messages and scheduling CPUs in any
    interleaving, with messages that follow the kernel's protocol, the runqueue
    invariant holds (bitmaps mark exactly the non-empty buckets; a task is
    [kQueued] exactly when it is on its own CPU's runqueue, once, in the bucket
    of its priority; a CPU's current task is [kOnCpu] there), and every further
    event that follows the protocol completes: no CHECK fails, no null or freed
    task is dereferenced, no empty bucket is popped. *)
Theorem o1_safe env s :
  env_ok env -> reachable env s ->
  inv env None s /\
  forall ev, event_ok env s ev -> exists s', run_event env ev s = Some (tt, s') /\ reachable env s'.
Proof.
  intros Henv Hr. pose proof (reachable_inv _ _ Henv Hr) as Hi. split; [done|].
  intros ev Hok. destruct (event_inv _ _ _ Henv Hi Hok) as (s' & Hrun & _).
  exists s'. split; [done|]. eapply reach_step; [done|by constructor].
Qed.

Lemma o1_safe_witness :
  inv demo_env None (initial demo_env) /\
  exists s', run_event demo_env (Deliver (demo_new 7 1 0)) (initial demo_env) = Some (tt, s') /\
             reachable demo_env s'.
Proof.
  destruct (o1_safe demo_env (initial demo_env) demo_env_ok (reach_initial demo_env)) as [Hi Hev].
  split; [exact Hi|]. apply Hev. cbn. split; [done|]. split; [done|]. change (nice_ok 0). unfold nice_ok. lia.
Defined.

(** In every reachable state a task is current on at most one CPU, is never
    current and queued at once, and is queued at most once, on one CPU. *)
Theorem o1_exclusive env s x :
  env_ok env -> reachable env s ->
  (forall c c', cur s c = Some x -> cur s c' = Some x -> c = c') /\
  (forall c c' p, cur s c = Some x -> ~ in_rq (rq s c') x p) /\
  (forall c c' p p', in_rq (rq s c) x p -> in_rq (rq s c') x p' -> c = c' /\ p = p') /\
  (forall c, NoDup (order (active_ (rq s c)) ++ order (expired_ (rq s c)))).
Proof.
  intros Henv Hr. pose proof (reachable_inv _ _ Henv Hr) as Hi.
  split_and!.
  - intros c c' H H'. apply (inv_cur _ _ _ Hi) in H as (_ & tk & Hx & _ & <-).
    apply (inv_cur _ _ _ Hi) in H' as (_ & tk' & Hx' & _ & <-). congruence.
  - intros c c' p H H'. apply (inv_cur _ _ _ Hi) in H as (_ & tk & Hx & Hst & _).
    apply (inv_in _ _ _ Hi) in H' as (_ & tk' & Hx' & Hst' & _). congruence.
  - intros c c' p p' H H'. apply (inv_in _ _ _ Hi) in H as (_ & tk & Hx & _ & <- & <-).
    apply (inv_in _ _ _ Hi) in H' as (_ & tk' & Hx' & _ & <- & <-).
    rewrite Hx in Hx'. by injection Hx' as <-.
  - intros c. apply (rq_nodup _ (inv_rq _ _ _ Hi c)).
Qed.

Lemma o1_exclusive_witness :
  NoDup (order (active_ (rq (initial demo_env) 1)) ++ order (expired_ (rq (initial demo_env) 1))).
Proof.
  exact (proj2 (proj2 (proj2
    (o1_exclusive demo_env (initial demo_env) 7 demo_env_ok (reach_initial demo_env)))) 1).
Defined.
