(* ===== verification/O1Props.v ===== *)
(** * What the O(1) scheduler does

    Functional properties of the runqueue, the time slices, placement and the
    transaction paths, on top of the invariant of [O1Safety]. *)

From S2P Require Import Prelude GhostAbi Dispatch PrioArray O1Sched O1Inv O1Handlers O1Safety.
Import O1.

(** The order in which the runqueue's tasks are dispatched: the active array by
    priority, FIFO within a priority, then the expired array likewise. *)
Definition dispatch_order (r : O1Rq) : list Z := order (active_ r) ++ order (expired_ r).

Lemma dispatch_order_base r :
  rq_wf r -> dispatch_order (base_rq r) = dispatch_order r.
Proof.
  intros [Ha _ _]. unfold base_rq, dispatch_order, Swap. destruct (Prio.empty _) eqn:E; [|done].
  apply (empty_order _ Ha) in E. cbn. by rewrite E, app_nil_r.
Qed.

Lemma picked_order r x r' :
  rq_wf r -> picked r x r' -> dispatch_order r = x :: dispatch_order r'.
Proof.
  intros Hwf [_ Ho He _]. rewrite <- (dispatch_order_base r Hwf). unfold dispatch_order.
  by rewrite Ho, He.
Qed.

Lemma size_dispatch r : Size r = Z.of_nat (length (dispatch_order r)).
Proof. unfold Size, dispatch_order. rewrite !size_order, length_app. lia. Qed.

Lemma Empty_dispatch r : Empty r = bool_decide (dispatch_order r = []).
Proof.
  unfold Empty. rewrite size_dispatch. destruct (dispatch_order r); [done|]. cbn [length].
  rewrite bool_decide_false by done. apply Z.eqb_neq. lia.
Qed.

Lemma rq_upd_rq c r s : rq (upd_cs c (set_run_queue r) s) c = r.
Proof. rewrite rq_upd_cs. by rewrite decide_True. Qed.

(** One event takes the scheduler from [s] to [s']. *)
Definition goes (env : Env) (ev : event) (s s' : O1State) : Prop :=
  run_event env ev s = Some (tt, s').

(** ** Claims: the runqueue *)

(** C3: [Dequeue] refines taking the head of the dispatch order: it returns the first
    task (highest priority first, FIFO within a priority, the expired array only
    once the active one is empty) now [kRunnable], leaves the rest in order, and
    returns null exactly when the runqueue is empty; nothing else changes. *)
Theorem dequeue_refines env c s :
  inv env None s ->
  exists s', Dequeue c s = Some (list.head (dispatch_order (rq s c)), s') /\
    dispatch_order (rq s' c) = tail (dispatch_order (rq s c)) /\
    (forall c', c' <> c -> rq s' c' = rq s c') /\
    match list.head (dispatch_order (rq s c)) with
    | None => s' = s
    | Some x => exists tk, tasks s !! x = Some tk /\ cpu tk = c /\ run_state tk = kQueued /\
        tasks s' = <[x := set_run_state kRunnable tk]> (tasks s)
    end.
Proof.
  intros Hi.
  assert (Hwp : wp (Dequeue c) (fun r s' =>
    r = list.head (dispatch_order (rq s c)) /\
    dispatch_order (rq s' c) = tail (dispatch_order (rq s c)) /\
    (forall c', c' <> c -> rq s' c' = rq s c') /\
    match list.head (dispatch_order (rq s c)) with
    | None => s' = s
    | Some x => exists tk, tasks s !! x = Some tk /\ cpu tk = c /\ run_state tk = kQueued /\
        tasks s' = <[x := set_run_state kRunnable tk]> (tasks s)
    end) s).
  { pose proof (inv_rq _ _ _ Hi c) as Hwf. eapply wp_Dequeue; [done|..].
    - intros Ha He. apply (empty_order _ (rq_active _ Hwf)) in Ha.
      apply (empty_order _ (rq_expired _ Hwf)) in He. unfold dispatch_order. by rewrite Ha, He.
    - intros x tk r' Hx Hst Hc Hp. rewrite (picked_order _ _ _ Hwf Hp). cbn [list.head tail].
      split_and!; [done|..].
      + change (dispatch_order (rq (upd_cs c (set_run_queue r') s) c) = dispatch_order r').
        by rewrite rq_upd_rq.
      + intros c' Hne. change (rq (upd_cs c (set_run_queue r') s) c' = rq s c').
        by rewrite rq_upd_cs, decide_False.
      + eauto. }
  apply wp_run in Hwp as (r & s' & Hrun & -> & ?). eauto.
Qed.

Lemma dequeue_refines_witness :
  exists s', Dequeue 0 (initial demo_env) = Some (None, s') /\ s' = initial demo_env.
Proof.
  destruct (dequeue_refines demo_env 0 (initial demo_env) (inv_initial demo_env))
    as (s' & H1 & _ & _ & H2).
  exists s'. split; [exact H1|exact H2].
Defined.

(** Priorities along a stretch of buckets. *)
Lemma buckets_prio a i n t :
  t ∈ buckets a i n -> exists k, i <= k < i + n /\ t ∈ queues a !!! k.
Proof.
  unfold buckets. rewrite list_elem_of_In, in_concat. intros (q & Hq & Ht).
  apply list_elem_of_In, list_elem_of_fmap in Hq as (k & -> & Hk). apply elem_of_seqZ in Hk.
  exists k. rewrite list_elem_of_In. split; [lia|done].
Qed.

(** [l'] is the dispatch order of [a] with [x], of priority [p], inserted behind
    everything more urgent, before everything less urgent, and at the chosen end
    of its own priority. *)
Definition inserted (a : PrioArray) (x p : Z) (front : bool) (l' : list Z) : Prop :=
  exists l1 l2, order a = l1 ++ l2 /\ l' = l1 ++ x :: l2 /\
    (forall t, t ∈ l1 -> exists q, in_bucket a t q /\ if front then q < p else q <= p) /\
    (forall t, t ∈ l2 -> exists q, in_bucket a t q /\ if front then p <= q else p < q).

Lemma push_position a x p (front : bool) :
  prio_ok p -> inserted a x p front (order (push_arr a x p front)).
Proof.
  unfold prio_ok. intros Hp. set (k := p - kBasePrio) in *.
  assert (Hb : forall i n t, 0 <= i -> i + n <= kNumPrio -> t ∈ buckets a i n ->
    exists q, in_bucket a t q /\ i <= q - kBasePrio < i + n).
  { intros i n t H1 H2 Ht. apply buckets_prio in Ht as (j & Hj & Ht). exists (j + kBasePrio).
    unfold in_bucket. replace (j + kBasePrio - kBasePrio) with j by lia. split; [|lia]. split; [lia|done]. }
  assert (Hk : forall t, t ∈ queues a !!! k -> in_bucket a t p) by (intros; split; done).
  unfold inserted, push_arr. fold k. rewrite order_insert, (order_at a k) by done.
  assert (Hlt : forall t, t ∈ buckets a 0 k -> exists q, in_bucket a t q /\ q < p).
  { intros t Ht. apply Hb in Ht as (q & ? & ?); [|lia..]. exists q. split; [done|lia]. }
  assert (Hgt : forall t, t ∈ buckets a (k + 1) (kNumPrio - k - 1) -> exists q, in_bucket a t q /\ p < q).
  { intros t Ht. apply Hb in Ht as (q & ? & ?); [|lia..]. exists q. split; [done|lia]. }
  destruct front.
  - exists (buckets a 0 k), (queues a !!! k ++ buckets a (k + 1) (kNumPrio - k - 1)).
    split_and!; [done|done|done|]. intros t [Ht|Ht]%elem_of_app.
    + exists p. split; [by apply Hk|lia].
    + destruct (Hgt t Ht) as (q & ? & ?). exists q. split; [done|lia].
  - exists (buckets a 0 k ++ queues a !!! k), (buckets a (k + 1) (kNumPrio - k - 1)).
    rewrite <- !app_assoc. split_and!; [done|done| |done]. intros t [Ht|Ht]%elem_of_app.
    + destruct (Hlt t Ht) as (q & ? & ?). exists q. split; [done|lia].
    + exists p. split; [by apply Hk|lia].
Qed.

(** C11: [Enqueue] of a runnable task: with time left the task goes to the active array,
    otherwise it gets a fresh 10 ms slice and goes to the expired one; there it is
    inserted in priority order, at the back of its priority, or at the front when
    [prio_boost] is set; the other array is untouched. *)
Theorem enqueue_position env c x tk s :
  inv env (Some x) s -> tasks s !! x = Some tk -> run_state tk = kRunnable -> cpu tk = c ->
  c ∈ cpus env -> env_ok env -> prio_ok (static_priority tk) ->
  exists s' tk', Enqueue c x s = Some (tt, s') /\ inv env None s' /\
    tasks s' !! x = Some tk' /\ run_state tk' = kQueued /\
    let to_active := 0 <? remaining_time tk in
    let arr r := if to_active then active_ r else expired_ r in
    let other r := if to_active then expired_ r else active_ r in
    remaining_time tk' = (if to_active then remaining_time tk else 10000000) /\
    other (rq s' c) = other (rq s c) /\
    inserted (arr (rq s c)) x (static_priority tk) (prio_boost tk) (order (arr (rq s' c))).
Proof.
  intros Hi Hx Hst Hcpu Hc Henv Hp. destruct (env_cpus_range _ Henv c Hc).
  exists (enq c x tk s), (queued_task tk). split.
  { apply wp_exact. eapply wp_Enqueue; [done|lia|done..]. }
  split; [by apply inv_enq|].
  assert (Hr : rq (enq c x tk s) c = enq_rq (rq s c) x tk) by (unfold enq; by rewrite rq_upd_rq).
  split; [unfold enq; tlook|]. rewrite Hr. unfold queued_task, enq_rq.
  destruct (0 <? remaining_time tk); cbn [active_ expired_];
    (split; [done|]); (split; [done|]); (split; [done|]); by apply push_position.
Qed.

(** The agent loop's exit test [Empty(cpu)] is true exactly when no task is
    [kQueued] on the CPU, and [Size] counts the queued tasks. *)
Theorem empty_iff_no_queued env c s :
  inv env None s ->
  (sched_Empty c s = Some (true, s) <->
     forall x tk, tasks s !! x = Some tk -> cpu tk = c -> run_state tk <> kQueued) /\
  Size (rq s c) = Z.of_nat (length (dispatch_order (rq s c))).
Proof.
  intros Hi. split; [|apply size_dispatch].
  change (sched_Empty c s) with (Some (Empty (rq s c), s)). rewrite Empty_dispatch.
  assert (Hord : forall x, x ∈ dispatch_order (rq s c) <-> exists p, in_rq (rq s c) x p)
    by apply elem_of_orders.
  split.
  - intros [= He]. apply bool_decide_eq_true in He. intros x tk Hx <- Hst.
    apply (inv_queued _ _ _ Hi x tk) in Hst; [|done..].
    assert (Hin : x ∈ dispatch_order (rq s (cpu tk))) by (apply Hord; eauto).
    rewrite He in Hin. by apply not_elem_of_nil in Hin.
  - intros Hn. rewrite bool_decide_true; [done|].
    destruct (dispatch_order (rq s c)) as [|x l] eqn:E; [done|]. exfalso.
    assert (Hin : x ∈ x :: l) by set_solver. apply Hord in Hin as (p & Hp).
    apply (inv_in _ _ _ Hi) in Hp as (_ & tk & Hx & Hst & Hc & _). by apply (Hn x tk).
Qed.

Lemma empty_iff_no_queued_witness :
  sched_Empty 1 (initial demo_env) = Some (true, initial demo_env).
Proof.
  apply (empty_iff_no_queued demo_env 1 (initial demo_env) (inv_initial demo_env)).
  intros x tk Hx. done.
Defined.

(** A runnable task 7 in hand on CPU 0. *)
Definition demo_task : O1Task := mkO1Task 1 120 kRunnable 0 false false 0 5000000.
Definition demo_state : O1State := upd_task 7 demo_task (initial demo_env).

Lemma demo_state_inv : inv demo_env (Some 7) demo_state.
Proof. apply inv_hole_write, inv_open; [apply inv_initial|]. done. Qed.

Lemma enqueue_position_witness :
  exists s' tk', Enqueue 0 7 demo_state = Some (tt, s') /\ inv demo_env None s' /\
    tasks s' !! 7 = Some tk' /\ run_state tk' = kQueued.
Proof.
  destruct (enqueue_position demo_env 0 7 demo_task demo_state demo_state_inv)
    as (s' & tk' & H1 & H2 & H3 & H4 & _); try done.
  - cbn. set_solver.
  - apply demo_env_ok.
  - by exists s', tk'.
Defined.

(** ** Claims: time slices *)

(** [Decide] with the current task's slice used up. *)
Lemma wp_preempt_decide env c x tk ab (Q : unit -> O1State -> Prop) s :
  env_ok env -> inv env None s -> c ∈ cpus env ->
  cur s c = Some x -> preempt_curr (cpu_states_ s !!! c) = true -> tasks s !! x = Some tk ->
  (dispatch_order (rq s c) = [] ->
     wp (CommitNext env c x ab) Q (upd_task x (set_remaining_time 10000000 tk)
        (upd_cs c (set_preempt_curr false) s))) ->
  (forall y l tky r', dispatch_order (rq s c) = y :: l -> tasks s !! y = Some tky ->
     run_state tky = kQueued -> cpu tky = c -> picked (rq s c) y r' ->
     wp (CommitNext env c y ab) Q
       (upd_task y (set_run_state kRunnable tky) (upd_cs c (set_run_queue r')
          (upd_cs c (set_current None) (upd_cs c (set_preempt_curr false) s))))) ->
  wp (O1Schedule env c ab false) Q s.
Proof.
  intros Henv Hi Hc Hcur Hpc Hx Hempty Hne. unfold O1Schedule, HandlePreemptCurr. h_steps.
  rewrite Hpc. cbn [when]. fold (cur s c). rewrite Hcur. fold (rq s c). h_steps.
  rewrite Empty_dispatch. destruct (dispatch_order (rq s c)) as [|y l] eqn:Ho.
  - rewrite bool_decide_true by done. cbn [negb]. unfold SetRemainingTime. h_steps.
    unfold PickNext. cbn [negb]. h_steps.
    change (current (cpu_states_ _ !!! c)) with (cur (upd_cs c (set_preempt_curr false) s) c).
    rewrite cur_upd_cs, decide_True by done. cbn [set_preempt_curr current]. fold (cur s c).
    rewrite Hcur. h_steps. by apply Hempty.
  - rewrite bool_decide_false by done. cbn [negb]. h_steps. unfold PickNext. cbn [negb]. h_steps.
    set (s1 := upd_cs c (set_current None) (upd_cs c (set_preempt_curr false) s)).
    change (current (cpu_states_ s1 !!! c)) with (cur s1 c).
    assert (Hcur1 : cur s1 c = None) by (subst s1; by rewrite cur_upd_cs, decide_True).
    assert (Hrq1 : rq s1 c = rq s c).
    { subst s1. rewrite rq_upd_cs, decide_True by done. cbn [set_current run_queue].
      change (rq (upd_cs c (set_preempt_curr false) s) c = rq s c). by rewrite rq_upd_cs, decide_True. }
    rewrite Hcur1. assert (Hi1 : inv env None s1) by (subst s1; eauto with ghost).
    eapply wp_Dequeue; [exact Hi1|..].
    + rewrite Hrq1. intros Ha He. apply (empty_order _ (rq_active _ (inv_rq _ _ _ Hi c))) in Ha.
      apply (empty_order _ (rq_expired _ (inv_rq _ _ _ Hi c))) in He.
      unfold dispatch_order in Ho. by rewrite Ha, He in Ho.
    + intros z tkz r' Hz Hst Hcpu Hpick. rewrite Hrq1 in Hpick.
      pose proof (picked_order _ _ _ (inv_rq _ _ _ Hi c) Hpick) as Ho'. rewrite Ho in Ho'.
      injection Ho' as <- _. by eapply Hne.
Qed.

(** The same CPU flag and current task after a tick that ends the slice. *)
Lemma tick_expires env c x tk sn ia s :
  inv env None s -> cur s c = Some x -> tasks s !! x = Some tk ->
  remaining_time tk <= Now env (reads s) - runtime_at_last_pick tk ->
  exists s', run_event env (Deliver (Message.of_payload sn (P_cpu_tick (mk_cpu_tick c ia)))) s
      = Some (tt, s') /\ inv env None s' /\
    cur s' c = Some x /\ preempt_curr (cpu_states_ s' !!! c) = true /\
    (forall c', rq s' c' = rq s c') /\ reads s' = S (S (reads s)) /\
    exists tk', tasks s' = <[x := tk']> (tasks s) /\ run_state tk' = run_state tk.
Proof.
  intros Hi Hcur Hx Hel.
  assert (Hwp : wp (CpuTick env (Message.of_payload sn (P_cpu_tick (mk_cpu_tick c ia)))) (fun _ s' =>
    s' = upd_cs c (set_preempt_curr true) (upd_task x
      (set_runtime_at_last_pick (Now env (S (reads s))) (charge (Now env (reads s)) tk))
      (bump (bump s)))) s).
  { unfold CpuTick. h_step. eapply wp_deref; [done|]. unfold CheckPreemptTick. h_steps.
    cbn [ct_cpu]. fold (cur s c). rewrite Hcur. unfold UpdateRemainingTime, SetRuntimeAtLastPick.
    h_steps. cbn [remaining_time set_remaining_time set_runtime_at_last_pick].
    rewrite (proj2 (Z.leb_le _ _)) by lia. h_steps. cbn [when]. h_steps.
    change (bump (upd_task x ?a ?b)) with (upd_task x a (bump b)). by rewrite upd_upd_task. }
  destruct (wp_run _ _ _ Hwp) as ([] & s' & Hrun & ->).
  exists (upd_cs c (set_preempt_curr true) (upd_task x
      (set_runtime_at_last_pick (Now env (S (reads s))) (charge (Now env (reads s)) tk)) (bump (bump s)))).
  split; [exact Hrun|]. split.
  { pose proof (CpuTick_ok env sn (mk_cpu_tick c ia) s Hi) as Hok. unfold wp in Hok. by rewrite Hrun in Hok. }
  rewrite cur_upd_cs, decide_True by done. split; [exact Hcur|].
  split; [unfold upd_cs; cbn; by rewrite lookup_total_insert_eq|].
  split; [intros c'; rewrite rq_upd_cs; by case_decide; subst|].
  split; [done|]. eexists. by split.
Qed.

(** A transaction that succeeds puts its task on the CPU. *)
Lemma wp_commit_success env c y tky ab s :
  env_ok env -> (forall n, Commit_ok env n = true) -> tasks s !! y = Some tky ->
  wp (CommitNext env c y ab)
    (fun _ s2 => exists s3, same_sched s s3 /\ (reads s <= reads s3)%nat /\
       s2 = running env c y tky s3) s.
Proof.
  intros Henv Hcommit Hy. unfold CommitNext. h_step. apply wp_WaitOffCpu; [apply (env_spin _ Henv)|].
  intros s3 Hs3 Hle. rewrite <- (same_tasks _ _ Hs3) in Hy. h_steps. rewrite Hcommit.
  eapply wp_TaskOnCpu; [exact Hy|]. eexists. split; [|split; [|done]].
  - destruct Hs3. split; done.
  - cbn. lia.
Qed.

Lemma cur_running env c y tk s : cur (running env c y tk s) c = Some y.
Proof.
  change (cur (upd_cs c (set_current (Some y)) (bump s)) c = Some y).
  by rewrite cur_upd_cs, decide_True.
Qed.

Lemma rq_running env c y tk s : rq (running env c y tk s) c = rq s c.
Proof.
  change (rq (upd_cs c (set_current (Some y)) (bump s)) c = rq s c).
  by rewrite rq_upd_cs, decide_True.
Qed.

(** What the decision after the end of [x]'s slice leads to. *)
Definition switched (c x : Z) (queue : list Z) (s2 : O1State) : Prop :=
  match queue with
  | [] => cur s2 c = Some x /\
      exists tk2, tasks s2 !! x = Some tk2 /\ run_state tk2 = kOnCpu /\ remaining_time tk2 = 10000000
  | y :: l => y <> x /\ cur s2 c = Some y /\ dispatch_order (rq s2 c) = l /\
      exists tk2, tasks s2 !! y = Some tk2 /\ run_state tk2 = kOnCpu
  end.

Lemma decide_switches env c x tk ab s :
  env_ok env -> (forall n, Commit_ok env n = true) -> inv env None s -> c ∈ cpus env ->
  cur s c = Some x -> preempt_curr (cpu_states_ s !!! c) = true -> tasks s !! x = Some tk ->
  wp (O1Schedule env c ab false) (fun _ s2 => switched c x (dispatch_order (rq s c)) s2) s.
Proof.
  intros Henv Hcommit Hi Hc Hcur Hpc Hx. eapply (wp_preempt_decide _ _ x tk); [done..| |].
  - intros ->. eapply wp_mono; [apply wp_commit_success; [done..|tlook]|].
    intros _ s2 (s3 & Hs3 & _ & ->). split; [apply cur_running|].
    eexists. split; [unfold running; tlook|done].
  - intros y l tky r' Ho Hy Hst Hcpu Hpick. rewrite Ho.
    eapply wp_mono; [apply wp_commit_success; [done..|tlook]|].
    intros _ s2 (s3 & Hs3 & _ & ->). split_and!.
    + intros ->. destruct (inv_cur _ _ _ Hi c x Hcur) as (_ & tkx & Hx1 & Hst' & _). congruence.
    + apply cur_running.
    + rewrite rq_running. unfold rq. rewrite (same_cpus _ _ Hs3).
      change (dispatch_order (rq (upd_cs c (set_run_queue r')
        (upd_cs c (set_current None) (upd_cs c (set_preempt_curr false) s))) c) = l).
      rewrite rq_upd_rq.
      pose proof (picked_order _ _ _ (inv_rq _ _ _ Hi c) Hpick) as Ho'. congruence.
    + eexists. split; [unfold running; tlook|done].
Qed.

(** C10: when a timer tick finds that the current task of a CPU has run for its remaining
    slice or longer, the next (unboosted) scheduling decision of that CPU
    commits the head of the dispatch order, a different task, if the
    runqueue has one; otherwise it gives the current task a fresh slice and
    commits it again. *)
Theorem slice_end_switches env c x tk sn ia ab s :
  env_ok env -> inv env None s -> c ∈ cpus env -> cur s c = Some x -> tasks s !! x = Some tk ->
  remaining_time tk <= Now env (reads s) - runtime_at_last_pick tk ->
  (forall n, Commit_ok env n = true) ->
  exists s1 s2,
    run_event env (Deliver (Message.of_payload sn (P_cpu_tick (mk_cpu_tick c ia)))) s = Some (tt, s1) /\
    run_event env (Decide c ab false) s1 = Some (tt, s2) /\ inv env None s2 /\
    switched c x (dispatch_order (rq s c)) s2.
Proof.
  intros Henv Hi Hc Hcur Hx Hel Hcommit.
  destruct (tick_expires env c x tk sn ia s Hi Hcur Hx Hel)
    as (s1 & Hrun1 & Hi1 & Hcur1 & Hpc1 & Hrq1 & _ & tk' & Ht1 & Hst1).
  assert (Hx1 : tasks s1 !! x = Some tk') by (by rewrite Ht1, lookup_insert_eq).
  destruct (wp_run _ _ _ (decide_switches env c x tk' ab s1 Henv Hcommit Hi1 Hc Hcur1 Hpc1 Hx1))
    as ([] & s2 & Hrun2 & Hpost).
  rewrite Hrq1 in Hpost. exists s1, s2. split_and!; [done|done| |done].
  pose proof (O1Schedule_ok env Henv c ab false s1 Hc Hi1) as Hok. unfold wp in Hok.
  by rewrite Hrun2 in Hok.
Qed.

(** Task 7 running on CPU 0. *)
Definition demo_running : O1State := running demo_env 0 7 demo_task demo_state.
Definition demo_running_task : O1Task := oncpu_task 0 (Now demo_env (reads demo_state)) demo_task.

Lemma demo_running_inv : inv demo_env None demo_running.
Proof. apply inv_running; [cbn; set_solver|done|apply demo_state_inv]. Qed.

Lemma slice_end_switches_witness :
  exists s1 s2,
    run_event demo_env (Deliver (Message.of_payload 3 (P_cpu_tick (mk_cpu_tick 0 0)))) demo_running
      = Some (tt, s1) /\
    run_event demo_env (Decide 0 9 false) s1 = Some (tt, s2) /\ inv demo_env None s2 /\
    switched 0 7 [] s2.
Proof.
  apply (slice_end_switches demo_env 0 7 demo_running_task 3 0 9 demo_running);
    [apply demo_env_ok|apply demo_running_inv|cbn; set_solver|done|done|done|done].
Defined.

(** Pushing the picked task back to the front restores the order. *)
Lemma unpick_order r x p r' :
  picked r x r' -> (forall q, in_rq r x q -> q = p) -> prio_ok p ->
  order (push_arr (active_ r') x p true) = x :: order (active_ r').
Proof.
  intros [_ _ _ (p' & Hp' & Hmin)] Hu Hp. apply Hu in Hp' as ->.
  destruct (push_position (active_ r') x p true Hp) as (l1 & l2 & Ho & -> & Hl1 & _).
  destruct l1 as [|t l1]; [by rewrite Ho|].
  destruct (Hl1 t) as (q & Hq & Hlt); [set_solver|]. apply Hmin in Hq. lia.
Qed.

(** A decision whose transaction fails. *)
Lemma wp_commit_failure env c x tk ab s :
  env_ok env -> (forall n, Commit_ok env n = false) -> c ∈ cpus env -> cur s c = None ->
  tasks s !! x = Some tk -> run_state tk = kRunnable -> cpu tk = c -> prio_ok (static_priority tk) ->
  wp (CommitNext env c x ab)
    (fun _ s2 => exists s3, same_sched s s3 /\
       s2 = enq c x (set_prio_boost true tk) (upd_task x (set_prio_boost true tk) s3)) s.
Proof.
  intros Henv Hcommit Hc Hcur Hx Hst Hcpu Hp. unfold CommitNext. h_step.
  apply wp_WaitOffCpu; [apply (env_spin _ Henv)|].
  intros s3 Hs3 _. pose proof Hx as Hx3. rewrite <- (same_tasks _ _ Hs3) in Hx3. h_steps.
  rewrite Hcommit. h_steps. apply wp_when; intros Hb.
  - apply bool_decide_eq_true in Hb. cbn [bump log cpu_states_] in Hb.
    rewrite (same_cpus _ _ Hs3) in Hb. unfold cur in Hcur. congruence.
  - destruct (env_cpus_range _ Henv c Hc). h_steps.
    eapply (wp_Enqueue _ _ (set_prio_boost true tk)); [tlook|cbn; lia|done..|].
    eexists. split; [|done]. destruct Hs3. split; done.
Qed.

(** A failed transaction loses nothing: when the CPU has no current task and the
    commit of the picked task fails, the task is queued again with its boost set
    and the dispatch order is what it was, so the same task is tried next. *)
Theorem failed_commit_keeps_order env c ab x l s :
  env_ok env -> inv env None s -> c ∈ cpus env -> cur s c = None ->
  preempt_curr (cpu_states_ s !!! c) = false -> dispatch_order (rq s c) = x :: l ->
  (forall n, Commit_ok env n = false) ->
  exists s' tk', run_event env (Decide c ab false) s = Some (tt, s') /\ inv env None s' /\
    dispatch_order (rq s' c) = x :: l /\ cur s' c = None /\
    tasks s' !! x = Some tk' /\ run_state tk' = kQueued /\ prio_boost tk' = true.
Proof.
  intros Henv Hi Hc Hcur Hpc Ho Hcommit.
  assert (Hwp : wp (run_event env (Decide c ab false)) (fun _ s' =>
    exists tk', dispatch_order (rq s' c) = x :: l /\ cur s' c = None /\
      tasks s' !! x = Some tk' /\ run_state tk' = kQueued /\ prio_boost tk' = true) s).
  { cbn [run_event]. unfold O1Schedule, HandlePreemptCurr. h_steps. rewrite Hpc. cbn [when]. h_steps.
    unfold PickNext. cbn [negb]. h_steps. fold (cur s c). rewrite Hcur.
    pose proof (inv_rq _ _ _ Hi c) as Hwf. eapply wp_Dequeue; [done|..].
    { intros Ha He. apply (empty_order _ (rq_active _ Hwf)) in Ha.
      apply (empty_order _ (rq_expired _ Hwf)) in He. unfold dispatch_order in Ho. by rewrite Ha, He in Ho. }
    intros y tk r' Hy Hst Hcpu Hpick. pose proof (picked_order _ _ _ Hwf Hpick) as Ho'.
    rewrite Ho in Ho'. injection Ho' as <- Hl.
    destruct (inv_task _ _ _ Hi x tk ltac:(done) Hy) as (Hp & _ & _ & Hrem). specialize (Hrem Hst).
    eapply wp_mono; [eapply (wp_commit_failure _ _ _ (set_run_state kRunnable tk)); try done; [|tlook]|].
    { change (cur (upd_cs c (set_run_queue r') s) c = None). by rewrite cur_upd_cs, decide_True. }
    intros _ s2 (s3 & Hs3 & ->).
    exists (queued_task (set_prio_boost true (set_run_state kRunnable tk))).
    assert (Hr3 : rq s3 c = r') by (unfold rq; rewrite (same_cpus _ _ Hs3); apply rq_upd_rq).
    assert (Hc3 : cur s3 c = None).
    { unfold cur. rewrite (same_cpus _ _ Hs3). change (cur (upd_cs c (set_run_queue r') s) c = None).
      by rewrite cur_upd_cs, decide_True. }
    unfold enq, enq_rq, queued_task. cbn [remaining_time set_prio_boost set_run_state].
    rewrite (proj2 (Z.ltb_lt _ _) Hrem). rewrite rq_upd_rq, cur_upd_cs, decide_True by done.
    change (rq (upd_task x ?a s3) c) with (rq s3 c). rewrite Hr3.
    unfold dispatch_order. cbn [active_ expired_ static_priority set_prio_boost set_run_state prio_boost].
    rewrite (unpick_order _ _ _ _ Hpick); [|..].
    - split_and!; [by rewrite Hl|done|tlook|done|done].
    - intros q Hq. apply (inv_in _ _ _ Hi) in Hq as (_ & tk2 & Hy2 & _ & _ & <-). congruence.
    - done. }
  apply wp_run in Hwp as ([] & s' & Hrun & tk' & Hpost). exists s', tk'. split; [done|].
  split; [|done]. pose proof (O1Schedule_ok env Henv c ab false s Hc Hi) as Hok. unfold wp in Hok.
  change (O1Schedule env c ab false s) with (run_event env (Decide c ab false) s) in Hok.
  by rewrite Hrun in Hok.
Qed.

(** The same enclave, with a kernel that refuses every transaction. *)
Definition refusing_env : Env :=
  mkEnv [0; 1] (fun n => 10000000 * Z.of_nat n) (fun _ => true) (fun _ => false) (fun _ => false) 1.

Lemma refusing_env_ok : env_ok refusing_env.
Proof. destruct demo_env_ok as [? ? ? ?]. by split. Qed.

Definition demo_queued : O1State := enq 0 7 demo_task demo_state.

Lemma demo_queued_inv env : cpus env = [0; 1] -> inv env None demo_queued.
Proof.
  intros Hc. apply inv_enq; [|done|done|rewrite Hc; set_solver]. apply inv_hole_write, inv_open; [|done].
  destruct (inv_initial demo_env) as [H1 H2 H3 H4 H5 H6]. split; try done.
  cbn in H6 |- *. by rewrite Hc.
Qed.

Lemma failed_commit_keeps_order_witness :
  exists s' tk', run_event refusing_env (Decide 0 9 false) demo_queued = Some (tt, s') /\
    inv refusing_env None s' /\ dispatch_order (rq s' 0) = [7] /\ cur s' 0 = None /\
    tasks s' !! 7 = Some tk' /\ run_state tk' = kQueued /\ prio_boost tk' = true.
Proof.
  apply (failed_commit_keeps_order refusing_env 0 9 7 [] demo_queued);
    [apply refusing_env_ok|by apply demo_queued_inv|cbn; set_solver|vm_compute; reflexivity..|done].
Defined.

(** ** Claims: where the slices and the fairness go *)

(** Dispatch of a message that leaves the sequence number to the dispatcher. *)
Lemma wp_dispatch_advance env x tk sn p (m : M O1State unit) (Q : unit -> O1State -> Prop) s :
  tasks s !! x = Some tk -> Message.gtid (Message.of_payload sn p) = Some x -> x <> 0 ->
  is_new p = false -> Message.is_cpu_msg (Message.of_payload sn p) = false ->
  payload_type p <> MSG_NOP ->
  @DispatchTaskMessage _ (O1Handlers env) x (Message.of_payload sn p) = (m ;;; mret true) ->
  wp m (fun _ s' => wp (Advance x sn) Q s') s ->
  wp (run_event env (Deliver (Message.of_payload sn p))) Q s.
Proof.
  intros Hx Hg Hnz Hnew Hcpu Hnop Hdisp Hm. cbn [run_event].
  eapply (DispatchMessage_task _ x); try done.
  - destruct p; done.
  - destruct p; done.
  - cbn. intros Hn. congruence.
  - intros _. rewrite Hdisp. apply wp_bind. eapply wp_mono; [exact Hm|]. intros ? s' Hs'. by apply wp_ret.
Qed.

(** The task that goes back to the runqueue after a preemption. *)
Definition preempted_task (env : Env) (tk : O1Task) (s : O1State) : O1Task :=
  set_prio_boost true (set_preempted true (offcpu_task env tk false s)).

Lemma preempted_task_fields env tk s :
  run_state (preempted_task env tk s) = kRunnable /\ cpu (preempted_task env tk s) = cpu tk /\
  static_priority (preempted_task env tk s) = static_priority tk /\
  prio_boost (preempted_task env tk s) = true /\ o1_seqnum (preempted_task env tk s) = o1_seqnum tk.
Proof. unfold preempted_task, offcpu_task. by destruct (oncpu tk). Qed.

Lemma wp_TaskPreempted env x tk sn p (Q : unit -> O1State -> Prop) s :
  env_ok env -> inv env None s -> tasks s !! x = Some tk -> run_state tk = kOnCpu ->
  tp_from_switchto p = 0 ->
  Q tt (enq (cpu tk) x (preempted_task env tk s)
          (upd_task x (preempted_task env tk s) (offcpu env x tk false s))) ->
  wp (TaskPreempted env x (Message.of_payload sn (P_preempt p))) Q s.
Proof.
  intros Henv Hi Hx Hst Hfs HQ.
  assert (Hpl : placed env tk) by (eapply oncpu_placed; [done..|congruence]).
  destruct (inv_task _ _ _ Hi x tk ltac:(done) Hx) as (Hp & _).
  destruct (preempted_task_fields env tk s) as (G1 & G2 & G3 & _).
  unfold TaskPreempted. h_step. eapply wp_deref; [done|]. h_steps.
  eapply wp_TaskOffCpu; [done..|by left|].
  pose proof (lookup_offcpu env x tk false s) as Hl. h_steps. rewrite upd_upd_task.
  fold (preempted_task env tk s).
  eapply (wp_cpu_state_of _ _ (preempted_task env tk s)); [done|tlook|by rewrite G2|].
  rewrite G2. h_step. destruct (env_cpus_range _ Henv _ Hpl).
  eapply (wp_Enqueue _ _ (preempted_task env tk s)); [tlook|lia|done|by rewrite G3|].
  unfold PingSwitchto. rewrite Hfs. exact HQ.
Qed.

(** A task that the kernel preempts after its slice has run out is put, with a
    fresh slice, at the front of its priority in the expired array: before the
    tasks of the same priority whose slices ran out earlier (so the expired
    order is last-in first-out, not round robin), and [preempt_curr] is left
    alone. *)
Theorem preempted_exhausted_goes_first env c x tk sn p s :
  env_ok env -> inv env None s -> cur s c = Some x -> tasks s !! x = Some tk ->
  remaining_time tk <= Now env (reads s) - runtime_at_last_pick tk ->
  tp_gtid p = x -> x <> 0 -> tp_from_switchto p = 0 -> o1_seqnum tk < sn ->
  exists s' tk', goes env (Deliver (Message.of_payload sn (P_preempt p))) s s' /\
    tasks s' !! x = Some tk' /\ run_state tk' = kQueued /\ remaining_time tk' = 10000000 /\
    cur s' c = None /\
    active_ (rq s' c) = active_ (rq s c) /\
    queues (expired_ (rq s' c)) !!! (static_priority tk - kBasePrio) =
      x :: queues (expired_ (rq s c)) !!! (static_priority tk - kBasePrio).
Proof.
  intros Henv Hi Hcur Hx Hel Hg Hnz Hfs Hsn.
  destruct (inv_cur _ _ _ Hi c x Hcur) as (_ & tk0 & Hx0 & Hst & Hcpu).
  rewrite Hx in Hx0. injection Hx0 as <-.
  assert (Hon : oncpu tk = true) by (by apply bool_decide_eq_true).
  set (tk1 := preempted_task env tk s).
  assert (Hrem : (0 <? remaining_time tk1) = false).
  { subst tk1. unfold preempted_task, offcpu_task. rewrite Hon. cbn. apply Z.ltb_ge. lia. }
  assert (Hwp : wp (run_event env (Deliver (Message.of_payload sn (P_preempt p)))) (fun _ s' =>
    s' = upd_task x (set_o1_seqnum sn (queued_task tk1))
           (enq (cpu tk) x tk1 (upd_task x tk1 (offcpu env x tk false s)))) s).
  { eapply (wp_dispatch_advance _ x tk _ _ (TaskPreempted env x (Message.of_payload sn (P_preempt p))));
      try done; [cbn; congruence|].
    apply (wp_TaskPreempted _ _ tk); [done..|].
    eapply (wp_Advance (St := O1State) _ _ (queued_task tk1)); [unfold enq; cbn; apply lookup_insert_eq| |done].
    destruct (preempted_task_fields env tk s) as (_ & _ & _ & _ & G5).
    unfold queued_task. rewrite Hrem. cbn [t_seqnum O1Task_type o1_seqnum set_run_state set_remaining_time].
    subst tk1. by rewrite G5. }
  apply wp_run in Hwp as ([] & s' & Hrun & ->). eexists _, _. split; [exact Hrun|].
  split; [tlook|]. unfold queued_task at 1 2. rewrite Hrem. split; [done|]. split; [done|].
  set (s1 := upd_task x tk1 (offcpu env x tk false s)).
  assert (Hs1 : s1 = upd_task x tk1 (clear_cur c x (bump s))).
  { subst s1. unfold offcpu. by rewrite Hon, upd_upd_task, Hcpu. }
  assert (Hrq1 : rq s1 c = rq s c).
  { rewrite Hs1. change (rq (clear_cur c x (bump s)) c = rq s c). unfold clear_cur.
    case_bool_decide; [|done]. by rewrite rq_upd_cs, decide_True. }
  change (rq (upd_task x ?a ?b) c) with (rq b c). change (cur (upd_task x ?a ?b) c) with (cur b c).
  unfold enq. rewrite Hcpu, rq_upd_rq, cur_upd_cs, decide_True by done. split.
  { cbn [current set_run_queue]. change (cur s1 c = None). rewrite Hs1.
    change (cur (clear_cur c x (bump s)) c = None). unfold clear_cur.
    rewrite bool_decide_true by done. by rewrite cur_upd_cs, decide_True. }
  rewrite Hrq1. unfold enq_rq. rewrite Hrem. cbn [active_ expired_]. split; [done|].
  destruct (preempted_task_fields env tk s) as (_ & _ & G3 & G4 & _). subst tk1.
  unfold push_arr. cbn [queues]. rewrite G3, G4. by rewrite lookup_total_insert_eq.
Qed.

Lemma preempted_exhausted_goes_first_witness :
  exists s' tk',
    goes demo_env (Deliver (demo_preempt 7 2 0)) demo_running s' /\
    tasks s' !! 7 = Some tk' /\ run_state tk' = kQueued /\ remaining_time tk' = 10000000 /\
    cur s' 0 = None /\ active_ (rq s' 0) = active_ (rq demo_running 0) /\
    queues (expired_ (rq s' 0)) !!! 20 = 7 :: queues (expired_ (rq demo_running 0)) !!! 20.
Proof.
  apply (preempted_exhausted_goes_first demo_env 0 7 demo_running_task 2
           (mk_task_preempt 7 0 0 0 0 0 0) demo_running);
    [apply demo_env_ok|apply demo_running_inv|done..].
Defined.

Lemma queued_task_seqnum tk : o1_seqnum (queued_task tk) = o1_seqnum tk.
Proof. unfold queued_task. by destruct (0 <? remaining_time tk). Qed.

(** A priority change of a queued task whose slice has expired moves it back to the
    active array (its slice was already refilled when it expired), so it is
    dispatched again before the tasks still waiting in the expired array. *)
Theorem priority_change_reactivates env x tk sn p s :
  env_ok env -> inv env None s -> tasks s !! x = Some tk -> run_state tk = kQueued ->
  in_bucket (expired_ (rq s (cpu tk))) x (static_priority tk) ->
  tpc_gtid p = x -> x <> 0 -> nice_ok (tpc_nice p) -> o1_seqnum tk < sn ->
  exists s', goes env (Deliver (Message.of_payload sn (P_priority p))) s s' /\
    inv env None s' /\
    in_bucket (active_ (rq s' (cpu tk))) x (120 + tpc_nice p) /\
    x ∉ order (expired_ (rq s' (cpu tk))).
Proof.
  intros Henv Hi Hx Hst Hexp Hg Hnz Hn Hsn. pose proof (prio_ok_nice _ Hn) as Hp.
  assert (Hpl : placed env tk) by (eapply oncpu_placed; [done..|congruence]).
  destruct (inv_task _ _ _ Hi x tk ltac:(done) Hx) as (_ & _ & _ & Hrem). specialize (Hrem Hst).
  destruct (env_cpus_range _ Henv _ Hpl).
  set (tk1 := set_static_priority (120 + tpc_nice p) (set_run_state kRunnable tk)).
  assert (Hrun : exists s', run_event env (Deliver (Message.of_payload sn (P_priority p))) s = Some (tt, s') /\
    in_bucket (active_ (rq s' (cpu tk))) x (120 + tpc_nice p)).
  { assert (Hwp : wp (run_event env (Deliver (Message.of_payload sn (P_priority p)))) (fun _ s' =>
      in_bucket (active_ (rq s' (cpu tk))) x (120 + tpc_nice p)) s).
    { eapply (wp_dispatch_advance _ x tk _ _ (TaskPriorityChanged x (Message.of_payload sn (P_priority p))));
        try done; [cbn; congruence|].
      unfold TaskPriorityChanged. h_step. eapply wp_deref; [done|]. h_steps.
      unfold queued. rewrite (bool_decide_eq_true_2 (run_state tk = kQueued)) by done. h_step.
      eapply wp_cpu_state_of; [done..|]. h_step. eapply wp_Erase; [done..|]. intros r' Hcut.
      h_steps. rewrite upd_upd_task. fold tk1.
      eapply (wp_Enqueue _ _ tk1); [tlook|done|done|done|].
      eapply (wp_Advance (St := O1State) _ _ (queued_task tk1)).
      - unfold enq. cbn. apply lookup_insert_eq.
      - change (o1_seqnum (queued_task tk1) < sn). by rewrite queued_task_seqnum.
      - change (in_bucket (active_ (rq (enq (cpu tk) x tk1 (upd_task x tk1 (upd_cs (cpu tk)
          (set_run_queue r') s))) (cpu tk))) x (120 + tpc_nice p)).
        unfold enq. rewrite rq_upd_rq. unfold enq_rq. cbn [remaining_time tk1 set_static_priority set_run_state].
        rewrite (proj2 (Z.ltb_lt _ _) Hrem). cbn [active_]. apply in_bucket_push; [done|]. by left. }
    apply wp_run in Hwp as ([] & s' & ? & ?). eauto. }
  destruct Hrun as (s' & Hrun & Hact). exists s'. split; [done|].
  destruct (event_inv env s (Deliver (Message.of_payload sn (P_priority p))) Henv Hi) as (s2 & Hrun2 & Hi2).
  { split; [done|]. cbn [Message.gtid Message.payload Message.of_payload is_new]. rewrite Hg, Hx. done. }
  rewrite Hrun in Hrun2. injection Hrun2 as <-. split_and!; [done|done|].
  pose proof (rq_nodup _ (inv_rq _ _ _ Hi2 (cpu tk))) as Hnd. apply NoDup_app in Hnd as (_ & Hd & _).
  apply Hd, elem_of_order. eauto.
Qed.

(** An expired task 7 of CPU 0. *)
Definition demo_expired : O1State :=
  enq 0 7 (set_remaining_time 0 demo_task) (upd_task 7 (set_remaining_time 0 demo_task) demo_state).

Lemma priority_change_reactivates_witness :
  exists s', goes demo_env (Deliver (Message.of_payload 2 (P_priority (mk_task_priority 7 5))))
      demo_expired s' /\
    inv demo_env None s' /\ in_bucket (active_ (rq s' 0)) 7 125 /\ 7 ∉ order (expired_ (rq s' 0)).
Proof.
  apply (priority_change_reactivates demo_env 7 (queued_task (set_remaining_time 0 demo_task)) 2
           (mk_task_priority 7 5) demo_expired).
  - apply demo_env_ok.
  - apply inv_enq; [apply inv_hole_write, demo_state_inv|done|done|cbn; set_solver].
  - reflexivity.
  - reflexivity.
  - split; [done|]. vm_compute. left.
  - reflexivity.
  - done.
  - unfold nice_ok. cbn. lia.
  - done.
Defined.

(** When a decision keeps the current task and its transaction succeeds, the pick
    time is set to now while the remaining slice is not reduced: the time the
    task ran since its last pick or tick is never charged. *)
Theorem recommit_forgets_time env c x tk ab s :
  env_ok env -> inv env None s -> c ∈ cpus env -> cur s c = Some x -> tasks s !! x = Some tk ->
  preempt_curr (cpu_states_ s !!! c) = false -> (forall n, Commit_ok env n = true) ->
  exists s' tk' n, goes env (Decide c ab false) s s' /\
    cur s' c = Some x /\ rq s' c = rq s c /\ tasks s' !! x = Some tk' /\
    remaining_time tk' = remaining_time tk /\
    runtime_at_last_pick tk' = Now env n /\ (reads s <= n)%nat.
Proof.
  intros Henv Hi Hc Hcur Hx Hpc Hcommit.
  assert (Hwp : wp (run_event env (Decide c ab false))
    (fun _ s2 => exists s3, same_sched s s3 /\ (reads s <= reads s3)%nat /\ s2 = running env c x tk s3) s).
  { cbn [run_event]. unfold O1Schedule, HandlePreemptCurr. h_steps. rewrite Hpc. cbn [when]. h_steps.
    unfold PickNext. cbn [negb]. h_steps. fold (cur s c). rewrite Hcur. h_steps.
    by apply wp_commit_success. }
  apply wp_run in Hwp as ([] & s2 & Hrun & s3 & Hs3 & Hle & ->).
  eexists _, _, (reads s3). split; [exact Hrun|]. split; [apply cur_running|].
  rewrite rq_running. unfold rq. rewrite (same_cpus _ _ Hs3). split; [done|].
  split; [unfold running; tlook|]. done.
Qed.

Lemma recommit_forgets_time_witness :
  exists s' tk' n, goes demo_env (Decide 0 9 false) demo_running s' /\
    cur s' 0 = Some 7 /\ rq s' 0 = rq demo_running 0 /\ tasks s' !! 7 = Some tk' /\
    remaining_time tk' = 5000000 /\
    runtime_at_last_pick tk' = Now demo_env n /\ (1 <= n)%nat.
Proof.
  apply (recommit_forgets_time demo_env 0 7 demo_running_task 9 demo_running);
    [apply demo_env_ok|apply demo_running_inv|cbn; set_solver|done..].
Defined.

(** ** Claims: placement *)

(** [n] consecutive placements. *)
Fixpoint assign_n (env : Env) (n : nat) : M O1State (list Z) :=
  match n with
  | O => mret []
  | S n' => c <- AssignCpu env ;; cs <- assign_n env n' ;; mret (c :: cs)
  end.

Lemma assign_n_from env n s k :
  (next_ s = k)%nat -> (0 < k <= length (cpus env))%nat ->
  exists s', assign_n env n s =
    Some ((fun i => cpus env !!! ((k + i) mod length (cpus env))%nat) <$> seq 0 n, s').
Proof.
  revert s k. induction n as [|n IH]; intros s k Hs Hk; [by eexists|].
  set (len := length (cpus env)) in *. cbn [assign_n].
  assert (Hpos : (if (next_ s =? len)%nat then O else next_ s) = (k mod len)%nat).
  { rewrite Hs. destruct (Nat.eqb_spec k len) as [->|]; [by rewrite Nat.Div0.mod_same|].
    rewrite Nat.mod_small by lia. done. }
  assert (Hlt : (k mod len < len)%nat) by (apply Nat.mod_upper_bound; lia).
  destruct (lookup_lt_is_Some_2 (cpus env) (k mod len)%nat Hlt) as [c Hc].
  unfold mbind at 1, AssignCpu. fold len. rewrite Hpos, Hc.
  destruct (IH (mkO1State (tasks s) (cpu_states_ s) (S (k mod len)) (reads s) (trace s)) (S (k mod len)))
    as [s' Hs']; [done|lia|].
  exists s'. unfold mbind. rewrite Hs'. cbn [mret]. unfold mret. do 2 f_equal.
  cbn [seq fmap list_fmap]. rewrite Nat.add_0_r. f_equal.
  - symmetry. by apply list_lookup_total_correct.
  - rewrite <- fmap_S_seq, <- list_fmap_compose. apply list_fmap_ext. intros j i _. cbn. f_equal.
    replace (S (k mod len + i)) with (k mod len + S i)%nat by lia.
    apply Nat.Div0.add_mod_idemp_l.
Qed.

(** New tasks are placed round robin: from the constructed scheduler, the [i]-th
    placement goes to the CPU at position [i] modulo their number in the
    enclave's list. *)
Theorem assign_cpu_round_robin env n :
  cpus env <> [] ->
  exists s', assign_n env n (initial env) =
    Some ((fun i => cpus env !!! (i mod length (cpus env))%nat) <$> seq 0 n, s').
Proof.
  intros Hne. assert (0 < length (cpus env))%nat by (destruct (cpus env); [done|cbn; lia]).
  destruct (assign_n_from env n (initial env) (length (cpus env))) as [s' Hs']; [done|lia|].
  exists s'. rewrite Hs'. do 2 f_equal. apply list_fmap_ext. intros j i _. cbn. f_equal.
  rewrite Nat.add_comm, <- Nat.Div0.add_mod_idemp_r, Nat.Div0.mod_same, Nat.add_0_r. done.
Qed.

Lemma assign_cpu_round_robin_witness :
  exists s', assign_n demo_env 5 (initial demo_env) = Some ([0; 1; 0; 1; 0], s').
Proof. exact (assign_cpu_round_robin demo_env 5 ltac:(done)). Defined.

(** The dispatcher of this scheduler: a latch failure of the known task 7. *)
Lemma dispatch_ignores_or_aborts_witness :
  run_event demo_env (Deliver (Message.of_payload 2 (P_latch_failure (mk_latch_failure 7 16))))
    demo_running = None.
Proof.
  destruct (@dispatch_ignores_or_aborts O1State O1Task _ _ (O1Handlers demo_env)
    (Message.of_payload 2 (P_latch_failure (mk_latch_failure 7 16))) 7 demo_running eq_refl eq_refl)
    as (_ & _ & _ & _ & Habort).
  apply Habort; [done|done|by right|]. by eexists.
Defined.
