(* ===== verification/FifoSched.v ===== *)
(** * The per-CPU FIFO scheduler

    Models [schedulers/fifo/per_cpu/fifo_scheduler.h] and [.cc]: one deque of
    tasks per CPU, the callbacks of [FifoScheduler], [FifoSchedule], [Schedule],
    the agent's loop and the RPC handler.

    The conventions are those of [O1Sched]: a task pointer is the task's gtid,
    the kernel's answers come from an environment indexed by the number of
    questions asked so far, and requests to the kernel are recorded in [trace],
    newest first.  The deque's mutex protects single operations, which are atomic
    steps here. *)

From S2P Require Import Prelude GhostAbi Dispatch.

Module Fifo.

Definition MAX_CPUS : Z := 512.
Definition RTLA_ON_IDLE : Z := Z.shiftl 1 5.
Definition COMMIT_AT_TXN_COMMIT : Z := Z.shiftl 1 1.
Definition kDebugRunqueue : Z := 1.
Definition kCountAllTasks : Z := 2.

(** ** Data *)

Inductive FifoTaskState := kBlocked | kRunnable | kQueued | kOnCpu.

#[export] Instance FifoTaskState_eq_dec : EqDecision FifoTaskState.
Proof. solve_decision. Defined.

Record FifoTask := mkFifoTask {
  f_seqnum : Z; run_state : FifoTaskState; cpu : Z; preempted : bool; prio_boost : bool }.

(** The member initialisers. *)
Definition FifoTask_new (gtid : Z) (sw_info : ghost_sw_info) : FifoTask :=
  mkFifoTask 0 kBlocked (-1) false false.

Definition blocked (t : FifoTask) : bool := bool_decide (run_state t = kBlocked).
Definition queued (t : FifoTask) : bool := bool_decide (run_state t = kQueued).
Definition oncpu (t : FifoTask) : bool := bool_decide (run_state t = kOnCpu).
Definition _runnable (t : FifoTask) : bool := bool_decide (run_state t = kRunnable).

Definition set_f_seqnum (v : Z) (t : FifoTask) : FifoTask :=
  mkFifoTask v (run_state t) (cpu t) (preempted t) (prio_boost t).
Definition set_run_state (v : FifoTaskState) (t : FifoTask) : FifoTask :=
  mkFifoTask (f_seqnum t) v (cpu t) (preempted t) (prio_boost t).
Definition set_cpu (v : Z) (t : FifoTask) : FifoTask :=
  mkFifoTask (f_seqnum t) (run_state t) v (preempted t) (prio_boost t).
Definition set_preempted (v : bool) (t : FifoTask) : FifoTask :=
  mkFifoTask (f_seqnum t) (run_state t) (cpu t) v (prio_boost t).
Definition set_prio_boost (v : bool) (t : FifoTask) : FifoTask :=
  mkFifoTask (f_seqnum t) (run_state t) (cpu t) (preempted t) v.

#[export] Instance FifoTask_type : TaskType FifoTask :=
  { new_task := FifoTask_new; t_seqnum := f_seqnum; set_seqnum := set_f_seqnum }.

(** [CpuState]; the runqueue [FifoRq] is its deque. *)
Record CpuState := mkCpuState { current : option Z; rq_ : list Z }.

#[export] Instance CpuState_inhabited : Inhabited CpuState := populate (mkCpuState None []).

Inductive request :=
  | Ping (cpu : Z)
  | Commit (cpu target target_barrier agent_barrier commit_flags : Z)
  | LocalYield (cpu agent_barrier flags : Z).

Record FifoState := mkFifoState {
  tasks : gmap Z FifoTask;
  cpu_states_ : gmap Z CpuState;
  next_ : nat;                   (* the static iterator of [AssignCpu] *)
  debug_runqueue_ : bool;
  reads : nat;                   (* interactions with the environment so far *)
  trace : list request }.

Definition set_tasks (m : gmap Z FifoTask) (s : FifoState) : FifoState :=
  mkFifoState m (cpu_states_ s) (next_ s) (debug_runqueue_ s) (reads s) (trace s).
Definition set_cpu_states (m : gmap Z CpuState) (s : FifoState) : FifoState :=
  mkFifoState (tasks s) m (next_ s) (debug_runqueue_ s) (reads s) (trace s).
Definition set_next (n : nat) (s : FifoState) : FifoState :=
  mkFifoState (tasks s) (cpu_states_ s) n (debug_runqueue_ s) (reads s) (trace s).
Definition set_debug (b : bool) (s : FifoState) : FifoState :=
  mkFifoState (tasks s) (cpu_states_ s) (next_ s) b (reads s) (trace s).
Definition bump (s : FifoState) : FifoState :=
  mkFifoState (tasks s) (cpu_states_ s) (next_ s) (debug_runqueue_ s) (S (reads s)) (trace s).
Definition log (r : request) (s : FifoState) : FifoState :=
  mkFifoState (tasks s) (cpu_states_ s) (next_ s) (debug_runqueue_ s) (reads s) (r :: trace s).

#[export] Instance FifoState_tasks : HasTasks FifoState FifoTask :=
  { task_map_ := tasks; set_task_map_ := set_tasks; task_map_set _ _ := eq_refl }.

(** The answers of the kernel and the configuration of the enclave. *)
Record Env := mkEnv {
  cpus : list Z;                   (* CPUs of the enclave, in iteration order *)
  AssociateTask_ok : nat -> bool;  (* [Channel::AssociateTask] of a task *)
  Commit_ok : nat -> bool;         (* [RunRequest::Commit] *)
  status_on_cpu : nat -> bool;     (* [status_word.on_cpu()] *)
  spin_fuel : nat }.

(** ** Operations *)

Section Fifo.
Context (env : Env).
Notation M := (M FifoState).

Definition ask {A} (f : nat -> A) : M A := fun s => Some (f (reads s), bump s).
Definition emit (r : request) : M unit := mmod (log r).

Definition cpu_state (c : Z) : M CpuState := s <- mget ;; mret (cpu_states_ s !!! c).

Definition write_cpu_state (c : Z) (f : CpuState -> CpuState) : M unit :=
  mmod (fun s => set_cpu_states (<[c := f (cpu_states_ s !!! c)]> (cpu_states_ s)) s).

Definition set_current (o : option Z) (cs : CpuState) : CpuState := mkCpuState o (rq_ cs).
Definition set_rq (q : list Z) (cs : CpuState) : CpuState := mkCpuState (current cs) q.

Definition cpu_state_of (task : Z) : M Z :=
  t <- read_task task ;;
  CHECK (0 <=? cpu t) ;;; CHECK (cpu t <? MAX_CPUS) ;;; mret (cpu t).

(** *** [FifoRq], the runqueue of CPU [c] *)

Definition Size (cs : CpuState) : Z := Z.of_nat (length (rq_ cs)).
Definition rq_Empty (cs : CpuState) : bool := Size cs =? 0.

Definition Enqueue (c task : Z) : M unit :=
  t <- read_task task ;;
  CHECK (0 <=? cpu t) ;;;
  CHECK (_runnable t) ;;;
  write_task task (set_run_state kQueued) ;;;
  cs <- cpu_state c ;;
  if prio_boost t then write_cpu_state c (set_rq (task :: rq_ cs))
  else write_cpu_state c (set_rq (rq_ cs ++ [task])).

Definition Dequeue (c : Z) : M (option Z) :=
  cs <- cpu_state c ;;
  match rq_ cs with
  | [] => mret None
  | task :: q =>
      t <- read_task task ;;
      CHECK (queued t) ;;;
      write_task task (set_run_state kRunnable) ;;;
      write_cpu_state c (set_rq q) ;;;
      mret (Some task)
  end.

(** The search from the beginning, over the first [n] positions. *)
Fixpoint search (task : Z) (q : list Z) (pos n : nat) : option nat :=
  match n with
  | O => None
  | S n' => if bool_decide (q !! pos = Some task) then Some pos else search task q (S pos) n'
  end.

(** The position [Erase] removes: the back is tried first. *)
Definition find_task (task : Z) (q : list Z) : option nat :=
  let size := length q in
  if (0 <? size)%nat then
    let pos := (size - 1)%nat in
    if bool_decide (q !! pos = Some task) then Some pos else search task q 0 (size - 1)
  else None.

Definition Erase (c task : Z) : M unit :=
  t <- read_task task ;;
  CHECK (queued t) ;;;
  cs <- cpu_state c ;;
  match find_task task (rq_ cs) with
  | Some pos =>
      write_cpu_state c (set_rq (delete pos (rq_ cs))) ;;;
      write_task task (set_run_state kRunnable)
  | None => CHECK false
  end.

(** *** [FifoScheduler] *)

(** [enclave()->GetAgent(cpu)->Ping()]: only the enclave's CPUs have agents. *)
Definition PingAgent (c : Z) : M unit :=
  CHECK (bool_decide (c ∈ cpus env)) ;;; emit (Ping c).

Definition AssignCpu : M Z := fun s =>
  let next := if (next_ s =? length (cpus env))%nat then O else next_ s in
  match cpus env !! next with
  | None => None
  | Some c => Some (c, set_next (S next) s)
  end.

Definition Migrate (task c seqnum : Z) : M unit :=
  t <- read_task task ;;
  CHECK (_runnable t) ;;;
  CHECK (cpu t =? -1) ;;;
  ok <- ask (AssociateTask_ok env) ;;
  CHECK ok ;;;
  write_task task (set_cpu c) ;;;
  Enqueue c task ;;;
  PingAgent c.

Definition TaskNew (task : Z) (msg : Message.ghost_msg) : M unit :=
  payload <- deref (as_task_new (Message.payload msg)) ;;
  write_task task (set_f_seqnum (Message.seqnum msg)) ;;;
  write_task task (set_run_state kBlocked) ;;;
  if truthy (tn_runnable payload) then
    write_task task (set_run_state kRunnable) ;;;
    c <- AssignCpu ;;
    Migrate task c (Message.seqnum msg)
  else mret tt.

Definition TaskRunnable (task : Z) (msg : Message.ghost_msg) : M unit :=
  payload <- deref (as_task_wakeup (Message.payload msg)) ;;
  t <- read_task task ;;
  CHECK (blocked t) ;;;
  write_task task (set_run_state kRunnable) ;;;
  write_task task (set_prio_boost (negb (truthy (tw_deferrable payload)))) ;;;
  if cpu t <? 0 then
    c <- AssignCpu ;;
    Migrate task c (Message.seqnum msg)
  else
    c <- cpu_state_of task ;;
    Enqueue c task.

Definition TaskOffCpu (task : Z) (is_blocked from_switchto : bool) : M unit :=
  c <- cpu_state_of task ;;
  t <- read_task task ;;
  (if oncpu t then
     cs <- cpu_state c ;;
     CHECK (bool_decide (current cs = Some task)) ;;;
     write_cpu_state c (set_current None)
   else
     CHECK from_switchto ;;;
     CHECK (blocked t)) ;;;
  write_task task (set_run_state (if is_blocked then kBlocked else kRunnable)).

(** The agent of the CPU a switchto chain ended on is told to reschedule. *)
Definition PingSwitchto (from_switchto c : Z) : M unit :=
  when (truthy from_switchto) (PingAgent c).

Definition TaskDeparted (task : Z) (msg : Message.ghost_msg) : M unit :=
  payload <- deref (as_task_departed (Message.payload msg)) ;;
  t <- read_task task ;;
  (if oncpu t || truthy (tdp_from_switchto payload) then
     TaskOffCpu task false (truthy (tdp_from_switchto payload))
   else if queued t then
     c <- cpu_state_of task ;; Erase c task
   else CHECK (blocked t)) ;;;
  PingSwitchto (tdp_from_switchto payload) (tdp_cpu payload) ;;;
  FreeTask task.

Definition TaskDead (task : Z) (msg : Message.ghost_msg) : M unit :=
  t <- read_task task ;;
  CHECK (blocked t) ;;;
  FreeTask task.

Definition TaskYield (task : Z) (msg : Message.ghost_msg) : M unit :=
  payload <- deref (as_task_yield (Message.payload msg)) ;;
  TaskOffCpu task false (truthy (ty_from_switchto payload)) ;;;
  c <- cpu_state_of task ;;
  Enqueue c task ;;;
  PingSwitchto (ty_from_switchto payload) (ty_cpu payload).

Definition TaskBlocked (task : Z) (msg : Message.ghost_msg) : M unit :=
  payload <- deref (as_task_blocked (Message.payload msg)) ;;
  TaskOffCpu task true (truthy (tb_from_switchto payload)) ;;;
  PingSwitchto (tb_from_switchto payload) (tb_cpu payload).

Definition TaskPreempted (task : Z) (msg : Message.ghost_msg) : M unit :=
  payload <- deref (as_task_preempt (Message.payload msg)) ;;
  TaskOffCpu task false (truthy (tp_from_switchto payload)) ;;;
  write_task task (set_preempted true) ;;;
  write_task task (set_prio_boost true) ;;;
  c <- cpu_state_of task ;;
  Enqueue c task ;;;
  PingSwitchto (tp_from_switchto payload) (tp_cpu payload).

Definition TaskSwitchto (task : Z) (msg : Message.ghost_msg) : M unit :=
  TaskOffCpu task true false.

Definition TaskOnCpu (task c : Z) : M unit :=
  write_cpu_state c (set_current (Some task)) ;;;
  write_task task (set_run_state kOnCpu) ;;;
  write_task task (set_cpu c) ;;;
  write_task task (set_preempted false) ;;;
  write_task task (set_prio_boost false).

(** [while (next->status_word.on_cpu()) Pause();] *)
Fixpoint WaitOffCpu (fuel : nat) : M unit :=
  match fuel with
  | O => CHECK false
  | S fuel' => on <- ask (status_on_cpu env) ;; if on then WaitOffCpu fuel' else mret tt
  end.

(** The task to run: the current one, or the runqueue's next. *)
Definition PickNext (c : Z) (boosted : bool) : M (option Z) :=
  if negb boosted then
    cs <- cpu_state c ;;
    match current cs with
    | Some next => mret (Some next)
    | None => Dequeue c
    end
  else mret None.

Definition CommitNext (c next agent_barrier : Z) : M unit :=
  WaitOffCpu (spin_fuel env) ;;;
  t <- read_task next ;;
  emit (Commit c next (f_seqnum t) agent_barrier COMMIT_AT_TXN_COMMIT) ;;;
  ok <- ask (Commit_ok env) ;;
  if ok then TaskOnCpu next c
  else
    cs <- cpu_state c ;;
    when (bool_decide (current cs = Some next)) (TaskOffCpu next false false) ;;;
    write_task next (set_prio_boost true) ;;;
    Enqueue c next.

Definition FifoSchedule (c agent_barrier : Z) (boosted : bool) : M unit :=
  next <- PickNext c boosted ;;
  match next with
  | Some next => CommitNext c next agent_barrier
  | None =>
      cs <- cpu_state c ;;
      let idle_kick := boosted && (bool_decide (is_Some (current cs)) || negb (rq_Empty cs)) in
      emit (LocalYield c agent_barrier (if idle_kick then RTLA_ON_IDLE else 0))
  end.

#[export] Instance FifoHandlers : DispatchHandlers FifoState := {
  Dispatch.TaskNew := TaskNew;
  Dispatch.TaskRunnable := TaskRunnable;
  Dispatch.TaskDead := TaskDead;
  Dispatch.TaskDeparted := TaskDeparted;
  Dispatch.TaskYield := TaskYield;
  Dispatch.TaskBlocked := TaskBlocked;
  Dispatch.TaskPreempted := TaskPreempted;
  Dispatch.TaskSwitchto := TaskSwitchto;
  Dispatch.TaskAffinityChanged _ _ := not_overridden;
  Dispatch.TaskPriorityChanged _ _ := not_overridden;
  Dispatch.TaskOnCpu_msg _ _ := not_overridden;
  Dispatch.CpuTick _ := not_overridden;
  Dispatch.CpuNotIdle _ := not_overridden;
  Dispatch.CpuTimerExpired _ := not_overridden;
  Dispatch.CpuAvailable _ := not_overridden;
  Dispatch.CpuBusy _ := not_overridden;
  Dispatch.AgentBlocked _ := not_overridden;
  Dispatch.AgentWakeup _ := not_overridden;
}.

(** [Schedule]: drain the CPU's channel, then schedule. *)
Definition Schedule (c agent_barrier : Z) (boosted : bool) (msgs : list Message.ghost_msg) :
    M unit :=
  DispatchAll msgs ;;; FifoSchedule c agent_barrier boosted.

Definition Empty (c : Z) : M bool := cs <- cpu_state c ;; mret (rq_Empty cs).

Definition CountAllTasks : M Z := ForEachTask (fun _ _ n => (true, n + 1)) 0.

(** *** The agent *)

(** What one round of the agent's loop sees: [Finished()], its status word and
    the messages of its channel. *)
Record round := mk_round {
  finished : bool; barrier : Z; boosted : bool; messages : list Message.ghost_msg }.

(** [AgentThread]'s loop over the rounds it gets to see; true when it has left
    the loop.  The debug output is left out. *)
Fixpoint AgentThread (c : Z) (rounds : list round) : M bool :=
  match rounds with
  | [] => mret false
  | r :: rounds' =>
      empty <- Empty c ;;
      if negb (finished r) || negb empty then
        Schedule c (barrier r) (boosted r) (messages r) ;;; AgentThread c rounds'
      else mret true
  end.

(** The response code of an RPC. *)
Definition RpcHandler (req : Z) : M Z :=
  if req =? kDebugRunqueue then mmod (set_debug true) ;;; mret 0
  else if req =? kCountAllTasks then CountAllTasks
  else mret (-1).

(** The scheduler as constructed. *)
Definition initial : FifoState := mkFifoState ∅ ∅ (length (cpus env)) false 0 [].
End Fifo.
End Fifo.
