(* ===== verification/FifoInv.v ===== *)
(** * The runqueue invariant of the FIFO scheduler

    Where every task is: on the runqueue of its CPU exactly when it is
    [kQueued], current on its CPU exactly when it is [kOnCpu], nowhere
    otherwise.  The invariant is pointwise in the task, so an operation on one
    task keeps it for all others ([inv_frame]).  While a handler works on a
    task that task is "in hand" and nowhere.  [effect] is what a step does to
    the deques. *)

From S2P Require Import Prelude GhostAbi Dispatch FifoSched.
Import Fifo.

Definition rq (s : FifoState) (c : Z) : list Z := rq_ (cpu_states_ s !!! c).
Definition cur (s : FifoState) (c : Z) : option Z := current (cpu_states_ s !!! c).

Definition nowhere (s : FifoState) (t : Z) : Prop :=
  (forall c, t ∉ rq s c) /\ (forall c, cur s c <> Some t).

(** Task [t] between handlers. *)
Definition place_ok (env : Env) (s : FifoState) (t : Z) : Prop :=
  match tasks s !! t with
  | None => nowhere s t
  | Some tk =>
      match run_state tk with
      | kBlocked => nowhere s t /\ (cpu tk = -1 \/ cpu tk ∈ cpus env) /\ prio_boost tk = false
      | kRunnable => False
      | kQueued => (forall c, t ∈ rq s c <-> c = cpu tk) /\ (forall c, cur s c <> Some t) /\ cpu tk ∈ cpus env
      | kOnCpu => (forall c, t ∉ rq s c) /\ (forall c, cur s c = Some t <-> c = cpu tk) /\
                  cpu tk ∈ cpus env /\ prio_boost tk = false
      end
  end.

Record inv (env : Env) (h : option Z) (s : FifoState) : Prop := {
  inv_nodup : forall c, NoDup (rq s c);
  inv_place : forall t, h <> Some t -> place_ok env s t;
  inv_hand : forall t, h = Some t -> nowhere s t;
  inv_next : (next_ s <= length (cpus env))%nat;
}.

Record env_ok (env : Env) : Prop := {
  env_cpus_ne : cpus env <> [];
  env_cpus_range : forall c, c ∈ cpus env -> 0 <= c < MAX_CPUS;
  env_assoc : forall n, AssociateTask_ok env n = true;
  env_spin : forall n, exists k, (k < spin_fuel env)%nat /\ status_on_cpu env (n + k) = false;
}.

(** Nothing about task [t] differs. *)
Definition same_task (s s' : FifoState) (t : Z) : Prop :=
  tasks s' !! t = tasks s !! t /\ (forall c, t ∈ rq s' c <-> t ∈ rq s c) /\
  (forall c, cur s' c = Some t <-> cur s c = Some t).

Lemma nowhere_same s s' t : same_task s s' t -> nowhere s t -> nowhere s' t.
Proof. intros (_ & Hq & Hc) [H1 H2]. split; intros c; [rewrite Hq|rewrite Hc]; auto. Qed.

Lemma place_same env s s' t : same_task s s' t -> place_ok env s t -> place_ok env s' t.
Proof.
  intros Hs. pose proof (nowhere_same s s' t Hs) as Hn. destruct Hs as (Ht & Hq & Hc).
  unfold place_ok. rewrite Ht. destruct (tasks s !! t) as [tk|]; [|done].
  destruct (run_state tk); [naive_solver|done|..]; setoid_rewrite Hq; setoid_rewrite Hc; done.
Qed.

(** A step that touches only task [x]. *)
Lemma inv_frame env x h h' s s' :
  inv env h s -> (forall t, h = Some t -> t = x) -> (forall t, h' = Some t -> t = x) ->
  (forall c, NoDup (rq s' c)) -> (forall t, t <> x -> same_task s s' t) ->
  (if decide (h' = Some x) then nowhere s' x else place_ok env s' x) ->
  (next_ s' <= length (cpus env))%nat -> inv env h' s'.
Proof.
  intros [Hnd Hp Hh Hn] Hh1 Hh2 Hnd' Hsame Hx Hn'. split; [done| | |done].
  - intros t Ht. destruct (decide (t = x)) as [->|Hne]; [by rewrite decide_False in Hx|].
    eapply place_same; [by apply Hsame|]. apply Hp. intros E. by apply Hne, Hh1.
  - intros t Ht. pose proof (Hh2 _ Ht) as ->. by rewrite decide_True in Hx.
Qed.

(** ** State updates *)

Definition upd_task (x : Z) (tk : FifoTask) (s : FifoState) : FifoState :=
  set_tasks (<[x := tk]> (tasks s)) s.
Definition del_task (x : Z) (s : FifoState) : FifoState := set_tasks (delete x (tasks s)) s.
Definition upd_cs (c : Z) (f : CpuState -> CpuState) (s : FifoState) : FifoState :=
  set_cpu_states (<[c := f (cpu_states_ s !!! c)]> (cpu_states_ s)) s.

Lemma fifo_rq_upd_cs c f s c' :
  rq (upd_cs c f s) c' = if decide (c = c') then rq_ (f (cpu_states_ s !!! c)) else rq s c'.
Proof. unfold rq, upd_cs. cbn. rewrite lookup_total_insert. by case_decide. Qed.

Lemma fifo_cur_upd_cs c f s c' :
  cur (upd_cs c f s) c' = if decide (c = c') then current (f (cpu_states_ s !!! c)) else cur s c'.
Proof. unfold cur, upd_cs. cbn. rewrite lookup_total_insert. by case_decide. Qed.

Lemma rq_set_current c o s c' : rq (upd_cs c (set_current o) s) c' = rq s c'.
Proof. rewrite fifo_rq_upd_cs. by case_decide; subst. Qed.

Lemma cur_set_rq c q s c' : cur (upd_cs c (set_rq q) s) c' = cur s c'.
Proof. rewrite fifo_cur_upd_cs. by case_decide; subst. Qed.

Lemma fifo_lookup_upd x tk s y :
  tasks (upd_task x tk s) !! y = if decide (x = y) then Some tk else tasks s !! y.
Proof. cbn. apply lookup_insert. Qed.

Lemma fifo_upd_upd_task x tk tk' s : upd_task x tk' (upd_task x tk s) = upd_task x tk' s.
Proof. unfold upd_task. destruct s. cbn. unfold set_tasks. cbn. by rewrite insert_insert_eq. Qed.

(** Fields the invariant does not look at. *)
Record same_sched (s s' : FifoState) : Prop := {
  same_tasks : tasks s' = tasks s;
  same_cpus : cpu_states_ s' = cpu_states_ s;
  same_next : next_ s' = next_ s;
}.

#[export] Instance same_sched_refl : Reflexive same_sched.
Proof. by split. Qed.
#[export] Instance same_sched_trans : Transitive same_sched.
Proof. intros s1 s2 s3 [] []. split; congruence. Qed.

Lemma fifo_inv_same env h s s' : same_sched s s' -> inv env h s -> inv env h s'.
Proof.
  intros [Ht Hc Hn] [Hnd Hp Hh Hx].
  assert (Hs : forall t, same_task s s' t) by (intros t; unfold same_task, rq, cur; by rewrite Ht, Hc).
  split; [intros c; unfold rq; rewrite Hc; apply Hnd|..|by rewrite Hn].
  - intros t H. eapply place_same; [apply Hs|auto].
  - intros t H. eapply nowhere_same; [apply Hs|auto].
Qed.

Lemma fifo_inv_set_next env h n s : (n <= length (cpus env))%nat -> inv env h s -> inv env h (set_next n s).
Proof. intros ? [? ? ? ?]. by split. Qed.

(** ** The task in hand *)

Lemma same_upd_task x tk s t : t <> x -> same_task s (upd_task x tk s) t.
Proof. intros Ht. split; [|done]. by rewrite fifo_lookup_upd, decide_False. Qed.

(** Close the goals of [inv_frame] about the other tasks. *)
Ltac frame_others :=
  let t := fresh "t" in let Ht := fresh "Ht" in
  intros t Ht; split; [cbn; try done; rewrite ?lookup_insert_ne, ?lookup_delete_ne by done; done|split; intros ?].

Lemma fifo_inv_hole_write env x tk s : inv env (Some x) s -> inv env (Some x) (upd_task x tk s).
Proof.
  intros Hi. eapply (inv_frame _ x); [exact Hi|congruence|congruence|apply Hi| | |apply Hi].
  - intros t Ht. by apply same_upd_task.
  - rewrite decide_True by done. by apply (inv_hand _ _ _ Hi).
Qed.

Lemma fifo_inv_hole_delete env x s : inv env (Some x) s -> inv env None (del_task x s).
Proof.
  intros Hi. eapply (inv_frame _ x); [exact Hi|congruence|done|apply Hi| | |apply Hi].
  - frame_others; done.
  - rewrite decide_False by done. unfold place_ok. cbn. rewrite lookup_delete_eq.
    by apply (inv_hand _ _ _ Hi).
Qed.

Lemma fifo_inv_open env x s : inv env None s -> nowhere s x -> inv env (Some x) s.
Proof.
  intros Hi Hx. eapply (inv_frame _ x); [exact Hi|done|congruence|apply Hi|by intros|by rewrite decide_True|apply Hi].
Qed.

Lemma fifo_inv_close_blocked env x tk s :
  inv env (Some x) s -> tasks s !! x = Some tk -> run_state tk = kBlocked ->
  cpu tk = -1 \/ cpu tk ∈ cpus env -> prio_boost tk = false -> inv env None s.
Proof.
  intros Hi Hx Hst Hc Hb. eapply (inv_frame _ x); [exact Hi|congruence|done|apply Hi|by intros| |apply Hi].
  rewrite decide_False by done. unfold place_ok. rewrite Hx, Hst.
  split; [by apply (inv_hand _ _ _ Hi)|done].
Qed.

(** A write that keeps state, CPU and boost. *)
Lemma fifo_inv_update env x tk tk' s :
  inv env None s -> tasks s !! x = Some tk ->
  run_state tk' = run_state tk -> cpu tk' = cpu tk -> prio_boost tk' = prio_boost tk ->
  inv env None (upd_task x tk' s).
Proof.
  intros Hi Hx Hst Hc Hb. eapply (inv_frame _ x); [exact Hi|done|done|apply Hi| | |apply Hi].
  - intros t Ht. by apply same_upd_task.
  - rewrite decide_False by done. pose proof (inv_place _ _ _ Hi x ltac:(done)) as Hp.
    unfold place_ok in *. rewrite fifo_lookup_upd, decide_True by done. rewrite Hx in Hp. by rewrite Hst, Hc, Hb.
Qed.

(** ** Reading the invariant *)

Lemma inv_blocked env s x tk :
  inv env None s -> tasks s !! x = Some tk -> run_state tk = kBlocked -> nowhere s x.
Proof.
  intros Hi Hx Hst. pose proof (inv_place _ _ _ Hi x ltac:(done)) as H. unfold place_ok in H.
  rewrite Hx, Hst in H. apply H.
Qed.

Lemma inv_in env s c x :
  inv env None s -> x ∈ rq s c ->
  exists tk, tasks s !! x = Some tk /\ run_state tk = kQueued /\ cpu tk = c /\ c ∈ cpus env.
Proof.
  intros Hi Hx. pose proof (inv_place _ _ _ Hi x ltac:(done)) as H. unfold place_ok in H.
  destruct (tasks s !! x) as [tk|]; [|by destruct (proj1 H c)]. exists tk.
  destruct (run_state tk) eqn:E; [by destruct H as [[H _] _]; destruct (H c)|done| |by destruct (proj1 H c)].
  destruct H as (H & _ & Hc). apply H in Hx as ->. done.
Qed.

Lemma inv_cur env s c x :
  inv env None s -> cur s c = Some x ->
  exists tk, tasks s !! x = Some tk /\ run_state tk = kOnCpu /\ cpu tk = c /\ c ∈ cpus env.
Proof.
  intros Hi Hx. pose proof (inv_place _ _ _ Hi x ltac:(done)) as H. unfold place_ok in H.
  destruct (tasks s !! x) as [tk|]; [|by destruct (proj2 H c)]. exists tk.
  destruct (run_state tk) eqn:E; [by destruct H as [[_ H] _]; destruct (H c)|done|by destruct (proj1 (proj2 H) c)|].
  destruct H as (_ & H & Hc & _). apply H in Hx as ->. done.
Qed.

(** ** Deques *)

(** What a step does to the deque of a CPU. *)
Inductive qop := Back (t : Z) | Front (t : Z) | Pop | Del (t : Z).

Definition apply_qop (o : qop) (q : list Z) : list Z :=
  match o with
  | Back t => q ++ [t]
  | Front t => t :: q
  | Pop => tail q
  | Del t => filter (fun y => y <> t) q
  end.

Definition effect (s s' : FifoState) (o : option (Z * qop)) : Prop :=
  forall c, rq s' c =
    match o with
    | Some (c', p) => if decide (c' = c) then apply_qop p (rq s c) else rq s c
    | None => rq s c
    end.

Lemma effect_rq s s' o s1 s1' :
  (forall c, rq s1 c = rq s c) -> (forall c, rq s1' c = rq s' c) -> effect s s' o -> effect s1 s1' o.
Proof. intros H1 H2 He c. rewrite H2, He. destruct o as [[c' p]|]; by rewrite ?H1. Qed.

Lemma rq_same s s' : same_sched s s' -> forall c, rq s' c = rq s c.
Proof. intros [_ H _] c. unfold rq. by rewrite H. Qed.

Lemma search_spec x q pos n :
  match search x q pos n with
  | Some p => q !! p = Some x
  | None => forall k, (pos <= k < pos + n)%nat -> q !! k <> Some x
  end.
Proof.
  revert pos. induction n as [|n IH]; intros pos; cbn [search]; [intros; lia|].
  case_bool_decide as Hb; [done|]. specialize (IH (S pos)). destruct (search _ _ _ _); [done|].
  intros k Hk. destruct (decide (k = pos)) as [->|]; [done|]. apply IH. lia.
Qed.

(** [Erase] finds a task that is there. *)
Lemma find_task_spec x q : x ∈ q -> exists p, find_task x q = Some p /\ q !! p = Some x.
Proof.
  intros Hx. apply list_elem_of_lookup in Hx as [k Hk]. pose proof (lookup_lt_Some _ _ _ Hk) as Hlt.
  unfold find_task. rewrite (proj2 (Nat.ltb_lt _ _)) by lia.
  case_bool_decide as Hb; [by eexists|]. pose proof (search_spec x q 0 (length q - 1)) as Hs.
  destruct (search _ _ _ _) as [p|]; [by exists p|]. exfalso.
  destruct (decide (k = length q - 1)%nat) as [->|]; [done|]. by apply (Hs k); [lia|].
Qed.

Lemma delete_filter (x : Z) q p : NoDup q -> q !! p = Some x -> delete p q = filter (fun y => y <> x) q.
Proof.
  intros Hnd Hp. rewrite <- (take_drop_middle q p x Hp) in Hnd. rewrite delete_take_drop.
  rewrite <- (take_drop_middle q p x Hp) at 3.
  apply NoDup_middle in Hnd as (H1 & H2 & _). rewrite filter_app, filter_cons, decide_False by auto.
  by rewrite !filter_others.
Qed.
