(* ===== verification/FifoHandlers.v ===== *)
(** * The callbacks of the FIFO scheduler

    Every callback and [FifoSchedule] run to completion from a state that
    satisfies the invariant of [FifoInv], re-establish it, and have the stated
    effect on the deques. *)

From S2P Require Import Prelude GhostAbi Dispatch FifoSched FifoInv.
Import Fifo.

(** ** Primitive steps *)

Lemma fifo_wp_read x tk (Q : FifoTask -> FifoState -> Prop) s :
  tasks s !! x = Some tk -> Q tk s -> wp (read_task x) Q s.
Proof. intros Hx HQ. by apply (wp_read_task (St := FifoState) x tk). Qed.

Lemma fifo_wp_write x f tk (Q : unit -> FifoState -> Prop) s :
  tasks s !! x = Some tk -> Q tt (upd_task x (f tk) s) -> wp (write_task x f) Q s.
Proof. intros Hx HQ. by apply (wp_write_task (St := FifoState) x f tk). Qed.

Lemma fifo_wp_cpu_state c (Q : CpuState -> FifoState -> Prop) s :
  Q (cpu_states_ s !!! c) s -> wp (cpu_state c) Q s.
Proof. done. Qed.

Lemma fifo_wp_write_cs c f (Q : unit -> FifoState -> Prop) s :
  Q tt (upd_cs c f s) -> wp (write_cpu_state c f) Q s.
Proof. done. Qed.

Lemma fifo_wp_ask {A} (f : nat -> A) (Q : A -> FifoState -> Prop) s :
  Q (f (reads s)) (bump s) -> wp (ask f) Q s.
Proof. done. Qed.

Lemma fifo_wp_emit r (Q : unit -> FifoState -> Prop) s : Q tt (log r s) -> wp (emit r) Q s.
Proof. done. Qed.

Ltac tlook :=
  repeat first
    [ rewrite fifo_lookup_upd, decide_True by done
    | rewrite fifo_lookup_upd, decide_False by done
    | progress change (tasks (bump ?s)) with (tasks s)
    | progress change (tasks (log ?r ?s)) with (tasks s)
    | progress change (tasks (set_next ?n ?s)) with (tasks s)
    | progress change (tasks (upd_cs ?c ?f ?s)) with (tasks s) ];
  first [eassumption | reflexivity].

Ltac f_check :=
  apply wp_check;
  [first [by apply Z.leb_le | by apply Z.ltb_lt | by apply Z.eqb_eq | by apply bool_decide_eq_true | done]|].

Ltac f_step :=
  lazymatch goal with
  | |- wp (mbind _ _) _ _ => apply wp_bind
  | |- wp (mret _) _ _ => apply wp_ret
  | |- wp (read_task _) _ _ => eapply fifo_wp_read; [tlook|]
  | |- wp (write_task _ _) _ _ => eapply fifo_wp_write; [tlook|]
  | |- wp (cpu_state _) _ _ => apply fifo_wp_cpu_state
  | |- wp (write_cpu_state _ _) _ _ => apply fifo_wp_write_cs
  | |- wp (ask _) _ _ => apply fifo_wp_ask
  | |- wp (emit _) _ _ => apply fifo_wp_emit
  | |- wp (CHECK _) _ _ => f_check
  end; cbn beta iota delta [negb].
Ltac f_steps := cbn beta iota delta [negb]; repeat f_step.

(** ** Runqueue operations *)

Definition enq_op (x : Z) (tk : FifoTask) : qop := if prio_boost tk then Front x else Back x.

Definition enq (c x : Z) (tk : FifoTask) (s : FifoState) : FifoState :=
  upd_cs c (set_rq (apply_qop (enq_op x tk) (rq s c))) (upd_task x (set_run_state kQueued tk) s).

Lemma fifo_wp_Enqueue c x tk (Q : unit -> FifoState -> Prop) s :
  tasks s !! x = Some tk -> 0 <= cpu tk -> run_state tk = kRunnable -> Q tt (enq c x tk s) ->
  wp (Enqueue c x) Q s.
Proof.
  intros Hx Hcpu Hst HQ. unfold Enqueue. f_steps. unfold enq, enq_op in HQ.
  destruct (prio_boost tk); f_steps; exact HQ.
Qed.

Lemma effect_enq c x tk s : effect s (enq c x tk s) (Some (c, enq_op x tk)).
Proof. intros c'. unfold enq. rewrite fifo_rq_upd_cs. by case_decide; subst. Qed.

Lemma elem_of_enq x tk q t : t ∈ apply_qop (enq_op x tk) q <-> t = x \/ t ∈ q.
Proof. unfold enq_op. destruct (prio_boost tk); cbn; set_solver. Qed.

Lemma NoDup_enq x tk q : NoDup q -> x ∉ q -> NoDup (apply_qop (enq_op x tk) q).
Proof.
  intros Hnd Hx. unfold enq_op. destruct (prio_boost tk); cbn; [by apply NoDup_cons|].
  by apply NoDup_snoc.
Qed.

Lemma fifo_inv_enq env c x tk s :
  inv env (Some x) s -> cpu tk = c -> c ∈ cpus env -> inv env None (enq c x tk s).
Proof.
  intros Hi Hc Hin. destruct (inv_hand _ _ _ Hi x eq_refl) as [Hq Hcur].
  pose proof (effect_enq c x tk s) as He. unfold effect in He.
  assert (Hcs : forall c', cur (enq c x tk s) c' = cur s c') by (intros; unfold enq; by rewrite cur_set_rq).
  eapply (inv_frame _ x); [exact Hi|congruence|done|..|apply Hi].
  - intros c'. rewrite He. case_decide; [|apply Hi]. apply NoDup_enq; [apply Hi|apply Hq].
  - intros t Ht. split; [unfold enq; cbn; by rewrite lookup_insert_ne by done|].
    split; intros c'; rewrite ?Hcs; [|done]. rewrite He. case_decide; [|done]. rewrite elem_of_enq. naive_solver.
  - rewrite decide_False by done. unfold place_ok, enq. cbn. rewrite lookup_insert_eq. cbn. fold (enq c x tk s).
    rewrite Hc. split; [|split; [|done]]; intros c'; [|by rewrite Hcs].
    rewrite He. case_decide as Hd; [rewrite elem_of_enq; naive_solver|]. specialize (Hq c'). naive_solver.
Qed.

(** Taking the queued task [x] off the runqueue of [c]. *)
Definition deq (c x : Z) (tk : FifoTask) (q : list Z) (s : FifoState) : FifoState :=
  upd_task x (set_run_state kRunnable tk) (upd_cs c (set_rq q) s).

Lemma inv_deq env c x tk q s :
  inv env None s -> x ∈ rq s c -> NoDup q -> (forall t, t ∈ q <-> t ∈ rq s c /\ t <> x) ->
  inv env (Some x) (deq c x tk q s).
Proof.
  intros Hi Hx Hnd Hq. unfold deq.
  assert (Hr : forall c', rq (deq c x tk q s) c' = if decide (c = c') then q else rq s c').
  { intros c'. unfold deq. exact (fifo_rq_upd_cs c (set_rq q) s c'). }
  assert (Hcs : forall c', cur (deq c x tk q s) c' = cur s c') by exact (cur_set_rq c q s).
  destruct (inv_in _ _ _ _ Hi Hx) as (tk0 & Hx0 & Hst0 & Hc0 & _).
  pose proof (inv_place _ _ _ Hi x ltac:(done)) as Hp. unfold place_ok in Hp. rewrite Hx0, Hst0 in Hp.
  destruct Hp as (Hp1 & Hp2 & _).
  eapply (inv_frame _ x); [exact Hi|done|congruence|..|apply Hi].
  - intros c'. fold (deq c x tk q s). rewrite Hr. case_decide; [done|apply Hi].
  - intros t Ht. fold (deq c x tk q s). split; [unfold deq; by rewrite fifo_lookup_upd, decide_False by done|].
    split; intros c'; rewrite ?Hcs; [|done]. rewrite Hr. case_decide as Hd; [subst; rewrite Hq|]; naive_solver.
  - rewrite decide_True by done. fold (deq c x tk q s). split; intros c'; [|by rewrite Hcs].
    rewrite Hr. case_decide as Hd; [rewrite Hq; naive_solver|]. rewrite Hp1. congruence.
Qed.

Lemma effect_deq c x tk q s o : q = apply_qop o (rq s c) -> effect s (deq c x tk q s) (Some (c, o)).
Proof.
  intros -> c'. unfold deq. change (rq (upd_task ?a ?b ?d) c') with (rq d c'). rewrite fifo_rq_upd_cs.
  by case_decide; subst.
Qed.

Lemma fifo_wp_Dequeue env c (Q : option Z -> FifoState -> Prop) s :
  inv env None s -> (rq s c = [] -> Q None s) ->
  (forall x q tk, rq s c = x :: q -> tasks s !! x = Some tk -> run_state tk = kQueued -> cpu tk = c ->
     Q (Some x) (deq c x tk q s)) ->
  wp (Dequeue c) Q s.
Proof.
  intros Hi Hnone Hsome. unfold Dequeue. f_steps. fold (rq s c). destruct (rq s c) as [|x q] eqn:E.
  - f_steps. by apply Hnone.
  - destruct (inv_in _ _ c x Hi) as (tk & Hx & Hst & Hc & _); [rewrite E; set_solver|].
    f_steps. by eapply Hsome.
Qed.

Lemma inv_pop env c x q tk s :
  inv env None s -> rq s c = x :: q -> inv env (Some x) (deq c x tk q s).
Proof.
  intros Hi E. pose proof (inv_nodup _ _ _ Hi c) as Hnd. rewrite E in Hnd. apply NoDup_cons in Hnd as [H1 H2].
  apply inv_deq; [done|rewrite E; set_solver|done|]. intros t. rewrite E. set_solver.
Qed.

Lemma fifo_wp_Erase env x tk (Q : unit -> FifoState -> Prop) s :
  inv env None s -> tasks s !! x = Some tk -> run_state tk = kQueued ->
  (let q := apply_qop (Del x) (rq s (cpu tk)) in
   inv env (Some x) (deq (cpu tk) x tk q s) -> Q tt (deq (cpu tk) x tk q s)) ->
  wp (Erase (cpu tk) x) Q s.
Proof.
  intros Hi Hx Hst HQ. unfold Erase. f_steps. fold (rq s (cpu tk)).
  pose proof (inv_place _ _ _ Hi x ltac:(done)) as Hp. unfold place_ok in Hp. rewrite Hx, Hst in Hp.
  assert (Hin : x ∈ rq s (cpu tk)) by (by apply Hp).
  destruct (find_task_spec _ _ Hin) as (p & -> & Hpos).
  rewrite (delete_filter x _ p) by (apply Hi || done). f_steps. apply HQ. apply inv_deq; [done|done|..].
  - apply NoDup_filter, Hi.
  - intros t. cbn. rewrite list_elem_of_filter. tauto.
Qed.

(** ** Getting off and on a CPU *)

Lemma fifo_wp_cpu_state_of env x tk (Q : Z -> FifoState -> Prop) s :
  env_ok env -> tasks s !! x = Some tk -> cpu tk ∈ cpus env -> Q (cpu tk) s ->
  wp (cpu_state_of x) Q s.
Proof.
  intros Henv Hx Hc HQ. destruct (env_cpus_range _ Henv _ Hc).
  unfold cpu_state_of. f_steps. exact HQ.
Qed.

Definition off_state (is_blocked : bool) : FifoTaskState := if is_blocked then kBlocked else kRunnable.

Definition off (x : Z) (tk : FifoTask) (b : bool) (s : FifoState) : FifoState :=
  upd_task x (set_run_state (off_state b) tk)
    (if oncpu tk then upd_cs (cpu tk) (set_current None) s else s).

(** A task that can go off its CPU: running, or the last of a switchto chain. *)
Definition can_off (tk : FifoTask) (from_switchto : bool) : Prop :=
  run_state tk = kOnCpu \/ (run_state tk = kBlocked /\ from_switchto = true).

Lemma rq_off x tk b s c : rq (off x tk b s) c = rq s c.
Proof. unfold off. destruct (oncpu tk); [|done]. apply (rq_set_current (cpu tk) None s c). Qed.

Lemma inv_off env x tk fs b s :
  inv env None s -> tasks s !! x = Some tk -> can_off tk fs -> inv env (Some x) (off x tk b s).
Proof.
  intros Hi Hx Hoff. unfold off. destruct (oncpu tk) eqn:Hon; apply fifo_inv_hole_write.
  - apply bool_decide_eq_true in Hon.
    pose proof (inv_place _ _ _ Hi x ltac:(done)) as Hp. unfold place_ok in Hp. rewrite Hx, Hon in Hp.
    destruct Hp as (Hp1 & Hp2 & _).
    eapply (inv_frame _ x); [exact Hi|done|congruence|..|apply Hi].
    + intros c. rewrite rq_set_current. apply Hi.
    + intros t Ht. split; [done|]. split; intros c; [by rewrite rq_set_current|].
      rewrite fifo_cur_upd_cs. case_decide as Hd; [|done]. subst c. cbn. split; [done|].
      rewrite (proj2 (Hp2 (cpu tk)) eq_refl). congruence.
    + rewrite decide_True by done. split; intros c; [by rewrite rq_set_current|].
      rewrite fifo_cur_upd_cs. case_decide; [done|]. rewrite Hp2. congruence.
  - apply bool_decide_eq_false in Hon. apply fifo_inv_open; [done|].
    destruct Hoff as [?|[Hst _]]; [done|]. by eapply inv_blocked.
Qed.

Lemma fifo_wp_TaskOffCpu env x tk b fs (Q : unit -> FifoState -> Prop) s :
  env_ok env -> inv env None s -> tasks s !! x = Some tk -> cpu tk ∈ cpus env -> can_off tk fs ->
  Q tt (off x tk b s) -> wp (TaskOffCpu x b fs) Q s.
Proof.
  intros Henv Hi Hx Hc Hoff HQ. unfold TaskOffCpu. f_step. eapply fifo_wp_cpu_state_of; [done..|].
  f_step. f_step. unfold off in HQ. destruct (oncpu tk) eqn:Hon.
  - apply bool_decide_eq_true in Hon.
    pose proof (inv_place _ _ _ Hi x ltac:(done)) as Hp. unfold place_ok in Hp. rewrite Hx, Hon in Hp.
    assert (Hcur : cur s (cpu tk) = Some x) by (by apply Hp). f_steps. exact HQ.
  - destruct Hoff as [Hoff|[Hst ->]]; [unfold oncpu in Hon; by rewrite bool_decide_true in Hon|].
    f_steps. exact HQ.
Qed.

Definition oncpu_task (c : Z) (tk : FifoTask) : FifoTask := mkFifoTask (f_seqnum tk) kOnCpu c false false.

Definition running (c x : Z) (tk : FifoTask) (s : FifoState) : FifoState :=
  upd_task x (oncpu_task c tk) (upd_cs c (set_current (Some x)) s).

Lemma fifo_rq_running c x tk s c' : rq (running c x tk s) c' = rq s c'.
Proof. exact (rq_set_current c (Some x) s c'). Qed.

Lemma fifo_cur_running c x tk s c' : cur (running c x tk s) c' = if decide (c = c') then Some x else cur s c'.
Proof. exact (fifo_cur_upd_cs c (set_current (Some x)) s c'). Qed.

Lemma fifo_wp_TaskOnCpu x tk c (Q : unit -> FifoState -> Prop) s :
  tasks s !! x = Some tk -> Q tt (running c x tk s) -> wp (TaskOnCpu x c) Q s.
Proof. intros Hx HQ. unfold TaskOnCpu. f_steps. rewrite !fifo_upd_upd_task. exact HQ. Qed.

(** The task in hand goes on an idle CPU. *)
Lemma fifo_inv_running env c x tk s :
  c ∈ cpus env -> cur s c = None -> inv env (Some x) s -> inv env None (running c x tk s).
Proof.
  intros Hc Hidle Hi. destruct (inv_hand _ _ _ Hi x eq_refl) as [Hq Hcur].
  eapply (inv_frame _ x); [exact Hi|congruence|done|..|apply Hi].
  - intros c'. rewrite fifo_rq_running. apply Hi.
  - intros t Ht. split; [unfold running; by rewrite fifo_lookup_upd, decide_False by done|].
    split; intros c'; [by rewrite fifo_rq_running|]. rewrite fifo_cur_running. case_decide as Hd; [|done]. subst c'.
    rewrite Hidle. naive_solver.
  - rewrite decide_False by done. unfold place_ok. unfold running at 1. rewrite fifo_lookup_upd, decide_True by done.
    cbn [run_state oncpu_task cpu prio_boost]. split; [intros c'; rewrite fifo_rq_running; apply Hq|].
    split; [|done]. intros c'. rewrite fifo_cur_running. case_decide; [naive_solver|]. split; [|congruence].
    intros E. by destruct (Hcur c').
Qed.

(** The current task, committed again. *)
Lemma fifo_inv_running_current env c x tk s :
  inv env None s -> cur s c = Some x -> tasks s !! x = Some tk -> inv env None (running c x tk s).
Proof.
  intros Hi Hcur Hx. destruct (inv_cur _ _ _ _ Hi Hcur) as (tk' & Hx' & Hst & Hc & Hin).
  rewrite Hx in Hx'. injection Hx' as <-.
  pose proof (inv_place _ _ _ Hi x ltac:(done)) as Hp. unfold place_ok in Hp. rewrite Hx, Hst in Hp.
  eapply (inv_frame _ x); [exact Hi|done|done|..|apply Hi].
  - intros c'. rewrite fifo_rq_running. apply Hi.
  - intros t Ht. split; [unfold running; by rewrite fifo_lookup_upd, decide_False by done|].
    split; intros c'; [by rewrite fifo_rq_running|]. rewrite fifo_cur_running. case_decide as Hd; [|done]. subst c'.
    by rewrite Hcur.
  - rewrite decide_False by done. unfold place_ok. unfold running at 1. rewrite fifo_lookup_upd, decide_True by done.
    cbn [run_state oncpu_task cpu prio_boost]. split; [intros c'; rewrite fifo_rq_running; apply Hp|].
    split; [|done]. intros c'. rewrite fifo_cur_running. case_decide; [naive_solver|]. by rewrite (proj1 (proj2 Hp)), Hc.
Qed.

(** ** Placement *)

Lemma fifo_wp_PingAgent env c (Q : unit -> FifoState -> Prop) s :
  c ∈ cpus env -> Q tt (log (Ping c) s) -> wp (PingAgent env c) Q s.
Proof. intros Hc HQ. unfold PingAgent. f_steps. exact HQ. Qed.

Lemma fifo_wp_PingSwitchto env fs c (Q : unit -> FifoState -> Prop) s :
  (truthy fs = true -> c ∈ cpus env) -> (forall s', same_sched s s' -> Q tt s') ->
  wp (PingSwitchto env fs c) Q s.
Proof.
  intros Hc HQ. unfold PingSwitchto. apply wp_when; intros Hb; [|by apply HQ].
  apply fifo_wp_PingAgent; [by apply Hc|]. by apply HQ.
Qed.

Definition assign_pos (env : Env) (s : FifoState) : nat :=
  if (next_ s =? length (cpus env))%nat then O else next_ s.

(** The CPU that [AssignCpu] returns next. *)
Definition assigned (env : Env) (s : FifoState) : Z := cpus env !!! assign_pos env s.

Lemma fifo_wp_AssignCpu env h (Q : Z -> FifoState -> Prop) s :
  env_ok env -> inv env h s ->
  (assigned env s ∈ cpus env -> (S (assign_pos env s) <= length (cpus env))%nat ->
   Q (assigned env s) (set_next (S (assign_pos env s)) s)) ->
  wp (AssignCpu env) Q s.
Proof.
  intros Henv Hi HQ. pose proof (inv_next _ _ _ Hi) as Hn. pose proof (env_cpus_ne _ Henv) as Hne.
  unfold wp, AssignCpu. fold (assign_pos env s).
  assert (Hlt : (assign_pos env s < length (cpus env))%nat).
  { unfold assign_pos. destruct (Nat.eqb_spec (next_ s) (length (cpus env))); [|lia].
    destruct (cpus env); [done|cbn; lia]. }
  destruct (lookup_lt_is_Some_2 _ _ Hlt) as [c Hc]. rewrite Hc.
  assert (E : assigned env s = c) by (unfold assigned; by apply list_lookup_total_correct).
  rewrite <- E. apply HQ; [|lia]. rewrite E. by eapply list_elem_of_lookup_2.
Qed.

(** ** Callbacks *)

Definition off_msg_ok (env : Env) (tk : FifoTask) (fs c : Z) : Prop :=
  cpu tk ∈ cpus env /\ can_off tk (truthy fs) /\ (truthy fs = true -> c ∈ cpus env).

(** The kernel's protocol for a message about a known task. *)
Definition task_msg_ok (env : Env) (tk : FifoTask) (p : ghost_payload) : Prop :=
  match p with
  | P_dead _ | P_wakeup _ => run_state tk = kBlocked
  | P_blocked p => off_msg_ok env tk (tb_from_switchto p) (tb_cpu p)
  | P_preempt p => off_msg_ok env tk (tp_from_switchto p) (tp_cpu p)
  | P_yield p => off_msg_ok env tk (ty_from_switchto p) (ty_cpu p)
  | P_departed p =>
      truthy (tdp_from_switchto p) = true -> off_msg_ok env tk (tdp_from_switchto p) (tdp_cpu p)
  | P_switchto _ => run_state tk = kOnCpu
  | P_affinity _ | P_on_cpu _ | P_priority _ | P_newt _ => True
  | _ => False
  end.

(** What a message about a known task does to the deques. *)
Definition task_op (env : Env) (s : FifoState) (g : Z) (tk : FifoTask) (p : ghost_payload) :
    option (Z * qop) :=
  match p with
  | P_wakeup p =>
      Some (if cpu tk <? 0 then assigned env s else cpu tk,
            if truthy (tw_deferrable p) then Back g else Front g)
  | P_preempt _ => Some (cpu tk, Front g)
  | P_yield _ => Some (cpu tk, Back g)
  | P_departed _ => if queued tk then Some (cpu tk, Del g) else None
  | _ => None
  end.

Section Callbacks.
Context (env : Env) (Henv : env_ok env).

Definition post (x sn : Z) (s0 : FifoState) (o : option (Z * qop)) (s : FifoState) : Prop :=
  inv env None s /\ effect s0 s o /\ exists tk, tasks s !! x = Some tk /\ f_seqnum tk = sn.

Lemma fifo_post_same x sn s0 o s s' : same_sched s s' -> post x sn s0 o s -> post x sn s0 o s'.
Proof.
  intros Hs (Hi & He & Hx). split; [by eapply fifo_inv_same|]. split; [|by rewrite (same_tasks _ _ Hs)].
  by eapply effect_rq; [|by apply (rq_same _ _ Hs)|exact He].
Qed.

(** Enqueue the task in hand on its CPU. *)
Lemma enqueue_post x tk s0 s :
  inv env (Some x) s -> (forall c, rq s c = rq s0 c) -> tasks s !! x = Some tk ->
  run_state tk = kRunnable -> cpu tk ∈ cpus env ->
  wp (Enqueue (cpu tk) x) (fun _ => post x (f_seqnum tk) s0 (Some (cpu tk, enq_op x tk))) s.
Proof.
  intros Hi Hr Hx Hst Hc. destruct (env_cpus_range _ Henv _ Hc). eapply fifo_wp_Enqueue; [done..|].
  split; [by apply fifo_inv_enq|]. split; [|exists (set_run_state kQueued tk); split; [unfold enq; tlook|done]].
  by eapply effect_rq; [|done|apply effect_enq].
Qed.

Lemma migrate_post x tk c sn s0 s :
  inv env (Some x) s -> (forall c, rq s c = rq s0 c) -> tasks s !! x = Some tk ->
  run_state tk = kRunnable -> cpu tk = -1 -> c ∈ cpus env ->
  wp (Migrate env x c sn) (fun _ => post x (f_seqnum tk) s0 (Some (c, enq_op x tk))) s.
Proof.
  intros Hi Hr Hx Hst Hcpu Hc. unfold Migrate. f_steps. apply wp_check; [by apply env_assoc|]. f_steps.
  eapply wp_mono; [apply (enqueue_post x (set_cpu c tk) s0)|].
  - apply fifo_inv_hole_write. by eapply fifo_inv_same; [|exact Hi].
  - exact Hr.
  - tlook.
  - done.
  - done.
  - intros ? s' Hp. apply fifo_wp_PingAgent; [done|]. by eapply fifo_post_same; [|exact Hp].
Qed.

Lemma fifo_TaskNew_ok x sn p s tk :
  inv env (Some x) s -> tasks s !! x = Some tk -> cpu tk = -1 -> prio_boost tk = false ->
  wp (TaskNew env x (Message.of_payload sn (P_newt p)))
    (fun _ => post x sn s (if truthy (tn_runnable p) then Some (assigned env s, Back x) else None)) s.
Proof.
  intros Hi Hx Hc Hb. unfold TaskNew. f_step. eapply wp_deref; [done|]. f_steps.
  destruct (truthy (tn_runnable p)); f_steps.
  - eapply fifo_wp_AssignCpu; [done|by do 3 apply fifo_inv_hole_write|]. intros Ha Hle.
    eapply wp_mono; [eapply migrate_post; [|done|tlook|done|done|done]|].
    + apply fifo_inv_set_next; [done|]. by do 3 apply fifo_inv_hole_write.
    + intros ? s'. unfold enq_op. cbn [prio_boost set_run_state set_f_seqnum]. by rewrite Hb.
  - split; [|split; [by intros|eexists; split; [tlook|done]]].
    eapply fifo_inv_close_blocked; [by do 2 apply fifo_inv_hole_write|tlook|done|by left|done].
Qed.

Lemma fifo_TaskRunnable_ok x tk sn p s :
  inv env None s -> tasks s !! x = Some tk -> run_state tk = kBlocked ->
  wp (TaskRunnable env x (Message.of_payload sn (P_wakeup p)))
    (fun _ => post x (f_seqnum tk) s (task_op env s x tk (P_wakeup p))) s.
Proof.
  intros Hi Hx Hst. pose proof (inv_place _ _ _ Hi x ltac:(done)) as Hp. unfold place_ok in Hp.
  rewrite Hx, Hst in Hp. destruct Hp as (Hno & Hc & _).
  unfold TaskRunnable. f_step. eapply wp_deref; [done|]. f_steps. unfold task_op.
  assert (Hi2 : forall t1 t2, inv env (Some x) (upd_task x t1 (upd_task x t2 s))).
  { intros. by do 2 apply fifo_inv_hole_write; apply fifo_inv_open. }
  assert (Hop : forall t, prio_boost t = negb (truthy (tw_deferrable p)) ->
    enq_op x t = if truthy (tw_deferrable p) then Back x else Front x).
  { intros t E. unfold enq_op. rewrite E. by destruct (truthy _). }
  destruct (cpu tk <? 0) eqn:Hneg.
  - apply Z.ltb_lt in Hneg. assert (Hc1 : cpu tk = -1).
    { destruct Hc as [|Hc]; [done|]. apply (env_cpus_range _ Henv) in Hc. lia. }
    f_steps. eapply fifo_wp_AssignCpu; [done|apply Hi2|]. intros Ha Hle.
    eapply wp_mono; [eapply migrate_post; [|done|tlook|done|done|done]|].
    + apply fifo_inv_set_next; [done|]. apply Hi2.
    + intros ? s'. by rewrite Hop.
  - apply Z.ltb_ge in Hneg. destruct Hc as [Hc|Hc]; [lia|].
    f_steps. eapply fifo_wp_cpu_state_of; [done|tlook|done|].
    eapply wp_mono; [eapply (enqueue_post x); [|done|tlook|done|done]|]; [apply Hi2|].
    intros ? s'. by rewrite Hop.
Qed.

(** The task in hand goes back on the runqueue of its CPU. *)
Lemma requeue_post x tk fs c s0 s :
  inv env (Some x) s -> (forall c, rq s c = rq s0 c) -> tasks s !! x = Some tk ->
  run_state tk = kRunnable -> cpu tk ∈ cpus env -> (truthy fs = true -> c ∈ cpus env) ->
  wp (cpu_state_of x) (fun c' => wp (Enqueue c' x ;;; PingSwitchto env fs c)
    (fun _ => post x (f_seqnum tk) s0 (Some (cpu tk, enq_op x tk)))) s.
Proof.
  intros Hi Hr Hx Hst Hc Hfs. eapply fifo_wp_cpu_state_of; [done..|]. f_step.
  eapply wp_mono; [by apply (enqueue_post x tk s0)|]. intros ? s2 Hp.
  apply fifo_wp_PingSwitchto; [done|]. intros s3 Hs3. by eapply fifo_post_same.
Qed.

(** A task that can go off its CPU is not boosted. *)
Lemma can_off_boost x tk fs s :
  inv env None s -> tasks s !! x = Some tk -> can_off tk fs -> prio_boost tk = false.
Proof.
  intros Hi Hx Hoff. pose proof (inv_place _ _ _ Hi x ltac:(done)) as Hp. unfold place_ok in Hp.
  rewrite Hx in Hp. destruct Hoff as [Hst|[Hst _]]; rewrite Hst in Hp; apply Hp.
Qed.

Lemma fifo_TaskYield_ok x tk sn p s :
  inv env None s -> tasks s !! x = Some tk -> task_msg_ok env tk (P_yield p) ->
  wp (TaskYield env x (Message.of_payload sn (P_yield p)))
    (fun _ => post x (f_seqnum tk) s (task_op env s x tk (P_yield p))) s.
Proof.
  intros Hi Hx (Hc & Hoff & Hfs). pose proof (can_off_boost _ _ _ _ Hi Hx Hoff) as Hb.
  unfold TaskYield. f_step. eapply wp_deref; [done|]. f_step. eapply fifo_wp_TaskOffCpu; [done..|]. f_step.
  eapply wp_mono; [eapply (requeue_post x (set_run_state kRunnable tk)); [by eapply inv_off|apply rq_off|unfold off; tlook|done..]|].
  intros c' s'. unfold enq_op, task_op. cbn [prio_boost set_run_state]. by rewrite Hb.
Qed.

Lemma fifo_TaskPreempted_ok x tk sn p s :
  inv env None s -> tasks s !! x = Some tk -> task_msg_ok env tk (P_preempt p) ->
  wp (TaskPreempted env x (Message.of_payload sn (P_preempt p)))
    (fun _ => post x (f_seqnum tk) s (task_op env s x tk (P_preempt p))) s.
Proof.
  intros Hi Hx (Hc & Hoff & Hfs).
  unfold TaskPreempted. f_step. eapply wp_deref; [done|]. f_step. eapply fifo_wp_TaskOffCpu; [done..|]. unfold off.
  f_steps. eapply wp_mono; [eapply (requeue_post x (set_prio_boost true (set_preempted true (set_run_state kRunnable tk))))|intros c0 s0 Hw; exact Hw].
  - do 2 apply fifo_inv_hole_write. by eapply (inv_off _ _ tk _ false).
  - exact (rq_off x tk false s).
  - tlook.
  - done.
  - done.
  - done.
Qed.

(** A task that blocks keeps its CPU. *)
Lemma off_blocked_post x tk fs s s' :
  inv env None s -> tasks s !! x = Some tk -> can_off tk fs -> cpu tk ∈ cpus env ->
  same_sched (off x tk true s) s' -> post x (f_seqnum tk) s None s'.
Proof.
  intros Hi Hx Hoff Hc Hs. eapply fifo_post_same; [exact Hs|]. split; [|split].
  - eapply (fifo_inv_close_blocked _ x (set_run_state kBlocked tk)); [by eapply inv_off|unfold off; tlook|done|by right|].
    exact (can_off_boost _ _ _ _ Hi Hx Hoff).
  - intros c. apply rq_off.
  - eexists. split; [unfold off; tlook|done].
Qed.

Lemma fifo_TaskBlocked_ok x tk sn p s :
  inv env None s -> tasks s !! x = Some tk -> task_msg_ok env tk (P_blocked p) ->
  wp (TaskBlocked env x (Message.of_payload sn (P_blocked p))) (fun _ => post x (f_seqnum tk) s None) s.
Proof.
  intros Hi Hx (Hc & Hoff & Hfs). unfold TaskBlocked. f_step. eapply wp_deref; [done|]. f_step.
  eapply fifo_wp_TaskOffCpu; [done..|]. apply fifo_wp_PingSwitchto; [done|]. intros s' Hs. by eapply off_blocked_post.
Qed.

Lemma fifo_TaskSwitchto_ok x tk msg s :
  inv env None s -> tasks s !! x = Some tk -> run_state tk = kOnCpu ->
  wp (TaskSwitchto x msg) (fun _ => post x (f_seqnum tk) s None) s.
Proof.
  intros Hi Hx Hst. pose proof (inv_place _ _ _ Hi x ltac:(done)) as Hp. unfold place_ok in Hp.
  rewrite Hx, Hst in Hp. unfold TaskSwitchto. eapply fifo_wp_TaskOffCpu; [done..|by apply Hp|by left|].
  eapply (off_blocked_post x tk false); [done|done|by left|apply Hp|done].
Qed.

(** After a task is gone. *)
Definition gone (x : Z) (s0 : FifoState) (o : option (Z * qop)) (s : FifoState) : Prop :=
  inv env None s /\ effect s0 s o /\ tasks s !! x = None.

Lemma free_gone x s0 o s1 s :
  inv env (Some x) s1 -> effect s0 s1 o -> same_sched s1 s -> wp (FreeTask x) (fun _ => gone x s0 o) s.
Proof.
  intros Hi He Hs. apply wp_FreeTask. split; [|split].
  - apply fifo_inv_hole_delete. by eapply fifo_inv_same.
  - by eapply effect_rq; [|apply (rq_same _ _ Hs)|exact He].
  - cbn. apply lookup_delete_eq.
Qed.

Lemma fifo_TaskDead_ok x tk msg s :
  inv env None s -> tasks s !! x = Some tk -> run_state tk = kBlocked ->
  wp (TaskDead x msg) (fun _ => gone x s None) s.
Proof.
  intros Hi Hx Hst. unfold TaskDead. f_steps. eapply free_gone; [|by intros|done].
  apply fifo_inv_open; [done|]. by eapply inv_blocked.
Qed.

Lemma fifo_TaskDeparted_ok x tk sn p s :
  inv env None s -> tasks s !! x = Some tk -> task_msg_ok env tk (P_departed p) ->
  wp (TaskDeparted env x (Message.of_payload sn (P_departed p)))
    (fun _ => gone x s (task_op env s x tk (P_departed p))) s.
Proof.
  intros Hi Hx Hok. pose proof (inv_place _ _ _ Hi x ltac:(done)) as Hp. unfold place_ok in Hp. rewrite Hx in Hp.
  unfold TaskDeparted. f_step. eapply wp_deref; [done|]. f_step. f_step. f_step. cbn [task_op].
  assert (Hend : forall s1, inv env (Some x) s1 -> effect s s1 (task_op env s x tk (P_departed p)) ->
    wp (PingSwitchto env (tdp_from_switchto p) (tdp_cpu p) ;;; FreeTask x)
      (fun _ => gone x s (task_op env s x tk (P_departed p))) s1).
  { intros s1 Hi1 He. f_step. apply fifo_wp_PingSwitchto; [intros Hfs; by apply Hok|].
    intros s' Hs. by eapply free_gone. }
  cbn [task_op] in Hend.
  destruct (oncpu tk || truthy (tdp_from_switchto p)) eqn:Hor.
  - assert (Hc : cpu tk ∈ cpus env /\ can_off tk (truthy (tdp_from_switchto p)) /\ queued tk = false).
    { destruct (truthy (tdp_from_switchto p)) eqn:Hfs.
      - destruct Hok as (Hc & Hoff & _); [done|]. rewrite Hfs in Hoff. split_and!; [done..|].
        apply bool_decide_eq_false. by destruct Hoff as [Hst|[Hst _]]; rewrite Hst.
      - rewrite orb_false_r in Hor. apply bool_decide_eq_true in Hor. rewrite Hor in Hp.
        split_and!; [apply Hp|by left|]. apply bool_decide_eq_false. by rewrite Hor. }
    destruct Hc as (Hc & Hoff & Hq). rewrite Hq in Hend |- *. eapply fifo_wp_TaskOffCpu; [done..|].
    apply Hend; [by eapply inv_off|]. intros c. apply rq_off.
  - apply orb_false_iff in Hor as [Hon _]. apply bool_decide_eq_false in Hon.
    destruct (queued tk) eqn:Hq.
    + apply bool_decide_eq_true in Hq. rewrite Hq in Hp. f_step.
      eapply fifo_wp_cpu_state_of; [done|done|apply Hp|]. eapply fifo_wp_Erase; [done..|]. intros q Hq'.
      apply Hend; [done|]. by apply effect_deq.
    + apply bool_decide_eq_false in Hq.
      assert (Hst : run_state tk = kBlocked) by (by destruct (run_state tk)).
      rewrite Hst in Hp. f_step. apply Hend; [apply fifo_inv_open; [done|apply Hp]|by intros].
Qed.
End Callbacks.
