(* ===== verification/FifoProps.v ===== *)
(** * Correctness of the FIFO scheduler

    The scheduler as a transition system: a step is one message or one scheduling
    decision, in any interleaving.  No step aborts, every CPU's runqueue behaves
    like a deque, and no queued task starves. *)

From S2P Require Import Prelude GhostAbi Dispatch FifoSched FifoInv FifoHandlers.
Import Fifo.

(** ** Scheduling decisions *)

(** What a decision for CPU [c] does to the deques, given whether a transaction
    was committed. *)
Definition sched_op (s : FifoState) (c : Z) (boosted committed : bool) : option (Z * qop) :=
  if boosted then None
  else match cur s c with
       | Some x => if committed then None else Some (c, Front x)
       | None => match rq s c with
                 | [] => None
                 | _ => if committed then Some (c, Pop) else None
                 end
       end.

Definition committed (s' : FifoState) (c : Z) : bool := bool_decide (is_Some (cur s' c)).

Section Schedule.
Context (env : Env) (Henv : env_ok env).

Lemma fifo_wp_WaitOffCpu fuel (Q : unit -> FifoState -> Prop) s :
  (exists k, (k < fuel)%nat /\ status_on_cpu env (reads s + k) = false) ->
  (forall s', same_sched s s' -> Q tt s') -> wp (WaitOffCpu env fuel) Q s.
Proof.
  revert s. induction fuel as [|fuel IH]; intros s (k & Hk & Hoff) HQ; [lia|].
  cbn [WaitOffCpu]. f_steps. destruct (status_on_cpu env (reads s)) eqn:Hon.
  - apply IH.
    + destruct k as [|k]; [rewrite Nat.add_0_r in Hoff; congruence|].
      exists k. split; [lia|]. cbn [reads bump]. rewrite <- Hoff. f_equal. lia.
    + intros s' [? ? ?]. by apply HQ.
  - f_steps. by apply HQ.
Qed.

(** The outcome of a decision for [c] taken in state [s]. *)
Definition decided (c : Z) (s s' : FifoState) : Prop :=
  inv env None s' /\ effect s s' (sched_op s c false (committed s' c)) /\
  (cur s c = None -> committed s' c = true -> cur s' c = head (rq s c)).

(** After a failed commit the task in hand goes to the front. *)
Lemma requeue_failed c x tk (Q : unit -> FifoState -> Prop) s :
  inv env (Some x) s -> tasks s !! x = Some tk -> run_state tk = kRunnable -> cpu tk = c -> c ∈ cpus env ->
  (forall s', inv env None s' -> effect s s' (Some (c, Front x)) -> (forall c', cur s' c' = cur s c') -> Q tt s') ->
  wp (write_task x (set_prio_boost true)) (fun _ => wp (Enqueue c x) Q) s.
Proof.
  intros Hi Hx Hst Hcpu Hc HQ. destruct (env_cpus_range _ Henv c Hc). f_step.
  eapply fifo_wp_Enqueue; [tlook|cbn; lia|done|]. apply HQ.
  - apply fifo_inv_enq; [by apply fifo_inv_hole_write|done..].
  - by eapply effect_rq; [|done|apply effect_enq].
  - intros c'. unfold enq. by rewrite cur_set_rq.
Qed.

(** Committing the current task again. *)
Lemma commit_current c x ab s :
  inv env None s -> cur s c = Some x -> wp (CommitNext env c x ab) (fun _ => decided c s) s.
Proof.
  intros Hi Hc. destruct (inv_cur _ _ _ _ Hi Hc) as (tk & Hx & Hst & Hcpu & Hin).
  unfold CommitNext. f_step. apply fifo_wp_WaitOffCpu; [apply (env_spin _ Henv)|]. intros s1 Hs1.
  pose proof (same_tasks _ _ Hs1) as Ht1. rewrite <- Ht1 in Hx. f_steps.
  match goal with |- wp (if _ then _ else _) _ ?s2 => set (s' := s2) end.
  assert (Hs' : same_sched s s') by (by etrans; [exact Hs1|split]).
  pose proof (fifo_inv_same _ _ _ _ Hs' Hi) as Hi'.
  assert (Hcs : forall c', cur s' c' = cur s c') by (intros; unfold cur; by rewrite (same_cpus _ _ Hs')).
  assert (Hc' : cur s' c = Some x) by (by rewrite Hcs).
  unfold decided, sched_op. rewrite Hc. destruct (Commit_ok env _).
  - eapply fifo_wp_TaskOnCpu; [exact Hx|]. split; [by apply fifo_inv_running_current|]. split; [|done].
    unfold committed. rewrite fifo_cur_running, decide_True by done. rewrite bool_decide_true by done.
    intros c'. by rewrite fifo_rq_running, (rq_same _ _ Hs').
  - f_steps. change (current (cpu_states_ s' !!! c)) with (cur s' c). rewrite Hc'.
    rewrite bool_decide_true by done. cbn [when].
    assert (Hoff : can_off tk false) by (by left).
    eapply (fifo_wp_TaskOffCpu env x tk); [done|done|exact Hx|by rewrite Hcpu|done|]. f_step.
    eapply (requeue_failed c x (set_run_state kRunnable tk));
      [by eapply inv_off|unfold off; tlook|done|done|done|].
    intros s3 Hi3 He3 Hc3. split; [done|]. split; [|done].
    assert (Hn : committed s3 c = false).
    { apply bool_decide_eq_false. rewrite Hc3. unfold off, oncpu. rewrite (bool_decide_true _ Hst).
      change (cur (upd_task ?a ?b ?d) c) with (cur d c). rewrite fifo_cur_upd_cs, decide_True by done. by intros []. }
    rewrite Hn. eapply effect_rq; [|done|exact He3]. intros c'. rewrite rq_off. symmetry. by apply rq_same.
Qed.

(** Committing the head of the runqueue. *)
Lemma commit_head c x q tk ab s :
  inv env None s -> cur s c = None -> rq s c = x :: q -> tasks s !! x = Some tk -> cpu tk = c -> c ∈ cpus env ->
  wp (CommitNext env c x ab) (fun _ => decided c s) (deq c x tk q s).
Proof.
  intros Hi Hcur Hq Hx Hcpu Hin. pose proof (inv_pop _ _ _ _ tk _ Hi Hq) as Hd.
  unfold CommitNext. f_step. apply fifo_wp_WaitOffCpu; [apply (env_spin _ Henv)|]. intros s1 Hs1.
  assert (Hx1 : tasks s1 !! x = Some (set_run_state kRunnable tk)).
  { rewrite (same_tasks _ _ Hs1). unfold deq. tlook. }
  f_steps. match goal with |- wp (if _ then _ else _) _ ?s2 => set (s' := s2) end.
  assert (Hs' : same_sched (deq c x tk q s) s') by (by etrans; [exact Hs1|split]).
  pose proof (fifo_inv_same _ _ _ _ Hs' Hd) as Hi'.
  assert (Hcs : forall c', cur s' c' = cur s c').
  { intros c'. unfold cur at 1. rewrite (same_cpus _ _ Hs'). exact (cur_set_rq c q s c'). }
  assert (Hr : forall c', rq s' c' = if decide (c = c') then q else rq s c').
  { intros c'. rewrite (rq_same _ _ Hs'). exact (fifo_rq_upd_cs c (set_rq q) s c'). }
  unfold decided, sched_op. rewrite Hcur, Hq. destruct (Commit_ok env _).
  - eapply fifo_wp_TaskOnCpu; [exact Hx1|]. split; [by apply fifo_inv_running; [|rewrite Hcs|]|].
    unfold committed. rewrite fifo_cur_running, decide_True by done. rewrite bool_decide_true by done.
    split; [|done]. intros c'. rewrite fifo_rq_running, Hr. case_decide; [subst; by rewrite Hq|done].
  - f_steps. change (current (cpu_states_ s' !!! c)) with (cur s' c). rewrite Hcs, Hcur.
    rewrite bool_decide_false by done. cbn [when]. f_step. f_step.
    eapply (requeue_failed c x (set_run_state kRunnable tk)); [done|exact Hx1|done|done|done|].
    intros s3 Hi3 He3 Hc3. split; [done|].
    assert (Hn : committed s3 c = false) by (unfold committed; rewrite Hc3, Hcs, Hcur; by apply bool_decide_eq_false; intros []).
    rewrite Hn. split; [|done]. intros c'. rewrite He3. case_decide as Hd'; rewrite Hr.
    + subst c'. rewrite decide_True by done. by rewrite Hq.
    + by rewrite decide_False.
Qed.

Lemma FifoSchedule_ok c ab b s :
  c ∈ cpus env -> inv env None s ->
  wp (FifoSchedule env c ab b)
    (fun _ s' => inv env None s' /\ effect s s' (sched_op s c b (committed s' c)) /\
      (b = false -> cur s c = None -> committed s' c = true -> cur s' c = head (rq s c))) s.
Proof.
  intros Hc Hi. unfold FifoSchedule, PickNext. f_step. destruct b; cbn [negb].
  - f_steps. split; [by eapply fifo_inv_same; [|exact Hi]|]. split; [by intros|done].
  - f_step. apply fifo_wp_cpu_state. change (current (cpu_states_ s !!! c)) with (cur s c).
    destruct (cur s c) as [x|] eqn:Hcur.
    + f_steps. eapply wp_mono; [by apply commit_current|]. intros ? s' (H1 & H2 & H3). by split_and!.
    + eapply fifo_wp_Dequeue; [done|..].
      * intros Hq. f_steps. split; [by eapply fifo_inv_same; [|exact Hi]|].
        unfold sched_op, committed. rewrite Hcur, Hq. split; [by intros|]. intros _ _ H. exfalso.
        apply bool_decide_eq_true in H as [y Hy]. change (cur s c = Some y) in Hy. congruence.
      * intros x q tk Hq Hx Hst Hcpu. eapply wp_mono; [by eapply commit_head|].
        intros ? s' (H1 & H2 & H3). split_and!; [done|done|]. intros _ _. by apply H3.
Qed.
End Schedule.

(** ** Dispatch *)

Definition advances (p : ghost_payload) : bool :=
  match p with P_newt _ | P_dead _ | P_departed _ => false | _ => true end.

Definition is_new (p : ghost_payload) : bool := match p with P_newt _ => true | _ => false end.

(** The kernel's protocol for a message in state [s]. *)
Definition msg_ok (env : Env) (s : FifoState) (msg : Message.ghost_msg) : Prop :=
  let p := Message.payload msg in
  msg = Message.of_payload (Message.seqnum msg) p /\
  match Message.gtid msg with
  | None => True
  | Some g =>
      g <> 0 /\
      match tasks s !! g with
      | None => True
      | Some tk =>
          if is_new p then True
          else task_msg_ok env tk p /\ (advances p = true -> f_seqnum tk < Message.seqnum msg)
      end
  end.

(** What a message does to the deques. *)
Definition msg_op (env : Env) (s : FifoState) (msg : Message.ghost_msg) : option (Z * qop) :=
  match Message.gtid msg with
  | None => None
  | Some g =>
      match tasks s !! g, Message.payload msg with
      | None, P_newt p => if truthy (tn_runnable p) then Some (assigned env s, Back g) else None
      | None, _ => None
      | Some tk, p => task_op env s g tk p
      end
  end.

Section DispatchOk.
Context (env : Env) (Henv : env_ok env).
#[local] Instance handlers : DispatchHandlers FifoState := FifoHandlers env.

Definition handled (s0 : FifoState) (o : option (Z * qop)) (s : FifoState) : Prop :=
  inv env None s /\ effect s0 s o.

Lemma fifo_advance_ok x sn n s0 o s :
  post env x sn s0 o s -> sn < n -> wp (Advance x n) (fun _ => handled s0 o) s.
Proof.
  intros (Hi & He & tk & Hx & Hsn) Hlt. eapply (wp_Advance (St := FifoState)); [exact Hx|cbn; lia|].
  split; [|exact He]. by eapply (fifo_inv_update _ _ tk (set_f_seqnum n tk)).
Qed.

(** A callback that leaves the sequence number to the dispatcher. *)
Lemma fifo_callback_advance (m : M FifoState unit) x sn n s0 o s :
  wp m (fun _ => post env x sn s0 o) s -> sn < n ->
  wp (m ;;; mret true) (fun u => wp (when u (Advance x n)) (fun _ => handled s0 o)) s.
Proof.
  intros Hm Hlt. apply wp_bind. eapply wp_mono; [exact Hm|]. intros ? s' Hp.
  apply wp_ret. cbn [when]. by apply (fifo_advance_ok x sn).
Qed.

(** A callback that frees the task. *)
Lemma callback_gone (m : M FifoState unit) x n s0 o s :
  wp m (fun _ => gone env x s0 o) s ->
  wp (m ;;; mret false) (fun u => wp (when u (Advance x n)) (fun _ => handled s0 o)) s.
Proof.
  intros Hm. apply wp_bind. eapply wp_mono; [exact Hm|]. intros ? s' (Hi & He & _). by apply wp_ret, wp_ret.
Qed.

Lemma fifo_task_dispatch_ok g tk sn p s :
  inv env None s -> tasks s !! g = Some tk -> is_new p = false -> task_msg_ok env tk p ->
  (advances p = true -> f_seqnum tk < sn) ->
  wp (DispatchTaskMessage g (Message.of_payload sn p))
    (fun u => wp (when u (Advance g sn)) (fun _ => handled s (task_op env s g tk p))) s.
Proof.
  intros Hi Hx Hnew Hok Hsn. unfold DispatchTaskMessage.
  change (Message.type (Message.of_payload sn p)) with (msg_type_value (payload_type p)).
  rewrite read_msg_type_value.
  assert (Hnop : post env g (f_seqnum tk) s None s) by (split; [done|]; split; [by intros|eauto]).
  destruct p; cbn in Hnew, Hok, Hsn; try done; cbn [payload_type];
    first [eapply fifo_callback_advance; [|by apply Hsn]|apply callback_gone].
  - by eapply fifo_TaskDead_ok.
  - by apply fifo_TaskBlocked_ok.
  - by apply fifo_TaskRunnable_ok.
  - by apply fifo_TaskPreempted_ok.
  - by apply fifo_TaskYield_ok.
  - by eapply fifo_TaskDeparted_ok.
  - by apply fifo_TaskSwitchto_ok.
  - exact Hnop.
  - exact Hnop.
  - exact Hnop.
Qed.

Lemma fifo_new_dispatch_ok sn p s :
  inv env None s -> tn_gtid p <> 0 ->
  wp (DispatchMessage (Message.of_payload sn (P_newt p)))
    (fun _ => handled s (msg_op env s (Message.of_payload sn (P_newt p)))) s.
Proof.
  intros Hi Hg. unfold msg_op. cbn [Message.gtid Message.of_payload Message.payload].
  change (Message.gtid _) with (Some (tn_gtid p)). cbv iota beta.
  apply DispatchMessage_new; [done|..].
  - intros [tk Hx]. cbn in Hx. rewrite Hx. split; [done|by intros].
  - cbn. intros Hex. rewrite Hex. pose proof (inv_place _ _ _ Hi (tn_gtid p) ltac:(done)) as Hp.
    unfold place_ok in Hp. rewrite Hex in Hp.
    eapply wp_mono; [eapply (fifo_TaskNew_ok env Henv (tn_gtid p) sn p)|].
    + apply (fifo_inv_hole_write _ _ (FifoTask_new (tn_gtid p) (tn_sw_info p))). by apply fifo_inv_open.
    + cbn. apply lookup_insert_eq.
    + done.
    + done.
    + intros ? s' (Hi' & He' & _). split; [done|exact He'].
Qed.

Lemma fifo_DispatchMessage_ok msg s :
  inv env None s -> msg_ok env s msg -> wp (DispatchMessage msg) (fun _ => handled s (msg_op env s msg)) s.
Proof.
  intros Hi [Hmsg Hok]. destruct msg as [ty sn p]. cbn in Hmsg. injection Hmsg as ->.
  change (wp (DispatchMessage (Message.of_payload sn p)) (fun _ => handled s (msg_op env s (Message.of_payload sn p))) s).
  assert (Hkeep : handled s None s) by (split; [done|by intros]).
  destruct (is_new p) eqn:Hnew.
  { destruct p; try done. cbn in Hok. destruct Hok. by apply fifo_new_dispatch_ok. }
  destruct (Message.is_cpu_msg (Message.of_payload sn p)) eqn:Hcpu.
  { destruct p; try done; by apply wp_ret. }
  destruct (Message.gtid (Message.of_payload sn p)) as [g|] eqn:Hg; [|by destruct p].
  cbn [Message.gtid Message.of_payload Message.payload] in Hg, Hok.
  change (Message.gtid _) with (Message.gtid (Message.of_payload sn p)) in Hok.
  cbn [Message.gtid Message.of_payload Message.payload] in Hok.
  rewrite Hg in Hok. destruct Hok as [Hnz Hok]. cbn [Message.payload Message.seqnum] in Hok.
  unfold msg_op. change (Message.gtid (Message.of_payload sn p)) with (Message.gtid (Message.of_payload sn p)).
  cbn [Message.payload Message.of_payload].
  eapply (DispatchMessage_task _ g); try done.
  - destruct p; done.
  - destruct p; done.
  - intros Hx. cbn in Hx. replace (Message.gtid (Message.of_payload sn p)) with (Some g) by (by symmetry).
    rewrite Hx. by destruct p.
  - intros [tk Hx]. cbn in Hx. replace (Message.gtid (Message.of_payload sn p)) with (Some g) by (by symmetry).
    rewrite Hx in Hok |- *. rewrite Hnew in Hok. destruct Hok as [Hok Hsn]. by apply fifo_task_dispatch_ok.
Qed.
End DispatchOk.

(** ** The scheduler as a transition system *)

Inductive event :=
  | Deliver (msg : Message.ghost_msg)
  | Decide (c agent_barrier : Z) (boosted : bool).

Definition run_event (env : Env) (ev : event) : M FifoState unit :=
  match ev with
  | Deliver msg => @DispatchMessage _ _ _ _ (FifoHandlers env) msg
  | Decide c ab b => FifoSchedule env c ab b
  end.

Definition event_ok (env : Env) (s : FifoState) (ev : event) : Prop :=
  match ev with
  | Deliver msg => msg_ok env s msg
  | Decide c _ _ => c ∈ cpus env
  end.

Inductive step (env : Env) : FifoState -> event -> FifoState -> Prop :=
  | step_run s ev s' : event_ok env s ev -> run_event env ev s = Some (tt, s') -> step env s ev s'.

Inductive reachable (env : Env) : FifoState -> Prop :=
  | reach_initial : reachable env (initial env)
  | reach_step s ev s' : reachable env s -> step env s ev s' -> reachable env s'.

(** The deque operation of a step. *)
Definition step_op (env : Env) (s : FifoState) (ev : event) (s' : FifoState) : option (Z * qop) :=
  match ev with
  | Deliver msg => msg_op env s msg
  | Decide c _ b => sched_op s c b (committed s' c)
  end.

Lemma fifo_inv_initial env : inv env None (initial env).
Proof.
  assert (Hcs : forall c, cpu_states_ (initial env) !!! c = inhabitant) by (intros c; apply lookup_total_empty).
  split; [|intros t _|done|done]; unfold place_ok, nowhere, rq, cur.
  - intros c. rewrite Hcs. constructor.
  - cbn [tasks initial]. rewrite lookup_empty. split; intros c; rewrite Hcs; [set_solver|done].
Qed.

(** A popped task runs. *)
Definition pop_runs (s : FifoState) (o : option (Z * qop)) (s' : FifoState) : Prop :=
  forall c, o = Some (c, Pop) -> cur s' c = head (rq s c) /\ rq s c <> [].

Lemma task_op_not_pop env s g tk p c : task_op env s g tk p <> Some (c, Pop).
Proof. destruct p; cbn; try done; by repeat case_match. Qed.

Lemma msg_op_not_pop env s msg c : msg_op env s msg <> Some (c, Pop).
Proof.
  unfold msg_op. destruct (Message.gtid msg) as [g|]; [|done]. destruct (tasks s !! g) as [tk|].
  - apply task_op_not_pop.
  - destruct (Message.payload msg); try done. by destruct (truthy _).
Qed.

Lemma event_spec env s ev :
  env_ok env -> inv env None s -> event_ok env s ev ->
  exists s', run_event env ev s = Some (tt, s') /\ inv env None s' /\
    effect s s' (step_op env s ev s') /\ pop_runs s (step_op env s ev s') s'.
Proof.
  intros Henv Hi Hok.
  assert (Hwp : wp (run_event env ev) (fun _ s' => inv env None s' /\
    effect s s' (step_op env s ev s') /\ pop_runs s (step_op env s ev s') s') s).
  { destruct ev as [msg|c ab b]; cbn [run_event step_op].
    - eapply wp_mono; [by apply fifo_DispatchMessage_ok|]. intros ? s' [Hi' He]. split_and!; [done..|].
      intros c E. by apply msg_op_not_pop in E.
    - eapply wp_mono; [by apply FifoSchedule_ok|]. intros ? s' (Hi' & He & Hp). split_and!; [done..|].
      intros c' E. unfold sched_op in E. destruct b; [done|]. destruct (cur s c) eqn:Hcur; [by destruct (committed s' c)|].
      destruct (rq s c) as [|y q] eqn:Hq; [done|]. destruct (committed s' c) eqn:Hcm; [|done]. injection E as <-.
      rewrite Hq. by split; [apply Hp|]. }
  apply wp_run in Hwp as ([] & s' & ? & ?). eauto.
Qed.

Lemma step_spec env s ev s' :
  env_ok env -> inv env None s -> step env s ev s' ->
  inv env None s' /\ effect s s' (step_op env s ev s') /\ pop_runs s (step_op env s ev s') s'.
Proof.
  intros Henv Hi Hstep. destruct Hstep as [s ev s' Hok Hrun].
  destruct (event_spec _ _ _ Henv Hi Hok) as (s1 & Hrun1 & H). rewrite Hrun in Hrun1. by injection Hrun1 as <-.
Qed.

Lemma fifo_reachable_inv env s : env_ok env -> reachable env s -> inv env None s.
Proof.
  intros Henv. induction 1 as [|s ev s' _ Hi Hstep]; [apply fifo_inv_initial|].
  by destruct (step_spec _ _ _ _ Henv Hi Hstep).
Qed.

(** A two-CPU enclave for the witnesses. *)
Definition demo_env : Env := mkEnv [0; 1] (fun _ => true) (fun _ => true) (fun _ => false) 1.

Lemma fifo_demo_env_ok : env_ok demo_env.
Proof.
  split; [done| |done|].
  - intros c Hc. cbn in Hc. unfold MAX_CPUS. set_solver by lia.
  - intros n. exists O. cbn. split; [lia|done].
Qed.

Definition demo_new (g sn : Z) : Message.ghost_msg :=
  Message.of_payload sn (P_newt (mk_task_new g 0 0 1 0 (mk_sw_info 0 0) 0)).

(** ** Claims *)

(** C9: in every state the FIFO scheduler can reach, by dispatching messages that
    follow the kernel's protocol and scheduling CPUs in any interleaving, a task
    is on exactly the runqueue of its CPU when it is [kQueued], current on
    exactly its CPU when it is [kOnCpu] and nowhere otherwise, and no runqueue
    holds a task twice.  Every further event that follows the protocol runs to
    completion: no CHECK fails and no freed task is dereferenced. *)
Theorem fifo_safe env s :
  env_ok env -> reachable env s ->
  inv env None s /\
  forall ev, event_ok env s ev -> exists s', run_event env ev s = Some (tt, s') /\ reachable env s'.
Proof.
  intros Henv Hr. pose proof (fifo_reachable_inv _ _ Henv Hr) as Hi. split; [done|].
  intros ev Hok. destruct (event_spec _ _ _ Henv Hi Hok) as (s' & Hrun & _).
  exists s'. split; [done|]. eapply reach_step; [done|by constructor].
Qed.

Lemma fifo_safe_witness :
  inv demo_env None (initial demo_env) /\
  exists s', run_event demo_env (Deliver (demo_new 7 1)) (initial demo_env) = Some (tt, s') /\
             reachable demo_env s'.
Proof.
  destruct (fifo_safe demo_env (initial demo_env) fifo_demo_env_ok (reach_initial demo_env)) as [Hi Hev].
  split; [exact Hi|]. apply Hev. cbn. split; [done|]. split; [done|exact I].
Defined.

(** C5: the runqueues refine per-CPU deques.  Each step does at most one deque
    operation, on one CPU, given by the event alone: new and yielding tasks and
    deferrable wakeups go to the back, preempted tasks, other wakeups and a
    current task whose transaction failed to the front, a departing task is taken
    out wherever it is, and a successful decision for an idle CPU pops the front,
    which is then the CPU's current task.  A failed one leaves the deque as it
    was. *)
Theorem fifo_refines_deques env s ev s' :
  env_ok env -> reachable env s -> step env s ev s' ->
  effect s s' (step_op env s ev s') /\ pop_runs s (step_op env s ev s') s'.
Proof.
  intros Henv Hr Hstep. by destruct (step_spec _ _ _ _ Henv (fifo_reachable_inv _ _ Henv Hr) Hstep).
Qed.

(** The state after an event that completes. *)
Definition after (env : Env) (ev : event) (s : FifoState) : FifoState :=
  match run_event env ev s with Some (_, s') => s' | None => s end.

Definition demo_s1 : FifoState := after demo_env (Deliver (demo_new 7 1)) (initial demo_env).
Definition demo_s2 : FifoState := after demo_env (Decide 0 0 false) demo_s1.

Lemma demo_step1 : step demo_env (initial demo_env) (Deliver (demo_new 7 1)) demo_s1.
Proof. constructor; [|vm_compute; reflexivity]. split; [reflexivity|]. split; [discriminate|exact I]. Defined.

Lemma demo_step2 : step demo_env demo_s1 (Decide 0 0 false) demo_s2.
Proof. constructor; [by left|vm_compute; reflexivity]. Defined.

Lemma demo_s1_reachable : reachable demo_env demo_s1.
Proof. exact (reach_step _ _ _ _ (reach_initial _) demo_step1). Defined.

Lemma fifo_refines_deques_witness :
  rq demo_s1 0 = [7] /\ step_op demo_env demo_s1 (Decide 0 0 false) demo_s2 = Some (0, Pop) /\
  cur demo_s2 0 = Some 7.
Proof.
  destruct (fifo_refines_deques demo_env demo_s1 (Decide 0 0 false) demo_s2 fifo_demo_env_ok demo_s1_reachable demo_step2)
    as [_ Hpop].
  assert (E : step_op demo_env demo_s1 (Decide 0 0 false) demo_s2 = Some (0, Pop)) by (vm_compute; reflexivity).
  split; [vm_compute; reflexivity|]. split; [exact E|]. destruct (Hpop 0 E) as [-> _]. vm_compute. reflexivity.
Defined.

(** *** No starvation *)

Definition departs (x : Z) (ev : event) : bool :=
  match ev with
  | Deliver msg =>
      match Message.payload msg with P_departed _ => bool_decide (Message.gtid msg = Some x) | _ => false end
  | Decide _ _ _ => false
  end.

(** The task a step picks on [c], and its insertions at the front of [c]'s deque. *)
Definition picks (c : Z) (s : FifoState) (o : option (Z * qop)) : list Z :=
  match o with
  | Some (c', Pop) => if decide (c' = c) then option_list (head (rq s c)) else []
  | _ => []
  end.

Definition fronts (c : Z) (o : option (Z * qop)) : nat :=
  match o with Some (c', Front _) => if decide (c' = c) then 1 else 0 | _ => 0 end.

(** An execution in which [x] does not depart: the tasks picked on [c], in order,
    and the number of insertions at the front of its deque. *)
Inductive exec (env : Env) (c x : Z) : FifoState -> list Z -> nat -> FifoState -> Prop :=
  | exec_nil s : exec env c x s [] 0 s
  | exec_cons s ev s1 ran m s' :
      step env s ev s1 -> departs x ev = false -> exec env c x s1 ran m s' ->
      exec env c x s (picks c s (step_op env s ev s1) ++ ran) (fronts c (step_op env s ev s1) + m) s'.

Lemma del_departs env s ev s' c x : step_op env s ev s' = Some (c, Del x) -> departs x ev = true.
Proof.
  destruct ev as [msg|c' ab b]; cbn; [|unfold sched_op; intros H; by repeat case_match; simplify_eq].
  unfold msg_op. destruct (Message.gtid msg) as [g|]; [|done].
  destruct (tasks s !! g) as [tk|], (Message.payload msg); cbn; try done; intros H;
    repeat case_match; simplify_eq; by apply bool_decide_eq_true.
Qed.

(** Removing other tasks only moves a task forward. *)
Lemma filter_lookup_le (x y : Z) (q : list Z) (k : nat) :
  x <> y -> q !! k = Some x -> exists j, (j <= k)%nat /\ filter (fun z => z <> y) q !! j = Some x.
Proof.
  intros Hne. revert k. induction q as [|z q IH]; intros k Hk; [done|]. rewrite filter_cons.
  destruct k as [|k]; cbn in Hk.
  - injection Hk as ->. exists O. by rewrite decide_True.
  - destruct (IH k Hk) as (j & Hj & E). case_decide; [exists (S j)|exists j]; (split; [lia|done]).
Qed.

(** A waiting task moves back by at most the insertions at the front, and each
    pick brings it one place forward. *)
Lemma step_position env s ev s' c x k :
  env_ok env -> inv env None s -> step env s ev s' -> departs x ev = false -> rq s c !! k = Some x ->
  let o := step_op env s ev s' in
  x ∈ picks c s o \/
  exists j, rq s' c !! j = Some x /\ (j + length (picks c s o) <= k + fronts c o)%nat.
Proof.
  intros Henv Hi Hstep Hdep Hk o. destruct (step_spec _ _ _ _ Henv Hi Hstep) as (_ & He & _).
  fold o in He. specialize (He c). pose proof (del_departs env s ev s' c x) as Hdel. fold o in Hdel.
  destruct o as [[c' p]|]; [|right; exists k; cbn; rewrite He; split; [done|lia]].
  destruct (decide (c' = c)) as [->|Hne].
  - destruct p as [y|y| |y]; cbn in He |- *; rewrite ?decide_True by done; rewrite He; cbn [apply_qop].
    + right. exists k. rewrite lookup_app_l by (by eapply lookup_lt_Some). split; [done|cbn; lia].
    + right. exists (S k). split; [done|cbn; lia].
    + destruct (rq s c) as [|z q]; [done|]. destruct k as [|k]; cbn in Hk |- *.
      * injection Hk as ->. left. set_solver.
      * right. exists k. split; [done|lia].
    + assert (x <> y) by (intros ->; by rewrite Hdel in Hdep).
      destruct (filter_lookup_le x y _ _ ltac:(done) Hk) as (j & Hj & E). right. exists j. split; [done|cbn; lia].
  - right. exists k. rewrite He. split; [done|]. destruct p; cbn; rewrite ?decide_False by done; cbn; lia.
Qed.

(** C8: no starvation.  A task at position [k] of a CPU's runqueue is run by that
    CPU before it has picked more than [k] plus the number of tasks that are
    meanwhile put in front, unless the task departs. *)
Theorem fifo_no_starvation env c x s k ran m s' :
  env_ok env -> reachable env s -> rq s c !! k = Some x -> exec env c x s ran m s' ->
  (k + m < length ran)%nat -> x ∈ ran.
Proof.
  intros Henv Hr Hk Hex. apply (fifo_reachable_inv _ _ Henv) in Hr. revert k Hk Hr.
  induction Hex as [s|s ev s1 ran m s' Hstep Hdep _ IH]; intros k Hk Hi Hlen; [cbn in Hlen; lia|].
  destruct (step_position _ _ _ _ _ _ _ Henv Hi Hstep Hdep Hk) as [Hx|(j & Hj & Hle)].
  - apply elem_of_app. by left.
  - apply elem_of_app. right. apply (IH j Hj); [by destruct (step_spec _ _ _ _ Henv Hi Hstep)|].
    rewrite length_app in Hlen. lia.
Qed.

Lemma fifo_no_starvation_witness : 7 ∈ [7].
Proof.
  apply (fifo_no_starvation demo_env 0 7 demo_s1 0 [7] 0 demo_s2 fifo_demo_env_ok demo_s1_reachable).
  - vm_compute. reflexivity.
  - exact (exec_cons demo_env 0 7 demo_s1 (Decide 0 0 false) demo_s2 [] 0 demo_s2 demo_step2 eq_refl
             (exec_nil demo_env 0 7 demo_s2)).
  - cbn. lia.
Defined.

(** The agent leaves its loop only after it has been told to finish and with
    nothing left on its runqueue. *)
Lemma agent_exit env c rounds s s' :
  AgentThread env c rounds s = Some (true, s') -> rq s' c = [] /\ exists r, r ∈ rounds /\ finished r = true.
Proof.
  revert s. induction rounds as [|r rounds IH]; intros s; [done|].
  change (AgentThread env c (r :: rounds) s) with
    ((if negb (finished r) || negb (rq_Empty (cpu_states_ s !!! c))
     then mbind (Schedule env c (barrier r) (boosted r) (messages r)) (fun _ => AgentThread env c rounds)
     else mret true) s).
  destruct (_ || _) eqn:E.
  - unfold mbind. destruct (Schedule _ _ _ _ _ s) as [[[] s1]|]; [|done]. intros Hs.
    destruct (IH s1 Hs) as (? & r' & ? & ?). split; [done|]. exists r'. split; [by right|done].
  - intros [= ->]. apply orb_false_iff in E as [E1%negb_false_iff E2%negb_false_iff].
    split; [|exists r; split; [by left|done]]. unfold rq_Empty, Size in E2. apply Z.eqb_eq in E2.
    unfold rq. destruct (rq_ _); [done|cbn in E2; lia].
Qed.

(** The number of tasks, as reported over RPC. *)
Lemma rpc_count s : RpcHandler kCountAllTasks s = Some (Z.of_nat (size (tasks s)), s).
Proof.
  unfold RpcHandler, CountAllTasks, ForEachTask, mbind, mget, mret. cbn. rewrite visit_count.
  by rewrite length_map_to_list.
Qed.
