(* ===== verification/PrioTable.v ===== *)
(** * The shared priority table

    Models [shared/prio_table.h] and [shared/prio_table.cc]: the layout of the
    shared memory, the sequence lock of an item, and the lock-free stream through
    which an application tells the agent which items it has updated.

    Threads interleave at single atomic accesses (sequential consistency); each
    access is one step of a thread's program counter.  The result of a weak
    compare-exchange that fails spuriously is an input of the step. *)

From S2P Require Import Prelude.

(** ** Layout *)

Module Layout.
Definition ABSL_CACHELINE_SIZE : Z := 64.
(* Sizes of the three cache-line aligned structures. *)
Definition sizeof_hdr : Z := 64.
Definition sizeof_sched_item : Z := 64.
Definition sizeof_work_class : Z := 64.
(* [struct stream] without its flexible array, and one entry. *)
Definition sizeof_stream : Z := 4.
Definition sizeof_entry : Z := 4.

Record ghost_shmem_hdr := mk_hdr {
  version : Z; hdrlen : Z; maplen : Z; si_num : Z; si_off : Z; wc_num : Z; wc_off : Z;
  st_cap : Z; st_off : Z }.

(** [None] is a failed CHECK; sizes are [size_t]. *)
Definition shmem_size (sched_items work_classes stream_capacity : Z) : option Z :=
  let sz := 0 in
  let sz := u64 (sz + sizeof_hdr) in
  let sz := u64 (sz + u64 (sizeof_sched_item * sched_items)) in
  let sz := u64 (sz + u64 (sizeof_work_class * work_classes)) in
  if negb (sz mod ABSL_CACHELINE_SIZE =? 0) then None
  else Some (u64 (sz + (sizeof_stream + sizeof_entry * stream_capacity))).

(** The header the constructor writes; its fields are 32 bits wide. *)
Definition PrioTable (num_items num_classes capacity : Z) : option ghost_shmem_hdr :=
  match shmem_size num_items num_classes capacity with
  | None => None
  | Some size =>
      let hdrlen := sizeof_hdr in
      let si_off := hdrlen in
      let wc_off := u32 (si_off + num_items * sizeof_sched_item) in
      let st_off := u32 (wc_off + num_classes * sizeof_work_class) in
      if negb (st_off mod ABSL_CACHELINE_SIZE =? 0) then None
      else Some (mk_hdr 0 hdrlen (u32 size) num_items si_off num_classes wc_off capacity st_off)
  end.

(** The offsets of an item, a work class and the stream from the header; the
    index is a 32-bit [int], compared with the unsigned [si_num]. *)
Definition sched_item (h : ghost_shmem_hdr) (i : Z) : option Z :=
  if u32 i <? si_num h then Some (si_off h + i * sizeof_sched_item) else None.
Definition work_class (h : ghost_shmem_hdr) (i : Z) : Z := wc_off h + i * sizeof_work_class.
Definition stream (h : ghost_shmem_hdr) : Z := st_off h.
Definition entry (h : ghost_shmem_hdr) (i : Z) : Z := stream h + sizeof_stream + i * sizeof_entry.
End Layout.

(** ** The stream of updated indices *)

Module Stream.
Definition kStreamNoEntries : Z := -1.
Definition kStreamOverflow : Z := -2.
Definition kStreamFreeEntry : Z := s32 (2 ^ 32 - 1).

Record mem := mk_mem { scrape_all : Z; entries : list Z }.

Section Stream.
Context (st_cap : Z).

(** The memory the constructor leaves. *)
Definition init_mem : mem := mk_mem 0 (replicate (Z.to_nat st_cap) kStreamFreeEntry).

Definition get (m : mem) (c : Z) : Z := entries m !!! Z.to_nat c.
Definition put (m : mem) (c v : Z) : mem := mk_mem (scrape_all m) (<[Z.to_nat c := v]> (entries m)).

(** *** [MarkUpdatedIndex] *)

(** Where a writer is: before loading [scrape_all], before loading or
    compare-exchanging the cell of attempt [i], before adding to [scrape_all]. *)
Inductive wpc := WLoad | WTry (i : Z) | WCas (i : Z) | WAdd | WDone.

Definition cell (idx i : Z) : Z := u32 (idx + i) mod st_cap.

Definition try_from (num_retries i : Z) : wpc := if i <? num_retries + 1 then WTry i else WAdd.

Definition MarkUpdatedIndex (idx num_retries : Z) (spurious : bool) (pc : wpc) (m : mem) : wpc * mem :=
  match pc with
  | WLoad => if 0 <? scrape_all m then (WAdd, m) else (try_from num_retries 0, m)
  | WTry i =>
      if get m (cell idx i) =? kStreamFreeEntry then (WCas i, m) else (try_from num_retries (i + 1), m)
  | WCas i =>
      if negb spurious && (get m (cell idx i) =? kStreamFreeEntry)
      then (WDone, put m (cell idx i) idx)
      else (try_from num_retries (i + 1), m)
  | WAdd => (WDone, mk_mem (s32 (scrape_all m + 1)) (entries m))
  | WDone => (WDone, m)
  end.

(** *** [NextUpdatedIndex] *)

Inductive rpc :=
  | RLoad | RExchange
  | RScan (i : Z) (full_scan : bool)
  | RStore (i idx : Z) (full_scan : bool)
  | RRet (v : Z).

Definition NextUpdatedIndex (pc : rpc) (m : mem) : rpc * mem :=
  match pc with
  | RLoad => if 0 <? scrape_all m then (RExchange, m) else (RScan 0 false, m)
  | RExchange => (RScan 0 true, mk_mem 0 (entries m))
  | RScan i full_scan =>
      if i <? st_cap then
        let idx := get m i in
        if negb (idx =? kStreamFreeEntry) then (RStore i idx full_scan, m) else (RScan (i + 1) full_scan, m)
      else (RRet (if full_scan then kStreamOverflow else kStreamNoEntries), m)
  | RStore i idx full_scan =>
      let m := put m i kStreamFreeEntry in
      if negb full_scan then (RRet idx, m) else (RScan (i + 1) full_scan, m)
  | RRet v => (RRet v, m)
  end.

(** *** Threads *)

(** A call of [MarkUpdatedIndex] in progress. *)
Record writer := mk_writer { w_idx : Z; w_retries : Z; w_pc : wpc }.

(** The system: memory, the calls in progress, the agent's call if there is one.
    Ghost state: [pending], the indices marked since they were last reported;
    [marked], all indices ever marked; [snap], what was pending when the agent's
    call loaded [scrape_all]. *)
Record sys := mk_sys {
  memory : mem; writers : gmap Z writer; reader : option rpc;
  pending : gset Z; marked : gset Z; snap : gset Z }.

Inductive action :=
  | Start (t idx num_retries : Z)
  | WStep (t : Z) (spurious : bool)
  | RStart
  | RStep
  | RReturn.

Definition finished (pc : wpc) : bool := match pc with WDone => true | _ => false end.

(** The update takes effect with the step that completes the call. *)
Definition wstep (s : sys) (t : Z) (w : writer) (spurious : bool) : sys :=
  let '(pc', m') := MarkUpdatedIndex (w_idx w) (w_retries w) spurious (w_pc w) (memory s) in
  let new : gset Z := if finished pc' && negb (finished (w_pc w)) then {[w_idx w]} else ∅ in
  mk_sys m' (<[t := mk_writer (w_idx w) (w_retries w) pc']> (writers s)) (reader s)
    (new ∪ pending s) (new ∪ marked s) (snap s).

Definition rstep (s : sys) (pc : rpc) : sys :=
  let '(pc', m') := NextUpdatedIndex pc (memory s) in
  let snap' := match pc with RLoad => pending s | _ => snap s end in
  mk_sys m' (writers s) (Some pc') (pending s) (marked s) snap'.

(** The agent gets its answer: after an overflow it looks at every item. *)
Definition report (v : Z) (pending : gset Z) : gset Z :=
  if v =? kStreamOverflow then ∅ else pending ∖ {[v]}.

Definition act (s : sys) (a : action) : option sys :=
  match a with
  | Start t idx num_retries =>
      Some (mk_sys (memory s) (<[t := mk_writer idx num_retries WLoad]> (writers s)) (reader s)
              (pending s) (marked s) (snap s))
  | WStep t spurious => match writers s !! t with Some w => Some (wstep s t w spurious) | None => None end
  | RStart =>
      match reader s with
      | None => Some (mk_sys (memory s) (writers s) (Some RLoad) (pending s) (marked s) (snap s))
      | Some _ => None
      end
  | RStep => match reader s with Some pc => Some (rstep s pc) | None => None end
  | RReturn =>
      match reader s with
      | Some (RRet v) => Some (mk_sys (memory s) (writers s) None (report v (pending s)) (marked s) (snap s))
      | _ => None
      end
  end.

Definition init_sys : sys := mk_sys init_mem ∅ None ∅ ∅ ∅.
End Stream.
End Stream.

(** ** The sequence lock *)

Module Seqcount.
Definition kLocked : Z := 1.

Definition locked (seq : Z) : bool := negb (Z.land seq kLocked =? 0).

(** Shared memory: the counter and the words it protects. *)
Record mem := mk_mem { seqnum : Z; data : list Z }.

(** *** A writer: [write_begin], the stores to the words, [write_end] *)

Inductive wpc :=
  | WLoad                     (* before the load of [write_begin] *)
  | WCas (seq0 : Z)           (* before its compare-exchange *)
  | TLoad                     (* before the load of [try_write_begin] *)
  | TCas (seq0 : Z)           (* before its compare-exchange *)
  | WStore (begin : Z) (k : nat)  (* in the section, before storing word [k] *)
  | WDone
  | TFailed.

(** After a load of [seq0]: spin while it is locked. *)
Definition spin (seq0 : Z) : wpc := if locked seq0 then WLoad else WCas seq0.

(** The lock is taken: the value [write_begin] returns is the new counter. *)
Definition enter (seq0 : Z) (m : mem) : wpc * mem :=
  (WStore (u32 (seq0 + kLocked)) 0, mk_mem (u32 (seq0 + kLocked)) (data m)).

Definition write_end (begin : Z) (m : mem) : mem := mk_mem (u32 (begin + kLocked)) (data m).

(** One step of a writer that stores [words]. *)
Definition write_step (words : list Z) (spurious : bool) (pc : wpc) (m : mem) : wpc * mem :=
  match pc with
  | WLoad => (spin (seqnum m), m)
  | WCas seq0 =>
      if negb spurious && (seqnum m =? seq0) then enter seq0 m else (spin (seqnum m), m)
  | TLoad => (if locked (seqnum m) then TFailed else TCas (seqnum m), m)
  | TCas seq0 => if seqnum m =? seq0 then enter seq0 m else (TFailed, m)
  | WStore begin k =>
      match words !! k with
      | Some v => (WStore begin (S k), mk_mem (seqnum m) (<[k := v]> (data m)))
      | None => (WDone, write_end begin m)
      end
  | WDone => (WDone, m)
  | TFailed => (TFailed, m)
  end.

(** *** A reader: [read_begin], the loads of the words, [read_end] *)

Inductive rpc :=
  | RBegin
  | RRead (begin : Z) (acc : list Z)
  | RDone (ok : bool) (acc : list Z).

Definition read_end (begin : Z) (m : mem) : bool :=
  if locked begin || negb (begin =? seqnum m) then false else true.

Definition read_step (pc : rpc) (m : mem) : rpc :=
  match pc with
  | RBegin => RRead (seqnum m) []
  | RRead begin acc =>
      match data m !! length acc with
      | Some v => RRead begin (acc ++ [v])
      | None => RDone (read_end begin m) acc
      end
  | RDone ok acc => RDone ok acc
  end.

(** *** Threads *)

Record reader := mk_reader { r_from : nat; r_pc : rpc }.

(** Ghost state: the contents committed so far, newest first, and for each reader
    how many there were when it began. *)
Record sys := mk_sys {
  memory : mem; writers : gmap Z (list Z * wpc); readers : gmap Z reader; commits : list (list Z) }.

Inductive action :=
  | StartW (t : Z) (words : list Z) (try : bool)
  | WStep (t : Z) (spurious : bool)
  | StartR (t : Z)
  | RStep (t : Z).

Definition in_section (pc : wpc) : bool := match pc with WStore _ _ => true | _ => false end.

Definition wstep (s : sys) (t : Z) (words : list Z) (pc : wpc) (spurious : bool) : sys :=
  let '(pc', m') := write_step words spurious pc (memory s) in
  mk_sys m' (<[t := (words, pc')]> (writers s)) (readers s)
    (if in_section pc && negb (in_section pc') then data m' :: commits s else commits s).

Definition rstep (s : sys) (t : Z) (r : reader) : sys :=
  let from := match r_pc r with RBegin => length (commits s) | _ => r_from r end in
  mk_sys (memory s) (writers s) (<[t := mk_reader from (read_step (r_pc r) (memory s))]> (readers s)) (commits s).

(** A thread starts a call only when it has none in its critical section. *)
Definition act (s : sys) (a : action) : option sys :=
  match a with
  | StartW t words try =>
      match writers s !! t with
      | Some (_, WStore _ _) => None
      | _ =>
          if (length words =? length (data (memory s)))%nat then
            Some (mk_sys (memory s) (<[t := (words, if try then TLoad else WLoad)]> (writers s)) (readers s) (commits s))
          else None
      end
  | WStep t spurious =>
      match writers s !! t with Some (words, pc) => Some (wstep s t words pc spurious) | None => None end
  | StartR t => Some (mk_sys (memory s) (writers s) (<[t := mk_reader (length (commits s)) RBegin]> (readers s)) (commits s))
  | RStep t => match readers s !! t with Some r => Some (rstep s t r) | None => None end
  end.

Definition init_sys (words : list Z) : sys := mk_sys (mk_mem 0 words) ∅ ∅ [words].
End Seqcount.
