(* ===== verification/PrioTableProps.v ===== *)
(** * Correctness of the shared priority table

    The parts of the shared memory do not overlap; no update announced on the
    stream is lost, however threads interleave, and both calls are wait-free; a
    successful read under the sequence lock is a committed snapshot. *)

From S2P Require Import Prelude PrioTable.

(** ** Layout *)

Module LayoutProps.
Import Layout.

(** The pieces of the mapping. *)
Inductive piece := Hdr | Item (i : Z) | Class (i : Z) | ScrapeAll | Entry (i : Z).

Definition valid (h : ghost_shmem_hdr) (p : piece) : Prop :=
  match p with
  | Hdr | ScrapeAll => True
  | Item i => 0 <= i < si_num h
  | Class i => 0 <= i < wc_num h
  | Entry i => 0 <= i < st_cap h
  end.

(** Offset and size. *)
Definition extent (h : ghost_shmem_hdr) (p : piece) : Z * Z :=
  match p with
  | Hdr => (0, hdrlen h)
  | Item i => (si_off h + i * sizeof_sched_item, sizeof_sched_item)
  | Class i => (work_class h i, sizeof_work_class)
  | ScrapeAll => (stream h, sizeof_stream)
  | Entry i => (entry h i, sizeof_entry)
  end.

Definition disjoint_pieces (h : ghost_shmem_hdr) (p q : piece) : Prop :=
  fst (extent h p) + snd (extent h p) <= fst (extent h q) \/
  fst (extent h q) + snd (extent h q) <= fst (extent h p).

Definition total (ni nc cap : Z) : Z := 64 + 64 * ni + 64 * nc + 4 + 4 * cap.

Lemma header_fields ni nc cap :
  0 <= ni -> 0 <= nc -> 0 <= cap -> total ni nc cap < 2 ^ 32 ->
  PrioTable ni nc cap = Some (mk_hdr 0 64 (total ni nc cap) ni 64 nc (64 + 64 * ni) cap (64 + 64 * ni + 64 * nc)).
Proof.
  unfold total. intros Hi Hc Hcap Ht. unfold PrioTable, shmem_size.
  unfold sizeof_hdr, sizeof_sched_item, sizeof_work_class, sizeof_stream, sizeof_entry, ABSL_CACHELINE_SIZE.
  assert (H64 : 2 ^ 32 < 2 ^ 64) by done.
  rewrite (u64_id (0 + 64)), (u64_id (64 * ni)), (u64_id (64 * nc)), (u64_id (0 + 64 + 64 * ni)),
    (u64_id (0 + 64 + 64 * ni + 64 * nc)) by lia. replace (0 + 64 + 64 * ni + 64 * nc) with ((1 + ni + nc) * 64) by lia.
  rewrite Z_mod_mult. cbn [Z.eqb negb].
  rewrite u64_id, (u32_id (64 + ni * 64)), (u32_id (64 + ni * 64 + nc * 64)), u32_id by lia.
  replace (64 + ni * 64 + nc * 64) with ((1 + ni + nc) * 64) by lia. rewrite Z_mod_mult. cbn [Z.eqb negb].
  do 2 f_equal; lia.
Qed.

(** When the pieces fit 32-bit offsets the constructor's checks pass, every
    piece (header, items, work classes, stream) lies inside the mapping, items and
    work classes and the stream start on a cache line, and different pieces do
    not overlap.  An index that is out of range, negative ones included, is
    rejected. *)
Theorem prio_table_layout ni nc cap :
  0 <= ni -> 0 <= nc -> 0 <= cap -> total ni nc cap < 2 ^ 32 ->
  exists h, PrioTable ni nc cap = Some h /\
    (forall p, valid h p -> 0 <= fst (extent h p) /\ fst (extent h p) + snd (extent h p) <= maplen h) /\
    (forall p q, valid h p -> valid h q -> p <> q -> disjoint_pieces h p q) /\
    (forall i, (sizeof_sched_item | fst (extent h (Item i))) /\ (sizeof_work_class | fst (extent h (Class i)))) /\
    (ABSL_CACHELINE_SIZE | stream h) /\
    (forall i, 0 <= i < ni -> sched_item h i = Some (fst (extent h (Item i)))) /\
    (forall i, - 2 ^ 31 <= i < 2 ^ 31 -> ~ 0 <= i < ni -> sched_item h i = None).
Proof.
  intros Hi Hc Hcap Ht. eexists. split; [by apply header_fields|]. unfold total in Ht.
  unfold disjoint_pieces, sched_item, extent, valid, entry, work_class, stream, total.
  unfold sizeof_sched_item, sizeof_work_class, sizeof_stream, sizeof_entry, ABSL_CACHELINE_SIZE. cbn -[Z.mul].
  split_and!.
  - intros [|i|i| |i]; cbn -[Z.mul]; lia.
  - intros [|i|i| |i] [|j|j| |j] Hp Hq Hne; cbn -[Z.mul] in *; try lia; try done.
    + assert (i <> j) by congruence. lia.
    + assert (i <> j) by congruence. lia.
    + assert (i <> j) by congruence. lia.
  - intros i. split; [exists (1 + i)|exists (1 + ni + i)]; lia.
  - exists (1 + ni + nc). lia.
  - intros i Hin. rewrite u32_id by lia. by rewrite (proj2 (Z.ltb_lt _ _)) by lia.
  - intros i Hr Hout. replace (u32 i <? ni) with false; [done|]. symmetry. apply Z.ltb_ge.
    destruct (Z.le_gt_cases 0 i); [rewrite u32_id by lia; lia|].
    replace (u32 i) with (i + 2 ^ 32); [lia|]. unfold u32. apply (Z.mod_unique _ _ (-1)); lia.
Qed.

Lemma prio_table_layout_witness :
  total 100 4 31 < 2 ^ 32 /\ exists h, PrioTable 100 4 31 = Some h /\ disjoint_pieces h (Item 99) (Class 0).
Proof.
  split; [unfold total; lia|].
  destruct (prio_table_layout 100 4 31 ltac:(lia) ltac:(lia) ltac:(lia) ltac:(unfold total; lia))
    as (h & Hh & _ & Hd & _). exists h. split; [exact Hh|]. injection Hh as <-.
  apply Hd; cbn; [lia|lia|discriminate].
Defined.

(** Without the bound the offsets wrap: with 2^26 items the work classes start
    where the items do. *)
Lemma layout_wraps : exists h, PrioTable (2 ^ 26) 1 11 = Some h /\ sched_item h 0 = Some (work_class h 0).
Proof. eexists. split; vm_compute; reflexivity. Qed.
End LayoutProps.

(** ** The stream *)

Module StreamProps.
Import Stream.

Section Inv.
Context (st_cap : Z) (Hcap : 0 < st_cap).

(** [x] will be reported: it is in a cell, an overflow is announced, or the
    agent's call in progress reports it. *)
Definition reporting (o : option rpc) (x : Z) : Prop :=
  match o with
  | Some RExchange | Some (RScan _ true) | Some (RStore _ _ true) => True
  | Some (RRet v) => v = kStreamOverflow \/ v = x
  | _ => False
  end.

Definition in_cell (m : mem) (i x : Z) : Prop := exists j, i <= j < st_cap /\ get m j = x.

Definition covered (s : sys) (x : Z) : Prop :=
  in_cell (memory s) 0 x \/ 0 < scrape_all (memory s) \/ reporting (reader s) x.

(** The agent's call in progress. *)
Definition reader_ok (s : sys) : Prop :=
  match reader s with
  | None | Some RLoad => True
  | Some RExchange => 0 < scrape_all (memory s)
  | Some (RScan i true) => 0 <= i
  | Some (RScan i false) => 0 <= i /\ forall x, x ∈ snap s -> in_cell (memory s) i x
  | Some (RStore i idx full) => 0 <= i < st_cap /\ get (memory s) i = idx /\ idx <> kStreamFreeEntry
  | Some (RRet v) =>
      (v = kStreamNoEntries -> snap s = ∅) /\
      (v = kStreamNoEntries \/ v = kStreamOverflow \/ 0 <= v /\ v ∈ marked s)
  end.

Record inv (s : sys) : Prop := {
  inv_len : length (entries (memory s)) = Z.to_nat st_cap;
  inv_cells : forall j, 0 <= j < st_cap ->
    get (memory s) j = kStreamFreeEntry \/ 0 <= get (memory s) j /\ get (memory s) j ∈ marked s;
  inv_writers : forall t w, writers s !! t = Some w -> 0 <= w_idx w;
  inv_scrape : 0 <= scrape_all (memory s);
  inv_pending : forall x, x ∈ pending s -> 0 <= x /\ covered s x;
  inv_snap : forall x, x ∈ snap s -> 0 <= x;
  inv_reader : reader_ok s;
}.

Lemma free_neg : kStreamFreeEntry = -1.
Proof. reflexivity. Qed.

Lemma get_put m c v j :
  length (entries m) = Z.to_nat st_cap -> 0 <= c < st_cap -> 0 <= j ->
  get (put m c v) j = if decide (j = c) then v else get m j.
Proof.
  intros Hl Hc Hj. unfold get, put. cbn. case_decide as Hd.
  - subst j. apply list_lookup_total_insert_eq. lia.
  - apply list_lookup_total_insert_ne. lia.
Qed.

Lemma cell_range idx i : 0 <= cell st_cap idx i < st_cap.
Proof. unfold cell. apply Z.mod_pos_bound. done. Qed.

(** A value other than the free mark stays in the cells when a free one is taken. *)
Lemma in_cell_put m c v i x :
  length (entries m) = Z.to_nat st_cap -> 0 <= c < st_cap -> 0 <= i -> get m c = kStreamFreeEntry -> 0 <= x ->
  in_cell m i x -> in_cell (put m c v) i x.
Proof.
  intros Hl Hc Hi Hf Hx (j & Hj & E). exists j. split; [done|]. rewrite get_put by (done || lia).
  case_decide; [|done]. subst. rewrite free_neg in Hf. lia.
Qed.

Lemma covered_mem s s' x :
  reader s' = reader s -> scrape_all (memory s) <= scrape_all (memory s') ->
  (in_cell (memory s) 0 x -> in_cell (memory s') 0 x) -> covered s x -> covered s' x.
Proof. unfold covered. intros -> Hs Hc [H|[H|H]]; [left; auto|right; left; lia|right; right; done]. Qed.

(** What one step of a writer does to memory. *)
Lemma mark_cases idx n sp pc m pc' m' :
  MarkUpdatedIndex st_cap idx n sp pc m = (pc', m') ->
  (m' = m /\ (finished pc' = true -> finished pc = true)) \/
  (exists c, 0 <= c < st_cap /\ get m c = kStreamFreeEntry /\ m' = put m c idx /\ pc' = WDone /\ finished pc = false) \/
  (pc = WAdd /\ pc' = WDone /\ m' = mk_mem (s32 (scrape_all m + 1)) (entries m)).
Proof.
  assert (Ht : forall i, finished (try_from n i) = true -> False).
  { intros i. unfold try_from. by destruct (_ <? _). }
  destruct pc as [|i|i| |]; cbn.
  - destruct (_ <? _); intros [= <- <-]; left; (split; [done|]); [done|]. intros H. by apply Ht in H.
  - destruct (_ =? _); intros [= <- <-]; left; (split; [done|]); [done|]. intros H. by apply Ht in H.
  - destruct (negb sp && _) eqn:E; intros [= <- <-].
    + apply andb_true_iff in E as [_ E%Z.eqb_eq]. right. left. exists (cell st_cap idx i).
      split; [apply cell_range|done].
    + left. split; [done|]. intros H. by apply Ht in H.
  - intros [= <- <-]. by right; right.
  - intros [= <- <-]. by left.
Qed.

(** The reader's condition survives a writer's step. *)
Lemma reader_ok_mono s s' :
  reader s' = reader s -> snap s' = snap s -> marked s ⊆ marked s' ->
  scrape_all (memory s) <= scrape_all (memory s') ->
  (forall i x, 0 <= i -> 0 <= x -> in_cell (memory s) i x -> in_cell (memory s') i x) ->
  (forall j, 0 <= j < st_cap -> get (memory s) j <> kStreamFreeEntry -> get (memory s') j = get (memory s) j) ->
  (forall x, x ∈ snap s -> 0 <= x) ->
  reader_ok s -> reader_ok s'.
Proof.
  unfold reader_ok. intros -> -> Hm Hs Hc Hg Hpos. destruct (reader s) as [[| |i [|]|i idx full|v]|]; try done.
  - lia.
  - intros [Hi Hsn]. split; [done|]. intros x Hx. apply Hc; auto.
  - intros (Hi & E & Hne). subst idx. by rewrite Hg.
  - intros [H1 H2]. split; [done|]. set_solver.
Qed.

(** The conditions on an action: indices are non-negative, and fewer than 2^31
    overflows are announced between two calls of the agent. *)
Definition action_ok (s : sys) (a : action) : Prop :=
  match a with
  | Start _ idx _ => 0 <= idx
  | WStep t _ => forall w, writers s !! t = Some w -> w_pc w = WAdd -> scrape_all (memory s) < 2 ^ 31 - 1
  | _ => True
  end.

Lemma inv_init : inv (init_sys st_cap).
Proof.
  split; cbn; try done; [by rewrite length_replicate|..].
  intros j Hj. left. unfold get. cbn. apply lookup_total_replicate_2. lia.
Qed.

Lemma inv_wstep s t w sp :
  inv s -> writers s !! t = Some w ->
  (w_pc w = WAdd -> scrape_all (memory s) < 2 ^ 31 - 1) -> inv (wstep st_cap s t w sp).
Proof.
  intros [Hl Hce Hw Hs Hp Hsn Hr] Ht Hadd. unfold wstep.
  destruct (MarkUpdatedIndex _ _ _ _ _ _) as [pc' m'] eqn:E.
  pose proof (Hw t w Ht) as Hidx.
  assert (Hw' : forall t' w', <[t := mk_writer (w_idx w) (w_retries w) pc']> (writers s) !! t' = Some w' -> 0 <= w_idx w').
  { intros t' w' [[_ <-]|[_ H]]%lookup_insert_Some; [done|]. by eapply Hw. }
  apply mark_cases in E as [[-> Hf]|[(c & Hc & Hfree & -> & -> & Hf)|(Hpc & -> & ->)]].
  - replace (finished pc' && negb (finished (w_pc w))) with false.
    2:{ symmetry. destruct (finished pc'); [rewrite Hf by done|]; done. }
    rewrite !(left_id_L ∅ (∪)). by split.
  - rewrite Hf. cbn [finished andb negb].
    assert (Hic : forall i x, 0 <= i -> 0 <= x -> in_cell (memory s) i x -> in_cell (put (memory s) c (w_idx w)) i x).
    { intros. by apply in_cell_put. }
    split; cbn.
    + by rewrite length_insert.
    + intros j Hj. rewrite (get_put (memory s)) by (done || lia). case_decide; [right; set_solver|].
      destruct (Hce j Hj); [by left|right; set_solver].
    + exact Hw'.
    + done.
    + intros x [->%elem_of_singleton|Hx]%elem_of_union.
      * split; [done|]. left. exists c. split; [done|]. cbn. rewrite get_put by (done || lia). by rewrite decide_True.
      * destruct (Hp x Hx). split; [done|]. eapply (covered_mem s); [done|..|done]; [done|]. cbn. by apply Hic.
    + done.
    + eapply (reader_ok_mono s); [done|done|set_solver|done|exact Hic| |done|done].
      intros j Hj Hne. cbn. rewrite get_put by (done || lia). case_decide; [by subst|done].
  - rewrite Hpc. cbn [finished andb negb]. specialize (Hadd Hpc).
    assert (Es : s32 (scrape_all (memory s) + 1) = scrape_all (memory s) + 1) by (apply s32_id; lia).
    split; cbn; rewrite ?Es; try done.
    + intros j Hj. destruct (Hce j Hj); [by left|right; set_solver].
    + lia.
    + intros x [->%elem_of_singleton|Hx]%elem_of_union; [split; [done|]; right; left; cbn; lia|].
      destruct (Hp x Hx). split; [done|]. eapply (covered_mem s); [done|..|done]; [cbn; lia|done].
    + eapply (reader_ok_mono s); [done|done|set_solver|cbn; lia|done|done|done|done].
Qed.

Lemma inv_rstep s pc : inv s -> reader s = Some pc -> inv (rstep st_cap s pc).
Proof.
  intros [Hl Hce Hw Hs Hp Hsn Hr] Hpc. unfold reader_ok in Hr. rewrite Hpc in Hr. unfold rstep.
  assert (Hcov : forall x, x ∈ pending s -> 0 <= x /\ (in_cell (memory s) 0 x \/ 0 < scrape_all (memory s) \/ reporting (Some pc) x)).
  { intros x Hx. destruct (Hp x Hx) as [H0 H1]. unfold covered in H1. by rewrite Hpc in H1. }
  destruct pc as [| |i full|i idx full|v]; cbn [NextUpdatedIndex].
  - destruct (Z.ltb_spec 0 (scrape_all (memory s))).
    + split; try done; cbn; [|by intros x Hx; destruct (Hp x Hx)]. intros x Hx. split; [by destruct (Hp x Hx)|]. right. by left.
    + split; try done; cbn; [|split; [done|]]; intros x Hx; destruct (Hcov x Hx) as (? & [Hic|[?|[]]]); (done || lia).
  - split; try done; cbn. intros x Hx. split; [by destruct (Hp x Hx)|]. right. by right.
  - destruct (Z.ltb_spec i st_cap); [destruct (Z.eqb_spec (get (memory s) i) kStreamFreeEntry) as [Hf|Hf]|]; cbn [negb].
    + split; try done; cbn.
      destruct full; [lia|]. destruct Hr as [Hi Hr]. split; [lia|]. intros x Hx. destruct (Hr x Hx) as (j & Hj & Ej).
      exists j. split; [|done]. destruct (decide (j = i)) as [->|]; [|lia]. apply Hsn in Hx. rewrite free_neg in Hf. lia.
    + split; try done; cbn. destruct full; naive_solver lia.
    + split; try done; cbn.
      * intros x Hx. destruct (Hcov x Hx) as (? & [?|[?|?]]); (split; [done|]); [by left|by right; left|right; right; destruct full; [by left|done]].
      * destruct full; [split; [done|tauto]|]. destruct Hr as [Hi Hr]. split; [|tauto]. intros _.
        apply set_eq. intros x. split; [|set_solver]. intros Hx. destruct (Hr x Hx) as (j & ? & _). lia.
  - destruct Hr as (Hi & Hg & Hne).
    assert (Hput : forall j, 0 <= j -> get (put (memory s) i kStreamFreeEntry) j = if decide (j = i) then kStreamFreeEntry else get (memory s) j).
    { intros j Hj. by apply (get_put (memory s)). }
    assert (Hce' : forall j, 0 <= j < st_cap -> get (put (memory s) i kStreamFreeEntry) j = kStreamFreeEntry \/
      0 <= get (put (memory s) i kStreamFreeEntry) j /\ get (put (memory s) i kStreamFreeEntry) j ∈ marked s).
    { intros j Hj. rewrite Hput by lia. case_decide; [by left|by apply Hce]. }
    destruct full; cbn [negb].
    + split; try done; cbn; [by rewrite length_insert| |lia]. intros x Hx. split; [by destruct (Hp x Hx)|]. right. by right.
    + destruct (Hce i Hi) as [?|Hm]; [by rewrite Hg in *|]. rewrite Hg in Hm.
      split; try done; cbn; [by rewrite length_insert| |].
      * intros x Hx. destruct (Hcov x Hx) as (? & [(j & Hj & Ej)|[?|[]]]); (split; [done|]); [|by right; left].
        destruct (decide (j = i)) as [->|]; [right; right; right; congruence|].
        left. exists j. split; [done|]. cbn. rewrite Hput by lia. by rewrite decide_False.
      * split; [|by right; right]. intros ->. unfold kStreamNoEntries in Hm. lia.
  - split; try done.
Qed.

Lemma inv_act s a s' : inv s -> action_ok s a -> act st_cap s a = Some s' -> inv s'.
Proof.
  intros Hi Hok. destruct a as [t idx n|t sp| | |]; cbn.
  - intros [= <-]. destruct Hi as [Hl Hce Hw Hs Hp Hsn Hr]. split; try done.
    cbn. intros t' w' [[_ <-]|[_ H']]%lookup_insert_Some; [done|]. by eapply Hw.
  - destruct (writers s !! t) as [w|] eqn:Ht; [|done]. intros [= <-]. apply inv_wstep; [done|done|].
    by apply (Hok w).
  - destruct (reader s) eqn:Hr; [done|]. intros [= <-]. destruct Hi as [Hl Hce Hw Hs Hp Hsn _]. split; try done.
    intros x Hx. destruct (Hp x Hx) as [? [?|[?|Hrep]]]; [split; [done|by left]|split; [done|by right; left]|].
    by rewrite Hr in Hrep.
  - destruct (reader s) as [pc|] eqn:Hr; [|done]. intros [= <-]. by apply inv_rstep.
  - destruct (reader s) as [[| | | |v]|] eqn:Hr; try done. intros [= <-].
    destruct Hi as [Hl Hce Hw Hs Hp Hsn _]. split; try done. intros x. unfold report.
    destruct (Z.eqb_spec v kStreamOverflow); [set_solver|]. intros [Hx Hne]%elem_of_difference. cbn.
    destruct (Hp x Hx) as [? [?|[?|Hrep]]]; [split; [done|by left]|split; [done|by right; left]|].
    rewrite Hr in Hrep. destruct Hrep; set_solver.
Qed.

(** Executions, and the states they reach. *)
Inductive run : sys -> list action -> sys -> Prop :=
  | run_nil s : run s [] s
  | run_cons s a s1 acts s' : action_ok s a -> act st_cap s a = Some s1 -> run s1 acts s' -> run s (a :: acts) s'.

Lemma run_inv s acts s' : inv s -> run s acts s' -> inv s'.
Proof. intros Hi Hr. induction Hr; [done|]. apply IHHr. by eapply inv_act. Qed.

(** During the agent's call what was pending at its start stays in the snapshot. *)
Definition snapped (P : gset Z) (s : sys) : Prop :=
  match reader s with
  | None => False
  | Some RLoad => P ⊆ pending s
  | Some _ => P ⊆ snap s
  end.

Lemma snapped_act P s a s' :
  a <> RReturn -> act st_cap s a = Some s' -> snapped P s -> snapped P s'.
Proof.
  unfold snapped. intros Ha. destruct a as [t idx n|t sp| | |]; cbn; [| | | |done].
  - by intros [= <-].
  - destruct (writers s !! t) as [w|]; [|done]. intros [= <-]. unfold wstep.
    destruct (MarkUpdatedIndex _ _ _ _ _ _) as [pc' m']. cbn. destruct (reader s) as [[| | | |]|]; set_solver.
  - by destruct (reader s).
  - destruct (reader s) as [pc|]; [|done]. intros [= <-]. unfold rstep.
    destruct (NextUpdatedIndex _ _ _) as [pc' m'] eqn:E. cbn. intros Hs.
    destruct pc as [| |i [|]|i idx [|]|v]; cbn in E; repeat case_match; simplify_eq; done.
Qed.

Lemma snapped_run P s acts s' : RReturn ∉ acts -> run s acts s' -> snapped P s -> snapped P s'.
Proof.
  intros Hn Hr. induction Hr as [|s a s1 acts s' _ Ha _ IH]; [done|]. intros Hs.
  apply IH; [set_solver|]. eapply snapped_act; [|done|done]. set_solver.
Qed.
End Inv.

(** C7: no update is lost, however application threads and the agent interleave.
    An index whose [MarkUpdatedIndex] has completed and that has not been reported
    since is in a cell, or an overflow is announced, or the call of
    [NextUpdatedIndex] in progress reports it.  A call that returns
    [kStreamNoEntries] began with nothing to report; any other result is
    [kStreamOverflow] or an index that was marked. *)
Theorem stream_no_lost_update st_cap acts0 s0 :
  0 < st_cap -> run st_cap (init_sys st_cap) acts0 s0 ->
  (forall x, x ∈ pending s0 -> covered st_cap s0 x) /\
  (forall acts s1 v, reader s0 = Some RLoad -> run st_cap s0 acts s1 -> RReturn ∉ acts -> reader s1 = Some (RRet v) ->
     (v = kStreamNoEntries -> pending s0 = ∅) /\
     (v = kStreamNoEntries \/ v = kStreamOverflow \/ v ∈ marked s1)).
Proof.
  intros Hcap Hr0. pose proof (run_inv _ Hcap _ _ _ (inv_init _ Hcap) Hr0) as Hi0.
  split; [intros x Hx; by apply Hi0|]. intros acts s1 v Hrd Hr Hn Hret.
  pose proof (run_inv _ Hcap _ _ _ Hi0 Hr) as Hi1. pose proof (inv_reader _ _ Hi1) as Hok.
  unfold reader_ok in Hok. rewrite Hret in Hok. destruct Hok as [Hno Hv]. split; [|tauto].
  intros Hvn. assert (Hs : snapped (pending s0) s1).
  { eapply snapped_run; [exact Hcap|exact Hn|exact Hr|]. unfold snapped. by rewrite Hrd. }
  unfold snapped in Hs. rewrite Hret, Hno in Hs by done. set_solver.
Qed.

(** One application thread marks index 5, then the agent asks. *)
Definition demo_before : list action := [Start 1 5 3; WStep 1 false; WStep 1 false; WStep 1 false; RStart].
Definition demo_during : list action := replicate 8 RStep.

Fixpoint exec (cap : Z) (s : sys) (acts : list action) : sys :=
  match acts with [] => s | a :: acts => match act cap s a with Some s' => exec cap s' acts | None => s end end.

Definition demo_s0 : sys := exec 11 (init_sys 11) demo_before.
Definition demo_s1 : sys := exec 11 demo_s0 demo_during.

Lemma stream_no_lost_update_witness : pending demo_s0 = {[5]} /\ reader demo_s1 = Some (RRet 5) /\ 5 ∈ marked demo_s1.
Proof.
  assert (Hr0 : run 11 (init_sys 11) demo_before demo_s0).
  { repeat (eapply run_cons; [|vm_compute; reflexivity|]); [..|apply run_nil];
      cbn; (lia || done || (intros w Hw Hp; vm_compute in Hw; injection Hw as <-; discriminate)). }
  assert (Hr1 : run 11 demo_s0 demo_during demo_s1).
  { repeat (eapply run_cons; [exact I|vm_compute; reflexivity|]). apply run_nil. }
  destruct (stream_no_lost_update 11 demo_before demo_s0 ltac:(lia) Hr0) as [_ H].
  destruct (H demo_during demo_s1 5) as [_ Hv]; [vm_compute; reflexivity|exact Hr1| |vm_compute; reflexivity|].
  - unfold demo_during. cbn. set_solver.
  - split; [vm_compute; reflexivity|]. split; [vm_compute; reflexivity|].
    destruct Hv as [?|[?|?]]; [discriminate|discriminate|done].
Defined.

(** *** Wait-freedom *)

(** A thread's own steps; between them the others leave memory as they like, so
    each step gets its own memory. *)
Fixpoint mark_steps (cap idx n : Z) (pc : wpc) (ms : list (bool * mem)) : wpc :=
  match ms with
  | [] => pc
  | (sp, m) :: ms => mark_steps cap idx n (fst (MarkUpdatedIndex cap idx n sp pc m)) ms
  end.

Fixpoint next_steps (cap : Z) (pc : rpc) (ms : list mem) : rpc :=
  match ms with [] => pc | m :: ms => next_steps cap (fst (NextUpdatedIndex cap pc m)) ms end.

(** Steps left. *)
Definition mark_left (n : Z) (pc : wpc) : nat :=
  match pc with
  | WLoad => 2 * Z.to_nat (n + 1) + 4
  | WTry i => 2 * Z.to_nat (n + 1 - i) + 3
  | WCas i => 2 * Z.to_nat (n + 1 - i) + 2
  | WAdd => 1
  | WDone => 0
  end.

Definition next_left (cap : Z) (pc : rpc) : nat :=
  match pc with
  | RLoad => 2 * Z.to_nat cap + 3
  | RExchange => 2 * Z.to_nat cap + 2
  | RScan i _ => 2 * Z.to_nat (cap - i) + 1
  | RStore i _ _ => 2 * Z.to_nat (cap - i)
  | RRet _ => 0
  end.

Definition returned (pc : rpc) : bool := match pc with RRet _ => true | _ => false end.

Lemma mark_progress cap idx n sp pc m :
  pc <> WDone -> (mark_left n (fst (MarkUpdatedIndex cap idx n sp pc m)) < mark_left n pc)%nat.
Proof.
  assert (Ht : forall i, (mark_left n (try_from n i) <= 2 * Z.to_nat (n + 1 - i) + 3)%nat /\
    (n + 1 <= i -> mark_left n (try_from n i) = 1%nat)).
  { intros i. unfold try_from. destruct (Z.ltb_spec i (n + 1)); cbn; lia. }
  destruct pc as [|i|i| |]; intros Hne; cbn.
  - destruct (_ <? _); cbn [fst]; [cbn; lia|]. pose proof (Ht 0). replace (n + 1 - 0) with (n + 1) in * by lia. lia.
  - destruct (_ =? _); cbn [fst]; [cbn; lia|]. pose proof (Ht (i + 1)). lia.
  - destruct (_ && _); cbn [fst]; [cbn; lia|]. pose proof (Ht (i + 1)). lia.
  - lia.
  - done.
Qed.

(** The scan position stays in range. *)
Definition scan_ok (cap : Z) (pc : rpc) : Prop := match pc with RStore i _ _ => i < cap | _ => True end.

Lemma next_progress cap pc m :
  returned pc = false -> scan_ok cap pc ->
  (next_left cap (fst (NextUpdatedIndex cap pc m)) < next_left cap pc)%nat /\
  scan_ok cap (fst (NextUpdatedIndex cap pc m)).
Proof.
  destruct pc as [| |i full|i idx full|v]; intros Hr Hok; cbn in *; try done.
  - destruct (_ <? _); cbn [fst]; cbn; (split; [|done]); rewrite ?Z.sub_0_r; lia.
  - rewrite Z.sub_0_r. split; [lia|done].
  - destruct (Z.ltb_spec i cap); [destruct (_ =? _)|]; cbn; (split; [|done]); lia.
  - destruct full; cbn; (split; [|done]); lia.
Qed.

(** Both calls are wait-free: whatever the other threads do to the stream
    between its steps, and however often a weak compare-exchange fails,
    [MarkUpdatedIndex] completes within [2 * (num_retries + 1) + 4] of its own
    steps and [NextUpdatedIndex] within [2 * st_cap + 3]. *)
Theorem stream_wait_free cap idx n ms ms' :
  (2 * Z.to_nat (n + 1) + 4 <= length ms)%nat -> (2 * Z.to_nat cap + 3 <= length ms')%nat ->
  mark_steps cap idx n WLoad ms = WDone /\ returned (next_steps cap RLoad ms') = true.
Proof.
  intros Hms Hms'. split.
  - assert (Hgen : forall ms pc, (mark_left n pc <= length ms)%nat -> mark_steps cap idx n pc ms = WDone).
    { clear. induction ms as [|[sp m] ms IH]; intros pc Hl; cbn in *.
      - destruct pc; cbn in Hl; (lia || done).
      - destruct (finished pc) eqn:E; [destruct pc; try done; apply IH; cbn; lia|].
        apply IH. pose proof (mark_progress cap idx n sp pc m ltac:(by intros ->)). lia. }
    by apply Hgen.
  - assert (Hgen : forall ms pc, scan_ok cap pc -> (next_left cap pc <= length ms)%nat -> returned (next_steps cap pc ms) = true).
    { clear. induction ms as [|m ms IH]; intros pc Hok Hl; cbn in *.
      - destruct pc; cbn in *; (lia || done).
      - destruct (returned pc) eqn:E; [destruct pc; try done; apply IH; cbn; (done || lia)|].
        destruct (next_progress cap pc m E Hok). apply IH; [done|lia]. }
    by apply Hgen.
Qed.

Lemma stream_wait_free_witness :
  mark_steps 11 5 0 WLoad (replicate 6 (true, init_mem 11)) = WDone /\
  returned (next_steps 11 RLoad (replicate 25 (init_mem 11))) = true.
Proof. apply stream_wait_free; cbn; lia. Defined.
End StreamProps.

(** ** The sequence lock *)

Module SeqcountProps.
Import Seqcount.

Lemma locked_odd z : locked (u32 z) = Z.odd z.
Proof.
  unfold locked, kLocked, u32. change 1 with (Z.ones 1) at 1. rewrite Z.land_ones by lia.
  change (2 ^ 1) with 2. rewrite Zmod_odd. rewrite <- Z.bit0_odd, Z.mod_pow2_bits_low, Z.bit0_odd by lia.
  by destruct (Z.odd z).
Qed.

Definition bit (lk : option Z) : Z := match lk with Some _ => 1 | None => 0 end.

(** The counter after [n] commits. *)
Definition count (n : nat) (lk : option Z) : Z := u32 (2 * (Z.of_nat n - 1) + bit lk).

Lemma locked_count n lk : locked (count n lk) = bool_decide (is_Some lk).
Proof.
  unfold count. rewrite locked_odd, Z.odd_add, Z.odd_mul. by destruct lk.
Qed.

Definition writer_ok (len : nat) (lk : option Z) (m : mem) (t : Z) (w : list Z * wpc) : Prop :=
  length (fst w) = len /\ (in_section (snd w) = true <-> lk = Some t) /\
  match snd w with
  | WCas seq0 | TCas seq0 => locked seq0 = false
  | WStore b k => b = seqnum m /\ (k <= len)%nat /\ take k (data m) = take k (fst w)
  | _ => True
  end.

Definition reader_ok (len : nat) (lk : option Z) (s : sys) (r : reader) : Prop :=
  match r_pc r with
  | RRead b acc =>
      (1 <= r_from r <= length (commits s))%nat /\ (length acc <= len)%nat /\
      (locked b = false -> b = count (r_from r) None /\
        (length (commits s) = r_from r -> lk = None -> acc = take (length acc) (data (memory s))))
  | _ => True
  end.

(** [lk] is the thread in its critical section. *)
Record inv (len : nat) (lk : option Z) (s : sys) : Prop := {
  inv_seq : seqnum (memory s) = count (length (commits s)) lk;
  inv_len : length (data (memory s)) = len;
  inv_commits : (1 <= length (commits s))%nat;
  inv_data : lk = None -> head (commits s) = Some (data (memory s));
  inv_lk : forall t, lk = Some t -> is_Some (writers s !! t);
  inv_writers : forall t w, writers s !! t = Some w -> writer_ok len lk (memory s) t w;
  inv_readers : forall t r, readers s !! t = Some r -> reader_ok len lk s r;
}.

Lemma seq_inv_init words : inv (length words) None (init_sys words).
Proof. by split. Qed.

(** Another thread's writer is not in the section when the lock is free. *)
Lemma writer_not_in len lk m t w : writer_ok len lk m t w -> lk <> Some t -> in_section (snd w) = false.
Proof. intros (_ & H & _) Hne. apply not_true_iff_false. tauto. Qed.

(** A writer of another thread does not notice a step of [t]. *)
Lemma writer_other len lk lk' m m' t t' w :
  t' <> t -> (lk = None \/ lk = Some t) -> (lk' = None \/ lk' = Some t) ->
  writer_ok len lk m t' w -> writer_ok len lk' m' t' w.
Proof.
  intros Hne Hlk Hlk' Hw. pose proof (writer_not_in _ _ _ _ _ Hw ltac:(destruct Hlk; congruence)) as Hs.
  destruct Hw as (Hl & _ & Hpc). split; [done|]. rewrite Hs. split; [destruct Hlk' as [->| ->]; split; congruence|].
  by destruct (snd w).
Qed.

Lemma u32_succ z : u32 (u32 z + 1) = u32 (z + 1).
Proof. unfold u32. by rewrite Zplus_mod_idemp_l. Qed.

Definition put_writer (s : sys) (t : Z) (w : list Z * wpc) (m : mem) (cs : list (list Z)) : sys :=
  mk_sys m (<[t := w]> (writers s)) (readers s) cs.

(** A step outside the critical section. *)
Lemma inv_outside len lk s t words pc pc' :
  inv len lk s -> writers s !! t = Some (words, pc) -> in_section pc = false -> in_section pc' = false ->
  match pc' with WCas q | TCas q => locked q = false | _ => True end ->
  inv len lk (put_writer s t (words, pc') (memory s) (commits s)).
Proof.
  intros [Hq Hl Hc Hd Hk Hw Hr] Ht Hs Hs' Hpc. destruct (Hw t _ Ht) as (Hlen & Hin & _). cbn in Hlen, Hin.
  split; try done; cbn.
  - intros t' Ht'. rewrite lookup_insert. case_decide; [by eexists|]. by apply Hk.
  - intros t' w' [[<- <-]|[_ H']]%lookup_insert_Some; [|by apply Hw].
    split; [done|]. cbn. rewrite Hs'. split; [by rewrite <- Hin, Hs|]. by destruct pc'.
Qed.

(** The lock is taken. *)
Lemma inv_enter len lk s t words pc seq0 :
  inv len lk s -> writers s !! t = Some (words, pc) -> locked seq0 = false -> seqnum (memory s) = seq0 ->
  inv len (Some t) (put_writer s t (words, fst (enter seq0 (memory s))) (snd (enter seq0 (memory s))) (commits s)).
Proof.
  intros [Hq Hl Hc Hd Hk Hw Hr] Ht Hf Eq. rewrite <- Eq, Hq, locked_count in Hf.
  assert (lk = None) as -> by (apply bool_decide_eq_false in Hf; by destruct lk; [exfalso; eauto|]).
  destruct (Hw t _ Ht) as (Hlen & _).
  assert (Hseq : u32 (seq0 + kLocked) = count (length (commits s)) (Some t)).
  { rewrite <- Eq, Hq. unfold count, kLocked. rewrite u32_succ. f_equal. cbn. lia. }
  split; try done; cbn.
  - intros t' [= <-]. rewrite lookup_insert_eq. by eexists.
  - intros t' w' [[<- <-]|[Hne H']]%lookup_insert_Some.
    + split; [done|]. cbn. split; [done|]. split; [done|]. split; [lia|done].
    + eapply (writer_other _ None); [done|by left|by right|by apply Hw].
  - intros t' r H'. specialize (Hr t' r H'). unfold reader_ok in *. destruct (r_pc r); try done. naive_solver.
Qed.

(** A store inside the section. *)
Lemma inv_store len lk s t words b k v :
  inv len lk s -> writers s !! t = Some (words, WStore b k) -> words !! k = Some v ->
  inv len lk (put_writer s t (words, WStore b (S k)) (mk_mem (seqnum (memory s)) (<[k := v]> (data (memory s)))) (commits s)).
Proof.
  intros [Hq Hl Hc Hd Hk Hw Hr] Ht Hv. destruct (Hw t _ Ht) as (Hlen & Hin & Hb & Hkl & Htake). cbn in *.
  assert (lk = Some t) as -> by (by apply Hin). pose proof (lookup_lt_Some _ _ _ Hv).
  split; try done; cbn.
  - by rewrite length_insert.
  - intros t' [= <-]. rewrite lookup_insert_eq. by eexists.
  - intros t' w' [[<- <-]|[Hne H']]%lookup_insert_Some.
    + split; [done|]. cbn. split; [done|]. split; [done|]. split; [lia|].
      erewrite !take_S_r; [|done|apply list_lookup_insert_eq; lia]. by rewrite take_insert_ge, Htake by lia.
    + eapply (writer_other _ (Some t)); [done|by right|by right|by apply Hw].
  - intros t' r H'. specialize (Hr t' r H'). unfold reader_ok in *. destruct (r_pc r); try done. naive_solver.
Qed.

(** The end of the section commits the writer's words. *)
Lemma inv_leave len lk s t words b k :
  inv len lk s -> writers s !! t = Some (words, WStore b k) -> words !! k = None ->
  data (memory s) = words /\
  inv len None (put_writer s t (words, WDone) (write_end b (memory s)) (data (memory s) :: commits s)).
Proof.
  intros [Hq Hl Hc Hd Hk Hw Hr] Ht Hv. destruct (Hw t _ Ht) as (Hlen & Hin & Hb & Hkl & Htake). cbn in *.
  assert (lk = Some t) as -> by (by apply Hin). apply lookup_ge_None in Hv.
  rewrite !take_ge in Htake by lia. split; [done|].
  split; try done; cbn.
  - unfold write_end. cbn. rewrite Hb, Hq. unfold count, kLocked. rewrite u32_succ. f_equal. cbn. lia.
  - lia.
  - intros t' w' [[<- <-]|[Hne H']]%lookup_insert_Some; [by split|].
    eapply (writer_other _ (Some t)); [done|by right|by left|by apply Hw].
  - intros t' r H'. specialize (Hr t' r H'). unfold reader_ok in *. destruct (r_pc r); try done.
    destruct Hr as (Hf & Ha & Hr). split; [cbn; lia|]. split; [done|]. intros Hlk. destruct (Hr Hlk) as [-> _].
    split; [done|]. cbn. lia.
Qed.

Lemma seq_inv_wstep len lk s t words pc sp :
  inv len lk s -> writers s !! t = Some (words, pc) -> exists lk', inv len lk' (wstep s t words pc sp).
Proof.
  intros Hi Ht. unfold wstep.
  assert (Hspin : forall q, match spin q with WCas q | TCas q => locked q = false | _ => True end).
  { intros q. unfold spin. by destruct (locked q) eqn:E. }
  assert (Hsec : forall q, in_section (spin q) = false) by (intros q; unfold spin; by destruct (locked q)).
  destruct (Hi.(inv_writers _ _ _) t _ Ht) as (_ & _ & Hok).
  destruct pc as [|q| |q|b k| |]; cbn [write_step snd in_section andb] in *.
  - exists lk. eapply inv_outside; [done|done|done|apply Hsec|apply Hspin].
  - destruct (negb sp && _) eqn:E.
    + apply andb_true_iff in E as [_ E%Z.eqb_eq]. exists (Some t). by eapply (inv_enter _ _ _ _ _ _ q).
    + exists lk. eapply inv_outside; [done|done|done|apply Hsec|apply Hspin].
  - exists lk. eapply inv_outside; [done|done|done|..]; by destruct (locked (seqnum (memory s))) eqn:E.
  - destruct (Z.eqb_spec (seqnum (memory s)) q) as [E|E].
    + exists (Some t). by eapply (inv_enter _ _ _ _ _ _ q).
    + exists lk. by eapply inv_outside.
  - destruct (words !! k) as [v|] eqn:Hv; cbn [in_section andb negb].
    + exists lk. by eapply inv_store.
    + exists None. by eapply inv_leave.
  - exists lk. by eapply inv_outside.
  - exists lk. by eapply inv_outside.
Qed.

Lemma seq_inv_rstep len lk s t r : inv len lk s -> readers s !! t = Some r -> inv len lk (rstep s t r).
Proof.
  intros [Hq Hl Hc Hd Hk Hw Hr] Ht. unfold rstep. split; try done; cbn.
  intros t' r' [[<- <-]|[_ H']]%lookup_insert_Some; [|by apply (Hr t')].
  specialize (Hr t r Ht). unfold reader_ok in *. destruct (r_pc r) as [|b acc|ok acc]; cbn.
  - split; [lia|]. split; [lia|]. rewrite Hq, locked_count. intros Hf%bool_decide_eq_false.
    destruct lk; [exfalso; eauto|]. done.
  - destruct (data (memory s) !! length acc) as [v|] eqn:Hv; [|done]. cbn.
    destruct Hr as (Hf & Ha & Hr). pose proof (lookup_lt_Some _ _ _ Hv). rewrite length_app. cbn.
    split; [done|]. split; [lia|]. intros Hlk. destruct (Hr Hlk) as [Hb Hacc]. split; [done|]. intros Hn Hnone.
    rewrite Nat.add_1_r, (take_S_r _ _ v) by done. by rewrite <- Hacc.
  - done.
Qed.

Lemma seq_inv_act len lk s a s' : inv len lk s -> act s a = Some s' -> exists lk', inv len lk' s'.
Proof.
  intros Hi. destruct a as [t words try|t sp|t|t]; cbn.
  - intros H. assert (Hn : lk <> Some t /\ length words = len /\ s' =
      put_writer s t (words, if try then TLoad else WLoad) (memory s) (commits s)).
    { destruct Hi as [_ Hl _ _ Hk Hw _].
      destruct (writers s !! t) as [[w pc]|] eqn:Ht.
      - destruct (Hw t _ Ht) as (_ & Hin & _). cbn in Hin.
        destruct pc; try done; destruct (Nat.eqb_spec (length words) (length (data (memory s)))); simplify_eq;
          (split; [rewrite <- Hin; done|split; [congruence|done]]).
      - destruct (Nat.eqb_spec (length words) (length (data (memory s)))); simplify_eq.
        split; [|split; [congruence|done]]. intros ->. destruct (Hk t eq_refl). congruence. }
    destruct Hn as (Hn & Hlen & ->). exists lk. destruct Hi as [Hq Hl Hc Hd Hk Hw Hr]. split; try done; cbn.
    + intros t' Ht'. rewrite lookup_insert. case_decide; [by eexists|]. by apply Hk.
    + intros t' w' [[<- <-]|[_ H']]%lookup_insert_Some; [|by apply Hw].
      split; [done|]. cbn. split; [|by destruct try]. destruct try; cbn; split; congruence.
  - destruct (writers s !! t) as [[words pc]|] eqn:Ht; [|done]. intros [= <-]. by eapply seq_inv_wstep.
  - intros [= <-]. exists lk. destruct Hi as [Hq Hl Hc Hd Hk Hw Hr]. split; try done; cbn.
    intros t' r' [[<- <-]|[_ H']]%lookup_insert_Some; [done|by apply (Hr t')].
  - destruct (readers s !! t) as [r|] eqn:Ht; [|done]. intros [= <-]. exists lk. by apply seq_inv_rstep.
Qed.

Inductive run : sys -> list action -> sys -> Prop :=
  | run_nil s : run s [] s
  | run_cons s a s1 acts s' : act s a = Some s1 -> run s1 acts s' -> run s (a :: acts) s'.

Lemma seq_run_inv len lk s acts s' : inv len lk s -> run s acts s' -> exists lk', inv len lk' s'.
Proof.
  intros Hi Hr. revert lk Hi. induction Hr as [s|s a s1 acts s' Ha _ IH]; intros lk Hi; [by exists lk|].
  destruct (seq_inv_act _ _ _ _ _ Hi Ha) as [lk' Hi']. by apply (IH lk').
Qed.

(** Everything committed was stored whole by one call. *)
Definition whole (P : list Z -> Prop) (s : sys) : Prop :=
  Forall P (commits s) /\ forall t w, writers s !! t = Some w -> P (fst w).

Lemma whole_act P len lk s a s' :
  inv len lk s -> act s a = Some s' -> (forall t words try, a = StartW t words try -> P words) ->
  whole P s -> whole P s'.
Proof.
  intros Hi Ha HP [Hc Hw]. destruct a as [t words try|t sp|t|t]; cbn in Ha.
  - assert (E : s' = put_writer s t (words, if try then TLoad else WLoad) (memory s) (commits s)).
    { by repeat case_match; simplify_eq. }
    subst s'. split; [done|]. cbn. intros t' w' [[_ <-]|[_ H']]%lookup_insert_Some; [by eapply HP|by eapply Hw].
  - destruct (writers s !! t) as [[words pc]|] eqn:Ht; [|done]. injection Ha as <-. pose proof (Hw t _ Ht) as Hp. cbn in Hp.
    unfold wstep. destruct (write_step _ _ _ _) as [pc' m'] eqn:E. split; cbn.
    + destruct (in_section pc && _) eqn:Hs; [|done]. constructor; [|done].
      apply andb_true_iff in Hs as [Hs1 Hs2%negb_true_iff]. destruct pc as [|q| |q|b k| |]; try done. cbn in E.
      destruct (words !! k) as [v|] eqn:Hv; injection E as <- <-; [done|].
      destruct (inv_leave _ _ _ _ _ _ _ Hi Ht Hv) as [Hd _]. cbn. by rewrite Hd.
    + intros t' w' [[_ <-]|[_ H']]%lookup_insert_Some; [done|by eapply Hw].
  - by injection Ha as <-.
  - destruct (readers s !! t); [|done]. by injection Ha as <-.
Qed.

Lemma whole_run P len lk s acts s' :
  inv len lk s -> run s acts s' -> (forall t words try, StartW t words try ∈ acts -> P words) ->
  whole P s -> whole P s'.
Proof.
  intros Hi Hr. revert lk Hi. induction Hr as [s|s a s1 acts s' Ha _ IH]; intros lk Hi HP Hw; [done|].
  destruct (seq_inv_act _ _ _ _ _ Hi Ha) as [lk' Hi']. apply (IH lk' Hi'); [intros; eapply HP; by right|].
  eapply (whole_act _ _ _ s a); [done|done|..|done]. intros t words try ->. eapply HP. by left.
Qed.

(** C12: under the sequence lock at most one writer is in its critical section, and
    what is committed is always the whole contents stored by one call (or the
    initial one).  A reader for which [read_end] succeeds, after reading all the
    words in any interleaving with the writers, has read exactly the contents
    committed when it began, which are still the current ones - provided fewer
    than 2^31 commits happened meanwhile, after which the 32-bit counter repeats. *)
Theorem seqcount_snapshot words acts s :
  run (init_sys words) acts s ->
  (forall t1 t2 w1 w2, writers s !! t1 = Some w1 -> writers s !! t2 = Some w2 ->
     in_section (snd w1) = true -> in_section (snd w2) = true -> t1 = t2) /\
  (forall c, c ∈ commits s -> c = words \/ exists t try, StartW t c try ∈ acts) /\
  (forall t r b acc, readers s !! t = Some r -> r_pc r = RRead b acc -> length acc = length words ->
     read_end b (memory s) = true -> Z.of_nat (length (commits s)) - Z.of_nat (r_from r) < 2 ^ 31 ->
     r_from r = length (commits s) /\ head (commits s) = Some acc /\ data (memory s) = acc).
Proof.
  intros Hrun. destruct (seq_run_inv _ _ _ _ _ (seq_inv_init words) Hrun) as [lk Hi]. split_and!.
  - intros t1 t2 w1 w2 H1 H2 S1 S2. destruct (inv_writers _ _ _ Hi t1 _ H1) as (_ & I1 & _).
    destruct (inv_writers _ _ _ Hi t2 _ H2) as (_ & I2 & _). apply I1 in S1. apply I2 in S2. congruence.
  - apply Forall_forall. eapply (whole_run _ _ None); [apply seq_inv_init|done|by eauto|].
    split; [|done]. cbn. constructor; [by left|constructor].
  - intros t r b acc Ht Hpc Hlen Hend Hwrap. pose proof (inv_readers _ _ _ Hi t r Ht) as Hr.
    unfold reader_ok in Hr. rewrite Hpc in Hr. destruct Hr as (Hf & _ & Hr).
    unfold read_end in Hend. destruct (locked b) eqn:Hb; [done|]. destruct (Hr eq_refl) as [Eb Hacc].
    destruct (Z.eqb_spec b (seqnum (memory s))) as [Es|]; [|done].
    rewrite (inv_seq _ _ _ Hi) in Es. assert (Hlk : lk = None).
    { rewrite Es, locked_count in Hb. apply bool_decide_eq_false in Hb. destruct lk; [exfalso; eauto|done]. }
    subst lk. assert (Hn : length (commits s) = r_from r).
    { rewrite Eb in Es. unfold count, u32 in Es. cbn [bit] in Es.
      pose proof (Z_div_mod_eq_full (2 * (Z.of_nat (r_from r) - 1) + 0) (2 ^ 32)).
      pose proof (Z_div_mod_eq_full (2 * (Z.of_nat (length (commits s)) - 1) + 0) (2 ^ 32)).
      assert (2 * (Z.of_nat (length (commits s)) - 1) + 0 = 2 * (Z.of_nat (r_from r) - 1) + 0) by nia. lia. }
    specialize (Hacc Hn eq_refl). rewrite take_ge in Hacc by (rewrite (inv_len _ _ _ Hi); lia).
    split_and!; [done| |done]. rewrite (inv_data _ _ _ Hi eq_refl). by rewrite Hacc.
Qed.

(** A writer and a reader of two words. *)
Definition demo_acts : list action :=
  [StartW 1 [7; 8] false; WStep 1 false; WStep 1 false; WStep 1 false; WStep 1 false; WStep 1 false;
   StartR 2; RStep 2; RStep 2; RStep 2].

Fixpoint exec (s : sys) (acts : list action) : sys :=
  match acts with [] => s | a :: acts => match act s a with Some s' => exec s' acts | None => s end end.

Definition demo_s : sys := exec (init_sys [0; 0]) demo_acts.

Lemma seqcount_snapshot_witness : head (commits demo_s) = Some [7; 8] /\ data (memory demo_s) = [7; 8].
Proof.
  assert (Hr : run (init_sys [0; 0]) demo_acts demo_s).
  { repeat (eapply run_cons; [vm_compute; reflexivity|]). apply run_nil. }
  destruct (seqcount_snapshot [0; 0] demo_acts demo_s Hr) as (_ & _ & H).
  destruct (H 2 (mk_reader 2 (RRead 2 [7; 8])) 2 [7; 8]) as (_ & ? & ?); try (vm_compute; reflexivity). by split.
Defined.
End SeqcountProps.
