(* ===== verification/Channel.v ===== *)
(** * Channels

    Models [LocalChannel] of [lib/channel.cc]: the shared-memory ring from which an
    agent reads the kernel's messages.  Ring indices are free-running 32-bit
    counters; a message takes as many 8-byte slots as its length needs.

    The producer is the kernel.  [Producer] states what the ABI header
    [abi/latest/kernel/ghost.h] documents of it. *)

From S2P Require Import Prelude GhostAbi.

(** [sizeof(ghost_msg)]: the header without payload. *)
Definition slot_size : Z := 8.

(** [roundup2] of [lib/base.h] on [uint32_t]. *)
Definition roundup2 (x y : Z) : Z := Z.land (u32 (x + (y - 1))) (u32 (Z.lnot (y - 1))).

(** A message in the ring: its 16-bit length and the rest. *)
Record ring_msg := mk_ring_msg { length_ : Z; body : Message.ghost_msg }.

(** [ghost_ring] with the header's [nelems]; [msgs] holds the messages by the slot
    they start at. *)
Record ghost_ring := mk_ring {
  nelems : Z; head : Z; tail : Z; overflow : Z; msgs : gmap Z ring_msg }.

(** The number of slots of a message. *)
Definition slots (msg : ring_msg) : Z := roundup2 (length_ msg) slot_size / slot_size.

Module Channel.
(** [Peek]: [None] is a failed CHECK or a slot without a message, [Some None] the
    empty message. *)
Definition Peek (r : ghost_ring) : option (option ring_msg) :=
  if tail r =? head r then Some None
  else if negb (overflow r =? 0) then None
  else
    let tidx := Z.land (tail r) (u32 (nelems r - 1)) in
    match msgs r !! tidx with
    | Some msg => Some (Some msg)
    | None => None
    end.

Definition Consume (r : ghost_ring) (msg : ring_msg) : ghost_ring :=
  mk_ring (nelems r) (head r) (u32 (tail r + slots msg)) (overflow r) (msgs r).

(** The loop of [Schedule] that empties the channel: the messages dispatched. *)
Fixpoint drain (fuel : nat) (r : ghost_ring) : option (list ring_msg * ghost_ring) :=
  match fuel with
  | O => None
  | S fuel' =>
      match Peek r with
      | None => None
      | Some None => Some ([], r)
      | Some (Some msg) =>
          match drain fuel' (Consume r msg) with
          | Some (l, r') => Some (msg :: l, r')
          | None => None
          end
      end
  end.

Definition AssociateTask (ret : Z) : bool := 0 <=? ret.
Definition SetEnclaveDefault (ret : Z) : bool := ret =? 0.
End Channel.
