(* ===== verification/ChannelProps.v ===== *)
(** * Channels deliver the kernel's messages in order

    The ring refines a bounded queue of messages, for every producer that behaves
    as the ABI documents and across the wrap-around of the 32-bit indices. *)

From S2P Require Import Prelude GhostAbi Channel.

(** ** The kernel's side *)

Definition used (r : ghost_ring) : Z := u32 (head r - tail r).

(** The slot of ring position [p]. *)
Definition slot (r : ghost_ring) (p : Z) : Z := p mod nelems r.

(** The documented behaviour of the producer: it writes at [head & (nelems - 1)]
    and advances [head] when there are enough free slots, and increments
    [overflow] otherwise. *)
Class Producer (produce : ghost_ring -> ring_msg -> ghost_ring) := {
  produce_fits : forall r m, 1 <= slots m -> used r + slots m <= nelems r ->
    let r' := produce r m in
    nelems r' = nelems r /\ tail r' = tail r /\ overflow r' = overflow r /\
    head r' = u32 (head r + slots m) /\ msgs r' !! slot r (head r) = Some m /\
    forall d, slots m <= d < nelems r -> msgs r' !! slot r (head r + d) = msgs r !! slot r (head r + d);
  produce_full : forall r m, nelems r < used r + slots m ->
    produce r m = mk_ring (nelems r) (head r) (tail r) (u32 (overflow r + 1)) (msgs r);
}.

(** ** The ring holds a queue *)

Definition total (q : list ring_msg) : Z := fold_right (fun m n => slots m + n) 0 q.

Definition msg_ok (m : ring_msg) : Prop := 8 <= length_ m < 2 ^ 16.

(** The messages of [q] start at position [p], one after the other. *)
Fixpoint laid_out (r : ghost_ring) (p : Z) (q : list ring_msg) : Prop :=
  match q with
  | [] => True
  | m :: q => msgs r !! slot r p = Some m /\ laid_out r (p + slots m) q
  end.

Record holds (k : Z) (r : ghost_ring) (p : Z) (q : list ring_msg) : Prop := {
  h_k : 0 <= k < 32;
  h_nelems : nelems r = 2 ^ k;
  h_overflow : overflow r = 0;
  h_tail : tail r = u32 p;
  h_head : head r = u32 (p + total q);
  h_fits : total q <= 2 ^ k;
  h_msgs : laid_out r p q;
  h_ok : Forall msg_ok q;
}.

Lemma slots_eq m : 0 <= length_ m < 2 ^ 16 -> slots m = (length_ m + 7) / 8.
Proof.
  intros Hm. unfold slots, roundup2, slot_size. rewrite (u32_id (length_ m + (8 - 1))) by lia.
  replace (u32 (Z.lnot (8 - 1))) with (Z.shiftl (Z.ones 29) 3) by reflexivity.
  change 8 with (2 ^ 3) at 2. rewrite <- Z.shiftr_div_pow2 by lia. rewrite Z.shiftr_land, Z.shiftr_shiftl_l by lia.
  change (3 - 3) with 0. rewrite Z.shiftl_0_r, Z.land_ones, Z.shiftr_div_pow2 by lia. change (2 ^ 3) with 8.
  replace (length_ m + (8 - 1)) with (length_ m + 7) by lia.
  apply Z.mod_small. split; [apply Z.div_pos; lia|]. apply Z.div_lt_upper_bound; lia.
Qed.

Lemma slots_pos m : msg_ok m -> 1 <= slots m < 2 ^ 14.
Proof.
  unfold msg_ok. intros Hm. rewrite slots_eq by lia. split.
  - apply Z.div_le_lower_bound; lia.
  - apply Z.div_lt_upper_bound; lia.
Qed.

Lemma total_nonneg q : Forall msg_ok q -> 0 <= total q.
Proof. induction 1 as [|m q Hm _ IH]; cbn; [lia|]. pose proof (slots_pos m Hm). unfold total in IH. lia. Qed.

Lemma total_app q1 q2 : total (q1 ++ q2) = total q1 + total q2.
Proof. induction q1 as [|m q1 IH]; cbn; [done|]. unfold total in *. rewrite IH. lia. Qed.

(** A 32-bit index reduces to the slot of its position. *)
Lemma u32_slot k p : 0 <= k < 32 -> u32 p mod 2 ^ k = p mod 2 ^ k.
Proof.
  intros Hk. unfold u32. apply Z.bits_inj'. intros i Hi.
  destruct (Z.lt_ge_cases i k).
  - rewrite !Z.mod_pow2_bits_low by lia. done.
  - by rewrite !Z.mod_pow2_bits_high by lia.
Qed.

Lemma tail_slot k r p q : holds k r p q -> Z.land (tail r) (u32 (nelems r - 1)) = slot r p.
Proof.
  intros [Hk Hn _ Ht _ _ _ _]. unfold slot. rewrite Ht, Hn.
  assert (2 ^ k <= 2 ^ 31) by (apply Z.pow_le_mono_r; lia). pose proof (Z.pow_pos_nonneg 2 k ltac:(lia) ltac:(lia)).
  rewrite (u32_id (2 ^ k - 1)) by lia. replace (2 ^ k - 1) with (Z.ones k) by (rewrite Z.ones_equiv; lia). rewrite Z.land_ones by lia. by apply u32_slot.
Qed.

Lemma index_eq k r p q : holds k r p q -> (tail r =? head r) = bool_decide (q = []).
Proof.
  intros [Hk Hn _ Ht Hh Hf _ Ho]. rewrite Ht, Hh. pose proof (total_nonneg q Ho).
  assert (2 ^ k <= 2 ^ 31) by (apply Z.pow_le_mono_r; lia).
  destruct q as [|m q]; [cbn [total fold_right]; by rewrite Z.add_0_r, Z.eqb_refl|].
  rewrite bool_decide_false by done. apply Z.eqb_neq. intros E.
  apply Forall_cons in Ho as [Hm Ho]. pose proof (slots_pos m Hm). pose proof (total_nonneg q Ho).
  change (total (m :: q)) with (slots m + total q) in *. unfold u32 in E.
  pose proof (Z_div_mod_eq_full p (2 ^ 32)). pose proof (Z_div_mod_eq_full (p + (slots m + total q)) (2 ^ 32)). nia.
Qed.

Lemma holds_Peek k r p q : holds k r p q -> Channel.Peek r = Some (hd_error q).
Proof.
  intros H. unfold Channel.Peek. rewrite (index_eq _ _ _ _ H), (tail_slot _ _ _ _ H), (h_overflow _ _ _ _ H).
  destruct q as [|m q]; [done|]. rewrite bool_decide_false by done. cbn.
  by rewrite (proj1 (h_msgs _ _ _ _ H)).
Qed.

Lemma laid_out_same r r' p q : nelems r' = nelems r -> msgs r' = msgs r -> laid_out r p q -> laid_out r' p q.
Proof.
  intros Hn Hm. revert p. induction q as [|m q IH]; intros p; [done|]. cbn. unfold slot. rewrite Hn, Hm.
  intros [? ?]. split; [done|]. by apply IH.
Qed.

Lemma holds_Consume k r p m q : holds k r p (m :: q) -> holds k (Channel.Consume r m) (p + slots m) q.
Proof.
  intros [Hk Hn Ho Ht Hh Hf Hm Hok]. change (total (m :: q)) with (slots m + total q) in *.
  apply Forall_cons in Hok as [Hmm Hok]. pose proof (slots_pos m Hmm).
  split; try done; cbn.
  - rewrite Ht. unfold u32. by rewrite Zplus_mod_idemp_l.
  - rewrite Hh. f_equal. lia.
  - lia.
  - destruct Hm as [_ Hm]. by eapply laid_out_same; [| |exact Hm].
Qed.

Lemma holds_used k r p q : holds k r p q -> used r = total q.
Proof.
  intros [Hk Hn _ Ht Hh Hf _ Ho]. unfold used. rewrite Ht, Hh. pose proof (total_nonneg q Ho).
  assert (2 ^ k <= 2 ^ 31) by (apply Z.pow_le_mono_r; lia). unfold u32. rewrite <- Zminus_mod.
  replace (p + total q - p) with (total q) by lia. apply Z.mod_small. lia.
Qed.

Section Produce.
Context (produce : ghost_ring -> ring_msg -> ghost_ring) `{!Producer produce}.

(** The producer leaves the messages in the ring alone. *)
Lemma laid_out_produce k r p0 n m q p1 :
  0 <= k < 32 -> nelems r = 2 ^ k -> head r = u32 (p0 + n) -> 1 <= slots m -> used r + slots m <= nelems r ->
  used r = n -> p0 <= p1 -> p1 + total q <= p0 + n -> Forall msg_ok q ->
  laid_out r p1 q -> laid_out (produce r m) p1 q.
Proof.
  intros Hk Hn Hh Hm Hfit Hu. destruct (produce_fits r m Hm Hfit) as (Hn' & _ & _ & _ & _ & Hkeep).
  revert p1. induction q as [|x q IH]; intros p1 Hp Hq Hok; [done|]. cbn. intros [Hx Hl].
  apply Forall_cons in Hok as [Hxok Hok]. pose proof (slots_pos x Hxok). pose proof (total_nonneg q Hok).
  change (total (x :: q)) with (slots x + total q) in Hq. split; [|apply IH; (done || lia)].
  assert (Hslot : slot r p1 = slot r (head r + (p1 - (p0 + n) + 2 ^ k))).
  { unfold slot. rewrite Hn, Hh. rewrite <- Zplus_mod_idemp_l, u32_slot, Zplus_mod_idemp_l by done.
    replace (p0 + n + (p1 - (p0 + n) + 2 ^ k)) with (p1 + 1 * 2 ^ k) by lia. by rewrite Z_mod_plus_full. }
  unfold slot at 1. rewrite Hn'. fold (slot r p1). rewrite Hslot, Hkeep, <- Hslot by lia. done.
Qed.

Lemma laid_out_app r p q1 q2 : laid_out r p q1 -> laid_out r (p + total q1) q2 -> laid_out r p (q1 ++ q2).
Proof.
  revert p. induction q1 as [|x q1 IH]; intros p; cbn; [by rewrite Z.add_0_r|]. intros [? Hl] H2. split; [done|].
  apply IH; [done|]. replace (p + slots x + total q1) with (p + (slots x + total q1)) by lia. done.
Qed.

Lemma holds_produce k r p q m :
  holds k r p q -> msg_ok m -> total q + slots m <= 2 ^ k -> holds k (produce r m) p (q ++ [m]).
Proof.
  intros H Hm Hfit. pose proof (holds_used _ _ _ _ H) as Hu. pose proof H as [Hk Hn Ho Ht Hh Hf Hl Hok].
  pose proof (slots_pos m Hm) as Hs.
  destruct (produce_fits r m ltac:(lia) ltac:(rewrite Hu, Hn; lia)) as (Hn' & Ht' & Ho' & Hh' & Hnew & _).
  assert (Htot : total (q ++ [m]) = total q + slots m) by (rewrite total_app; cbn; lia).
  split; try congruence.
  - rewrite Hh', Hh, Htot. unfold u32. rewrite Zplus_mod_idemp_l. f_equal. lia.
  - apply laid_out_app.
    + eapply laid_out_produce; [done|done|done|lia|lia|done|lia|lia|done|done].
    + cbn. split; [|done]. unfold slot in *. rewrite Hn', Hn in *. rewrite <- Hnew, Hh. by rewrite u32_slot.
  - apply Forall_app. split; [done|]. by constructor.
Qed.

(** ** Runs *)

Inductive op := Produce (m : ring_msg) | Receive.

(** The outputs of the receive operations: the kernel produces, the agent peeks
    and consumes. *)
Fixpoint run_ring (r : ghost_ring) (ops : list op) : option (list (option ring_msg)) :=
  match ops with
  | [] => Some []
  | Produce m :: ops => run_ring (produce r m) ops
  | Receive :: ops =>
      match Channel.Peek r with
      | None => None
      | Some None => option_map (cons None) (run_ring r ops)
      | Some (Some m) => option_map (cons (Some m)) (run_ring (Channel.Consume r m) ops)
      end
  end.

(** The same on a queue of bounded capacity; [None] when it overflows. *)
Fixpoint run_queue (cap : Z) (q : list ring_msg) (ops : list op) : option (list (option ring_msg)) :=
  match ops with
  | [] => Some []
  | Produce m :: ops => if total q + slots m <=? cap then run_queue cap (q ++ [m]) ops else None
  | Receive :: ops => option_map (cons (hd_error q)) (run_queue cap (drop 1 q) ops)
  end.
End Produce.

Definition op_ok (o : op) : Prop := match o with Produce m => msg_ok m | Receive => True end.

Lemma run_refines produce `{!Producer produce} k r p q ops outs :
  holds k r p q -> Forall op_ok ops -> run_queue (2 ^ k) q ops = Some outs -> run_ring produce r ops = Some outs.
Proof.
  intros H Hops. revert r p q outs H. induction Hops as [|o ops Ho _ IH]; intros r p q outs H; [done|].
  destruct o as [m|]; cbn.
  - destruct (Z.leb_spec (total q + slots m) (2 ^ k)); [|done]. apply (IH _ p). by apply holds_produce.
  - rewrite (holds_Peek _ _ _ _ H). destruct (run_queue _ _ ops) as [outs'|] eqn:E; [|done]. intros [= <-].
    destruct q as [|m q]; cbn in *; [by rewrite (IH r p [] outs')|].
    by rewrite (IH _ (p + slots m) q outs'); [|by apply holds_Consume|].
Qed.

Lemma drain_S n r :
  Channel.drain (S n) r =
  match Channel.Peek r with
  | None => None
  | Some None => Some ([], r)
  | Some (Some msg) =>
      match Channel.drain n (Channel.Consume r msg) with Some (l, r') => Some (msg :: l, r') | None => None end
  end.
Proof. done. Qed.

Lemma drain_all k r p q :
  holds k r p q -> exists r', Channel.drain (S (length q)) r = Some (q, r') /\ holds k r' (p + total q) [].
Proof.
  revert r p. induction q as [|m q IH]; intros r p H; cbn [length]; rewrite drain_S.
  - rewrite (holds_Peek _ _ _ _ H). exists r. split; [done|]. cbn. by rewrite Z.add_0_r.
  - rewrite (holds_Peek _ _ _ _ H). cbn [hd_error]. destruct (IH _ _ (holds_Consume _ _ _ _ _ H)) as (r' & -> & H').
    exists r'. split; [done|]. by replace (p + total (m :: q)) with (p + slots m + total q) by (change (total (m :: q)) with (slots m + total q); lia).
Qed.


(** A producer. *)
Definition demo_produce (r : ghost_ring) (m : ring_msg) : ghost_ring :=
  if used r + slots m <=? nelems r
  then mk_ring (nelems r) (u32 (head r + slots m)) (tail r) (overflow r) (<[slot r (head r) := m]> (msgs r))
  else mk_ring (nelems r) (head r) (tail r) (u32 (overflow r + 1)) (msgs r).

#[export] Instance demo_producer : Producer demo_produce.
Proof.
  split.
  - intros r m Hs Hfit. unfold demo_produce. rewrite (proj2 (Z.leb_le _ _)) by lia. cbn.
    split_and!; try done; [apply lookup_insert_eq|]. intros d Hd. apply lookup_insert_ne. unfold slot.
    pose proof (u32_range (head r - tail r)). unfold used in Hfit. intros E.
    assert (Hd0 : d mod nelems r = 0).
    { replace d with (head r + d - head r) by lia. by rewrite Zminus_mod, <- E, Z.sub_diag, Zmod_0_l. }
    rewrite Z.mod_small in Hd0 by lia. lia.
  - intros r m Hfull. unfold demo_produce. by rewrite (proj2 (Z.leb_gt _ _)) by lia.
Qed.

(** An empty ring of four slots whose indices are about to wrap around. *)
Definition demo_ring : ghost_ring := mk_ring 4 (2 ^ 32 - 1) (2 ^ 32 - 1) 0 ∅.

Lemma demo_ring_holds : holds 2 demo_ring (2 ^ 32 - 1) [].
Proof. split; try done; cbn; lia. Qed.

Definition demo_msg (g : Z) : ring_msg :=
  mk_ring_msg 16 (Message.of_payload 1 (P_dead (mk_task_dead g 0))).

