(* ===== verification/Discover.v ===== *)
(** * Discovery of tasks

    An agent that takes over an enclave finds the tasks already there by scanning
    the status words the kernel shares with it: [StatusWordTable] of [src/lib/ghost.h]
    and [BasicDispatchScheduler::DiscoverTasks] of [src/lib/scheduler.h].

    What the kernel does meanwhile is [kernel], indexed by the number of accesses made
    so far: every read of a status word may see a different word. *)

From S2P Require Import Prelude GhostAbi Dispatch Channel.
Import Message.

(** ** Status words *)

Definition GHOST_SW_F_INUSE : Z := Z.shiftl 1 0.
Definition GHOST_SW_F_CANFREE : Z := Z.shiftl 1 1.
Definition GHOST_SW_TASK_RUNNABLE : Z := Z.shiftl 1 17.
Definition GHOST_SW_TASK_IS_AGENT : Z := Z.shiftl 1 18.
Definition GHOST_ASSOC_SF_ALREADY : Z := Z.shiftl 1 0.
Definition GHOST_ASSOC_SF_BRAND_NEW : Z := Z.shiftl 1 1.
Definition ENOENT : Z := 2.
Definition ESTALE : Z := 116.

Record ghost_status_word := mk_status_word {
  sw_barrier : Z; sw_flags : Z; sw_gtid : Z; sw_switch_time : Z; sw_runtime : Z }.

Definition has_flag (f flags : Z) : bool := truthy (Z.land flags f).

(** The region and what the kernel answers: the word with an index, the result of
    associating a task (with [errno] when negative) and of freeing a word.  [stack] is
    what the message built on the stack holds before it is filled in. *)
Record kernel := mk_kernel {
  region_id : Z;
  capacity : Z;
  word : nat -> Z -> ghost_status_word;
  associate : nat -> Z -> Z -> Z;
  errno : nat -> Z;
  free_word : nat -> ghost_sw_info -> Z;
  stack : nat -> ghost_msg_payload_task_new }.

(** A scheduler whose allocator's map is a field. *)
Class HasTasksLaws (St T : Type) `{!HasTasks St T} : Prop := {
  set_task_map_id (s : St) : set_task_map_ (task_map_ s) s = s;
  set_task_map_twice m m' (s : St) : set_task_map_ m (set_task_map_ m' s) = set_task_map_ m s }.

(** What became of a status word. *)
Inductive verdict :=
  | Discovered (msg : ghost_msg)   (* [TaskNew] was called with it *)
  | Skipped                        (* its messages are still to come *)
  | Dead                           (* the task is gone: freed through a task object *)
  | Orphaned.                      (* of an earlier life of the task: freed *)

Module Discover.
Section Discover.
Context {St T : Type} `{!HasTasks St T} `{!TaskType T} `{!DispatchHandlers St}.
Context (k : kernel).

(** The scan: accesses so far, the scheduler, and, for the theorems, the words freed
    and the verdicts, latest first. *)
Record scan := mk_scan { now : nat; sched : St; freed : list ghost_sw_info; verdicts : list (Z * verdict) }.
Notation D := (M scan).

Definition access {A} (f : nat -> A) : D A :=
  fun d => Some (f (now d), mk_scan (S (now d)) (sched d) (freed d) (verdicts d)).

Definition scheduler {A} (m : M St A) : D A := fun d =>
  match m (sched d) with
  | Some (a, s) => Some (a, mk_scan (now d) s (freed d) (verdicts d))
  | None => None
  end.

Definition decided (i : Z) (v : verdict) : D unit :=
  mmod (fun d => mk_scan (now d) (sched d) (freed d) ((i, v) :: verdicts d)).

Definition sw_info (i : Z) : ghost_sw_info := mk_sw_info (region_id k) i.

(** [StatusWordTable::get] *)
Definition get (i : Z) : D unit := CHECK (i <? capacity k).

Definition FreeStatusWordInfo (swi : ghost_sw_info) : D Z :=
  r <- access (fun n => free_word k n swi) ;;
  when (r =? 0) (mmod (fun d => mk_scan (now d) (sched d) (swi :: freed d) (verdicts d))) ;;;
  mret r.

(** [GetTask(gtid, sw_info)]: a new task looks its status word up
    ([status_word_from_info]). *)
Definition GetTask_sw (g i : Z) : D bool :=
  allocated <- scheduler (GetTask_alloc g (sw_info i)) ;;
  when allocated (CHECK (swi_id (sw_info i) =? region_id k) ;;; get i) ;;;
  mret allocated.

(** [FreeTask]: the destructor of the task frees its status word
    ([LocalStatusWord::Free]). *)
Definition FreeTask_sw (g i : Z) : D unit :=
  scheduler (FreeTask g) ;;;
  flags <- access (fun n => sw_flags (word k n i)) ;;
  CHECK (has_flag GHOST_SW_F_CANFREE flags) ;;;
  r <- FreeStatusWordInfo (sw_info i) ;;
  CHECK (r =? 0).

(** The message built from the words read: the other fields keep what was on the
    stack. *)
Definition synth (on_stack : ghost_msg_payload_task_new) (barrier flags runtime g i : Z) : ghost_msg :=
  of_payload barrier (P_newt
    (mk_task_new g (tn_parent_gtid on_stack) runtime (Z.b2z (has_flag GHOST_SW_TASK_RUNNABLE flags))
       (tn_nice on_stack) (sw_info i) (tn_agent_data on_stack))).

(** From the label [retry:]; [again] is what a second ESTALE leads to. *)
Definition discover (again : D unit) (i : Z) : D unit :=
  barrier <- access (fun n => sw_barrier (word k n i)) ;;
  flags <- access (fun n => sw_flags (word k n i)) ;;
  runtime <- access (fun n => sw_runtime (word k n i)) ;;
  g <- access (fun n => sw_gtid (word k n i)) ;;
  reply <- access (fun n => (associate k n g barrier, errno k n)) ;;
  let '(assoc_status, err) := reply in
  if negb (Channel.AssociateTask assoc_status) then
    if err =? ENOENT then
      allocated <- GetTask_sw g i ;;
      if negb allocated then GHOST_ERROR else FreeTask_sw g i ;;; decided i Dead
    else if err =? ESTALE then
      if has_flag GHOST_SW_F_CANFREE flags then
        r <- FreeStatusWordInfo (sw_info i) ;; CHECK (r =? 0) ;;; decided i Orphaned
      else again
    else GHOST_ERROR
  else if has_flag (Z.lor GHOST_ASSOC_SF_ALREADY GHOST_ASSOC_SF_BRAND_NEW) assoc_status then decided i Skipped
  else
    on_stack <- access (stack k) ;;
    let msg := synth on_stack barrier flags runtime g i in
    allocated <- GetTask_sw g i ;;
    if negb allocated then GHOST_ERROR
    else scheduler (TaskNew g msg) ;;; scheduler not_overridden ;;; decided i (Discovered msg).

(** A repeated ESTALE is an error: [goto retry] happens once. *)
Definition discover_word (i : Z) : D unit := discover (discover GHOST_ERROR i) i.

(** [ForEachTaskStatusWord] from index [i] on. *)
Fixpoint for_each (l : Z -> D unit) (idxs : list Z) : D unit :=
  match idxs with
  | [] => mret tt
  | i :: idxs =>
      get i ;;;
      flags <- access (fun n => sw_flags (word k n i)) ;;
      (if negb (has_flag GHOST_SW_F_INUSE flags) then mret tt
       else
         flags <- access (fun n => sw_flags (word k n i)) ;;
         if has_flag GHOST_SW_TASK_IS_AGENT flags then mret tt else l i) ;;;
      for_each l idxs
  end.

Definition ForEachTaskStatusWord (l : Z -> D unit) : D unit := for_each l (seqZ 0 (capacity k)).

Definition DiscoverTasks : D unit :=
  scheduler not_overridden ;;; ForEachTaskStatusWord discover_word ;;; scheduler not_overridden.

Definition start (s : St) : scan := mk_scan 0 s [] [].
End Discover.
End Discover.
