(* ===== verification/DiscoverProps.v ===== *)
(** * Discovery stands in for the messages that were missed

    A scan of the status words has the effect of dispatching a [MSG_TASK_NEW] for
    every task it finds. *)

From S2P Require Import Prelude GhostAbi Dispatch Channel Discover.
Import Message.

(** ** Partial correctness *)

(** [wlp m Q s]: if [m] completes from [s], its result satisfies [Q]. *)
Definition wlp {St A} (m : M St A) (Q : A -> St -> Prop) (s : St) : Prop :=
  match m s with Some (a, s') => Q a s' | None => True end.

Section Wlp.
Context {St : Type}.

Lemma wlp_ret {A} (a : A) (Q : A -> St -> Prop) s : Q a s -> wlp (mret a) Q s.
Proof. done. Qed.

Lemma wlp_bind {A B} (m : M St A) (f : A -> M St B) (Q : B -> St -> Prop) s :
  wlp m (fun a => wlp (f a) Q) s -> wlp (mbind m f) Q s.
Proof. unfold wlp, mbind. by destruct (m s) as [[]|]. Qed.

Lemma wlp_mod f (Q : unit -> St -> Prop) s : Q tt (f s) -> wlp (mmod f) Q s.
Proof. done. Qed.

Lemma wlp_check b (Q : unit -> St -> Prop) s : (b = true -> Q tt s) -> wlp (CHECK b) Q s.
Proof. unfold wlp, CHECK. destruct b; auto. Qed.

Lemma wlp_when b (m : M St unit) (Q : unit -> St -> Prop) s :
  (b = true -> wlp m Q s) -> (b = false -> Q tt s) -> wlp (when b m) Q s.
Proof. destruct b; cbn; auto. Qed.

Lemma wlp_error {A} (Q : A -> St -> Prop) s : wlp GHOST_ERROR Q s.
Proof. done. Qed.

Lemma wlp_mono {A} (m : M St A) (P Q : A -> St -> Prop) s :
  wlp m P s -> (forall a s', P a s' -> Q a s') -> wlp m Q s.
Proof. unfold wlp. destruct (m s) as [[]|]; eauto. Qed.

Lemma wlp_run {A} (m : M St A) (Q : A -> St -> Prop) s a s' : wlp m Q s -> m s = Some (a, s') -> Q a s'.
Proof. unfold wlp. intros H E. by rewrite E in H. Qed.
End Wlp.

Module DiscoverProps.
Import Discover.

Section Scan.
Context {St T : Type} `{!HasTasks St T} `{!TaskType T} `{!DispatchHandlers St} `{!HasTasksLaws St T}.
Context (k : kernel).
Notation scan := (@scan St).
Implicit Types (d : scan) (s : St) (i g : Z).

(** ** Steps of the scan *)

Definition tick d : scan := mk_scan (S (now d)) (sched d) (freed d) (verdicts d).
Definition with_sched s d : scan := mk_scan (now d) s (freed d) (verdicts d).
Definition freeing (swi : ghost_sw_info) d : scan := mk_scan (now d) (sched d) (swi :: freed d) (verdicts d).
Definition judged i (v : verdict) d : scan := mk_scan (now d) (sched d) (freed d) ((i, v) :: verdicts d).

Lemma wlp_access {A} (f : nat -> A) (Q : A -> scan -> Prop) d : Q (f (now d)) (tick d) -> wlp (access f) Q d.
Proof. done. Qed.

Lemma wlp_scheduler {A} (m : M St A) (Q : A -> scan -> Prop) d :
  (forall a s, m (sched d) = Some (a, s) -> Q a (with_sched s d)) -> wlp (scheduler m) Q d.
Proof. intros H. unfold wlp, scheduler. destruct (m (sched d)) as [[a s]|] eqn:E; [|done]. by apply H. Qed.

Lemma wlp_decided i v (Q : unit -> scan -> Prop) d : Q tt (judged i v d) -> wlp (decided i v) Q d.
Proof. done. Qed.

Ltac scan_step :=
  cbn beta iota;
  lazymatch goal with
  | |- wlp (mbind _ _) _ _ => apply wlp_bind
  | |- wlp (mret _) _ _ => apply wlp_ret
  | |- wlp (access _) _ _ => apply wlp_access
  | |- wlp (CHECK _) _ _ => apply wlp_check; intros ?
  | |- wlp (decided _ _) _ _ => apply wlp_decided
  | |- wlp GHOST_ERROR _ _ => apply wlp_error
  end; cbn beta iota.
Ltac scan_steps := repeat scan_step.

Lemma wlp_free swi (Q : Z -> scan -> Prop) d :
  (forall r, Q r (if r =? 0 then freeing swi (tick d) else tick d)) -> wlp (FreeStatusWordInfo k swi) Q d.
Proof.
  intros H. unfold FreeStatusWordInfo. scan_steps. specialize (H (free_word k (now d) swi)).
  apply wlp_when; intros E; rewrite E in H; [apply wlp_mod|]; by apply wlp_ret.
Qed.

(** The scheduler with a task allocated for [g]. *)
Definition allocated_for g i s : St := set_task_map_ (<[g := new_task g (sw_info k i)]> (task_map_ s)) s.

Lemma GetTask_alloc_cases g swi s a s' : GetTask_alloc g swi s = Some (a, s') ->
  (a = false /\ s' = s) \/
  (a = true /\ task_map_ s !! g = None /\ s' = set_task_map_ (<[g := new_task g swi]> (task_map_ s)) s).
Proof.
  unfold GetTask_alloc, GetTask, mbind, mget, mret, mmod. case_bool_decide as E; intros [= <- <-]; [by left|right].
  split_and!; try done. by apply eq_None_not_Some.
Qed.

Lemma wlp_GetTask_sw g i (Q : bool -> scan -> Prop) d :
  Q false d -> (task_map_ (sched d) !! g = None -> Q true (with_sched (allocated_for g i (sched d)) d)) ->
  wlp (GetTask_sw k g i) Q d.
Proof.
  intros Hf Ht. unfold GetTask_sw. scan_step. apply wlp_scheduler. intros a s Hs.
  apply GetTask_alloc_cases in Hs as [[-> ->]|(-> & Hn & ->)]; scan_step; cbn [when].
  - apply wlp_ret, wlp_ret. by destruct d.
  - unfold get. scan_steps. by apply Ht.
Qed.

(** ** One status word *)

(** A message built for a task of which the kernel agreed to send the messages to our
    queue from the barrier read on, and has sent none there before. *)
Definition agreed (msg : ghost_msg) : Prop :=
  exists n n' n1 i flags runtime,
    let g := sw_gtid (word k n1 i) in
    msg = synth k (stack k n') (seqnum msg) flags runtime g i /\
    Channel.AssociateTask (associate k n g (seqnum msg)) = true /\
    has_flag (Z.lor GHOST_ASSOC_SF_ALREADY GHOST_ASSOC_SF_BRAND_NEW) (associate k n g (seqnum msg)) = false.

(** The scheduler took the message. *)
Definition taken (msg : ghost_msg) : Prop := exists g s s', gtid msg = Some g /\ TaskNew g msg s = Some (tt, s').

(** What the scan did for word [i]. *)
Definition handled i (v : verdict) d d' : Prop :=
  verdicts d' = (i, v) :: verdicts d /\
  match v with
  | Discovered msg => freed d' = freed d /\ (agreed msg /\ taken msg) /\ DispatchMessage msg (sched d) = Some (tt, sched d')
  | Skipped => freed d' = freed d /\ sched d' = sched d
  | Dead | Orphaned => freed d' = sw_info k i :: freed d /\ sched d' = sched d
  end.

Context (Hgtid : forall n i, sw_gtid (word k n i) <> 0).

Lemma dispatch_new sn (p : ghost_msg_payload_task_new) s :
  tn_gtid p <> 0 -> task_map_ s !! tn_gtid p = None ->
  DispatchMessage (of_payload sn (P_newt p)) s =
  TaskNew (tn_gtid p) (of_payload sn (P_newt p))
    (set_task_map_ (<[tn_gtid p := new_task (tn_gtid p) (tn_sw_info p)]> (task_map_ s)) s).
Proof.
  intros Hg Hn. unfold DispatchMessage. change (type _ =? _) with false. change (is_cpu_msg _) with false. cbv iota.
  unfold mbind at 1. change (deref _ s) with (Some (tn_gtid p, s)). cbv iota beta.
  unfold mbind at 1, CHECK. rewrite (proj2 (Z.eqb_neq _ _) Hg). cbn [negb].
  unfold mbind at 1, LookupTask. change (type _ =? _) with true. cbv iota.
  unfold GetTask_alloc, GetTask, mbind, mget, mret, mmod, deref. cbn [as_task_new payload of_payload].
  rewrite bool_decide_false by (rewrite Hn; by intros [? ?]).
  unfold DispatchTaskMessage. change (read_msg_type _) with (Some MSG_TASK_NEW). cbv iota. unfold mbind, mret.
  by destruct (TaskNew _ _ _) as [[[] s']|].
Qed.

(** A task allocated and freed again leaves the scheduler as it was. *)
Lemma alloc_free g i s : task_map_ s !! g = None ->
  set_task_map_ (delete g (task_map_ (allocated_for g i s))) (allocated_for g i s) = s.
Proof.
  intros H. unfold allocated_for. rewrite task_map_set, delete_insert_id, set_task_map_twice by done.
  apply set_task_map_id.
Qed.

Lemma discover_handled again i d0 d (Q : unit -> scan -> Prop) :
  (freed d, sched d, verdicts d) = (freed d0, sched d0, verdicts d0) ->
  (forall d1, (freed d1, sched d1, verdicts d1) = (freed d0, sched d0, verdicts d0) -> wlp again Q d1) ->
  (forall v d', handled i v d0 d' -> Q tt d') ->
  wlp (discover k again i) Q d.
Proof.
  intros Ed Hagain HQ. injection Ed as Ef Es Ev. unfold discover. scan_steps. destruct (negb _) eqn:Ea.
  - destruct (_ =? ENOENT); [|destruct (_ =? ESTALE); [|apply wlp_error]].
    + scan_step. apply wlp_GetTask_sw; [apply wlp_error|]. cbn [sched tick negb]. intros Hn. unfold FreeTask_sw. scan_steps.
      apply wlp_scheduler. intros [] s' Hs. unfold FreeTask, mmod in Hs. injection Hs as <-. scan_steps.
      apply wlp_free. intros r. scan_steps. match goal with H : (r =? 0) = true |- _ => rewrite H end.
      apply (HQ Dead). unfold handled. cbn -[allocated_for]. rewrite alloc_free by done. rewrite Ev, Ef, Es. done.
    + destruct (has_flag _ _).
      * scan_step. apply wlp_free. intros r. scan_steps. match goal with H : (r =? 0) = true |- _ => rewrite H end.
        apply (HQ Orphaned). unfold handled. cbn. rewrite Ev, Ef, Es. done.
      * apply Hagain. cbn. by rewrite Ev, Ef, Es.
  - destruct (has_flag _ _) eqn:Eh.
    { scan_steps. apply (HQ Skipped). unfold handled. cbn. rewrite Ev, Ef, Es. done. }
    scan_step. apply wlp_access. scan_step. apply wlp_GetTask_sw; [apply wlp_error|]. cbn [sched tick negb]. intros Hn. scan_steps.
    apply wlp_scheduler. intros [] s' Hs. scan_steps. apply wlp_scheduler. intros [] s'' [= <-]. scan_steps.
    eapply (HQ (Discovered _)). split; [cbn; by rewrite Ev|]. split_and!; [done| | |].
    + do 6 eexists. split; [done|]. apply negb_false_iff in Ea. split; [exact Ea|exact Eh].
    + by do 3 eexists; split; [|exact Hs].
    + rewrite <- Es. unfold synth. rewrite dispatch_new; [exact Hs|apply Hgtid|exact Hn].
Qed.

Lemma discover_word_handled i d : wlp (discover_word k i) (fun _ d' => exists v, handled i v d d') d.
Proof.
  apply (discover_handled _ _ d); [done| |by eauto]. intros d1 E1.
  apply (discover_handled _ _ d); [done|intros; apply wlp_error|by eauto].
Qed.

(** ** The whole scan *)

(** Word [i] belongs to a task of the enclave. *)
Definition candidate i : bool :=
  has_flag GHOST_SW_F_INUSE (sw_flags (word k 0 i)) && negb (has_flag GHOST_SW_TASK_IS_AGENT (sw_flags (word k 0 i))).

(** The enclave is quiescent: status words do not change hands during the scan. *)
Context (Hstable : forall n i,
  has_flag GHOST_SW_F_INUSE (sw_flags (word k n i)) = has_flag GHOST_SW_F_INUSE (sw_flags (word k 0 i)) /\
  has_flag GHOST_SW_TASK_IS_AGENT (sw_flags (word k n i)) = has_flag GHOST_SW_TASK_IS_AGENT (sw_flags (word k 0 i))).

(** The messages and the words freed, oldest first. *)
Definition news (vs : list (Z * verdict)) : list ghost_msg :=
  omap (fun '(_, v) => match v with Discovered msg => Some msg | _ => None end) (reverse vs).
Definition reclaimed (vs : list (Z * verdict)) : list ghost_sw_info :=
  omap (fun '(i, v) => match v with Dead | Orphaned => Some (sw_info k i) | _ => None end) vs.

Lemma DispatchAll_app l l' s :
  DispatchAll (l ++ l') s = match DispatchAll l s with Some (_, s') => DispatchAll l' s' | None => None end.
Proof.
  revert s. induction l as [|msg l IH]; intros s; [done|]. cbn. unfold mbind.
  destruct (DispatchMessage msg s) as [[[] s']|]; [apply IH|done].
Qed.

(** The state of the scan tells what was done. *)
Record scanned s d : Prop := {
  scanned_news : DispatchAll (news (verdicts d)) s = Some (tt, sched d);
  scanned_freed : freed d = reclaimed (verdicts d);
  scanned_agreed : Forall (fun msg => agreed msg /\ taken msg) (news (verdicts d)) }.

Lemma news_cons i v vs :
  news ((i, v) :: vs) = news vs ++ match v with Discovered msg => [msg] | _ => [] end.
Proof. unfold news. rewrite reverse_cons, omap_app. cbn. by destruct v. Qed.

Lemma handled_scanned s i v d d' : scanned s d -> handled i v d d' -> scanned s d'.
Proof.
  intros [Hn Hf Ha] [Hv H]. destruct v as [msg| | |]; split; rewrite Hv, ?news_cons, ?app_nil_r; destruct_and? H;
    try (match goal with E : sched d' = sched d |- _ => by rewrite E end);
    try done; try (unfold reclaimed in *; cbn; congruence).
  - rewrite DispatchAll_app, Hn. cbn. unfold mbind. match goal with E : DispatchMessage _ _ = _ |- _ => by rewrite E end.
  - apply Forall_app. split; [done|]. by constructor.
Qed.

Lemma for_each_scanned s idxs d :
  scanned s d ->
  wlp (for_each k (discover_word k) idxs)
    (fun _ d' => scanned s d' /\ (verdicts d').*1 = reverse (filter (fun i => candidate i = true) idxs) ++ (verdicts d).*1) d.
Proof.
  revert d. induction idxs as [|i idxs IH]; intros d Hd; cbn [for_each]; [by apply wlp_ret|].
  unfold get. scan_steps. destruct (Hstable (now d) i) as [E1 _], (Hstable (now (tick d)) i) as [_ E2]. rewrite E1. clear E1.
  assert (Ht : forall d1, (freed d1, sched d1, verdicts d1) = (freed d, sched d, verdicts d) -> scanned s d1).
  { intros d1 [= F1 F2 F3]. split; rewrite ?F1, ?F2, ?F3; apply Hd. }
  rewrite filter_cons. destruct (candidate i) eqn:Ec; unfold candidate in Ec.
  - apply andb_true_iff in Ec as [-> Eg]. cbn [negb]. scan_steps. rewrite E2. apply negb_true_iff in Eg. rewrite Eg.
    eapply wlp_mono; [apply discover_word_handled|]. intros [] d' [v Hv].
    eapply wlp_mono; [apply IH; eapply handled_scanned; [by apply Ht|exact Hv]|].
    intros [] d'' [Hs Hvs]. split; [done|]. rewrite Hvs, (proj1 Hv), decide_True by done.
    by rewrite reverse_cons, <- app_assoc.
  - rewrite decide_False by done. apply andb_false_iff in Ec as [->|Eg]; cbn [negb].
    + apply wlp_ret. apply (IH (tick d)). by apply Ht.
    + destruct (has_flag GHOST_SW_F_INUSE _); cbn [negb]; [|apply wlp_ret, (IH (tick d)); by apply Ht]. scan_steps.
      rewrite E2. apply negb_false_iff in Eg. rewrite Eg. apply wlp_ret. apply (IH (tick (tick d))). by apply Ht.
Qed.
End Scan.

(** The enclave is quiescent while it is scanned: status words do not change hands. *)
Definition quiescent (k : kernel) : Prop :=
  (forall n i, sw_gtid (word k n i) <> 0) /\
  forall n i,
    has_flag GHOST_SW_F_INUSE (sw_flags (word k n i)) = has_flag GHOST_SW_F_INUSE (sw_flags (word k 0 i)) /\
    has_flag GHOST_SW_TASK_IS_AGENT (sw_flags (word k n i)) = has_flag GHOST_SW_TASK_IS_AGENT (sw_flags (word k 0 i)).

Lemma scan_result {St T : Type} `{!HasTasks St T} `{!TaskType T} `{!DispatchHandlers St} `{!HasTasksLaws St T}
    (k : kernel) (s : St) d' :
  quiescent k -> DiscoverTasks k (start s) = Some (tt, d') ->
  scanned k s d' /\ (verdicts d').*1 = reverse (filter (fun i => candidate k i = true) (seqZ 0 (capacity k))).
Proof.
  intros [Hg Hst] Hrun. assert (Hs : scanned k s (start s)) by (split; [done|done|constructor]).
  assert (Hwlp : wlp (DiscoverTasks k) (fun _ d => scanned k s d /\
    (verdicts d).*1 = reverse (filter (fun i => candidate k i = true) (seqZ 0 (capacity k)))) (start s)).
  { unfold DiscoverTasks, ForEachTaskStatusWord. apply wlp_bind, wlp_scheduler. intros [] s0 [= <-].
    apply wlp_bind. eapply wlp_mono; [by apply (for_each_scanned k Hg Hst s)|]. intros [] d [Hd Hv].
    apply wlp_scheduler. intros [] s1 [= <-]. rewrite app_nil_r in Hv. split; [|done]. by destruct Hd; split. }
  exact (wlp_run _ _ _ _ _ Hwlp Hrun).
Qed.

(** C14: discovery stands in for the messages that were missed.  When [DiscoverTasks]
    of any scheduler returns, it has decided about every status word that is in use by
    a task, each once and in the order of the table; the scheduler is as if it had
    been sent one [MSG_TASK_NEW] for each task found, and nothing else: each with the
    barrier the kernel accepted as its sequence number.  The words of tasks that died,
    and of earlier lives of a task, have been freed, each once. *)
Theorem discovery_dispatches {St T : Type} `{!HasTasks St T} `{!TaskType T} `{!DispatchHandlers St} `{!HasTasksLaws St T}
    (k : kernel) (s : St) d' :
  quiescent k -> DiscoverTasks k (start s) = Some (tt, d') ->
  (reverse (verdicts d')).*1 = filter (fun i => candidate k i = true) (seqZ 0 (capacity k)) /\
  DispatchAll (news (verdicts d')) s = Some (tt, sched d') /\
  Forall (agreed k) (news (verdicts d')) /\
  freed d' = reclaimed k (verdicts d') /\ NoDup (freed d').
Proof.
  intros Hq Hrun. destruct (scan_result k s d' Hq Hrun) as [[H1 H2 H3] Hv]. split_and!; try done.
  - by rewrite fmap_reverse, Hv, reverse_involutive.
  - eapply Forall_impl; [exact H3|]. by intros msg [? _].
  - rewrite H2. assert (Hnd : NoDup (verdicts d').*1).
    { rewrite Hv, reverse_Permutation. apply NoDup_filter, NoDup_seqZ. }
    unfold reclaimed. clear -Hnd. induction (verdicts d') as [|[i v] vs IH]; cbn in *; [constructor|].
    apply NoDup_cons in Hnd as [Hi Hnd]. specialize (IH Hnd).
    assert (Hni : sw_info k i ∉ omap (fun '(i0, v0) => match v0 with Dead | Orphaned => Some (sw_info k i0) | _ => None end) vs).
    { rewrite list_elem_of_omap. intros ([j w] & Hj & E). apply Hi, list_elem_of_fmap. exists (j, w). split; [|done].
      by destruct w; try done; injection E. }
    destruct v; try done; by constructor.
Qed.
End DiscoverProps.
