(* ===== verification/StatusWords.v ===== *)
(** * Ownership of status words

    [StatusWord] and [LocalStatusWord] of [src/lib/ghost.h], [src/lib/ghost.cc]: objects that
    own a word of the table shared with the kernel, move it between them and give it back. *)

From S2P Require Import Prelude GhostAbi Discover.

Definition GHOST_SW_CPU_AVAIL : Z := Z.shiftl 1 8.
Definition GHOST_SW_BOOST_PRIO : Z := Z.shiftl 1 9.
Definition GHOST_SW_TASK_ONCPU : Z := Z.shiftl 1 16.

(** [sw_] is the index of the word in the table. *)
Record StatusWord := mk_sw { owner_ : Z; sw_info_ : ghost_sw_info; sw_ : option Z }.

Definition empty (s : StatusWord) : bool := match sw_ s with None => true | Some _ => false end.

(** Objects by name; the words handed out by the kernel, and those it got back; and the
    words no object owns any more that were not given back. *)
Record words := mk_words {
  objects : gmap nat StatusWord;
  given : list Z;
  freed_words : list Z;
  lost : list Z }.

Definition no_words : words := mk_words ∅ [] [] [].

Module Words.
Section Words.
(** The table: its region and size; the flags of a word after so many were freed, and
    whether the kernel takes it back. *)
Context (region_id capacity : Z) (flags : list Z -> Z -> Z) (free_ok : list Z -> Z -> bool).
Notation W := (M words).

Definition set_object (o : nat) (s : StatusWord) : W unit :=
  mmod (fun w => mk_words (<[o := s]> (objects w)) (given w) (freed_words w) (lost w)).

Definition object (o : nat) : W StatusWord := w <- mget ;; deref (objects w !! o).

(** ** Construction *)

Definition StatusWord_empty : StatusWord := mk_sw (-1) (mk_sw_info 0 0) None.

(** [LocalStatusWord()] *)
Definition New (o : nat) : W unit := set_object o StatusWord_empty.

Definition status_word_from_info (info : ghost_sw_info) : W Z :=
  CHECK (swi_id info =? region_id) ;;;
  CHECK (swi_index info <? capacity) ;;;
  mret (swi_index info).

(** [LocalStatusWord(gtid, sw_info)]; the kernel has handed the word out. *)
Definition NewFrom (o : nat) (gtid : Z) (info : ghost_sw_info) : W unit :=
  i <- status_word_from_info info ;;
  mmod (fun w => mk_words (objects w) (i :: given w) (freed_words w) (lost w)) ;;;
  set_object o (mk_sw gtid info (Some i)).

(** [LocalStatusWord(AgentSW)]: the kernel says which word it is, or fails. *)
Definition NewAgent (o : nat) (reply : option ghost_sw_info) (current : Z) : W unit :=
  info <- deref reply ;;
  NewFrom o current info.

(** ** Moves *)

(** [operator=]; a word that was in the target is owned by no one then. *)
Definition Assign (dst src : nat) : W unit :=
  if (dst =? src)%nat then mret tt
  else
    from <- object src ;;
    to <- object dst ;;
    mmod (fun w => mk_words (objects w) (given w) (freed_words w) (option_list (sw_ to) ++ lost w)) ;;;
    set_object dst (mk_sw (owner_ from) (sw_info_ from) (sw_ from)) ;;;
    set_object src (mk_sw (owner_ from) (sw_info_ from) None).

(** [LocalStatusWord(LocalStatusWord&&)] *)
Definition NewMove (dst src : nat) : W unit := New dst ;;; Assign dst src.

(** ** Release *)

Definition Free (o : nat) : W unit :=
  s <- object o ;;
  i <- deref (sw_ s) ;;
  w <- mget ;;
  CHECK (has_flag GHOST_SW_F_CANFREE (flags (freed_words w) i)) ;;;
  CHECK (free_ok (freed_words w) i) ;;;
  mmod (fun w => mk_words (objects w) (given w) (i :: freed_words w) (lost w)) ;;;
  set_object o (mk_sw 0 (sw_info_ s) None).

(** [~StatusWord]: an error if it owns a word. *)
Definition Destroy (o : nat) : W unit :=
  s <- object o ;;
  CHECK (empty s) ;;;
  mmod (fun w => mk_words (delete o (objects w)) (given w) (freed_words w) (lost w)).
End Words.

(** ** Flags *)

Definition in_use (flags : Z) : bool := has_flag GHOST_SW_F_INUSE flags.
Definition can_free (flags : Z) : bool := has_flag GHOST_SW_F_CANFREE flags.
Definition on_cpu (flags : Z) : bool := has_flag GHOST_SW_TASK_ONCPU flags.
Definition cpu_avail (flags : Z) : bool := has_flag GHOST_SW_CPU_AVAIL flags.
Definition runnable (flags : Z) : bool := has_flag GHOST_SW_TASK_RUNNABLE flags.
Definition boosted_priority (flags : Z) : bool := has_flag GHOST_SW_BOOST_PRIO flags.
Definition stale (prev barrier : Z) : bool := prev =? barrier.
End Words.

(** ** Every word has one owner *)

Module WordsProps.
Import Words.

Inductive op :=
  | OpNew (o : nat) | OpNewFrom (o : nat) (gtid : Z) (info : ghost_sw_info) | OpNewMove (dst src : nat)
  | OpAssign (dst src : nat) | OpFree (o : nat) | OpDestroy (o : nat).

Section Props.
Context (region_id capacity : Z) (flags : list Z -> Z -> Z) (free_ok : list Z -> Z -> bool).
Implicit Type w : words.

(** An object is constructed under a name that is not in use. *)
Definition unused (o : nat) : M words unit := w <- mget ;; CHECK (bool_decide (objects w !! o = None)).

Definition run1 (x : op) : M words unit :=
  match x with
  | OpNew o => unused o ;;; New o
  | OpNewFrom o g info => unused o ;;; NewFrom region_id capacity o g info
  | OpNewMove dst src => unused dst ;;; NewMove dst src
  | OpAssign dst src => Assign dst src
  | OpFree o => Free flags free_ok o
  | OpDestroy o => Destroy o
  end.

Fixpoint run (ops : list op) : M words unit :=
  match ops with [] => mret tt | x :: ops => run1 x ;;; run ops end.

(** The words the objects own. *)
Definition owned (m : gmap nat StatusWord) : list Z := omap (fun p => sw_ (snd p)) (map_to_list m).

Definition balanced w : Prop := given w ≡ₚ owned (objects w) ++ freed_words w ++ lost w.

Lemma owned_insert o s m : m !! o = None -> owned (<[o := s]> m) ≡ₚ option_list (sw_ s) ++ owned m.
Proof. intros E. unfold owned. rewrite map_to_list_insert by done. cbn. by destruct (sw_ s). Qed.

Lemma owned_lookup o s m : m !! o = Some s -> owned m ≡ₚ option_list (sw_ s) ++ owned (delete o m).
Proof. intros E. rewrite <- owned_insert by apply lookup_delete_eq. by rewrite insert_delete_id. Qed.

Lemma owned_replace o s s' m : m !! o = Some s ->
  owned (<[o := s']> m) ≡ₚ option_list (sw_ s') ++ owned (delete o m).
Proof. intros E. rewrite <- insert_delete_eq. apply owned_insert, lookup_delete_eq. Qed.

(** Only an assignment to an object that owns a word loses it. *)
Definition keeps_words (x : op) w : Prop :=
  match x with
  | OpAssign dst src => dst = src \/ forall s, objects w !! dst = Some s -> sw_ s = None
  | _ => True
  end.

Lemma assign_balanced dst src w w' : Assign dst src w = Some (tt, w') -> balanced w ->
  balanced w' /\ (keeps_words (OpAssign dst src) w -> lost w' = lost w).
Proof.
  unfold Assign. destruct (Nat.eqb_spec dst src) as [->|Hne]; [by intros [= <-]|].
  unfold object, mbind, mget, deref. destruct (objects w !! src) as [from|] eqn:Es; [|done].
  destruct (objects w !! dst) as [to|] eqn:Ed; [|done]. cbn. intros [= <-] Hb. unfold balanced in *. cbn [objects given freed_words lost].
  assert (E1 : (<[dst := mk_sw (owner_ from) (sw_info_ from) (sw_ from)]> (objects w)) !! src = Some from)
    by (by rewrite lookup_insert_ne by congruence).
  assert (E2 : delete src (objects w) !! dst = Some to) by (by rewrite lookup_delete_ne).
  rewrite (owned_replace _ _ _ _ E1), delete_insert_ne, (owned_replace _ _ _ _ E2) by done.
  cbn [sw_ option_list app]. rewrite Hb, (owned_lookup src from), (owned_lookup dst to (delete src (objects w))) by done.
  split; [by solve_Permutation|]. intros [?|H]; [done|]. by rewrite (H to Ed).
Qed.

Lemma run1_balanced x w w' : run1 x w = Some (tt, w') -> balanced w ->
  balanced w' /\ (keeps_words x w -> lost w' = lost w).
Proof.
  assert (Hun : forall o w1 w2, unused o w1 = Some (tt, w2) -> w2 = w1 /\ objects w1 !! o = None).
  { intros o w1 w2. unfold unused, mbind, mget, CHECK. case_bool_decide; [|done]. by intros [= <-]. }
  destruct x as [o|o g info|dst src|dst src|o|o]; cbn [run1].
  - unfold mbind. destruct (unused o w) as [[[] w1]|] eqn:Eu; [|done]. apply Hun in Eu as [-> Eu]. intros [= <-] Hb. split; [|done].
    unfold balanced in *. cbn. by rewrite owned_insert.
  - unfold mbind at 1. destruct (unused o w) as [[[] w1]|] eqn:Eu; [|done]. apply Hun in Eu as [-> Eu].
    unfold NewFrom, status_word_from_info, mbind, CHECK. destruct (swi_id info =? region_id); [|done].
    destruct (swi_index info <? capacity); [|done]. intros [= <-] Hb. split; [|done].
    unfold balanced in *. cbn. rewrite owned_insert by done. cbn. by rewrite Hb.
  - unfold mbind at 1. destruct (unused dst w) as [[[] w1]|] eqn:Eu; [|done]. apply Hun in Eu as [-> Eu].
    unfold NewMove, mbind at 1. cbn [New set_object mmod]. intros E Hb.
    set (w1 := mk_words (<[dst := StatusWord_empty]> (objects w)) (given w) (freed_words w) (lost w)) in *.
    assert (Hb1 : balanced w1) by (unfold balanced in *; cbn; by rewrite owned_insert).
    destruct (assign_balanced _ _ _ _ E Hb1) as [H1 H2]. split; [done|]. intros _. apply H2. right. intros s.
    cbn. rewrite lookup_insert_eq. by intros [= <-].
  - intros E Hb. by apply assign_balanced.
  - unfold Free, object, mbind, mget, deref. destruct (objects w !! o) as [s|] eqn:Es; [|done].
    destruct (sw_ s) as [i|] eqn:Ei; [|done]. unfold CHECK. destruct (has_flag _ _); [|done]. destruct (free_ok _ _); [|done].
    intros [= <-] Hb. split; [|done]. unfold balanced in *. cbn. rewrite (owned_replace _ _ _ _ Es). cbn.
    rewrite Hb, (owned_lookup o s) by done. rewrite Ei. cbn. solve_Permutation.
  - unfold Destroy, object, mbind, mget, deref. destruct (objects w !! o) as [s|] eqn:Es; [|done]. unfold CHECK.
    destruct (empty s) eqn:Ee; [|done]. intros [= <-] Hb. split; [|done]. unfold balanced in *. cbn.
    rewrite Hb, (owned_lookup o s) by done. unfold empty in Ee. by destruct (sw_ s).
Qed.

(** No assignment of the program overwrites a word. *)
Fixpoint tidy (ops : list op) w : Prop :=
  match ops with
  | [] => True
  | x :: ops => keeps_words x w /\ match run1 x w with Some (_, w) => tidy ops w | None => True end
  end.

Lemma run_balanced ops w w' : run ops w = Some (tt, w') -> balanced w -> balanced w' /\ (tidy ops w -> lost w' = lost w).
Proof.
  revert w. induction ops as [|x ops IH]; intros w; cbn; [by intros [= <-]|]. unfold mbind.
  destruct (run1 x w) as [[[] w1]|] eqn:E; [|done]. intros Hr Hb. destruct (run1_balanced _ _ _ E Hb) as [Hb1 Hl1].
  destruct (IH w1 Hr Hb1) as [Hb2 Hl2]. split; [done|]. intros [Hk Ht]. rewrite Hl2 by done. by apply Hl1.
Qed.
End Props.

(** C20: status words are owned linearly.  Whatever a program does with its objects,
    the words the kernel has handed out are, each once, the words its objects own, those
    given back, and those lost by assigning to an object that owned one ([operator=]
    does not give that one back): so no word has two owners, none is given back twice or
    while it is owned.  A program without such an assignment loses none, and once it has
    destroyed its objects all words have been given back. *)
Theorem status_words_linear region_id capacity flags free_ok ops w :
  run region_id capacity flags free_ok ops no_words = Some (tt, w) ->
  given w ≡ₚ owned (objects w) ++ freed_words w ++ lost w /\
  (NoDup (given w) -> NoDup (owned (objects w)) /\ NoDup (freed_words w) /\ forall i, i ∈ freed_words w -> i ∉ owned (objects w)) /\
  (tidy region_id capacity flags free_ok ops no_words -> lost w = [] /\ (objects w = ∅ -> given w ≡ₚ freed_words w)).
Proof.
  intros Hr. assert (H0 : balanced no_words) by (unfold balanced; done).
  destruct (run_balanced _ _ _ _ _ _ _ Hr H0) as [Hb Hl]. unfold balanced in Hb. split; [done|]. split.
  - rewrite Hb. intros (H1 & H2 & (H3 & _ & _)%NoDup_app)%NoDup_app. split_and!; [done|done|]. set_solver.
  - intros Ht. assert (E : lost w = []) by (by apply Hl). split; [done|]. intros Ho. rewrite Hb, E, Ho, app_nil_r. done.
Qed.

(** A task's word is moved and given back; another is lost. *)
Definition demo_ops : list op :=
  [OpNewFrom 0 7 (mk_sw_info 1 5); OpNewMove 1 0; OpNewFrom 2 8 (mk_sw_info 1 6); OpDestroy 0; OpFree 1; OpDestroy 1].

Notation demo_flags := (fun _ _ => GHOST_SW_F_CANFREE).
Notation demo_free := (fun _ _ => true).

Lemma status_words_linear_witness :
  exists w, run 1 10 demo_flags demo_free demo_ops no_words = Some (tt, w) /\ owned (objects w) = [6] /\ freed_words w = [5] /\ lost w = [].
Proof.
  destruct (run 1 10 demo_flags demo_free demo_ops no_words) as [[[] w]|] eqn:E; [|vm_compute in E; discriminate E].
  exists w. split; [reflexivity|]. destruct (status_words_linear 1 10 demo_flags demo_free demo_ops w E) as (_ & _ & H).
  assert (Ht : tidy 1 10 demo_flags demo_free demo_ops no_words) by (vm_compute; repeat split).
  destruct (H Ht) as [Hl _]. split; [|split; [|exact Hl]]; clear -E; vm_compute in E; injection E as <-; reflexivity.
Defined.

Lemma assign_loses_a_word :
  exists w, run 1 10 demo_flags demo_free (demo_ops ++ [OpNewFrom 3 9 (mk_sw_info 1 7); OpAssign 2 3]) no_words = Some (tt, w) /\
    lost w = [6] /\ owned (objects w) = [7].
Proof. eexists. split; [vm_compute; reflexivity|]. split; reflexivity. Qed.
End WordsProps.
