(* ===== verification/O1Discover.v ===== *)
(** * Discovery by the O(1) scheduler

    The scan of the status words succeeds in a quiescent enclave and leaves the
    scheduler in a state that messages could have brought about, provided the stack
    happens to hold a nice value where the message of a discovered task has one. *)

From S2P Require Import Prelude GhostAbi Dispatch Channel Discover DiscoverProps PrioArray O1Sched O1Inv O1Handlers O1Safety.
Import O1 Discover DiscoverProps.

#[export] Instance O1State_tasks_laws : HasTasksLaws O1State O1Task.
Proof. split; [by intros []|done]. Qed.

(** ** [TaskNew] allocates and frees no task *)

Definition keeps {A} (m : M O1State A) : Prop := forall s, wlp m (fun _ s' => dom (tasks s') = dom (tasks s)) s.

Section Keeps.
Context (env : Env).

Lemma keeps_tasks_bind {A B} (m : M O1State A) (f : A -> M O1State B) : keeps m -> (forall a, keeps (f a)) -> keeps (mbind m f).
Proof.
  intros Hm Hf s. apply wlp_bind. eapply wlp_mono; [apply Hm|]. intros a s1 E1.
  eapply wlp_mono; [apply Hf|]. intros b s2 E2. congruence.
Qed.

Lemma keeps_check b : keeps (CHECK b).
Proof. intros s. by apply wlp_check. Qed.

Lemma keeps_deref {A} (o : option A) : keeps (deref o).
Proof. intros s. unfold wlp, deref. by destruct o. Qed.

Lemma keeps_read g : keeps (read_task (St := O1State) g).
Proof. apply keeps_tasks_bind; [done|intros s; apply keeps_deref]. Qed.

Lemma keeps_write g f : keeps (write_task (St := O1State) g f).
Proof.
  intros s. unfold wlp, write_task, read_task, mbind, mget, deref, mmod. cbn.
  destruct (tasks s !! g) as [t|] eqn:E; [|done]. cbn. apply elem_of_dom_2 in E. set_solver.
Qed.

Lemma keeps_AssignCpu : keeps (AssignCpu env).
Proof. intros s. unfold wlp, AssignCpu. by destruct (cpus env !! _). Qed.

#[local] Hint Resolve keeps_tasks_bind keeps_check keeps_deref keeps_read keeps_write keeps_AssignCpu : keeps.
#[local] Hint Extern 1 (keeps (mret _)) => done : keeps.
#[local] Hint Extern 1 (keeps (ask _)) => done : keeps.
#[local] Hint Extern 1 (keeps (emit _)) => done : keeps.
#[local] Hint Extern 1 (keeps (cpu_state _)) => done : keeps.
#[local] Hint Extern 1 (keeps (write_cpu_state _ _)) => done : keeps.
#[local] Hint Extern 2 (keeps (if ?b then _ else _)) => destruct b : keeps.

Lemma keeps_TaskNew g msg : keeps (TaskNew env g msg).
Proof.
  unfold TaskNew, SetRemainingTime, Migrate, Enqueue, SetRemainingTime, rq_push, PingAgent. auto 30 with keeps.
Qed.
End Keeps.

(** ** What the kernel guarantees *)

Section Scan.
Context (env : Env) (Henv : env_ok env) (k : kernel).
#[local] Instance o1_handlers : DispatchHandlers O1State := O1Handlers env.

(** The reply to an attempt to take over word [i] that starts after [n] accesses. *)
Definition reply (n : nat) (i : Z) : Z := associate k (4 + n) (sw_gtid (word k (3 + n) i)) (sw_barrier (word k n i)).
Definition reply_errno (n : nat) : Z := errno k (4 + n).
Definition can_free (n : nat) (i : Z) : bool := has_flag GHOST_SW_F_CANFREE (sw_flags (word k (1 + n) i)).

(** The word of an earlier life of a task. *)
Definition orphan (i : Z) : Prop := forall n, reply n i < 0 /\ reply_errno n = ESTALE /\ can_free n i = true.

(** The behaviour the comments of [DiscoverTasks] rely on: association fails only for
    a task that is gone, whose word can then be freed, or because the barrier is out
    of date, which happens once at most for a live task; two words with one gtid are
    lives of one task, and all but one are over. *)
Record scannable : Prop := {
  scan_quiescent : quiescent k;
  scan_errno : forall n i, candidate k i = true -> reply n i < 0 -> reply_errno n = ENOENT \/ reply_errno n = ESTALE;
  scan_dead : forall n i, candidate k i = true -> reply n i < 0 -> reply_errno n = ENOENT ->
    has_flag GHOST_SW_F_CANFREE (sw_flags (word k (5 + n) i)) = true /\ free_word k (6 + n) (sw_info k i) = 0;
  scan_orphan : forall n i, candidate k i = true -> reply n i < 0 -> reply_errno n = ESTALE -> can_free n i = true ->
    free_word k (5 + n) (sw_info k i) = 0;
  scan_once : forall n i, candidate k i = true -> reply n i < 0 -> reply_errno n = ESTALE -> can_free n i = false ->
    0 <= reply (5 + n) i \/ reply_errno (5 + n) <> ESTALE \/ can_free (5 + n) i = true;
  scan_unique : forall n n' i j, candidate k i = true -> candidate k j = true -> i <> j ->
    sw_gtid (word k n i) = sw_gtid (word k n' j) -> orphan i \/ orphan j;
}.

Context (Hscan : scannable) (Hnice : forall n, nice_ok (tn_nice (stack k n))).
Notation scan := (@scan O1State).
Implicit Types (d : scan).

(** ** The scan succeeds *)

Lemma wp_access_scan {A} (f : nat -> A) (Q : A -> scan -> Prop) d : Q (f (now d)) (tick d) -> wp (access f) Q d.
Proof. done. Qed.

Lemma wp_scheduler {A} (m : M O1State A) (Q : A -> scan -> Prop) d :
  wp m (fun a s => Q a (with_sched s d)) (sched d) -> wp (scheduler m) Q d.
Proof. unfold wp, scheduler. by destruct (m (sched d)) as [[a s]|]. Qed.

Lemma wp_free_word swi (Q : Z -> scan -> Prop) d :
  free_word k (now d) swi = 0 -> Q 0 (freeing swi (tick d)) -> wp (FreeStatusWordInfo k swi) Q d.
Proof. intros E HQ. unfold FreeStatusWordInfo. apply wp_bind, wp_access_scan. rewrite E. exact HQ. Qed.

Lemma wp_GetTask_sw g i (Q : bool -> scan -> Prop) d :
  i < capacity k -> tasks (sched d) !! g = None ->
  Q true (with_sched (allocated_for k g i (sched d)) d) -> wp (GetTask_sw k g i) Q d.
Proof.
  intros Hi Hn HQ. unfold GetTask_sw. apply wp_bind, wp_scheduler. unfold GetTask_alloc.
  apply wp_bind, wp_GetTask. cbn. rewrite bool_decide_false by (rewrite Hn; by intros [? ?]).
  apply wp_bind, wp_mod, wp_ret, wp_bind. cbn [when]. unfold get. apply wp_bind, wp_check; [apply Z.eqb_refl|].
  apply wp_check; [by apply Z.ltb_lt|]. exact HQ.
Qed.

(** The scheduler after the words of [done]: its tasks are theirs. *)
Record scan_ok (done : list Z) d : Prop := {
  so_inv : inv env None (sched d);
  so_tasks : forall g, is_Some (tasks (sched d) !! g) ->
    exists j n, j ∈ done /\ candidate k j = true /\ ~ orphan j /\ g = sw_gtid (word k n j) }.

Lemma scan_ok_same done d d' : sched d' = sched d -> scan_ok done d -> scan_ok done d'.
Proof. intros E [H1 H2]. split; by rewrite E. Qed.

Lemma scan_ok_more i done d : scan_ok done d -> scan_ok (i :: done) d.
Proof. intros [H1 H2]. split; [done|]. intros g Hg. destruct (H2 g Hg) as (j & n & ? & ?). exists j, n. split; [set_solver|done]. Qed.

(** No task is known for a word that is not an orphan's. *)
Lemma scan_fresh done d i n :
  scan_ok done d -> candidate k i = true -> i ∉ done -> ~ orphan i -> tasks (sched d) !! sw_gtid (word k n i) = None.
Proof.
  intros [_ H2] Hc Hi Ho. apply eq_None_not_Some. intros Hs. destruct (H2 _ Hs) as (j & n' & Hj & Hcj & Hoj & E).
  destruct (scan_unique Hscan n n' i j) as [?|?]; try done. intros ->. done.
Qed.

Lemma TaskNew_scanned i n on_stack barrier flags runtime done d :
  let g := sw_gtid (word k n i) in
  scan_ok done d -> candidate k i = true -> ~ orphan i -> tasks (sched d) !! g = None -> nice_ok (tn_nice on_stack) ->
  wp (TaskNew env g (synth k on_stack barrier flags runtime g i))
    (fun _ s => forall t vs fr, scan_ok (i :: done) (mk_scan t s fr vs)) (allocated_for k g i (sched d)).
Proof.
  intros g [Hi Ht] Hc Ho Hn Hnok. set (s0 := allocated_for k g i (sched d)).
  assert (Hd : wp (TaskNew env g (synth k on_stack barrier flags runtime g i)) (fun _ => inv env None) s0).
  { pose proof (new_dispatch_ok env Henv barrier
      (mk_task_new g (tn_parent_gtid on_stack) runtime (Z.b2z (has_flag GHOST_SW_TASK_RUNNABLE flags))
         (tn_nice on_stack) (sw_info k i) (tn_agent_data on_stack)) (sched d) Hi) as H. cbn [tn_gtid tn_nice] in H.
    unfold wp in H |- *. specialize (H (proj1 (scan_quiescent Hscan) n i) (fun _ => Hnok)).
    rewrite (dispatch_new (St := O1State)) in H by (try apply (proj1 (scan_quiescent Hscan)); done). exact H. }
  pose proof (keeps_TaskNew env g (synth k on_stack barrier flags runtime g i) s0) as Hk.
  unfold wp, wlp in *. destruct (TaskNew env g _ s0) as [[[] s]|]; [|done]. intros t vs fr. split; [done|]. cbn [sched].
  intros g' Hg'. apply elem_of_dom in Hg'. rewrite Hk in Hg'. apply elem_of_dom in Hg'. cbn in Hg'.
  apply lookup_insert_is_Some in Hg' as [<-|[_ Hg']].
  - exists i, n. split; [set_solver|done].
  - destruct (Ht g' Hg') as (j & n' & ? & ?). exists j, n'. split; [set_solver|done].
Qed.

(** One attempt; [again] is taken only after a reply that the barrier is out of date. *)
Lemma discover_ok again i done d :
  scan_ok done d -> candidate k i = true -> i ∉ done -> i < capacity k ->
  (reply (now d) i < 0 -> reply_errno (now d) = ESTALE -> can_free (now d) i = false ->
    forall d', sched d' = sched d -> now d' = (5 + now d)%nat -> wp again (fun _ => scan_ok (i :: done)) d') ->
  wp (discover k again i) (fun _ => scan_ok (i :: done)) d.
Proof.
  intros Hd Hc Hi Hcap Hagain. unfold discover. do 5 (apply wp_bind, wp_access_scan). cbn beta iota.
  change (associate k _ _ _) with (reply (now d) i). change (errno k _) with (reply_errno (now d)).
  change (sw_flags (word k (now (tick d)) i)) with (sw_flags (word k (1 + now d) i)). fold (can_free (now d) i).
  unfold Channel.AssociateTask.
  assert (Hno : (reply (now d) i < 0 -> reply_errno (now d) = ESTALE -> can_free (now d) i = true -> False) -> ~ orphan i).
  { intros H Ho. destruct (Ho (now d)) as (? & ? & ?). by apply H. }
  destruct (Z.leb_spec 0 (reply (now d) i)) as [Hr|Hr]; cbn [negb].
  - destruct (has_flag _ _); [apply wp_mod, scan_ok_more; by eapply scan_ok_same; [|exact Hd]|]. apply wp_bind, wp_access_scan.
    assert (Ho : ~ orphan i) by (apply Hno; lia).
    pose proof (scan_fresh done d i (3 + now d) Hd Hc Hi Ho) as Hn.
    apply wp_bind, wp_GetTask_sw; [done|exact Hn|]. cbn [negb]. apply wp_bind, wp_scheduler.
    eapply wp_mono; [exact (TaskNew_scanned i (3 + now d) _ _ _ _ done d Hd Hc Ho Hn (Hnice _))|].
    intros [] s Hs. apply wp_bind, wp_scheduler, wp_ret, wp_mod. apply Hs.
  - destruct (Z.eqb_spec (reply_errno (now d)) ENOENT) as [Ee|Ee].
    + assert (Ho : ~ orphan i) by (apply Hno; intros _ E; by rewrite E in Ee).
      destruct (scan_dead Hscan (now d) i Hc Hr Ee) as [Hf Hfree].
      pose proof (scan_fresh done d i (3 + now d) Hd Hc Hi Ho) as Hn.
      apply wp_bind, wp_GetTask_sw; [done|exact Hn|]. cbn [negb]. unfold FreeTask_sw.
      do 2 apply wp_bind. apply wp_scheduler, wp_FreeTask, wp_bind, wp_access_scan, wp_bind, wp_check; [exact Hf|].
      apply wp_bind, wp_free_word; [exact Hfree|]. apply wp_check; [done|]. apply wp_mod, scan_ok_more.
      eapply scan_ok_same; [|exact Hd]. exact (alloc_free (St := O1State) k _ i (sched d) Hn).
    + destruct (scan_errno Hscan (now d) i Hc Hr) as [?|Es]; [done|]. rewrite Es. cbn [Z.eqb]. change (ESTALE =? ESTALE) with true. cbv iota.
      destruct (can_free (now d) i) eqn:Ef; [|by apply Hagain].
      apply wp_bind, wp_free_word; [by apply (scan_orphan Hscan)|]. apply wp_bind, wp_check; [done|].
      apply wp_mod, scan_ok_more. by eapply scan_ok_same; [|exact Hd].
Qed.

Lemma discover_word_ok i done d :
  scan_ok done d -> candidate k i = true -> i ∉ done -> i < capacity k ->
  wp (discover_word k i) (fun _ => scan_ok (i :: done)) d.
Proof.
  intros Hd Hc Hi Hcap. apply (discover_ok _ i done d); try done. intros Hr He Hf d' Hs Hn.
  apply (discover_ok _ i done d'); try done; [by eapply scan_ok_same|]. rewrite Hn. intros Hr' He' Hf'. exfalso.
  destruct (scan_once Hscan (now d) i Hc Hr He Hf) as [?|[?|?]]; [lia|done|congruence].
Qed.

Lemma for_each_ok idxs done d :
  scan_ok done d -> NoDup idxs -> (forall i, i ∈ idxs -> i ∉ done /\ i < capacity k) ->
  wp (for_each k (discover_word k) idxs) (fun _ d' => exists done', scan_ok done' d') d.
Proof.
  revert done d. induction idxs as [|i idxs IH]; intros done d Hd Hnd Hin; cbn [for_each]; [apply wp_ret; by exists done|].
  apply NoDup_cons in Hnd as [Hi Hnd]. destruct (Hin i) as [Hid Hcap]; [set_solver|].
  assert (Hnext : forall d1, sched d1 = sched d -> wp (for_each k (discover_word k) idxs) (fun _ d' => exists done', scan_ok done' d') d1).
  { intros d1 E. apply (IH done); [by eapply scan_ok_same|done|]. intros j Hj. apply Hin. set_solver. }
  unfold get. apply wp_bind, wp_check; [by apply Z.ltb_lt|]. apply wp_bind, wp_access_scan, wp_bind.
  destruct (proj2 (scan_quiescent Hscan) (now d) i) as [E1 _], (proj2 (scan_quiescent Hscan) (now (tick d)) i) as [_ E2]. rewrite E1.
  destruct (has_flag GHOST_SW_F_INUSE (sw_flags (word k 0 i))) eqn:Eu; cbn [negb]; [|by apply wp_ret, Hnext].
  apply wp_bind, wp_access_scan. rewrite E2.
  destruct (has_flag GHOST_SW_TASK_IS_AGENT (sw_flags (word k 0 i))) eqn:Eg; [by apply wp_ret, Hnext|].
  eapply wp_mono; [apply (discover_word_ok i done)|]; try done.
  - by eapply scan_ok_same; [|exact Hd].
  - unfold candidate. by rewrite Eu, Eg.
  - intros [] d' Hd'. apply (IH (i :: done)); [done|done|]. intros j Hj. destruct (Hin j) as [??]; [set_solver|]. split; [|done].
    intros [->|?]%elem_of_cons; done.
Qed.
End Scan.

(** ** Claims *)

Lemma dispatch_reachable env msgs s s' :
  reachable env s -> (forall msg, msg ∈ msgs -> forall s, msg_ok env s msg) ->
  @DispatchAll _ _ _ _ (O1Handlers env) msgs s = Some (tt, s') -> reachable env s'.
Proof.
  intros Hr Hok. revert s Hr. induction msgs as [|msg msgs IH]; intros s Hr; cbn; [by intros [= <-]|].
  unfold mbind. destruct (DispatchMessage msg s) as [[[] s1]|] eqn:E; [|done]. apply IH; [set_solver|].
  eapply reach_step; [exact Hr|]. apply (step_run _ s (Deliver msg)); [|exact E]. apply Hok. set_solver.
Qed.

Lemma agreed_msg_ok env k msg : quiescent k -> (forall n, nice_ok (tn_nice (stack k n))) -> agreed k msg ->
  forall s, msg_ok env s msg.
Proof.
  intros [Hg _] Hnice (n & n' & n1 & i & flags & runtime & E & _ & _) s. rewrite E. split; [done|]. cbn.
  split; [apply Hg|]. destruct (tasks s !! _); [done|apply Hnice].
Qed.


(** *** A priority outside the arrays *)

Section Prio.
Context (g p : Z).

(** The task, if there is one, has priority [p]. *)
Definition prio_is (s : O1State) : Prop := forall t, tasks s !! g = Some t -> static_priority t = p.

Lemma wlp_write f (Q : unit -> O1State -> Prop) s :
  (forall t, tasks s !! g = Some t -> Q tt (set_tasks (<[g := f t]> (tasks s)) s)) -> wlp (write_task g f) Q s.
Proof.
  intros H. unfold wlp, write_task, read_task, mbind, mget, deref, mmod. cbn.
  destruct (tasks s !! g) as [t|] eqn:E; [|done]. by apply H.
Qed.

Lemma wlp_read (Q : O1Task -> O1State -> Prop) s :
  (forall t, tasks s !! g = Some t -> Q t s) -> wlp (read_task g) Q s.
Proof.
  intros H. unfold wlp, read_task, mbind, mget, deref. cbn. destruct (tasks s !! g) as [t|] eqn:E; [|done]. by apply H.
Qed.

Lemma prio_write f (Q : unit -> O1State -> Prop) s :
  prio_is s -> (forall t, static_priority (f t) = static_priority t) -> (forall s', prio_is s' -> Q tt s') ->
  wlp (write_task g f) Q s.
Proof.
  intros Hs Hf HQ. apply wlp_write. intros t Ht. apply HQ. intros t'. cbn. rewrite lookup_insert_eq. intros [= <-].
  rewrite Hf. by apply Hs.
Qed.

Lemma rq_push_fails c b s (Q : unit -> O1State -> Prop) : prio_is s -> ~ prio_ok p -> wlp (rq_push c b g) Q s.
Proof.
  intros Hs Hp. unfold rq_push. apply wlp_bind. cbn. apply wlp_bind, wlp_read. intros t Ht. rewrite (Hs t Ht).
  assert (Hpush : forall a x, Prio.push a g p x = None).
  { intros a x. unfold Prio.push. destruct (Z.leb_spec 0 (p - kBasePrio)), (Z.ltb_spec (p - kBasePrio) kNumPrio); try done. by destruct Hp. }
  destruct b; apply wlp_bind; by rewrite Hpush.
Qed.

Lemma Enqueue_fails c s (Q : unit -> O1State -> Prop) : prio_is s -> ~ prio_ok p -> wlp (Enqueue c g) Q s.
Proof.
  intros Hs Hp. unfold Enqueue. apply wlp_bind, wlp_read. intros t Ht. do 2 (apply wlp_bind, wlp_check; intros _).
  apply wlp_bind, prio_write; [done|done|]. intros s1 Hs1. destruct (0 <? _); [by apply rq_push_fails|].
  apply wlp_bind, prio_write; [done|done|]. intros s2 Hs2. by apply rq_push_fails.
Qed.
End Prio.

(** [TaskNew] of a runnable task aborts unless it is told a nice value. *)
Lemma TaskNew_fails env g sn q s :
  truthy (tn_runnable q) = true -> ~ nice_ok (tn_nice q) ->
  TaskNew env g (Message.of_payload sn (P_newt q)) s = None.
Proof.
  intros Hrun Hn. assert (Hw : wlp (TaskNew env g (Message.of_payload sn (P_newt q))) (fun _ _ => False) s).
  { unfold TaskNew. apply wlp_bind. cbn. do 3 (apply wlp_bind, wlp_write; intros ? _).
    apply wlp_bind, wlp_write. intros t3 _. rewrite Hrun.
    match goal with |- wlp _ _ ?s1 => assert (Hs1 : prio_is g (120 + tn_nice q) s1) end.
    { intros t4. cbn. rewrite lookup_insert_eq. by intros [= <-]. }
    apply wlp_bind. eapply prio_write; [exact Hs1|done|]. intros s2 Hs2. apply wlp_bind.
    unfold wlp at 1, AssignCpu. destruct (cpus env !! _) as [c|]; [|done]. unfold Migrate.
    apply wlp_bind, wlp_read. intros t2 _. do 2 (apply wlp_bind, wlp_check; intros _). apply wlp_bind. cbn.
    apply wlp_bind, wlp_check. intros _. apply wlp_bind. eapply (prio_write g (120 + tn_nice q)); [exact Hs2|done|].
    intros s3 Hs3. apply wlp_bind. eapply Enqueue_fails; [exact Hs3|]. unfold prio_ok, nice_ok, kBasePrio, kNumPrio in *. lia. }
  unfold wlp in Hw. by destruct (TaskNew env g _ s) as [[[] s']|].
Qed.

(** The message [DiscoverTasks] builds for a task leaves its nice value to the
    stack.  Where the value found there is not a nice value the O(1) scheduler aborts on
    any runnable task, whatever its state ([PrioArray::push] is out of its range); so a
    scan that completes has found a nice value on the stack for every runnable task. *)
Theorem o1_discovery_uninitialized_nice env k :
  (forall on_stack barrier flags runtime g i s,
    has_flag GHOST_SW_TASK_RUNNABLE flags = true -> ~ nice_ok (tn_nice on_stack) ->
    TaskNew env g (synth k on_stack barrier flags runtime g i) s = None) /\
  (forall s d', quiescent k -> @DiscoverTasks _ _ _ _ (O1Handlers env) k (start s) = Some (tt, d') ->
    forall msg q, msg ∈ news (verdicts d') -> as_task_new (Message.payload msg) = Some q ->
      truthy (tn_runnable q) = true -> nice_ok (tn_nice q)).
Proof.
  split.
  - intros on_stack barrier flags runtime g i s Hf Hn. apply TaskNew_fails; [|done]. cbn. by rewrite Hf.
  - intros s d' Hq Hd msg q Hm Hmq Hrun. destruct (decide (-20 <= tn_nice q <= 19)) as [|Hn]; [done|exfalso].
    destruct (scan_result (DispatchHandlers0 := O1Handlers env) k s d' Hq Hd) as [[_ _ Ha] _].
    rewrite Forall_forall in Ha.
    destruct (Ha _ Hm) as [(n & n' & n1 & i & flags & runtime & E & _ & _) (g & s1 & s2 & _ & Ht)].
    rewrite E in Hmq, Ht. injection Hmq as <-.
    pose proof (eq_trans (eq_sym (TaskNew_fails env g _ _ s1 Hrun Hn)) Ht). done.
Qed.

(** *** Examples *)

(** A region of four words: an agent's, a runnable task's, a free one, and one of a
    task that is gone. *)
Definition demo_word (i : Z) : ghost_status_word :=
  if i =? 0 then mk_status_word 1 (Z.lor GHOST_SW_F_INUSE GHOST_SW_TASK_IS_AGENT) 100 0 0
  else if i =? 1 then mk_status_word 5 (Z.lor GHOST_SW_F_INUSE GHOST_SW_TASK_RUNNABLE) 7 0 1000
  else if i =? 3 then mk_status_word 2 (Z.lor GHOST_SW_F_INUSE GHOST_SW_F_CANFREE) 8 0 0
  else mk_status_word 0 0 9 0 0.

Definition demo_kernel (nice : Z) : kernel :=
  mk_kernel 0 4 (fun _ => demo_word) (fun _ g _ => if g =? 7 then 0 else -1) (fun _ => ENOENT) (fun _ _ => 0)
    (fun _ => mk_task_new 0 0 0 0 nice (mk_sw_info 0 0) 0).

Lemma demo_gtid_pos i : 7 <= sw_gtid (demo_word i).
Proof. unfold demo_word. repeat case_match; cbn; lia. Qed.

Lemma demo_candidate nice i : candidate (demo_kernel nice) i = true -> i = 1 \/ i = 3.
Proof. unfold candidate. cbn. unfold demo_word. destruct (Z.eqb_spec i 0), (Z.eqb_spec i 1), (Z.eqb_spec i 3); cbn; auto; done. Qed.

Lemma demo_quiescent nice : quiescent (demo_kernel nice).
Proof. split; [|done]. intros n i. cbn. pose proof (demo_gtid_pos i). lia. Qed.

Lemma demo_scannable nice : scannable (demo_kernel nice).
Proof.
  split; [apply demo_quiescent|..].
  - intros n i _ _. by left.
  - intros n i [-> | ->]%demo_candidate; [done|]. done.
  - done.
  - done.
  - intros n n' i j [-> | ->]%demo_candidate [-> | ->]%demo_candidate; done.
Qed.

(** The task is found, the dead one's word is freed. *)
Lemma discovery_dispatches_witness :
  exists d', @DiscoverTasks _ _ _ _ (O1Handlers demo_env) (demo_kernel 0) (start (initial demo_env)) = Some (tt, d') /\
    (reverse (verdicts d')).*1 = [1; 3] /\ freed d' = [mk_sw_info 0 3].
Proof.
  destruct (@DiscoverTasks _ _ _ _ (O1Handlers demo_env) (demo_kernel 0) (start (initial demo_env))) as [[[] d']|] eqn:E.
  - exists d'. destruct (discovery_dispatches (DispatchHandlers0 := O1Handlers demo_env) _ _ _ (demo_quiescent 0) E) as (H1 & _ & _ & H2 & _).
    split_and!; [done|exact H1|].
    assert (Hf : (fun r => freed (snd r)) <$> @DiscoverTasks _ _ _ _ (O1Handlers demo_env) (demo_kernel 0) (start (initial demo_env))
      = Some [mk_sw_info 0 3]) by (vm_compute; reflexivity).
    rewrite E in Hf. by injection Hf.
  - by vm_compute in E.
Defined.


(** With 1000 on the stack the scan aborts. *)
Lemma o1_discovery_uninitialized_nice_witness :
  @DiscoverTasks _ _ _ _ (O1Handlers demo_env) (demo_kernel 1000) (start (initial demo_env)) = None /\
  TaskNew demo_env 7 (synth (demo_kernel 1000) (mk_task_new 0 0 0 0 1000 (mk_sw_info 0 0) 0) 5
    (Z.lor GHOST_SW_F_INUSE GHOST_SW_TASK_RUNNABLE) 0 7 1) (initial demo_env) = None.
Proof.
  split; [vm_compute; reflexivity|]. apply (o1_discovery_uninitialized_nice demo_env (demo_kernel 1000)); [done|].
  cbn. unfold nice_ok. lia.
Defined.
