(* ===== verification/System.v ===== *)
(** * Agents, channels and a scheduler together

    The loop of [Schedule] ([src/schedulers/o1/o1_scheduler.cc],
    [src/schedulers/fifo/per_cpu/fifo_scheduler.cc]) on every CPU of an enclave at once:
    each agent drains its own channel, dispatches what it reads to the scheduler all of
    them share, and then makes a scheduling decision, while the kernel keeps sending
    messages. *)

From S2P Require Import Prelude GhostAbi Dispatch Channel ChannelProps.

(** ** What a scheduler promises its agents *)

(** A scheduler with its safe states, and the messages the kernel may send in one. *)
Class Scheduler (St : Type) := {
  dispatch : Message.ghost_msg -> M St unit;
  decide_cpu : Z -> Z -> bool -> M St unit;
  safe : St -> Prop;
  may_send : St -> Message.ghost_msg -> Prop;
  has_cpu : Z -> Prop }.

Class SchedulerLaws (St : Type) `{!Scheduler St} : Prop := {
  dispatch_safe (s : St) msg : safe s -> may_send s msg -> exists s', dispatch msg s = Some (tt, s') /\ safe s';
  decide_safe (s : St) c barrier boosted : safe s -> has_cpu c ->
    exists s', decide_cpu c barrier boosted s = Some (tt, s') /\ safe s' }.

Module System.
Section System.
Context {St : Type} `{!Scheduler St}.
Context (produce : ghost_ring -> ring_msg -> ghost_ring).

(** ** State and steps *)

(** The points of an agent in [Schedule]. *)
Inductive pc :=
  | Draining                     (* before [Peek] *)
  | Consuming (m : ring_msg)     (* after [DispatchMessage] *)
  | Deciding.                    (* the channel was empty *)

(** An agent with its channel; [sent] and [handled] are the messages the kernel has
    put into the channel and those the agent has dispatched. *)
Record agent := mk_agent { at_ : pc; ring : ghost_ring; sent : list ring_msg; handled : list ring_msg }.

Record sys := mk_sys { agents : gmap Z agent; state : St }.

Definition set_agent (c : Z) (a : agent) (y : sys) : sys := mk_sys (<[c := a]> (agents y)) (state y).

(** One step of the agent on CPU [c], whose status word has this barrier and boost. *)
Definition agent_step (c barrier : Z) (boosted : bool) (y : sys) : option sys :=
  match agents y !! c with
  | None => None
  | Some (mk_agent Draining r se ha) =>
      match Channel.Peek r with
      | None => None
      | Some None => Some (set_agent c (mk_agent Deciding r se ha) y)
      | Some (Some m) =>
          match dispatch (body m) (state y) with
          | Some (_, s) => Some (mk_sys (<[c := mk_agent (Consuming m) r se (ha ++ [m])]> (agents y)) s)
          | None => None
          end
      end
  | Some (mk_agent (Consuming m) r se ha) => Some (set_agent c (mk_agent Draining (Channel.Consume r m) se ha) y)
  | Some (mk_agent Deciding r se ha) =>
      match decide_cpu c barrier boosted (state y) with
      | Some (_, s) => Some (mk_sys (<[c := mk_agent Draining r se ha]> (agents y)) s)
      | None => None
      end
  end.

(** The kernel puts a message into the channel of CPU [c]. *)
Definition send (c : Z) (m : ring_msg) (y : sys) : option sys :=
  match agents y !! c with
  | None => None
  | Some (mk_agent p r se ha) => Some (set_agent c (mk_agent p (produce r m) (se ++ [m]) ha) y)
  end.

(** The message the agent on CPU [c] is about to dispatch. *)
Definition next_msg (c : Z) (y : sys) : option ring_msg :=
  match agents y !! c with
  | Some (mk_agent Draining r _ _) => mjoin (Channel.Peek r)
  | _ => None
  end.

(** Steps of a kernel that keeps the protocol: a message fits into its channel, and is
    one the scheduler may be sent when it is dispatched. *)
Inductive step : sys -> sys -> Prop :=
  | step_send c a m y y' :
      agents y !! c = Some a -> msg_ok m -> used (ring a) + slots m <= nelems (ring a) -> send c m y = Some y' -> step y y'
  | step_agent c barrier boosted y y' :
      (forall m, next_msg c y = Some m -> may_send (state y) (body m)) ->
      agent_step c barrier boosted y = Some y' -> step y y'.

(** At the start every channel is an empty ring of a power of two of slots. *)
Definition starts (y : sys) : Prop :=
  safe (state y) /\
  forall c a, agents y !! c = Some a ->
    has_cpu c /\ at_ a = Draining /\ sent a = [] /\ handled a = [] /\ exists k p, holds k (ring a) p [].

Inductive reachable (y0 : sys) : sys -> Prop :=
  | reach_start : reachable y0 y0
  | reach_next y y' : reachable y0 y -> step y y' -> reachable y0 y'.
End System.
End System.

(** ** Every message is dispatched once, in the order it was sent *)

Module SystemProps.
Import System.

Section Props.
Context {St : Type} `{!Scheduler St} `{!SchedulerLaws St}.
Context (produce : ghost_ring -> ring_msg -> ghost_ring) `{!Producer produce}.
Notation sys := (@sys St).
Implicit Types (y : sys) (a : agent) (c : Z).

(** The messages still in the channel. *)
Definition queued a : list ring_msg :=
  match at_ a with Consuming m => [m] | _ => [] end ++ drop (length (handled a)) (sent a).

Record agent_ok c a : Prop := {
  ag_cpu : has_cpu c;
  ag_prefix : handled a `prefix_of` sent a;
  ag_ring : exists k p, holds k (ring a) p (queued a);
  ag_last : match at_ a with Consuming m => last (handled a) = Some m | _ => True end }.

Definition inv y : Prop := safe (state y) /\ forall c a, agents y !! c = Some a -> agent_ok c a.

Lemma system_inv_insert c a s y : safe s -> inv y -> agent_ok c a -> inv (mk_sys (<[c := a]> (agents y)) s).
Proof.
  intros Hs [_ H] Ha. split; [done|]. intros c' a'. cbn. rewrite lookup_insert_Some.
  intros [[<- <-]|[_ ?]]; [done|by apply H].
Qed.

Lemma starts_inv y : starts y -> inv y.
Proof.
  intros [Hs H]. split; [done|]. intros c a Ha. destruct (H c a Ha) as (Hc & Hp & Hse & Hha & k & p & Hk).
  split; [done|by rewrite Hse, Hha| |by rewrite Hp]. exists k, p. unfold queued. by rewrite Hp, Hse, Hha.
Qed.

Lemma send_inv c a m y y' :
  inv y -> agents y !! c = Some a -> msg_ok m -> used (ring a) + slots m <= nelems (ring a) ->
  send produce c m y = Some y' -> inv y'.
Proof.
  intros Hi Ha Hm Hfit. unfold send. rewrite Ha. destruct a as [p r se ha]. intros [= <-].
  destruct (proj2 Hi c _ Ha) as [Hc Hpre (k & q & Hk) Hl]. apply system_inv_insert; [apply Hi|done|]. cbn in *. split; cbn; [done|..|done].
  - by apply prefix_app_r.
  - exists k, q. unfold queued in *. cbn in *. rewrite drop_app_le by (by apply prefix_length). rewrite app_assoc.
    apply holds_produce; [done|done|done|]. rewrite <- (holds_used _ _ _ _ Hk), <- (h_nelems _ _ _ _ Hk). done.
Qed.

(** What an agent that drains finds in its channel. *)
Lemma peek_next c r se ha y : inv y -> agents y !! c = Some (mk_agent Draining r se ha) ->
  Channel.Peek r = Some (se !! length ha).
Proof.
  intros Hi Ha. destruct (proj2 Hi c _ Ha) as [_ _ (k & p & Hk) _]. cbn in Hk. rewrite (holds_Peek _ _ _ _ Hk). f_equal.
  unfold queued. cbn. by rewrite head_lookup, lookup_drop, Nat.add_0_r.
Qed.

Lemma agent_step_inv c barrier boosted y y' :
  inv y -> (forall m, next_msg c y = Some m -> may_send (state y) (body m)) ->
  agent_step c barrier boosted y = Some y' -> inv y'.
Proof.
  intros Hi Hok. unfold agent_step, next_msg in *. destruct (agents y !! c) as [[p r se ha]|] eqn:Ha; [|done].
  pose proof (proj2 Hi c _ Ha) as [Hc Hpre (k & q & Hk) _]. unfold queued in Hk. cbn in Hpre, Hk, Hok.
  destruct p as [|m|].
  - rewrite (peek_next c r se ha y Hi Ha) in *. destruct (se !! length ha) as [m|] eqn:Em; cbn in Hok.
    + destruct (dispatch_safe (state y) (body m)) as (s & -> & Hs); [apply Hi|by apply Hok|]. intros [= <-].
      apply system_inv_insert; [done|done|]. split; cbn; [done|..|by rewrite last_snoc].
      * destruct Hpre as [l ->]. rewrite lookup_app_r, Nat.sub_diag in Em by lia. destruct l as [|m' l]; [done|].
        injection Em as ->. apply prefix_app. by exists l.
      * exists k, q. unfold queued. cbn. rewrite length_app. cbn. rewrite (drop_S _ _ _ Em) in Hk.
        by replace (length ha + 1)%nat with (S (length ha)) by lia.
    + intros [= <-]. apply system_inv_insert; [apply Hi|done|]. split; cbn; [done|done| |done]. by exists k, q.
  - intros [= <-]. apply system_inv_insert; [apply Hi|done|]. split; cbn; [done|done| |done].
    exists k, (q + slots m). by apply holds_Consume.
  - destruct (decide_safe (state y) c barrier boosted) as (s & -> & Hs); [apply Hi|done|]. intros [= <-].
    apply system_inv_insert; [done|done|]. split; cbn; [done|done| |done]. by exists k, q.
Qed.

Lemma system_reachable_inv y0 y : starts y0 -> System.reachable produce y0 y -> inv y.
Proof.
  intros H0 Hr. induction Hr as [|y y' _ IH Hst]; [by apply starts_inv|].
  destruct Hst as [c a m y y' Ha Hm Hf Hs|c b bo y y' Hok Hs]; [by eapply send_inv|by eapply agent_step_inv].
Qed.

End Props.
End SystemProps.
