(* ===== verification/SystemO1.v ===== *)
(** * The O(1) scheduler under its agents

    [O1Scheduler] keeps the promise [SchedulerLaws] that the agents of [System] rely on:
    its safe states are the reachable ones, among them those that discovery leaves. *)

From S2P Require Import Prelude GhostAbi Dispatch Channel ChannelProps Discover System.
From S2P Require Import O1Sched O1Inv O1Handlers O1Safety O1Discover.

Section O1.
Context (env : Env).

#[export] Instance o1_scheduler : Scheduler O1State := {
  dispatch := @DispatchMessage _ _ _ _ (O1.O1Handlers env);
  decide_cpu := O1.O1Schedule env;
  safe := O1Safety.reachable env;
  may_send := O1Safety.msg_ok env;
  has_cpu c := c ∈ cpus env }.

Lemma o1_event s ev : env_ok env -> O1Safety.reachable env s -> event_ok env s ev ->
  exists s', run_event env ev s = Some (tt, s') /\ O1Safety.reachable env s'.
Proof.
  intros Henv Hr Hok. destruct (event_inv env s ev Henv) as (s' & Hrun & _); [by apply O1Safety.reachable_inv|done|].
  exists s'. split; [done|]. by eapply O1Safety.reach_step; [|constructor].
Qed.

#[export] Instance o1_scheduler_laws : env_ok env -> SchedulerLaws O1State.
Proof.
  intros Henv. split.
  - intros s msg Hs Hm. by apply (o1_event s (Deliver msg)).
  - intros s c barrier boosted Hs Hc. by apply (o1_event s (Decide c barrier boosted)).
Qed.
End O1.

(** ** An enclave of two CPUs

    Its channels are empty rings of four slots whose indices are about to wrap around. *)

Definition demo_start : System.sys :=
  let a := System.mk_agent System.Draining demo_ring [] [] in
  System.mk_sys {[0 := a; 1 := a]} (O1.initial demo_env).

Lemma demo_starts : System.starts (Scheduler0 := o1_scheduler demo_env) demo_start.
Proof.
  split; [apply O1Safety.reach_initial|]. intros c a Ha. cbn in Ha.
  assert (Hc : (c = 0 \/ c = 1) /\ a = System.mk_agent System.Draining demo_ring [] []).
  { rewrite insert_union_singleton_l in Ha. apply lookup_union_Some_raw in Ha.
    rewrite !lookup_singleton_Some in Ha. naive_solver. }
  destruct Hc as [Hc ->]. split_and!; try done; [|by exists 2, (2 ^ 32 - 1); apply demo_ring_holds].
  cbn. destruct Hc as [-> | ->]; set_solver.
Qed.

(** A task appears on CPU 1. *)
Definition demo_new_msg : ring_msg := mk_ring_msg 24 (demo_new 7 1 0).

Definition demo_sent : System.sys := default demo_start (System.send demo_produce 1 demo_new_msg demo_start).

Lemma demo_sent_reachable : System.reachable (Scheduler0 := o1_scheduler demo_env) demo_produce demo_start demo_sent.
Proof.
  eapply System.reach_next; [apply System.reach_start|].
  eapply (System.step_send _ 1 (System.mk_agent System.Draining demo_ring [] []) demo_new_msg); [done| | |done].
  - unfold ChannelProps.msg_ok. cbn. lia.
  - by vm_compute.
Qed.

