(* ===== verification/SystemFifo.v ===== *)
(** * The FIFO scheduler under its agents

    [FifoScheduler] keeps the promise [SchedulerLaws] that the agents of [System] rely on:
    its safe states are the reachable ones. *)

From S2P Require Import Prelude GhostAbi Dispatch Channel System FifoSched FifoInv FifoHandlers FifoProps.
Import Fifo.

Section Fifo.
Context (env : Env).

#[export] Instance fifo_scheduler : Scheduler FifoState := {
  dispatch := @DispatchMessage _ _ _ _ (Fifo.FifoHandlers env);
  decide_cpu := Fifo.FifoSchedule env;
  safe := FifoProps.reachable env;
  may_send := FifoProps.msg_ok env;
  has_cpu c := c ∈ cpus env }.

Lemma fifo_event s ev : env_ok env -> FifoProps.reachable env s -> event_ok env s ev ->
  exists s', run_event env ev s = Some (tt, s') /\ FifoProps.reachable env s'.
Proof.
  intros Henv Hr Hok. destruct (event_spec env s ev Henv) as (s' & Hrun & _); [by apply fifo_reachable_inv|done|].
  exists s'. split; [done|]. by eapply FifoProps.reach_step; [|constructor].
Qed.

#[export] Instance fifo_scheduler_laws : env_ok env -> SchedulerLaws FifoState.
Proof.
  intros Henv. split.
  - intros s msg Hs Hm. by apply (fifo_event s (Deliver msg)).
  - intros s c barrier boosted Hs Hc. by apply (fifo_event s (Decide c barrier boosted)).
Qed.
End Fifo.
