(* ===== verification/CpuMap.v ===== *)
(** * CPU bitmaps

    Models [CpuMap], [CpuList] and [AtomicCpuMap] of [lib/topology.h] and
    [lib/topology.cc]: a fixed array of 64-bit words, of which a topology with
    [num_cpus] CPUs uses the first [map_size]. *)

From Stdlib Require Import Ascii String.
From S2P Require Import Prelude.

Definition MAX_CPUS : Z := 512.
Definition kIntsBits : Z := 64.
Definition kMapCapacity : Z := MAX_CPUS / kIntsBits.

(** The words of the bitmap. *)
Abbreviation bitmap := (list Z).

Definition empty_map : bitmap := replicate (Z.to_nat kMapCapacity) 0.

Module CpuMap.
Section CpuMap.
Context (num_cpus : Z).  (* of the topology *)
Implicit Types (m : bitmap) (id : Z).

Definition map_size : Z := (num_cpus + kIntsBits - 1) / kIntsBits.

Definition GetNthMap m (n : Z) : Z := m !!! Z.to_nat n.

(** The bit [1ULL << (id % kIntsBits)]. *)
Definition mask id : Z := Z.shiftl 1 (id mod kIntsBits).

Definition Set_ m id : bitmap := alter (fun w => Z.lor w (mask id)) (Z.to_nat (id / kIntsBits)) m.

Definition Clear m id : bitmap :=
  alter (fun w => Z.land w (Z.lnot (mask id))) (Z.to_nat (id / kIntsBits)) m.

Definition IsSet m id : bool := negb (Z.land (GetNthMap m (id / kIntsBits)) (mask id) =? 0).

Definition Empty m : bool := forallb (fun i => GetNthMap m i =? 0) (seqZ 0 map_size).

Definition CountSetCpus m : Z :=
  foldl (fun ret i => u32 (ret + popcount64 (GetNthMap m i))) 0 (seqZ 0 map_size).

Definition Size m : Z := CountSetCpus m.

(** *** Iteration *)

(** The loop of [FindNextSetBit]: the index of the next set bit. *)
Fixpoint find_loop m (n : nat) (map_idx word : Z) : option Z :=
  match n with
  | O => None
  | S n' =>
      if map_idx <? map_size then
        if negb (word =? 0) then
          match ctzll word with Some b => Some (map_idx * kIntsBits + b) | None => None end
        else
          let map_idx := map_idx + 1 in
          let word := if map_idx <? map_size then GetNthMap m map_idx else word in
          find_loop m n' map_idx word
      else None
  end.

(** An iterator: [id_] and [cpu_]. *)
Definition FindNextSetBit m id : Z * option Z :=
  let map_idx := id / kIntsBits in
  let bit_offset := Z.land id (kIntsBits - 1) in
  let found :=
    if map_size <=? map_idx then None
    else
      let word := Z.land (GetNthMap m map_idx) (u64 (Z.shiftl (2 ^ 64 - 1) bit_offset)) in
      find_loop m (Z.to_nat (map_size - map_idx)) map_idx word in
  match found with
  | Some i => (i, Some i)
  | None => (num_cpus, None)
  end.

Definition begin m : Z * option Z := FindNextSetBit m 0.
Definition end_ m : Z * option Z := FindNextSetBit m num_cpus.

(** Range-based for: the CPUs visited. *)
Fixpoint for_loop m (fuel : nat) (it : Z * option Z) : list Z :=
  match fuel with
  | O => []
  | S fuel' =>
      if fst it =? fst (end_ m) then []
      else match snd it with
           | Some cpu => cpu :: for_loop m fuel' (FindNextSetBit m (fst it + 1))
           | None => []
           end
  end.

Definition iterate m : list Z := for_loop m (Z.to_nat num_cpus + 1) (begin m).
End CpuMap.
End CpuMap.

Module CpuList.
Section CpuList.
Context (num_cpus : Z).
Implicit Types (m src : bitmap).

Let map_size := CpuMap.map_size num_cpus.

(** [std::transform] over the first [map_size] words. *)
Definition transform (f : Z -> Z -> Z) m src : bitmap :=
  zip_with f (take (Z.to_nat map_size) m) src ++ drop (Z.to_nat map_size) m.

Definition Intersection m src : bitmap := transform Z.land m src.
Definition Union m src : bitmap := transform Z.lor m src.
Definition Subtract m src : bitmap := transform (fun a b => Z.land a (Z.lnot b)) m src.

(** [memcmp] of the used words. *)
Definition eqb m src : bool :=
  bool_decide (take (Z.to_nat map_size) m = take (Z.to_nat map_size) src).

(** [for (j < n) word &= word - 1] *)
Fixpoint clear_lowest (n : nat) (word : Z) : Z :=
  match n with O => word | S n' => clear_lowest n' (Z.land word (u64 (word - 1))) end.

(** The loop of [GetNthCpu]; [None] is the uninitialized CPU. *)
Fixpoint nth_loop (i : Z) (words : list Z) (n : Z) : option Z :=
  match words with
  | [] => None
  | word :: words' =>
      let count := popcount64 word in
      if count <=? n then nth_loop (i + 1) words' (n - count)
      else match ctzll (clear_lowest (Z.to_nat n) word) with
           | Some b => Some (i * kIntsBits + b)
           | None => None
           end
  end.

Definition GetNthCpu m (n : Z) : option Z := nth_loop 0 (take (Z.to_nat map_size) m) n.

Definition Front m : option Z := GetNthCpu m 0.
Definition Back m : option Z := GetNthCpu m (u32 (CpuMap.Size num_cpus m - 1)).

(** [for (i < size) { cpu = GetNthCpu(i); if (!cpu.valid()) break; push }] *)
Fixpoint vector_loop m (i : Z) (n : nat) : list Z :=
  match n with
  | O => []
  | S n' => match GetNthCpu m i with
            | None => []
            | Some cpu => cpu :: vector_loop m (i + 1) n'
            end
  end.

Definition ToVector m : list Z := vector_loop m 0 (Z.to_nat (CpuMap.Size num_cpus m)).
Definition ToIntVector m : list Z := vector_loop m 0 (Z.to_nat (CpuMap.Size num_cpus m)).

(** *** The mask as a string *)

(** [absl::Hex] of a nibble. *)
Definition hex (d : Z) : ascii :=
  ascii_of_N (Z.to_N (if d <? 10 then 48 + d else 87 + d)).

(** The bytes of the used words, lowest first. *)
Definition bytes m : list Z :=
  flat_map (fun w => map (fun i => Z.land (Z.shiftr w (8 * i)) 255) (seqZ 0 8))
    (take (Z.to_nat map_size) m).

(** The nibbles, highest first, without leading zeros. *)
Definition nibble_step (st : list ascii * bool) (byte : Z) : list ascii * bool :=
  let '(s, emitted) := st in
  let hi := Z.shiftr byte 4 in
  let lo := Z.land byte 15 in
  let '(s, emitted) := if negb (hi =? 0) || emitted then (s ++ [hex hi], true) else (s, emitted) in
  if negb (lo =? 0) || emitted then (s ++ [hex lo], true) else (s, emitted).

Definition nibbles m : list ascii := fst (foldl nibble_step ([], false) (rev (bytes m))).

(** A comma every eight nibbles, counted from the right. *)
Fixpoint comma_loop (s : list ascii) (til_next : Z) : list ascii :=
  match s with
  | [] => []
  | c :: s' =>
      if til_next =? 0 then ","%char :: c :: comma_loop s' 7
      else c :: comma_loop s' (til_next - 1)
  end.

Definition CpuMaskStr m : list ascii :=
  let s := nibbles m in
  let til_next := Z.of_nat (length s) mod 8 in
  let ret := comma_loop s (if til_next =? 0 then 8 else til_next) in
  if (length ret =? 0)%nat then ["0"%char] else ret.
End CpuList.
End CpuList.

(** Atomic bitmaps: each operation is one atomic read-modify-write of a word. *)
Module AtomicCpuMap.
Implicit Types (m : bitmap) (id : Z).

Definition fetch_update m id (f : Z -> Z) : bitmap * Z :=
  let n := Z.to_nat (id / kIntsBits) in (alter f n m, m !!! n).

Definition Set_ m id : bitmap := fst (fetch_update m id (fun w => Z.lor w (CpuMap.mask id))).
Definition Clear m id : bitmap := fst (fetch_update m id (fun w => Z.land w (Z.lnot (CpuMap.mask id)))).
Definition IsSet m id : bool := negb (Z.land (m !!! Z.to_nat (id / kIntsBits)) (CpuMap.mask id) =? 0).

Definition TestAndClear m id : bitmap * bool :=
  let mask := Z.lnot (CpuMap.mask id) in
  let '(m, old) := fetch_update m id (fun w => Z.land w mask) in
  (m, negb (Z.land old (Z.lnot mask) =? 0)).
End AtomicCpuMap.
