(* ===== verification/CpuMapSpec.v ===== *)
(** * What CPU bitmaps mean

    A bitmap stands for a set of CPU ids; [cpus] lists it in increasing order.
    The set operations, the three ways to enumerate a map, the hexadecimal mask
    and the atomic operations are proved against it. *)

From Stdlib Require Import Ascii.
From S2P Require Import Prelude CpuMap.

Lemma filter_ext_in {A} (P Q : A -> Prop) `{forall x, Decision (P x), forall x, Decision (Q x)} (l : list A) :
  (forall x, x ∈ l -> P x <-> Q x) -> filter P l = filter Q l.
Proof.
  induction l as [|x l IH]; intros Heq; [done|]. rewrite !filter_cons.
  rewrite IH by (intros y Hy; apply Heq; by right). specialize (Heq x ltac:(by left)).
  destruct (decide (P x)), (decide (Q x)); tauto.
Qed.

Lemma filter_map {A B} (P : B -> Prop) `{forall x, Decision (P x)} (f : A -> B) (l : list A) :
  filter P (f <$> l) = f <$> filter (fun x => P (f x)) l.
Proof.
  induction l as [|x l IH]; [done|]. cbn [fmap list_fmap]. rewrite !filter_cons.
  destruct (decide (P (f x))); cbn; by rewrite IH.
Qed.

Lemma filter_none {A} (P : A -> Prop) `{forall x, Decision (P x)} (l : list A) :
  (forall x, x ∈ l -> ~ P x) -> filter P l = [].
Proof.
  induction l as [|x l IH]; intros Hn; [done|]. rewrite filter_cons_False by (apply Hn; by left).
  apply IH. intros y Hy. apply Hn. by right.
Qed.

(** ** Words *)

Definition word_ok (w : Z) : Prop := 0 <= w < 2 ^ 64.

(** The set bits of a word, lowest first. *)
Definition word_bits (w : Z) : list Z := filter (fun k => Z.testbit w k = true) (seqZ 0 64).

Lemma popcount_bits w : popcount64 w = Z.of_nat (length (word_bits w)).
Proof.
  unfold popcount64, word_bits. induction (seqZ 0 64) as [|k l IH]; [done|]. rewrite filter_cons.
  cbn [foldr]. rewrite IH. destruct (Z.testbit w k);
    [rewrite decide_True by done|rewrite decide_False by done]; cbn; lia.
Qed.

Lemma ctzll_bits w : ctzll w = head (word_bits w).
Proof.
  unfold ctzll, word_bits. change (seqZ 0 64) with (seqZ 0 (Z.of_nat 64)).
  generalize 0 as i. generalize 64%nat as n. induction n as [|n IH]; intros i; [done|].
  rewrite seqZ_cons by lia. rewrite filter_cons. cbn [find_bit].
  destruct (Z.testbit w i) eqn:E.
  - by rewrite decide_True.
  - rewrite decide_False by done. rewrite IH. do 2 f_equal; f_equal; lia.
Qed.

Lemma word_bits_nil w : word_ok w -> word_bits w = [] -> w = 0.
Proof.
  intros Hw Hnil. apply Z.bits_inj'. intros k Hk. rewrite Z.bits_0.
  destruct (Z.lt_ge_cases k 64); [|by apply (testbit_high w 64)].
  destruct (Z.testbit w k) eqn:E; [|done].
  assert (Hin : k ∈ word_bits w) by (apply list_elem_of_filter; split; [done|apply elem_of_seqZ; lia]).
  rewrite Hnil in Hin. by apply not_elem_of_nil in Hin.
Qed.

Lemma word_bits_zero : word_bits 0 = [].
Proof. reflexivity. Qed.

(** Clearing the lowest set bit. *)
Lemma land_pred w j k :
  0 < w -> 0 <= j -> Z.testbit w j = true -> (forall i, 0 <= i < j -> Z.testbit w i = false) -> 0 <= k ->
  Z.testbit (Z.land w (w - 1)) k = if decide (k = j) then false else Z.testbit w k.
Proof.
  intros Hw Hj Hb Hmin Hk. rewrite Z.land_spec.
  set (q := Z.shiftr w (j + 1)).
  assert (Hw' : w = q * 2 ^ (j + 1) + 2 ^ j).
  { apply Z.bits_inj'. intros i Hi. unfold q.
    assert (Hlow : 0 <= 2 ^ j < 2 ^ (j + 1)).
    { rewrite Z.pow_add_r by lia. pose proof (Z.pow_pos_nonneg 2 j). lia. }
    rewrite <- Z.shiftl_mul_pow2 by lia. rewrite Z.add_nocarry_lxor.
    - rewrite Z.lxor_spec, Z.shiftl_spec, Z.pow2_bits_eqb by lia.
      destruct (Z.lt_ge_cases i (j + 1)).
      + rewrite (Z.testbit_neg_r _ (i - _)) by lia. cbn.
        destruct (Z.eqb_spec j i) as [<-|]; [done|]. apply Hmin. lia.
      + rewrite Z.shiftr_spec by lia. replace (i - (j + 1) + (j + 1)) with i by lia.
        destruct (Z.eqb_spec j i); [lia|]. by rewrite xorb_false_r.
    - apply Z.bits_inj'. intros i' Hi'. rewrite Z.land_spec, Z.shiftl_spec, Z.pow2_bits_eqb, Z.bits_0 by lia.
      destruct (Z.eqb_spec j i') as [<-|]; [|apply andb_false_r].
      rewrite (Z.testbit_neg_r _ (j - _)) by lia. done. }
  assert (Hp : 2 ^ (j + 1) = 2 * 2 ^ j) by (rewrite Z.pow_add_r by lia; lia).
  pose proof (Z.pow_pos_nonneg 2 j ltac:(lia) Hj) as Hpj.
  case_decide as Hkj.
  - subst k. rewrite Hb. cbn. rewrite Z.testbit_odd, Z.shiftr_div_pow2 by lia.
    replace ((w - 1) / 2 ^ j) with (2 * q); [by rewrite Z.odd_mul|].
    apply (Z.div_unique_pos _ _ _ (2 ^ j - 1)); lia.
  - destruct (Z.lt_ge_cases k j); [rewrite Hmin by lia; done|].
    assert (E : Z.testbit (w - 1) k = Z.testbit w k); [|rewrite E; apply andb_diag].
    replace k with ((k - (j + 1)) + (j + 1)) by lia. rewrite <- !Z.shiftr_spec by lia.
    f_equal. rewrite !Z.shiftr_div_pow2 by lia. transitivity q.
    + symmetry. apply (Z.div_unique_pos _ _ _ (2 ^ j - 1)); lia.
    + apply (Z.div_unique_pos _ _ _ (2 ^ j)); lia.
Qed.

Lemma word_bits_NoDup w : NoDup (word_bits w).
Proof. apply NoDup_filter, NoDup_seqZ. Qed.

Lemma clear_lowest_step w :
  word_ok w -> word_ok (Z.land w (u64 (w - 1))) /\ word_bits (Z.land w (u64 (w - 1))) = tail (word_bits w).
Proof.
  intros Hw. destruct (word_bits w) as [|j rest] eqn:Eb.
  { apply word_bits_nil in Eb as ->; [|done]. done. }
  assert (Hj : ctzll w = Some j) by (by rewrite ctzll_bits, Eb).
  apply ctzll_Some in Hj as (Hj & Hbj & Hmin).
  assert (0 < w) by (destruct (decide (w = 0)) as [->|]; [by rewrite Z.bits_0 in Hbj|unfold word_ok in Hw; lia]).
  rewrite u64_id by (unfold word_ok in Hw; lia).
  split.
  { split; [apply Z.land_nonneg; lia|]. apply bits_lt_pow2; [lia|apply Z.land_nonneg; lia|].
    intros k Hk. rewrite Z.land_spec, (testbit_high w 64) by done. done. }
  pose proof (word_bits_NoDup w) as Hnd. rewrite Eb in Hnd. apply NoDup_cons in Hnd as [Hjr _].
  cbn [tail]. rewrite <- (filter_others j rest Hjr). rewrite <- (filter_cons_False (fun k => k <> j) j rest) by naive_solver.
  rewrite <- Eb. unfold word_bits. rewrite list_filter_filter.
  apply filter_ext_in. intros k Hk%elem_of_seqZ. rewrite (land_pred w j k) by (try done; lia). case_decide; naive_solver.
Qed.

Lemma clear_lowest_bits n w :
  word_ok w -> word_bits (CpuList.clear_lowest n w) = drop n (word_bits w).
Proof.
  revert w. induction n as [|n IH]; intros w Hw; [by rewrite drop_0|]. cbn [CpuList.clear_lowest].
  destruct (clear_lowest_step w Hw) as [Hok Hb]. rewrite IH, Hb by done. destruct (word_bits w); [|done]. cbn. by rewrite drop_nil.
Qed.

(** ** Maps *)

Definition bit (m : bitmap) (i : Z) : bool := Z.testbit (m !!! Z.to_nat (i / 64)) (i mod 64).

(** The bitmaps the operations produce: eight words, no CPU beyond the topology. *)
Record map_wf (n : Z) (m : bitmap) : Prop := {
  wf_num : 0 <= n <= MAX_CPUS;
  wf_len : length m = 8%nat;
  wf_words : Forall word_ok m;
  wf_bits : forall i, n <= i < MAX_CPUS -> bit m i = false;
}.

(** The set of CPUs, in increasing order. *)
Definition cpus (n : Z) (m : bitmap) : list Z := filter (fun i => bit m i = true) (seqZ 0 n).

Lemma elem_of_cpus n m i : i ∈ cpus n m <-> 0 <= i < n /\ bit m i = true.
Proof. unfold cpus. rewrite list_elem_of_filter, elem_of_seqZ. split; intros [? ?]; split; try done; lia. Qed.

Lemma cpus_NoDup n m : NoDup (cpus n m).
Proof. apply NoDup_filter, NoDup_seqZ. Qed.

Lemma cpus_ext n m m' : (forall i, 0 <= i < n -> bit m i = bit m' i) -> cpus n m = cpus n m'.
Proof.
  intros H. apply filter_ext_in. intros i Hi%elem_of_seqZ. rewrite H by lia. done.
Qed.

Lemma IsSet_bit m i : 0 <= i -> CpuMap.IsSet m i = bit m i.
Proof.
  intros Hi. unfold CpuMap.IsSet, CpuMap.GetNthMap, CpuMap.mask, bit, kIntsBits.
  set (w := m !!! _). set (k := i mod 64). assert (Hk : 0 <= k) by (apply Z.mod_pos_bound; lia).
  destruct (Z.testbit w k) eqn:E.
  - apply negb_true_iff, Z.eqb_neq. intros H0. apply (f_equal (fun z => Z.testbit z k)) in H0.
    rewrite Z.land_spec, E, Z.shiftl_spec, Z.sub_diag, Z.bits_0 in H0 by lia. done.
  - apply negb_false_iff, Z.eqb_eq. apply Z.bits_inj'. intros j Hj. rewrite Z.land_spec, Z.bits_0, Z.shiftl_spec by lia.
    destruct (decide (j = k)) as [->|]; [by rewrite E|].
    destruct (Z.lt_ge_cases j k); [rewrite (Z.testbit_neg_r 1) by lia; apply andb_false_r|].
    rewrite (Z.bits_above_log2 1) by (cbn; lia). apply andb_false_r.
Qed.

(** A single-word update. *)
Lemma bit_alter m id f b i :
  length m = 8%nat -> 0 <= id < MAX_CPUS -> 0 <= i ->
  (forall w k, Z.testbit (f w) k = if decide (k = id mod 64) then b else Z.testbit w k) ->
  bit (alter f (Z.to_nat (id / 64)) m) i = if decide (i = id) then b else bit m i.
Proof.
  intros Hlen Hid Hi Hf. unfold bit, MAX_CPUS in *.
  assert (Hd : 0 <= id / 64 < 8) by (split; [apply Z.div_pos; lia|apply Z.div_lt_upper_bound; lia]).
  destruct (decide (i / 64 = id / 64)) as [E|E].
  - rewrite E, list_lookup_total_alter_eq by lia. rewrite Hf. pose proof (Z.div_mod i 64). pose proof (Z.div_mod id 64).
    destruct (decide (i mod 64 = id mod 64)), (decide (i = id)); try done; subst; lia.
  - rewrite list_lookup_total_alter_ne; [|intros E2; apply E, Z2Nat.inj; [..|done]; apply Z.div_pos; lia].
    destruct (decide (i = id)) as [->|]; done.
Qed.

Lemma bit_Set m id i :
  length m = 8%nat -> 0 <= id < MAX_CPUS -> 0 <= i ->
  bit (CpuMap.Set_ m id) i = if decide (i = id) then true else bit m i.
Proof.
  intros Hlen Hid Hi. apply bit_alter; [done..|]. intros w k. unfold CpuMap.mask, kIntsBits.
  apply testbit_set. apply Z.mod_pos_bound. lia.
Qed.

Lemma bit_Clear m id i :
  length m = 8%nat -> 0 <= id < MAX_CPUS -> 0 <= i ->
  bit (CpuMap.Clear m id) i = if decide (i = id) then false else bit m i.
Proof.
  intros Hlen Hid Hi. apply bit_alter; [done..|]. intros w k. unfold CpuMap.mask, kIntsBits.
  apply testbit_clear. apply Z.mod_pos_bound. lia.
Qed.

(** A word is in range when its high bits are clear. *)
Lemma word_ok_bits w : 0 <= w -> (forall k, 64 <= k -> Z.testbit w k = false) -> word_ok w.
Proof. intros H0 Hk. split; [done|]. apply bits_lt_pow2; [lia|done..]. Qed.

Lemma word_ok_high w k : word_ok w -> 64 <= k -> Z.testbit w k = false.
Proof. apply testbit_high. Qed.

Lemma alter_words f i m :
  (forall w, word_ok w -> word_ok (f w)) -> Forall word_ok m -> Forall word_ok (alter f i m).
Proof.
  intros Hf Hm. revert i. induction Hm as [|w m Hw Hm IH]; intros [|i]; cbn; try constructor; auto.
Qed.

Lemma mask_range id : 0 <= CpuMap.mask id /\ forall k, 64 <= k -> Z.testbit (CpuMap.mask id) k = false.
Proof.
  unfold CpuMap.mask, kIntsBits. pose proof (Z.mod_pos_bound id 64 ltac:(lia)).
  split; [apply Z.shiftl_nonneg; lia|]. intros k Hk. rewrite Z.shiftl_spec by lia. apply Z.bits_above_log2; cbn; lia.
Qed.

Lemma land_word w v : word_ok w -> 0 <= Z.land w v -> word_ok (Z.land w v).
Proof. intros Hw H0. apply word_ok_bits; [done|]. intros k Hk. by rewrite Z.land_spec, (word_ok_high w). Qed.

Lemma lor_word w v : word_ok w -> 0 <= v -> (forall k, 64 <= k -> Z.testbit v k = false) -> word_ok (Z.lor w v).
Proof.
  intros Hw Hv Hk. apply word_ok_bits; [apply Z.lor_nonneg; split; [by destruct Hw|done]|].
  intros k Hk'. rewrite Z.lor_spec, (word_ok_high w) by done. by apply Hk.
Qed.

Lemma Set_wf n m id : map_wf n m -> 0 <= id < n -> map_wf n (CpuMap.Set_ m id).
Proof.
  intros [H1 H2 H3 H4] Hid. split; [done|..].
  - unfold CpuMap.Set_. by rewrite length_alter.
  - apply alter_words; [|done]. intros w Hw. destruct (mask_range id). by apply lor_word.
  - intros i Hi. rewrite bit_Set by (done || lia). rewrite decide_False by lia. by apply H4.
Qed.

Lemma Clear_wf n m id : map_wf n m -> 0 <= id < MAX_CPUS -> map_wf n (CpuMap.Clear m id).
Proof.
  intros [H1 H2 H3 H4] Hid. split; [done|..].
  - unfold CpuMap.Clear. by rewrite length_alter.
  - apply alter_words; [|done]. intros w Hw. apply land_word; [done|]. apply Z.land_nonneg. left. by destruct Hw.
  - intros i Hi. rewrite bit_Clear by (done || lia). case_decide; [done|]. by apply H4.
Qed.

Lemma empty_wf n : 0 <= n <= MAX_CPUS -> map_wf n empty_map.
Proof.
  intros Hn. split; [done|done|..].
  - apply Forall_replicate. by split.
  - intros i Hi. unfold bit, empty_map, MAX_CPUS in *. rewrite lookup_total_replicate_2; [apply Z.bits_0|].
    change (Z.to_nat kMapCapacity) with (Z.to_nat 8). apply Z2Nat.inj_lt; [apply Z.div_pos; lia|lia|].
    apply Z.div_lt_upper_bound; lia.
Qed.

(** ** The used part *)

Lemma map_size_bounds n : 0 <= n <= MAX_CPUS ->
  0 <= CpuMap.map_size n <= 8 /\ n <= 64 * CpuMap.map_size n < n + 64.
Proof.
  unfold CpuMap.map_size, kIntsBits, MAX_CPUS. intros Hn.
  pose proof (Z.div_mod (n + 64 - 1) 64 ltac:(lia)). pose proof (Z.mod_pos_bound (n + 64 - 1) 64 ltac:(lia)). lia.
Qed.

(** Wordwise operations act on each CPU. *)
Lemma bit_transform n f g m src i :
  map_wf n m -> map_wf n src -> 0 <= i < n ->
  (forall a b k, 0 <= k -> Z.testbit (f a b) k = g (Z.testbit a k) (Z.testbit b k)) ->
  bit (CpuList.transform n f m src) i = g (bit m i) (bit src i).
Proof.
  intros [Hn Hm _ _] [_ Hs _ _] Hi Hf. unfold bit, CpuList.transform.
  destruct (map_size_bounds n Hn) as [Hsz Hsz2]. set (k := Z.to_nat (i / 64)).
  assert (Hk : (k < Z.to_nat (CpuMap.map_size n))%nat).
  { unfold k. apply Z2Nat.inj_lt; [apply Z.div_pos; lia|lia|]. apply Z.div_lt_upper_bound; lia. }
  rewrite lookup_total_app_l.
  - rewrite list_lookup_total_alt, lookup_zip_with, lookup_take_lt by lia.
    destruct (lookup_lt_is_Some_2 m k) as [a Ea]; [lia|]. destruct (lookup_lt_is_Some_2 src k) as [b Eb]; [lia|].
    rewrite Ea. cbn. rewrite Eb. cbn. rewrite Hf by (apply Z.mod_pos_bound; lia).
    by rewrite !list_lookup_total_alt, Ea, Eb.
  - rewrite length_zip_with, length_take. lia.
Qed.

Lemma zip_with_words f l1 l2 :
  (forall a b, word_ok a -> word_ok b -> word_ok (f a b)) ->
  Forall word_ok l1 -> Forall word_ok l2 -> Forall word_ok (zip_with f l1 l2).
Proof.
  intros Hf H1. revert l2. induction H1; intros l2 [|??]; cbn; constructor; auto.
Qed.

Lemma bit_transform_high n f g m src i :
  map_wf n m -> map_wf n src -> n <= i < MAX_CPUS ->
  (forall a b k, 0 <= k -> Z.testbit (f a b) k = g (Z.testbit a k) (Z.testbit b k)) -> g false false = false ->
  bit (CpuList.transform n f m src) i = false.
Proof.
  intros [Hn Hm _ Hbm] [_ Hs _ Hbs] Hi Hf Hg. specialize (Hbm i Hi). specialize (Hbs i Hi). unfold bit, CpuList.transform in *.
  set (k := Z.to_nat (i / 64)) in *. set (sz := Z.to_nat (CpuMap.map_size n)).
  destruct (map_size_bounds n Hn) as [Hsz Hsz2].
  assert (Hlen : length (zip_with f (take sz m) src) = sz) by (rewrite length_zip_with, length_take; lia).
  destruct (decide (k < sz)%nat).
  - rewrite lookup_total_app_l by lia. rewrite list_lookup_total_alt, lookup_zip_with, lookup_take_lt by lia.
    destruct (lookup_lt_is_Some_2 m k) as [a Ea]; [lia|]. destruct (lookup_lt_is_Some_2 src k) as [b Eb]; [lia|].
    rewrite list_lookup_total_alt, Ea in Hbm. rewrite list_lookup_total_alt, Eb in Hbs. cbn in Hbm, Hbs.
    rewrite Ea. cbn. rewrite Eb. cbn. rewrite Hf by (apply Z.mod_pos_bound; lia). by rewrite Hbm, Hbs.
  - rewrite lookup_total_app_r by lia. rewrite Hlen, lookup_total_drop.
    by replace (sz + (k - sz))%nat with k by lia.
Qed.

Lemma transform_wf n f g m src :
  map_wf n m -> map_wf n src -> (forall a b, word_ok a -> word_ok b -> word_ok (f a b)) ->
  (forall a b k, 0 <= k -> Z.testbit (f a b) k = g (Z.testbit a k) (Z.testbit b k)) -> g false false = false ->
  map_wf n (CpuList.transform n f m src).
Proof.
  intros Hm Hs Hf Hbit Hg. pose proof Hm as [Hn Hlm Hwm _]. pose proof Hs as [_ Hls Hws _]. split; [done|..].
  - destruct (map_size_bounds n Hn). unfold CpuList.transform.
    rewrite length_app, length_zip_with, length_take, length_drop. lia.
  - unfold CpuList.transform. apply Forall_app. split; [|by apply Forall_drop].
    apply zip_with_words; [done|by apply Forall_take|done].
  - intros i Hi. by eapply bit_transform_high.
Qed.

Lemma bit_word m j k : 0 <= k < 64 -> bit m (64 * Z.of_nat j + k) = Z.testbit (m !!! j) k.
Proof.
  intros Hk. unfold bit. rewrite Z.mul_comm, Z.div_add_l, Z.div_small, Z.add_0_r, Nat2Z.id by lia.
  by rewrite Z.add_comm, Z.mod_add, Z.mod_small by lia.
Qed.

Lemma word_lookup m j : Forall word_ok m -> (j < length m)%nat -> word_ok (m !!! j).
Proof. intros Hm Hj. destruct (lookup_lt_is_Some_2 m j Hj) as [w Hw]. rewrite (list_lookup_total_correct _ _ _ Hw). apply (Forall_lookup_1 _ _ _ _ Hm Hw). Qed.

(** Two maps with the same CPUs have the same words. *)
Lemma cpus_inj n m m' : map_wf n m -> map_wf n m' -> cpus n m = cpus n m' -> m = m'.
Proof.
  intros [Hn Hl Hw Hb] [_ Hl' Hw' Hb'] Heq.
  assert (Hbits : forall i, 0 <= i < MAX_CPUS -> bit m i = bit m' i).
  { intros i Hi. destruct (Z.lt_ge_cases i n); [|by rewrite Hb, Hb' by lia].
    apply eq_true_iff_eq. split; intros Hbi.
    - assert (Hin : i ∈ cpus n m) by (apply elem_of_cpus; split; [lia|done]).
      rewrite Heq in Hin. by apply elem_of_cpus in Hin as [_ ?].
    - assert (Hin : i ∈ cpus n m') by (apply elem_of_cpus; split; [lia|done]).
      rewrite <- Heq in Hin. by apply elem_of_cpus in Hin as [_ ?]. }
  apply (list_eq_same_length _ _ 8); [done..|]. intros j w w' Hj Ew Ew'.
  pose proof (Forall_lookup_1 _ _ _ _ Hw Ew) as Hok. pose proof (Forall_lookup_1 _ _ _ _ Hw' Ew') as Hok'.
  apply list_lookup_total_correct in Ew, Ew'. apply Z.bits_inj'. intros k Hk.
  destruct (Z.lt_ge_cases k 64); [|by rewrite (word_ok_high w), (word_ok_high w')].
  rewrite <- Ew, <- Ew', <- !bit_word by lia. apply Hbits. unfold MAX_CPUS. lia.
Qed.

Lemma eqb_spec n m src : map_wf n m -> map_wf n src -> CpuList.eqb n m src = true <-> cpus n m = cpus n src.
Proof.
  intros Hm Hs. unfold CpuList.eqb. rewrite bool_decide_eq_true. pose proof Hm as [Hn Hl _ _]. split.
  - intros E. apply cpus_ext. intros i Hi. unfold bit. destruct (map_size_bounds n Hn).
    assert (Hk : (Z.to_nat (i / 64) < Z.to_nat (CpuMap.map_size n))%nat).
    { apply Z2Nat.inj_lt; [apply Z.div_pos; lia|lia|]. apply Z.div_lt_upper_bound; lia. }
    f_equal. apply (f_equal (fun l => l !! Z.to_nat (i / 64))) in E. rewrite !lookup_take_lt in E by done.
    by rewrite !list_lookup_total_alt, E.
  - intros E. by rewrite (cpus_inj n m src).
Qed.

(** ** Enumeration *)

Fixpoint words_bits (i : Z) (ws : list Z) : list Z :=
  match ws with
  | [] => []
  | w :: ws' => ((fun k => i * 64 + k) <$> word_bits w) ++ words_bits (i + 1) ws'
  end.

Lemma seqZ_shift a n : seqZ a n = (fun k => a + k) <$> seqZ 0 n.
Proof. rewrite fmap_add_seqZ. f_equal. lia. Qed.

Lemma words_bits_filter m j ws :
  drop j m = ws ++ drop (j + length ws) m ->
  words_bits (Z.of_nat j) ws =
  filter (fun i => bit m i = true) (seqZ (64 * Z.of_nat j) (64 * Z.of_nat (length ws))).
Proof.
  revert j. induction ws as [|w ws IH]; intros j Hd; [done|]. cbn [words_bits length].
  replace (64 * Z.of_nat (S (length ws))) with (64 + 64 * Z.of_nat (length ws)) by lia.
  rewrite seqZ_app, filter_app by lia. f_equal.
  - unfold word_bits. rewrite (seqZ_shift (64 * _)). rewrite filter_map. rewrite Z.mul_comm. f_equal.
    apply filter_ext_in. intros k Hk%elem_of_seqZ. cbn. rewrite bit_word by lia.
    assert (E : m !! j = Some w).
    { rewrite <- (Nat.add_0_r j), <- lookup_drop, Hd. done. }
    by rewrite (list_lookup_total_correct _ _ _ E).
  - replace (Z.of_nat j + 1) with (Z.of_nat (S j)) by lia. rewrite IH; [f_equal; f_equal; lia|].
    apply (f_equal (drop 1)) in Hd. rewrite drop_drop in Hd. cbn [app drop] in Hd.
    replace (j + 1)%nat with (S j) in Hd by lia. rewrite Hd.
    replace (S j + length ws)%nat with (j + length (w :: ws))%nat by (cbn; lia). done.
Qed.

Lemma words_bits_cpus n m :
  map_wf n m -> words_bits 0 (take (Z.to_nat (CpuMap.map_size n)) m) = cpus n m.
Proof.
  intros [Hn Hl _ Hb]. destruct (map_size_bounds n Hn) as [Hs1 Hs2].
  rewrite (words_bits_filter m 0 _); rewrite length_take, Hl.
  - replace (64 * Z.of_nat (Nat.min _ 8)) with (n + (64 * CpuMap.map_size n - n)) by lia.
    change (64 * Z.of_nat 0) with 0. rewrite seqZ_app, filter_app by lia. unfold cpus.
    rewrite (filter_none _ (seqZ (0 + n) _)); [by rewrite app_nil_r|].
    intros i Hi%elem_of_seqZ. rewrite Hb by (unfold MAX_CPUS in *; lia). done.
  - rewrite Nat.min_l by lia. cbn [drop Nat.add]. symmetry. apply take_drop.
Qed.

Lemma words_of_map n m :
  map_wf n m -> CpuMap.GetNthMap m <$> seqZ 0 (CpuMap.map_size n) = take (Z.to_nat (CpuMap.map_size n)) m.
Proof.
  intros [Hn Hl _ _]. destruct (map_size_bounds n Hn) as [Hs _]. apply list_eq. intros k.
  rewrite list_lookup_fmap. destruct (decide (k < Z.to_nat (CpuMap.map_size n))%nat) as [Hk|Hk].
  - rewrite lookup_seqZ_lt by lia. rewrite lookup_take_lt by done. unfold CpuMap.GetNthMap.
    cbn [fmap option_fmap option_map]. rewrite Z.add_0_l, Nat2Z.id. symmetry. apply list_lookup_lookup_total_lt. lia.
  - rewrite lookup_seqZ_ge by lia. rewrite lookup_take_ge by lia. done.
Qed.

Lemma words_bits_length i ws :
  Z.of_nat (length (words_bits i ws)) = foldr (fun w s => popcount64 w + s) 0 ws.
Proof.
  revert i. induction ws as [|w ws IH]; intros i; cbn [words_bits foldr]; [done|].
  rewrite length_app, length_fmap, popcount_bits. specialize (IH (i + 1)). lia.
Qed.

Lemma cpus_length n m : 0 <= n -> Z.of_nat (length (cpus n m)) <= n.
Proof.
  intros Hn. unfold cpus. pose proof (length_filter (fun i => bit m i = true) (seqZ 0 n)) as H.
  rewrite length_seqZ in H. lia.
Qed.

Lemma count_loop (pc : Z -> Z) ws acc :
  (forall w, 0 <= pc w) -> 0 <= acc -> acc + foldr (fun w s => pc w + s) 0 ws < 2 ^ 32 ->
  foldl (fun ret w => u32 (ret + pc w)) acc ws = acc + foldr (fun w s => pc w + s) 0 ws.
Proof.
  intros Hpc. assert (Hpos : forall ws, 0 <= foldr (fun w s => pc w + s) 0 ws).
  { clear ws. intros ws. induction ws as [|w ws IH]; cbn [foldr]; [done|]. specialize (Hpc w). lia. }
  revert acc. induction ws as [|w ws IH]; intros acc H0 Hlt; cbn [foldl foldr] in *; [lia|].
  specialize (Hpos ws). specialize (Hpc w). rewrite u32_id by lia. rewrite IH by lia. lia.
Qed.

Lemma Size_spec n m : map_wf n m -> CpuMap.Size n m = Z.of_nat (length (cpus n m)).
Proof.
  intros Hwf. pose proof Hwf as [Hn _ _ _]. unfold CpuMap.Size, CpuMap.CountSetCpus.
  pose proof (words_bits_length 0 (take (Z.to_nat (CpuMap.map_size n)) m)) as Hlen.
  rewrite (words_bits_cpus n m Hwf) in Hlen. pose proof (cpus_length n m ltac:(lia)). unfold MAX_CPUS in Hn.
  rewrite <- (words_of_map n m Hwf) in Hlen.
  pose proof (count_loop popcount64 (CpuMap.GetNthMap m <$> seqZ 0 (CpuMap.map_size n)) 0) as Hc.
  rewrite foldl_fmap in Hc. rewrite Hc; [by rewrite <- Hlen| |done|rewrite <- Hlen; lia].
  intros w. rewrite popcount_bits. lia.
Qed.

Lemma Empty_spec n m : map_wf n m -> CpuMap.Empty n m = true <-> cpus n m = [].
Proof.
  intros Hwf. rewrite <- (words_bits_cpus n m Hwf), <- (words_of_map n m Hwf). unfold CpuMap.Empty.
  assert (Hok : Forall word_ok (CpuMap.GetNthMap m <$> seqZ 0 (CpuMap.map_size n))).
  { rewrite (words_of_map n m Hwf). apply Forall_take, (wf_words _ _ Hwf). }
  generalize 0 at 3 as i. induction (seqZ 0 (CpuMap.map_size n)) as [|k l IH]; intros i; cbn in *; [done|].
  apply Forall_cons in Hok as [Hw Hok]. rewrite andb_true_iff, Z.eqb_eq, (IH Hok (i + 1)).
  split.
  - intros [Hz Hr]. rewrite Hz, word_bits_zero. exact Hr.
  - intros [E Hr]%app_nil. apply fmap_nil_inv in E. split; [by apply word_bits_nil|done].
Qed.

Lemma nth_loop_spec i ws n :
  Forall word_ok ws -> 0 <= n -> CpuList.nth_loop i ws n = words_bits i ws !! Z.to_nat n.
Proof.
  intros Hok. revert i n. induction Hok as [|w ws Hw Hok IH]; intros i n Hn; [done|].
  cbn [CpuList.nth_loop words_bits]. rewrite popcount_bits.
  destruct (Z.leb_spec (Z.of_nat (length (word_bits w))) n) as [Hle|Hgt].
  - rewrite lookup_app_r by (rewrite length_fmap; lia). rewrite length_fmap, IH by lia. f_equal. lia.
  - rewrite lookup_app_l by (rewrite length_fmap; lia). rewrite list_lookup_fmap, ctzll_bits, clear_lowest_bits by done.
    rewrite head_lookup, lookup_drop, Nat.add_0_r. by destruct (word_bits w !! Z.to_nat n).
Qed.

Lemma GetNthCpu_spec n m k : map_wf n m -> 0 <= k -> CpuList.GetNthCpu n m k = cpus n m !! Z.to_nat k.
Proof.
  intros Hwf Hk. unfold CpuList.GetNthCpu. rewrite nth_loop_spec; [by rewrite words_bits_cpus| |done].
  apply Forall_take, (wf_words _ _ Hwf).
Qed.

Lemma vector_loop_spec n m i k :
  map_wf n m -> 0 <= i -> CpuList.vector_loop n m i k = take k (drop (Z.to_nat i) (cpus n m)).
Proof.
  intros Hwf. revert i. induction k as [|k IH]; intros i Hi; [done|]. cbn [CpuList.vector_loop].
  rewrite GetNthCpu_spec by done. destruct (cpus n m !! Z.to_nat i) as [c|] eqn:E.
  - rewrite (drop_S _ _ _ E). cbn. rewrite IH by lia. do 2 f_equal. f_equal. lia.
  - apply lookup_ge_None in E. by rewrite drop_ge.
Qed.

(** *** The iterator *)

Definition cpus_from (n : Z) (m : bitmap) (id : Z) : list Z := filter (fun i => bit m i = true) (seqZ id (n - id)).

Lemma find_loop_spec n m lo N map_idx word :
  map_wf n m -> 0 <= map_idx -> CpuMap.map_size n <= map_idx + Z.of_nat N -> lo <= (map_idx + 1) * 64 ->
  (map_idx < CpuMap.map_size n -> word_ok word /\ forall k, 0 <= k < 64 ->
     Z.testbit word k = bool_decide (lo <= map_idx * 64 + k) && bit m (map_idx * 64 + k)) ->
  match CpuMap.find_loop n m N map_idx word with
  | Some i => map_idx * 64 <= i < 64 * CpuMap.map_size n /\ lo <= i /\ bit m i = true /\
              forall k, map_idx * 64 <= k -> lo <= k < i -> bit m k = false
  | None => forall k, map_idx * 64 <= k -> lo <= k < 64 * CpuMap.map_size n -> bit m k = false
  end.
Proof.
  intros Hwf. pose proof Hwf as [Hn Hl Hw _]. destruct (map_size_bounds n Hn) as [Hsz _].
  revert map_idx word. induction N as [|N IH]; intros map_idx word H0 HN Hlo Hword; cbn [CpuMap.find_loop].
  { intros k Hk1 Hk2. lia. }
  destruct (Z.ltb_spec map_idx (CpuMap.map_size n)) as [Hlt|Hge]; [|intros k Hk1 Hk2; lia].
  destruct (Hword Hlt) as [Hok Hbits]. destruct (Z.eqb_spec word 0) as [Hz|Hnz]; cbn [negb].
  - subst word. specialize (IH (map_idx + 1) (if map_idx + 1 <? CpuMap.map_size n then CpuMap.GetNthMap m (map_idx + 1) else 0)).
    destruct (Z.ltb_spec (map_idx + 1) (CpuMap.map_size n)) as [Hlt2|Hge2].
    + assert (Hhere : forall k, map_idx * 64 <= k < (map_idx + 1) * 64 -> lo <= k -> bit m k = false).
      { intros k Hk Hlk. specialize (Hbits (k - map_idx * 64) ltac:(lia)). rewrite Z.bits_0 in Hbits.
        replace (map_idx * 64 + (k - map_idx * 64)) with k in Hbits by lia. rewrite bool_decide_eq_true_2 in Hbits by done. done. }
      specialize (IH ltac:(lia) ltac:(lia) ltac:(lia)).
      destruct (CpuMap.find_loop n m N (map_idx + 1) _) as [i|].
      * destruct IH as (I1 & I2 & I3 & I4).
        { intros _. unfold CpuMap.GetNthMap. split; [apply word_lookup; [done|lia]|]. intros k Hk.
          rewrite bool_decide_eq_true_2 by lia. cbn.
          replace ((map_idx + 1) * 64 + k) with (64 * Z.of_nat (Z.to_nat (map_idx + 1)) + k) by lia.
          by rewrite bit_word. }
        split_and!; try done; try lia. intros k Hk1 Hk2. destruct (Z.lt_ge_cases k ((map_idx + 1) * 64)); [apply Hhere; lia|apply I4; lia].
      * intros k Hk1 Hk2. destruct (Z.lt_ge_cases k ((map_idx + 1) * 64)); [apply Hhere; lia|]. apply IH; [|lia|lia].
        intros _. unfold CpuMap.GetNthMap. split; [apply word_lookup; [done|lia]|]. intros k' Hk'.
        rewrite bool_decide_eq_true_2 by lia. cbn.
        replace ((map_idx + 1) * 64 + k') with (64 * Z.of_nat (Z.to_nat (map_idx + 1)) + k') by lia.
        by rewrite bit_word.
    + assert (E : CpuMap.find_loop n m N (map_idx + 1) 0 = None).
      { destruct N; cbn [CpuMap.find_loop]; [done|]. by rewrite (proj2 (Z.ltb_ge _ _)). }
      rewrite E. intros k Hk1 Hk2. specialize (Hbits (k - map_idx * 64) ltac:(lia)). rewrite Z.bits_0 in Hbits.
      replace (map_idx * 64 + (k - map_idx * 64)) with k in Hbits by lia. rewrite bool_decide_eq_true_2 in Hbits by lia. done.
  - destruct (ctzll word) as [b|] eqn:Ec.
    + apply ctzll_Some in Ec as (Hb & Hbb & Hmin). rewrite Hbits in Hbb by done. apply andb_true_iff in Hbb as [Hb1 Hb2].
      apply bool_decide_eq_true in Hb1. unfold kIntsBits. split_and!; try done; try lia.
      intros k Hk1 Hk2. specialize (Hmin (k - map_idx * 64) ltac:(lia)). rewrite Hbits in Hmin by lia.
      replace (map_idx * 64 + (k - map_idx * 64)) with k in Hmin by lia. by rewrite bool_decide_eq_true_2 in Hmin by lia.
    + exfalso. rewrite ctzll_bits in Ec. apply Hnz, word_bits_nil; [done|]. by destruct (word_bits word).
Qed.

Lemma high_mask_bits off k :
  0 <= off < 64 -> 0 <= k < 64 -> Z.testbit (u64 (Z.shiftl (2 ^ 64 - 1) off)) k = bool_decide (off <= k).
Proof.
  intros Ho Hk. unfold u64. rewrite Z.mod_pow2_bits_low, Z.shiftl_spec by lia.
  change (2 ^ 64 - 1) with (Z.ones 64). destruct (Z.lt_ge_cases k off).
  - rewrite Z.testbit_neg_r by lia. by rewrite bool_decide_eq_false_2 by lia.
  - rewrite Z.ones_spec_low by lia. by rewrite bool_decide_eq_true_2 by lia.
Qed.

Lemma FindNextSetBit_spec n m id :
  map_wf n m -> 0 <= id <= n ->
  match cpus_from n m id with
  | [] => CpuMap.FindNextSetBit n m id = (n, None)
  | i :: rest => CpuMap.FindNextSetBit n m id = (i, Some i) /\ id <= i < n /\ rest = cpus_from n m (i + 1)
  end.
Proof.
  intros Hwf Hid. pose proof Hwf as [Hn Hl Hw Hb]. destruct (map_size_bounds n Hn) as [Hsz Hsz2].
  assert (Hnone : (forall k, id <= k < n -> bit m k = false) -> cpus_from n m id = []).
  { intros H. apply filter_none. intros k Hk%elem_of_seqZ. rewrite H by lia. done. }
  unfold CpuMap.FindNextSetBit, kIntsBits.
  destruct (Z.leb_spec (CpuMap.map_size n) (id / 64)) as [Hge|Hlt].
  { pose proof (Z.div_mod id 64 ltac:(lia)). pose proof (Z.mod_pos_bound id 64 ltac:(lia)). rewrite Hnone; [done|]. lia. }
  assert (Hoff : Z.land id (64 - 1) = id mod 64) by (change (64 - 1) with (Z.ones 6); by rewrite Z.land_ones).
  rewrite Hoff. set (word := Z.land _ _).
  pose proof (Z.div_mod id 64 ltac:(lia)) as Hdm. pose proof (Z.mod_pos_bound id 64 ltac:(lia)) as Hmod.
  assert (H0 : 0 <= id / 64) by (apply Z.div_pos; lia).
  pose proof (find_loop_spec n m id (Z.to_nat (CpuMap.map_size n - id / 64)) (id / 64) word Hwf H0 ltac:(lia) ltac:(lia)) as Hf.
  assert (Hword : word_ok word /\ forall k, 0 <= k < 64 ->
     Z.testbit word k = bool_decide (id <= id / 64 * 64 + k) && bit m (id / 64 * 64 + k)).
  { assert (Hwo : word_ok (CpuMap.GetNthMap m (id / 64))) by (apply word_lookup; [done|lia]). split.
    - apply land_word; [done|]. apply Z.land_nonneg. left. by destruct Hwo.
    - intros k Hk. unfold word. rewrite Z.land_spec, high_mask_bits by lia.
      replace (bool_decide (id <= id / 64 * 64 + k)) with (bool_decide (id mod 64 <= k)) by (apply bool_decide_ext; lia).
      replace (id / 64 * 64 + k) with (64 * Z.of_nat (Z.to_nat (id / 64)) + k) by lia.
      rewrite bit_word by done. apply andb_comm. }
  destruct (CpuMap.find_loop n m _ _ word) as [i|]; specialize (Hf (fun _ => Hword)).
  - destruct Hf as (Hi1 & Hi2 & Hbi & Hmin).
    assert (Hin : i < n).
    { destruct (Z.lt_ge_cases i n); [done|]. rewrite Hb in Hbi by (unfold MAX_CPUS in *; lia). done. }
    unfold cpus_from. replace (n - id) with ((i - id) + (n - i)) by lia. rewrite seqZ_app, filter_app by lia.
    rewrite filter_none.
    + cbn [app]. replace (id + (i - id)) with i by lia. rewrite seqZ_cons by lia. rewrite filter_cons_True by done.
      split; [done|]. split; [lia|]. do 2 f_equal; lia.
    + intros k Hk%elem_of_seqZ. rewrite Hmin by lia. done.
  - rewrite Hnone; [done|]. intros k Hk. apply Hf; lia.
Qed.

Lemma for_loop_spec n m fuel id :
  map_wf n m -> 0 <= id <= n -> (length (cpus_from n m id) < fuel)%nat ->
  CpuMap.for_loop n m fuel (CpuMap.FindNextSetBit n m id) = cpus_from n m id.
Proof.
  intros Hwf. pose proof Hwf as [Hn _ _ _].
  assert (Hend : fst (CpuMap.end_ n m) = n).
  { unfold CpuMap.end_. pose proof (FindNextSetBit_spec n m n Hwf ltac:(lia)) as H.
    unfold cpus_from in H. rewrite Z.sub_diag in H. cbn in H. by rewrite H. }
  revert id. induction fuel as [|fuel IH]; intros id Hid Hlen; [lia|]. cbn [CpuMap.for_loop]. rewrite Hend.
  pose proof (FindNextSetBit_spec n m id Hwf Hid) as H. destruct (cpus_from n m id) as [|i rest].
  - rewrite H. cbn [fst]. by rewrite Z.eqb_refl.
  - destruct H as (-> & Hi & ->). cbn [fst snd]. rewrite (proj2 (Z.eqb_neq _ _)) by lia. f_equal.
    apply IH; [lia|]. cbn in Hlen. lia.
Qed.

Lemma begin_loop_spec n m fuel :
  map_wf n m -> (Z.to_nat n < fuel)%nat -> CpuMap.for_loop n m fuel (CpuMap.begin n m) = cpus n m.
Proof.
  intros Hwf Hf. pose proof Hwf as [Hn _ _ _].
  assert (E : cpus_from n m 0 = cpus n m) by (unfold cpus_from; by rewrite Z.sub_0_r).
  unfold CpuMap.begin. rewrite for_loop_spec; [done..|lia|].
  rewrite E. pose proof (cpus_length n m ltac:(lia)). lia.
Qed.

Lemma iterate_spec n m : map_wf n m -> CpuMap.iterate n m = cpus n m.
Proof. intros Hwf. apply begin_loop_spec; [done|lia]. Qed.
