(* ===== verification/CpuMapProps.v ===== *)
(** * Contracts of the CPU bitmaps

    The set algebra, the agreement of the enumerations, the mask string the
    kernel reads back, and the atomic operations in any interleaving. *)

From Stdlib Require Import Ascii Sorted.
From S2P Require Import Prelude CpuMap CpuMapSpec.

(** The maps of a topology with [n] CPUs that stand for the set [S]. *)
Definition denotes (n : Z) (m : bitmap) (S : Z -> Prop) : Prop :=
  map_wf n m /\ forall i, 0 <= i < n -> (CpuMap.IsSet m i = true <-> S i).

Lemma denotes_wf n m : map_wf n m -> denotes n m (fun i => i ∈ cpus n m).
Proof.
  intros Hwf. split; [done|]. intros i Hi. rewrite IsSet_bit by lia. rewrite elem_of_cpus. naive_solver.
Qed.

Lemma denotes_bit n m S i : denotes n m S -> 0 <= i < n -> (bit m i = true <-> S i).
Proof. intros [_ H] Hi. rewrite <- IsSet_bit by lia. by apply H. Qed.

(** The list operations are the set operations, and equality of the used
    words is equality of the sets. *)
Theorem cpulist_set_algebra n a b A B id :
  denotes n a A -> denotes n b B -> 0 <= id < n ->
  denotes n empty_map (fun _ => False) /\
  denotes n (CpuMap.Set_ a id) (fun i => i = id \/ A i) /\
  denotes n (CpuMap.Clear a id) (fun i => i <> id /\ A i) /\
  denotes n (CpuList.Union n a b) (fun i => A i \/ B i) /\
  denotes n (CpuList.Intersection n a b) (fun i => A i /\ B i) /\
  denotes n (CpuList.Subtract n a b) (fun i => A i /\ ~ B i) /\
  (CpuList.eqb n a b = true <-> forall i, 0 <= i < n -> (A i <-> B i)).
Proof.
  intros Ha Hb Hid. pose proof Ha as [Hwa _]. pose proof Hb as [Hwb _]. pose proof Hwa as [Hn Hla _ _].
  assert (Hden : forall m S, map_wf n m -> (forall i, 0 <= i < n -> (bit m i = true <-> S i)) -> denotes n m S).
  { intros m S Hw HS. split; [done|]. intros i Hi. rewrite IsSet_bit by lia. by apply HS. }
  assert (Hland : forall w v : Z, word_ok w -> word_ok v -> word_ok (Z.land w v)).
  { intros w v Hw Hv. apply land_word; [done|]. apply Z.land_nonneg. left. by destruct Hw. }
  assert (Hlandn : forall w v : Z, word_ok w -> word_ok v -> word_ok (Z.land w (Z.lnot v))).
  { intros w v Hw Hv. apply land_word; [done|]. apply Z.land_nonneg. left. by destruct Hw. }
  assert (Hlor : forall w v : Z, word_ok w -> word_ok v -> word_ok (Z.lor w v)).
  { intros w v Hw Hv. apply lor_word; [done|by destruct Hv|]. intros k Hk. by apply word_ok_high. }
  assert (Hbn : forall w v k : Z, 0 <= k -> Z.testbit (Z.land w (Z.lnot v)) k = Z.testbit w k && negb (Z.testbit v k)).
  { intros w v k Hk. by rewrite Z.land_spec, Z.lnot_spec. }
  split_and!; try (apply Hden).
  - by apply empty_wf.
  - intros i Hi. rewrite <- IsSet_bit by lia. unfold CpuMap.IsSet, CpuMap.GetNthMap, empty_map, kIntsBits.
    rewrite lookup_total_replicate_2; [done|]. change (Z.to_nat kMapCapacity) with (Z.to_nat 8).
    unfold MAX_CPUS in *. apply Z2Nat.inj_lt; [apply Z.div_pos; lia|lia|]. apply Z.div_lt_upper_bound; lia.
  - by apply Set_wf.
  - intros i Hi. rewrite bit_Set by (done || lia). rewrite <- (denotes_bit n a A) by done. case_decide; naive_solver.
  - apply Clear_wf; [done|lia].
  - intros i Hi. rewrite bit_Clear by (done || lia). rewrite <- (denotes_bit n a A) by done. case_decide; naive_solver.
  - apply (transform_wf _ _ orb); auto using Z.lor_spec.
  - intros i Hi. unfold CpuList.Union. rewrite (bit_transform n _ orb) by auto using Z.lor_spec.
    rewrite orb_true_iff, (denotes_bit n a A), (denotes_bit n b B) by done. done.
  - apply (transform_wf _ _ andb); auto using Z.land_spec.
  - intros i Hi. unfold CpuList.Intersection. rewrite (bit_transform n _ andb) by auto using Z.land_spec.
    rewrite andb_true_iff, (denotes_bit n a A), (denotes_bit n b B) by done. done.
  - apply (transform_wf _ _ (fun x y => x && negb y)); auto.
  - intros i Hi. unfold CpuList.Subtract. rewrite (bit_transform n _ (fun x y => x && negb y)) by auto.
    rewrite andb_true_iff, negb_true_iff, <- not_true_iff_false, (denotes_bit n a A), (denotes_bit n b B) by done. done.
  - rewrite eqb_spec by done. split.
    + intros E i Hi. rewrite <- (denotes_bit n a A), <- (denotes_bit n b B) by done.
      assert (Hin : i ∈ cpus n a <-> i ∈ cpus n b) by (by rewrite E). rewrite !elem_of_cpus in Hin. tauto.
    + intros E. apply cpus_ext. intros i Hi. apply eq_true_iff_eq.
      rewrite (denotes_bit n a A), (denotes_bit n b B) by done. by apply E.
Qed.

(** [l] holds the CPUs of [m], each once, in increasing order. *)
Definition enumerates (n : Z) (m : bitmap) (l : list Z) : Prop :=
  StronglySorted Z.lt l /\ forall i, i ∈ l <-> 0 <= i < n /\ CpuMap.IsSet m i = true.

Lemma seqZ_sorted a k : StronglySorted Z.lt (seqZ a k).
Proof.
  destruct (Z.le_gt_cases k 0) as [Hk|Hk]; [rewrite seqZ_nil by lia; constructor|].
  assert (Hk' : 0 <= k) by lia. clear Hk. revert a. pattern k. apply natlike_ind; [..|done].
  - intros a. rewrite seqZ_nil by lia. constructor.
  - intros x Hx IH a. rewrite seqZ_cons, Z.pred_succ by lia. constructor; [done|].
    apply Forall_forall. intros y Hy%elem_of_seqZ. lia.
Qed.

Lemma cpus_enumerates n m : enumerates n m (cpus n m).
Proof.
  split.
  - unfold cpus. assert (Hs : StronglySorted Z.lt (seqZ 0 n)).
    { apply seqZ_sorted. }
    induction Hs as [|a l _ IH Hall]; [constructor|]. rewrite filter_cons. case_decide; [|done].
    constructor; [done|]. rewrite Forall_forall in *. intros x [_ Hx]%list_elem_of_filter. by apply Hall.
  - intros i. rewrite elem_of_cpus. split; intros [? Hb]; (split; [done|]); by rewrite IsSet_bit in * by lia.
Qed.

(** C36: iterating over a map, indexing it and converting it to a vector all
    list exactly its CPUs, each once, in increasing order; the range-based for
    ends after at most [n] rounds; size, emptiness and the end elements agree. *)
Theorem cpulist_enumerations_agree n m :
  map_wf n m ->
  exists l, enumerates n m l /\
  (forall fuel, (Z.to_nat n < fuel)%nat -> CpuMap.for_loop n m fuel (CpuMap.begin n m) = l) /\
  CpuMap.iterate n m = l /\ CpuList.ToVector n m = l /\ CpuList.ToIntVector n m = l /\
  CpuMap.Size n m = Z.of_nat (length l) /\
  (CpuMap.Empty n m = true <-> l = []) /\
  (forall k, 0 <= k -> CpuList.GetNthCpu n m k = l !! Z.to_nat k) /\
  CpuList.Front n m = head l /\ CpuList.Back n m = last l.
Proof.
  intros Hwf. pose proof Hwf as [Hn _ _ _]. pose proof (Size_spec n m Hwf) as Hsz.
  pose proof (cpus_length n m ltac:(lia)) as Hlen. unfold MAX_CPUS in Hn.
  assert (Hv : CpuList.vector_loop n m 0 (Z.to_nat (CpuMap.Size n m)) = cpus n m).
  { rewrite vector_loop_spec, Hsz, Nat2Z.id by (done || lia). cbn [Z.to_nat drop]. by apply take_ge. }
  exists (cpus n m).
  split_and!; [apply cpus_enumerates| |by apply iterate_spec|done|done|done|by apply Empty_spec|by intros; apply GetNthCpu_spec|..].
  - intros fuel Hf. by apply begin_loop_spec.
  - unfold CpuList.Front. rewrite GetNthCpu_spec by (done || lia). by rewrite head_lookup.
  - unfold CpuList.Back. rewrite Hsz, last_lookup. destruct (cpus n m) as [|c l] eqn:E.
    + rewrite GetNthCpu_spec by (done || (cbn; lia)). by rewrite E.
    + cbn [length] in *. rewrite u32_id by lia. rewrite GetNthCpu_spec by (done || lia). rewrite E. f_equal. cbn. lia.
Qed.

(** ** The mask string *)

(** How the kernel reads a mask: hexadecimal digits, commas ignored. *)
Definition digit (c : ascii) : Z :=
  let n := Z.of_N (N_of_ascii c) in if n <? 58 then n - 48 else n - 87.

Definition is_hex (c : ascii) : Prop := exists d, 0 <= d < 16 /\ c = CpuList.hex d.

Definition read_mask (s : list ascii) : Z :=
  fold_left (fun acc c => if ascii_dec c "," then acc else acc * 16 + digit c) s 0.

Lemma hex_digit d : 0 <= d < 16 -> digit (CpuList.hex d) = d /\ CpuList.hex d <> ","%char.
Proof.
  intros Hd. assert (Hc : Forall (fun d => digit (CpuList.hex d) = d /\ CpuList.hex d <> ","%char) (seqZ 0 16)).
  { cbn. repeat constructor; discriminate. }
  rewrite Forall_forall in Hc. apply Hc, elem_of_seqZ. lia.
Qed.

Lemma read_snoc s d : 0 <= d < 16 -> read_mask (s ++ [CpuList.hex d]) = read_mask s * 16 + d.
Proof.
  intros Hd. unfold read_mask. rewrite fold_left_app. cbn. destruct (hex_digit d Hd) as [-> Hne].
  by destruct (ascii_dec _ _).
Qed.

(** The digits of a sequence of bytes, highest first. *)
Definition val_bytes (bs : list Z) : Z := fold_left (fun acc b => acc * 256 + b) bs 0.

Definition nibble_inv (st : list ascii * bool) (v : Z) : Prop :=
  Forall is_hex (fst st) /\ read_mask (fst st) = v /\ snd st = negb (length (fst st) =? 0)%nat /\
  head (fst st) <> Some "0"%char /\ 0 <= v.

Lemma hex_zero d : 0 <= d < 16 -> CpuList.hex d = "0"%char -> d = 0.
Proof. intros Hd E. destruct (hex_digit d Hd) as [Hx _]. by rewrite E in Hx. Qed.

(** One nibble. *)
Lemma nibble_one s e v d :
  0 <= d < 16 -> nibble_inv (s, e) v ->
  nibble_inv (if negb (d =? 0) || e then (s ++ [CpuList.hex d], true) else (s, e)) (v * 16 + d).
Proof.
  intros Hd (Hh & Hr & He & Hz & Hv). cbn [fst snd] in *.
  destruct (negb (d =? 0) || e) eqn:Ec; unfold nibble_inv; cbn [fst snd].
  - split_and!.
    + apply Forall_app. split; [done|]. constructor; [by exists d|constructor].
    + by rewrite read_snoc, Hr.
    + rewrite length_app. cbn. by rewrite Nat.add_comm.
    + destruct s as [|c s]; cbn in *; [|done]. intros [= E]. apply hex_zero in E; [|done]. subst d e. done.
    + lia.
  - apply orb_false_iff in Ec as [Hd0 ->]. apply negb_false_iff, Z.eqb_eq in Hd0. subst d.
    destruct s; [|done]. cbn in Hr. subst v. done.
Qed.

Lemma nibble_step_inv st v b :
  0 <= b < 256 -> nibble_inv st v -> nibble_inv (CpuList.nibble_step st b) (v * 256 + b).
Proof.
  intros Hb Hi. destruct st as [s e]. unfold CpuList.nibble_step.
  assert (Hhi : 0 <= Z.shiftr b 4 < 16).
  { rewrite Z.shiftr_div_pow2 by lia. change (2 ^ 4) with 16. split; [apply Z.div_pos; lia|apply Z.div_lt_upper_bound; lia]. }
  assert (Hlo : Z.land b 15 = b mod 16) by (change 15 with (Z.ones 4); by rewrite Z.land_ones).
  pose proof (Z.mod_pos_bound b 16 ltac:(lia)).
  pose proof (nibble_one s e v (Z.shiftr b 4) Hhi Hi) as H1. destruct (if negb _ || e then _ else _) as [s1 e1].
  replace (v * 256 + b) with ((v * 16 + Z.shiftr b 4) * 16 + Z.land b 15).
  - apply nibble_one; [lia|done].
  - rewrite Hlo, Z.shiftr_div_pow2 by lia. change (2 ^ 4) with 16. pose proof (Z.div_mod b 16 ltac:(lia)). lia.
Qed.

Lemma bytes_bounded n m : Forall (fun b => 0 <= b < 256) (rev (CpuList.bytes n m)).
Proof.
  apply Forall_rev, Forall_flat_map, Forall_forall. intros w _. apply Forall_forall. intros b Hb'.
  apply list_elem_of_fmap in Hb' as (i & -> & _). change 255 with (Z.ones 8). rewrite Z.land_ones by lia.
  apply Z.mod_pos_bound. lia.
Qed.

Lemma nibbles_inv bs st v :
  Forall (fun b => 0 <= b < 256) bs -> nibble_inv st v ->
  nibble_inv (foldl CpuList.nibble_step st bs) (fold_left (fun acc b => acc * 256 + b) bs v).
Proof.
  intros Hbs. revert st v. induction Hbs as [|b bs Hb _ IH]; intros st v Hi; [done|]. cbn.
  by apply IH, nibble_step_inv.
Qed.

(** The value of the used words. *)
Definition val_words (ws : list Z) : Z := foldr (fun w acc => w + 2 ^ 64 * acc) 0 ws.

Lemma val_bytes_rev bs : val_bytes (rev bs) = foldr (fun b acc => b + 256 * acc) 0 bs.
Proof.
  unfold val_bytes. rewrite <- fold_left_rev_right, rev_involutive.
  induction bs as [|b bs IH]; cbn [foldr]; [done|]. rewrite IH. lia.
Qed.

Lemma word_bytes w rest j k :
  0 <= w -> 0 <= j ->
  foldr (fun b acc => b + 256 * acc) rest (map (fun i => Z.land (Z.shiftr w (8 * i)) 255) (seqZ j (Z.of_nat k))) =
  Z.shiftr w (8 * j) mod 2 ^ (8 * Z.of_nat k) + 2 ^ (8 * Z.of_nat k) * rest.
Proof.
  intros Hw. revert j. induction k as [|k IH]; intros j Hj.
  { change (seqZ j (Z.of_nat 0)) with (@nil Z). change (2 ^ (8 * Z.of_nat 0)) with 1. rewrite Z.mod_1_r. cbn [foldr map]. lia. }
  rewrite seqZ_cons by lia. cbn [map foldr]. replace (Z.pred (Z.of_nat (S k))) with (Z.of_nat k) by lia.
  rewrite IH by lia. change 255 with (Z.ones 8). rewrite Z.land_ones by lia.
  replace (8 * Z.of_nat (S k)) with (8 + 8 * Z.of_nat k) by lia. rewrite Z.pow_add_r by lia.
  set (x := Z.shiftr w (8 * j)).
  assert (E : Z.shiftr w (8 * Z.succ j) = x / 2 ^ 8).
  { unfold x. rewrite <- Z.shiftr_div_pow2, Z.shiftr_shiftr by lia. f_equal. lia. }
  rewrite E. pose proof (Z.pow_pos_nonneg 2 (8 * Z.of_nat k)).
  rewrite Z.rem_mul_r by lia. change (2 ^ 8) with 256. lia.
Qed.

Lemma bytes_value ws :
  Forall word_ok ws ->
  foldr (fun b acc => b + 256 * acc) 0
    (flat_map (fun w => map (fun i => Z.land (Z.shiftr w (8 * i)) 255) (seqZ 0 8)) ws) = val_words ws.
Proof.
  induction 1 as [|w ws Hw _ IH]; [done|]. cbn [flat_map val_words foldr]. rewrite foldr_app.
  change (seqZ 0 8) with (seqZ 0 (Z.of_nat 8)). rewrite (word_bytes w _ 0 8) by (destruct Hw; lia).
  fold (val_words ws). rewrite <- IH. change (8 * Z.of_nat 8) with 64. rewrite Z.mul_0_r, Z.shiftr_0_r.
  by rewrite Z.mod_small by done.
Qed.

Lemma val_words_bit ws i :
  Forall word_ok ws -> 0 <= i ->
  Z.testbit (val_words ws) i =
  match ws !! Z.to_nat (i / 64) with Some w => Z.testbit w (i mod 64) | None => false end.
Proof.
  intros Hws. revert i. induction Hws as [|w ws Hw _ IH]; intros i Hi; [apply Z.bits_0|].
  cbn [val_words foldr]. fold (val_words ws). destruct (Z.lt_ge_cases i 64) as [Hlt|Hge].
  - rewrite <- (Z.mod_pow2_bits_low _ 64) by lia. rewrite Z.mul_comm, Z.mod_add, (Z.mod_small w) by (done || lia).
    rewrite Z.div_small, Z.mod_small by lia. done.
  - replace i with (i - 64 + 64) at 1 by lia. rewrite <- Z.div_pow2_bits by lia.
    rewrite Z.mul_comm, Z.div_add, Z.div_small, Z.add_0_l by (done || lia). rewrite IH by lia.
    assert (Hd : i / 64 = (i - 64) / 64 + 1) by (rewrite <- Z.div_add by lia; f_equal; lia).
    assert (Hm : i mod 64 = (i - 64) mod 64) by (rewrite <- (Z.mod_add (i - 64) 1) by lia; f_equal; lia).
    rewrite Hd, Hm.
    replace (Z.to_nat ((i - 64) / 64 + 1)) with (S (Z.to_nat ((i - 64) / 64))); [done|].
    rewrite <- Z2Nat.inj_succ by (apply Z.div_pos; lia). f_equal.
Qed.

(** Commas. *)
Lemma comma_split s1 s2 k :
  (Z.of_nat (length s1) <= k) ->
  CpuList.comma_loop (s1 ++ s2) k = s1 ++ CpuList.comma_loop s2 (k - Z.of_nat (length s1)).
Proof.
  revert k. induction s1 as [|c s1 IH]; intros k Hk; cbn [app length] in *.
  { by rewrite Z.sub_0_r. }
  cbn [CpuList.comma_loop]. rewrite (proj2 (Z.eqb_neq _ _)) by lia. rewrite IH by lia.
  by replace (k - 1 - Z.of_nat (length s1)) with (k - Z.of_nat (S (length s1))) by lia.
Qed.

(** The digits in groups of eight after the first. *)
Definition grouped (s : list ascii) : Prop :=
  exists g gs, s = g ++ concat (map (fun x => ","%char :: x) gs) /\
    (1 <= length g <= 8)%nat /\ Forall is_hex g /\ Forall (fun x => length x = 8%nat /\ Forall is_hex x) gs.

Lemma read_app s1 s2 : read_mask (s1 ++ s2) =
  fold_left (fun acc c => if ascii_dec c "," then acc else acc * 16 + digit c) s2 (read_mask s1).
Proof. apply fold_left_app. Qed.

Lemma comma_groups q s :
  length s = (8 * q)%nat -> Forall is_hex s ->
  exists gs, CpuList.comma_loop s 0 = concat (map (fun x => ","%char :: x) gs) /\
    Forall (fun x => length x = 8%nat /\ Forall is_hex x) gs /\
    forall a, fold_left (fun acc c => if ascii_dec c "," then acc else acc * 16 + digit c)
      (CpuList.comma_loop s 0) a =
      fold_left (fun acc c => if ascii_dec c "," then acc else acc * 16 + digit c) s a.
Proof.
  revert s. induction q as [|q IH]; intros s Hlen Hhex.
  { destruct s; [|cbn in Hlen; lia]. exists []. split; [done|]. split; [constructor|done]. }
  destruct s as [|c s]; [cbn in Hlen; lia|].
  assert (E : CpuList.comma_loop (c :: s) 0 = ","%char :: CpuList.comma_loop (c :: s) 8) by done.
  rewrite <- (take_drop 8 (c :: s)) in Hhex. apply Forall_app in Hhex as [Hh1 Hh2].
  destruct (IH (drop 8 (c :: s))) as (gs & Eg & Hgs & Hrd); [rewrite length_drop; lia|done|].
  assert (Hl8 : length (take 8 (c :: s)) = 8%nat) by (rewrite length_take; lia).
  assert (Ec : CpuList.comma_loop (take 8 (c :: s) ++ drop 8 (c :: s)) 8 =
               take 8 (c :: s) ++ CpuList.comma_loop (drop 8 (c :: s)) 0).
  { rewrite comma_split by lia. rewrite Hl8. done. }
  rewrite take_drop in Ec. exists (take 8 (c :: s) :: gs). rewrite E, Ec. split_and!.
  - cbn [map concat]. by rewrite Eg.
  - constructor; [done|done].
  - intros a. cbn [fold_left]. destruct (ascii_dec "," ","); [|done].
    transitivity (fold_left (fun acc c => if ascii_dec c "," then acc else acc * 16 + digit c)
      (take 8 (c :: s) ++ drop 8 (c :: s)) a); [by rewrite !fold_left_app, Hrd|by rewrite take_drop].
Qed.

Lemma commas_spec s :
  Forall is_hex s -> s <> [] ->
  let k := Z.of_nat (length s) mod 8 in
  let r := CpuList.comma_loop s (if k =? 0 then 8 else k) in
  grouped r /\ read_mask r = read_mask s /\ head r = head s.
Proof.
  intros Hhex Hne k r. set (t := if k =? 0 then 8 else k).
  pose proof (Z.div_mod (Z.of_nat (length s)) 8 ltac:(lia)) as Hdm.
  pose proof (Z.mod_pos_bound (Z.of_nat (length s)) 8 ltac:(lia)) as Hb. fold k in Hdm, Hb.
  assert (Hpos : (0 < length s)%nat) by (destruct s; [done|cbn; lia]).
  assert (Ht : 1 <= t <= 8 /\ t <= Z.of_nat (length s) /\
    exists q, Z.of_nat (length s) - t = 8 * Z.of_nat q).
  { unfold t. destruct (Z.eqb_spec k 0) as [E|E].
    - rewrite E in Hdm. split; [lia|]. split; [lia|]. exists (Z.to_nat (Z.of_nat (length s) / 8 - 1)). lia.
    - split; [lia|]. split; [lia|]. exists (Z.to_nat (Z.of_nat (length s) / 8)). lia. }
  destruct Ht as (Ht1 & Ht2 & q & Hq). set (g := take (Z.to_nat t) s). set (s2 := drop (Z.to_nat t) s).
  assert (Es : s = g ++ s2) by (symmetry; apply take_drop).
  assert (Hg : Z.of_nat (length g) = t) by (unfold g; rewrite length_take; lia).
  rewrite Es in Hhex. apply Forall_app in Hhex as [Hh1 Hh2].
  destruct (comma_groups q s2) as (gs & Eg & Hgs & Hrd); [unfold s2; rewrite length_drop; lia|done|].
  assert (Er : r = g ++ CpuList.comma_loop s2 0).
  { unfold r. fold t. rewrite Es at 1. rewrite comma_split by lia. f_equal. f_equal. lia. }
  rewrite Er. split_and!.
  - exists g, gs. rewrite Eg. split; [done|]. split; [lia|done].
  - rewrite read_app, Hrd, <- read_app. by rewrite <- Es.
  - rewrite Es. destruct g; [cbn in Hg; lia|done].
Qed.

(** The mask string holds exactly the CPUs of the map: read back as
    hexadecimal its bits are the map's bits.  It is in the kernel's format, with
    a comma before every eight digits counted from the right, and has no leading
    zero unless it is "0". *)
Theorem cpu_mask_str_roundtrip n m :
  map_wf n m ->
  (forall i, 0 <= i -> Z.testbit (read_mask (CpuList.CpuMaskStr n m)) i = bool_decide (i ∈ cpus n m)) /\
  grouped (CpuList.CpuMaskStr n m) /\
  (CpuList.CpuMaskStr n m = ["0"%char] \/ head (CpuList.CpuMaskStr n m) <> Some "0"%char).
Proof.
  intros Hwf. pose proof Hwf as [Hn Hl Hw Hb]. destruct (map_size_bounds n Hn) as [Hsz Hsz2].
  set (ws := take (Z.to_nat (CpuMap.map_size n)) m).
  assert (Hws : Forall word_ok ws) by (by apply Forall_take).
  pose proof (bytes_bounded n m) as Hbytes.
  pose proof (nibbles_inv (rev (CpuList.bytes n m)) ([], false) 0 Hbytes) as (Hhex & Hrd & _ & Hz & _).
  { repeat split; [constructor|done..]. }
  fold (val_bytes (rev (CpuList.bytes n m))) in Hrd. rewrite val_bytes_rev in Hrd.
  unfold CpuList.bytes in Hrd at 2. fold ws in Hrd. rewrite bytes_value in Hrd by done.
  change (fst (foldl CpuList.nibble_step ([], false) (rev (CpuList.bytes n m)))) with (CpuList.nibbles n m) in *.
  assert (Hbits : forall i, 0 <= i -> Z.testbit (val_words ws) i = bool_decide (i ∈ cpus n m)).
  { intros i Hi. rewrite val_words_bit by done.
    replace (bool_decide (i ∈ cpus n m)) with (bool_decide (i < n) && bit m i).
    2:{ apply eq_true_iff_eq. rewrite andb_true_iff, !bool_decide_eq_true, elem_of_cpus. naive_solver lia. }
    pose proof (Z.div_pos i 64 Hi ltac:(lia)). unfold ws, bit.
    destruct (decide (Z.to_nat (i / 64) < Z.to_nat (CpuMap.map_size n))%nat) as [Hlt|Hge].
    - rewrite lookup_take_lt by done. destruct (lookup_lt_is_Some_2 m (Z.to_nat (i / 64))) as [w Ew]; [lia|].
      rewrite Ew, (list_lookup_total_correct _ _ _ Ew). case_bool_decide as Hin; [done|].
      assert (Hi2 : i < MAX_CPUS).
      { pose proof (Z.div_mod i 64 ltac:(lia)). pose proof (Z.mod_pos_bound i 64 ltac:(lia)). unfold MAX_CPUS. lia. }
      specialize (Hb i ltac:(lia)). unfold bit in Hb. by rewrite (list_lookup_total_correct _ _ _ Ew) in Hb.
    - rewrite lookup_take_ge by lia. rewrite bool_decide_eq_false_2; [done|].
      pose proof (Z.div_mod i 64 ltac:(lia)). pose proof (Z.mod_pos_bound i 64 ltac:(lia)). lia. }
  unfold CpuList.CpuMaskStr. set (s := CpuList.nibbles n m) in *.
  destruct (decide (s = [])) as [Es|Es].
  - rewrite Es. cbn. rewrite Es in Hrd. cbn in Hrd. split; [|split; [|by left]].
    + intros i Hi. rewrite <- Hbits, <- Hrd by done. reflexivity.
    + exists ["0"%char], []. split; [done|]. split; [cbn; lia|]. split; [|constructor].
      constructor; [|constructor]. by exists 0.
  - destruct (commas_spec s Hhex Es) as (Hg & Hr & Hhd). cbv zeta in Hg, Hr, Hhd.
    set (r := CpuList.comma_loop s _) in *.
    assert (Hrne : (length r =? 0)%nat = false).
    { apply Nat.eqb_neq. destruct Hg as (g & gs & -> & Hlen & _). rewrite length_app. lia. }
    rewrite Hrne. split; [|split; [done|right; by rewrite Hhd]].
    intros i Hi. rewrite Hr, Hrd. by apply Hbits.
Qed.

(** ** Atomic maps *)

(** The atomic steps that threads may take, in any interleaving. *)
Inductive atomic_op := ASet (id : Z) | AClear (id : Z) | ATestAndClear (id : Z).

Definition op_id (o : atomic_op) : Z :=
  match o with ASet id => id | AClear id => id | ATestAndClear id => id end.

Definition atomic_step (m : bitmap) (o : atomic_op) : bitmap * option bool :=
  match o with
  | ASet id => (AtomicCpuMap.Set_ m id, None)
  | AClear id => (AtomicCpuMap.Clear m id, None)
  | ATestAndClear id => let '(m, old) := AtomicCpuMap.TestAndClear m id in (m, Some old)
  end.

Fixpoint atomic_run (m : bitmap) (os : list atomic_op) : list (option bool) :=
  match os with
  | [] => []
  | o :: os' => let '(m', r) := atomic_step m o in r :: atomic_run m' os'
  end.

(** What the steps must return: a [TestAndClear] wins exactly when the last step
    on its CPU set the bit. *)
Fixpoint winners (S : Z -> bool) (os : list atomic_op) : list (option bool) :=
  match os with
  | [] => []
  | ASet id :: os' => None :: winners (fun i => if i =? id then true else S i) os'
  | AClear id :: os' => None :: winners (fun i => if i =? id then false else S i) os'
  | ATestAndClear id :: os' => Some (S id) :: winners (fun i => if i =? id then false else S i) os'
  end.

Lemma winners_ext S S' os :
  Forall (fun o => 0 <= op_id o < MAX_CPUS) os -> (forall i, 0 <= i < MAX_CPUS -> S i = S' i) ->
  winners S os = winners S' os.
Proof.
  intros Hos. revert S S'. induction Hos as [|o os Ho _ IH]; intros S S' Heq; [done|].
  destruct o; cbn in *; f_equal; try apply IH; try (intros i Hi; by rewrite Heq). by rewrite Heq.
Qed.

Lemma old_bit w id : negb (Z.land w (Z.lnot (Z.lnot (CpuMap.mask id))) =? 0) = negb (Z.land w (CpuMap.mask id) =? 0).
Proof. by rewrite Z.lnot_involutive. Qed.

(** In every interleaving of atomic steps each [Set] is consumed by at most
    one [TestAndClear]: a [TestAndClear] returns true exactly when the latest
    earlier step on that CPU was a [Set] (or the bit was set to begin with). *)
Theorem test_and_clear_single_winner n m os :
  map_wf n m -> Forall (fun o => 0 <= op_id o < MAX_CPUS) os ->
  atomic_run m os = winners (CpuMap.IsSet m) os.
Proof.
  intros [_ Hl _ _] Hos. revert m Hl. induction Hos as [|o os Ho Hos IH]; intros m Hl; [done|].
  destruct o as [id|id|id]; cbn [atomic_run atomic_step winners op_id] in *.
  - f_equal. unfold AtomicCpuMap.Set_, AtomicCpuMap.fetch_update. cbn [fst].
    change (alter _ _ m) with (CpuMap.Set_ m id). rewrite IH by (unfold CpuMap.Set_; by rewrite length_alter).
    apply winners_ext; [done|]. intros i Hi. rewrite !IsSet_bit, bit_Set by (done || lia).
    case_decide as E; [subst; by rewrite Z.eqb_refl|by rewrite (proj2 (Z.eqb_neq _ _))].
  - f_equal. unfold AtomicCpuMap.Clear, AtomicCpuMap.fetch_update. cbn [fst].
    change (alter _ _ m) with (CpuMap.Clear m id). rewrite IH by (unfold CpuMap.Clear; by rewrite length_alter).
    apply winners_ext; [done|]. intros i Hi. rewrite !IsSet_bit, bit_Clear by (done || lia).
    case_decide as E; [subst; by rewrite Z.eqb_refl|by rewrite (proj2 (Z.eqb_neq _ _))].
  - unfold AtomicCpuMap.TestAndClear, AtomicCpuMap.fetch_update. f_equal; [by rewrite old_bit|].
    change (alter _ _ m) with (CpuMap.Clear m id). rewrite IH by (unfold CpuMap.Clear; by rewrite length_alter).
    apply winners_ext; [done|]. intros i Hi. rewrite !IsSet_bit, bit_Clear by (done || lia).
    case_decide as E; [subst; by rewrite Z.eqb_refl|by rewrite (proj2 (Z.eqb_neq _ _))].
Qed.

(** ** Witnesses *)

Definition demo_map : bitmap := CpuMap.Set_ (CpuMap.Set_ (CpuMap.Set_ empty_map 0) 70) 33.

Lemma demo_map_wf : map_wf 112 demo_map.
Proof. repeat (apply Set_wf; [|lia]). apply empty_wf. unfold MAX_CPUS. lia. Qed.

Lemma cpulist_set_algebra_witness :
  denotes 112 (CpuList.Subtract 112 demo_map (CpuMap.Set_ empty_map 70))
    (fun i => i ∈ cpus 112 demo_map /\ ~ i ∈ cpus 112 (CpuMap.Set_ empty_map 70)).
Proof.
  apply (cpulist_set_algebra 112 demo_map (CpuMap.Set_ empty_map 70)
    (fun i => i ∈ cpus 112 demo_map) (fun i => i ∈ cpus 112 (CpuMap.Set_ empty_map 70)) 5).
  - apply denotes_wf, demo_map_wf.
  - apply denotes_wf, Set_wf; [apply empty_wf; unfold MAX_CPUS; lia|lia].
  - lia.
Defined.

Lemma cpulist_enumerations_agree_witness :
  CpuMap.iterate 112 demo_map = [0; 33; 70] /\ CpuList.Back 112 demo_map = last (CpuMap.iterate 112 demo_map).
Proof.
  destruct (cpulist_enumerations_agree 112 demo_map demo_map_wf) as (l & _ & _ & H1 & _ & _ & _ & _ & _ & _ & H2).
  split; [vm_compute; reflexivity|by rewrite H1, H2].
Defined.

Lemma cpu_mask_str_roundtrip_witness :
  CpuList.CpuMaskStr 112 demo_map =
    ["4"; "0"; ","; "0"; "0"; "0"; "0"; "0"; "0"; "0"; "2"; ","; "0"; "0"; "0"; "0"; "0"; "0"; "0"; "1"]%char /\
  grouped (CpuList.CpuMaskStr 112 demo_map).
Proof.
  split; [vm_compute; reflexivity|]. apply (cpu_mask_str_roundtrip 112 demo_map demo_map_wf).
Defined.

Lemma test_and_clear_single_winner_witness :
  atomic_run empty_map [ASet 7; ATestAndClear 7; ATestAndClear 7] = [None; Some true; Some false].
Proof.
  rewrite (test_and_clear_single_winner 112 empty_map [ASet 7; ATestAndClear 7; ATestAndClear 7]).
  - reflexivity.
  - apply empty_wf. unfold MAX_CPUS. lia.
  - repeat constructor; cbn; unfold MAX_CPUS; lia.
Defined.
