(* ===== verification/Topology.v ===== *)
(** * Topologies

    Models [Cpu] and [Topology] of [lib/topology.h] and [lib/topology.cc]: the
    constructors with their checks, the sibling and NUMA lists, the conversions
    and the export.  [None] is a failed [CHECK].

    Files and system calls are parameters: [contents cpu] is the first line of a
    CPU's sysfs file, [numa_node_of_cpu] the libnuma call, and the numbers of
    [node/possible] come as the results of [absl::SimpleAtoi]. *)

From Stdlib Require Import Ascii.
From stdpp Require Import strings pretty.
From S2P Require Import Prelude CpuMap.

Definition CPU_SETSIZE : Z := 1024.
Definition kNumTestCpus : Z := 112.

(** [CHECK(b)] before the rest. *)
Definition check {A} (b : bool) (k : option A) : option A := if b then k else None.

(** [Cpu::Raw] *)
Record Raw := mk_raw {
  raw_cpu : Z; raw_core : Z; raw_smt_idx : Z; raw_siblings : list Z; raw_l3_siblings : list Z;
  raw_numa_node : Z }.

(** [Cpu::CpuRep] *)
Record CpuRep := mk_rep {
  rep_cpu : Z; rep_core : Z; rep_smt_idx : Z; rep_siblings : bitmap; rep_l3_siblings : bitmap;
  rep_numa_node : Z }.

Record Topology := mk_topology {
  num_cpus : Z; all_cpus : bitmap; cpus_ : list CpuRep; highest_node_idx : Z;
  consecutive_smt_numbering : bool; cpus_on_node_ : list bitmap }.

#[export] Instance CpuRep_inhabited : Inhabited CpuRep := populate (mk_rep 0 0 0 [] [] 0).

(** [ToCpuList(vector)] and the other conversions. *)
Definition ToCpuList (cpus : list Z) : bitmap := foldl CpuMap.Set_ empty_map cpus.

Definition ToCpuList_set (cpus : gset Z) : bitmap :=
  foldl (fun m c => if bool_decide (c ∈ cpus) then CpuMap.Set_ m c else m) empty_map (seqZ 0 CPU_SETSIZE).

Definition ToCpuSet (n : Z) (m : bitmap) : option (gset Z) :=
  foldl (fun acc c => set ← acc; check ((0 <=? c) && (c <? CPU_SETSIZE)) (Some ({[c]} ∪ set)))
    (Some ∅) (CpuMap.iterate n m).

(** [Topology::cpu(id)] *)
Definition cpu (reps : list CpuRep) (id : Z) : CpuRep := reps !!! Z.to_nat id.

(** [Topology::Cores] *)
Definition Cores (n : Z) (reps : list CpuRep) (m : bitmap) : bitmap :=
  fst (foldl (fun '(result, cores) c =>
    let core := rep_core (cpu reps c) in
    if bool_decide (core ∈ cores) then (result, cores) else (CpuMap.Set_ result core, {[core]} ∪ cores))
    (empty_map, (∅ : gset Z)) (CpuMap.iterate n m)).

Definition all_cores (n : Z) (reps : list CpuRep) (all : bitmap) : bitmap := Cores n reps all.

(** *** The checks of the constructors *)

Definition CheckSiblings (n : Z) (reps : list CpuRep) (all : bitmap) : bool :=
  forallb (fun c =>
    let rep := cpu reps c in
    CpuMap.IsSet (rep_siblings rep) c &&
    forallb (fun s => CpuList.eqb n (rep_siblings rep) (rep_siblings (cpu reps s)))
      (CpuMap.iterate n (rep_siblings rep)) &&
    forallb (fun s => CpuList.eqb n (rep_l3_siblings rep) (rep_l3_siblings (cpu reps s)))
      (CpuMap.iterate n (rep_l3_siblings rep)))
    (CpuMap.iterate n all).

Definition CreateCpuListsForNumaNodes (n : Z) (reps : list CpuRep) (all : bitmap) (nodes : Z) :
    option (list bitmap) :=
  foldl (fun acc c =>
    lists ← acc;
    let node := rep_numa_node (cpu reps c) in
    check ((0 <=? node) && (node <? nodes)) (Some (alter (fun m => CpuMap.Set_ m c) (Z.to_nat node) lists)))
    (Some (replicate (Z.to_nat nodes) empty_map)) (CpuMap.iterate n all).

Definition CheckConsecutiveSmtNumbering (n : Z) (reps : list CpuRep) (all : bitmap) : option bool :=
  let siblings := rep_siblings (cpu reps 0) in
  if negb (CpuMap.Size n siblings =? 2) then check (CpuMap.Size n siblings =? 1) (Some false)
  else
    match CpuList.GetNthCpu n siblings 0, CpuList.GetNthCpu n siblings 1 with
    | Some s0, Some s1 =>
        let sibling_offset := Z.abs (s0 - s1) in
        if sibling_offset =? 1 then Some true
        else check (sibling_offset =? CpuMap.Size n (all_cores n reps all)) (Some false)
    | _, _ => None
    end.

(** The common end of the three constructors. *)
Definition finish (n : Z) (reps : list CpuRep) (all : bitmap) (highest : Z) : option Topology :=
  check (CheckSiblings n reps all)
    (lists ← CreateCpuListsForNumaNodes n reps all (highest + 1);
     cons ← CheckConsecutiveSmtNumbering n reps all;
     Some (mk_topology n all reps highest cons lists)).

Definition set_all (n : Z) : bitmap := foldl CpuMap.Set_ empty_map (seqZ 0 n).

(** *** A topology from raw data *)

Fixpoint insert_raw (r : Raw) (l : list Raw) : list Raw :=
  match l with
  | [] => [r]
  | r' :: l' => if raw_cpu r' <? raw_cpu r then r' :: insert_raw r l' else r :: l
  end.

(** [std::sort]; raws with equal ids are rejected right after. *)
Definition sort_raws (l : list Raw) : list Raw := foldr insert_raw [] l.

Definition in_range (n s : Z) : bool := (0 <=? s) && (s <? n).

Fixpoint check_raws (n next : Z) (cpus : list Raw) : bool :=
  match cpus with
  | [] => true
  | r :: cpus' =>
      (raw_cpu r =? next) && forallb (in_range n) (raw_siblings r) &&
      forallb (in_range n) (raw_l3_siblings r) && check_raws n (next + 1) cpus'
  end.

Definition CheckCustomTopology (cpus : list Raw) : bool :=
  negb (length cpus =? 0)%nat && check_raws (Z.of_nat (length cpus)) 0 cpus.

Definition rep_of_raw (i : Z) (r : Raw) : CpuRep :=
  mk_rep i (raw_core r) (raw_smt_idx r) (ToCpuList (raw_siblings r)) (ToCpuList (raw_l3_siblings r))
    (raw_numa_node r).

Definition InitCustom (raws : list Raw) : option Topology :=
  let n := Z.of_nat (length raws) in
  check (n <=? MAX_CPUS)
    (let raws := sort_raws raws in
     check (CheckCustomTopology raws)
       (let reps := imap (fun i r => rep_of_raw (Z.of_nat i) r) raws in
        let highest := foldl (fun h r => Z.max (raw_numa_node r) h) (-1) raws in
        finish n reps (set_all n) highest)).

Definition Export (t : Topology) : list Raw :=
  map (fun c =>
    let r := cpu (cpus_ t) c in
    mk_raw (rep_cpu r) (rep_core r) (rep_smt_idx r)
      (CpuList.ToIntVector (num_cpus t) (rep_siblings r))
      (CpuList.ToIntVector (num_cpus t) (rep_l3_siblings r)) (rep_numa_node r))
    (CpuMap.iterate (num_cpus t) (all_cpus t)).

(** *** A topology from files *)

(** The loop over the CPUs' files: the content of each, up to an empty first one. *)
Fixpoint sibling_map (contents : Z -> string) (cpus : list Z) : option (list (string * Z)) :=
  match cpus with
  | [] => Some []
  | c :: cpus' =>
      if bool_decide (contents c = ""%string) then check (c =? 0) (Some [])
      else m ← sibling_map contents cpus'; Some ((contents c, c) :: m)
  end.

Definition GetAllSiblings (n : Z) (contents : Z -> string) : option (gmap Z bitmap) :=
  m ← sibling_map contents (seqZ 0 n);
  Some (list_to_map (map (fun '(s, c) =>
    (c, ToCpuList (map snd (filter (fun p => fst p = s) m)))) m)).

Definition GetHighestNodeIdx (fields : list (option Z)) : option Z :=
  foldl (fun acc f => h ← acc; i ← f; Some (Z.max h i)) (Some 0) fields.

(** [smt_idx]: the index of the CPU among its siblings. *)
Fixpoint smt_loop (siblings : bitmap) (self : Z) (cs : list Z) (idx : Z) : Z :=
  match cs with
  | [] => idx
  | c :: cs' =>
      if CpuMap.IsSet siblings c then
        if c =? self then idx + 1 else smt_loop siblings self cs' (idx + 1)
      else smt_loop siblings self cs' idx
  end.

Definition make_rep (n : Z) (siblings l3_siblings : gmap Z bitmap) (numa_node : Z -> Z -> Z) (i : Z) : option CpuRep :=
  sib ← siblings !! i;
  l3 ← (if bool_decide (l3_siblings = ∅) then Some empty_map else l3_siblings !! i);
  core ← snd (CpuMap.begin n sib);
  let node := numa_node i core in
  let idx := smt_loop sib i (seqZ 0 MAX_CPUS) (-1) in
  check (0 <=? idx) (Some (mk_rep i core idx sib l3 node)).

Definition InitHost (n : Z) (thread_siblings l3_list : Z -> string) (numa_node_of_cpu : Z -> Z)
    (node_possible : list (option Z)) : option Topology :=
  check (n <=? MAX_CPUS)
    (siblings ← GetAllSiblings n thread_siblings;
     check (Z.of_nat (size siblings) =? n)
       (l3 ← GetAllSiblings n l3_list;
        check (bool_decide (l3 = ∅) || (Z.of_nat (size l3) =? n))
          (reps ← mapM (fun i => make_rep n siblings l3 (fun i _ => numa_node_of_cpu i) i) (seqZ 0 n);
           check (forallb (fun r => 0 <=? rep_numa_node r) reps)
             (highest ← GetHighestNodeIdx node_possible;
              finish n reps (set_all n) highest)))).

(** *** The test topology *)

(** [SetUpTestSiblings]: the contents of the files it writes. *)
Definition test_thread_siblings (use_consecutive : bool) (c : Z) : string :=
  let i := if use_consecutive then c / 2 else c mod (kNumTestCpus / 2) in
  "kernel_mapping_iteration_" +:+ pretty i.

Definition test_l3_list (has_l3_cache : bool) (c : Z) : string :=
  let sibling_offset := kNumTestCpus / 2 in
  let l3_offset := sibling_offset / 2 in
  let i := c mod sibling_offset / l3_offset * l3_offset in
  if has_l3_cache then
    pretty i +:+ "-" +:+ pretty (i + (l3_offset - 1)) +:+ ", " +:+ pretty (i + sibling_offset) +:+ "-" +:+
    pretty (i + sibling_offset - 1 + l3_offset)
  else "".

Definition InitTest (has_l3_cache use_consecutive : bool) : option Topology :=
  let n := kNumTestCpus in
  siblings ← GetAllSiblings n (test_thread_siblings use_consecutive);
  check (Z.of_nat (size siblings) =? n)
    (l3 ← GetAllSiblings n (test_l3_list has_l3_cache);
     check (if has_l3_cache then Z.of_nat (size l3) =? n else bool_decide (l3 = ∅))
       (reps ← mapM (fun i => make_rep n siblings l3 (fun _ core => if core <? n / 4 then 0 else 1) i) (seqZ 0 n);
        highest ← GetHighestNodeIdx [Some 0; Some 1];
        t ← finish n reps (set_all n) highest;
        check (Bool.eqb (consecutive_smt_numbering t) use_consecutive) (Some t))).

(** [CpusOnNode] *)
Definition CpusOnNode (t : Topology) (node : Z) : option bitmap :=
  check ((0 <=? node) && (node <? Z.of_nat (length (cpus_on_node_ t)))) (cpus_on_node_ t !! Z.to_nat node).

Definition num_numa_nodes (t : Topology) : Z := highest_node_idx t + 1.
Definition smt_count (t : Topology) : Z := CpuMap.Size (num_cpus t) (rep_siblings (cpu (cpus_ t) 0)).

(** *** CPU strings in the kernel's format *)

(** [std::getline(stream, s, ',')] until it fails: a last field is only seen when
    it has a character. *)
Fixpoint split_commas (cur s : list ascii) : list (list ascii) :=
  match s with
  | [] => match cur with [] => [] | _ => [rev cur] end
  | c :: s' => if Ascii.eqb c "," then rev cur :: split_commas [] s' else split_commas (c :: cur) s'
  end.

Definition newline : ascii := "010"%char.

Definition is_digit (c : ascii) : bool :=
  let n := N_of_ascii c in (48 <=? n)%N && (n <=? 57)%N.

(** The longest prefix of digits. *)
Fixpoint span_digits (s : list ascii) : list ascii * list ascii :=
  match s with
  | [] => ([], [])
  | c :: s' => if is_digit c then let '(d, r) := span_digits s' in (c :: d, r) else ([], s)
  end.

(** [regex_match] against [(\d+)-(\d+)\n?]: the two groups. *)
Definition match_range (s : list ascii) : option (list ascii * list ascii) :=
  let '(d1, r1) := span_digits s in
  match d1, r1 with
  | _ :: _, c :: r1 =>
      if Ascii.eqb c "-" then
        let '(d2, r2) := span_digits r1 in
        match d2, r2 with
        | _ :: _, [] => Some (d1, d2)
        | _ :: _, [e] => if Ascii.eqb e newline then Some (d1, d2) else None
        | _, _ => None
        end
      else None
  | _, _ => None
  end.

Section Parse.
Context (SimpleAtoi : list ascii -> option Z).  (* absl::SimpleAtoi *)

Definition field_range (field : list ascii) : option (Z * Z) :=
  match SimpleAtoi field with
  | Some first => Some (first, first)
  | None => '(d1, d2) ← match_range field; first ← SimpleAtoi d1; last ← SimpleAtoi d2; Some (first, last)
  end.

Definition parse_field (n : Z) (m : bitmap) (field : list ascii) : option bitmap :=
  if bool_decide (field = [newline]) then Some m
  else
    '(first, last) ← field_range field;
    check ((0 <=? first) && (first <=? last) && (last <? n))
      (Some (foldl CpuMap.Set_ m (seqZ first (last - first + 1)))).

Definition ParseCpuStr (n : Z) (str : list ascii) : option bitmap :=
  foldl (fun acc f => m ← acc; parse_field n m f) (Some empty_map) (split_commas [] str).
End Parse.
