(* ===== verification/TopologyProps.v ===== *)
(** * Topologies are consistent

    What the constructors of [Topology] establish, whichever way the data comes
    in: complete and consistent sibling lists, NUMA lists that partition the
    CPUs; exporting a topology and building one from the export gives it back;
    and the layout of the test topology. *)

From Stdlib Require Import Ascii.
From stdpp Require Import strings.
From S2P Require Import Prelude CpuMap CpuMapSpec Topology.

(** ** Conversions *)

Lemma bit_empty i : 0 <= i < MAX_CPUS -> bit empty_map i = false.
Proof. apply (wf_bits 0 empty_map). apply empty_wf. unfold MAX_CPUS. lia. Qed.

Lemma set_list_spec n l m :
  map_wf n m -> (forall c, c ∈ l -> 0 <= c < n) ->
  map_wf n (foldl CpuMap.Set_ m l) /\
  forall i, 0 <= i -> bit (foldl CpuMap.Set_ m l) i = bool_decide (i ∈ l) || bit m i.
Proof.
  revert m. induction l as [|c l IH]; intros m Hm Hl; [split; [done|]; intros i Hi; by rewrite bool_decide_eq_false_2 by apply not_elem_of_nil|].
  assert (Hc : 0 <= c < n) by (apply Hl; by left).
  destruct (IH (CpuMap.Set_ m c)) as [Hwf Hb]; [by apply Set_wf|intros; apply Hl; by right|].
  split; [done|]. intros i Hi. cbn [foldl]. rewrite Hb by done.
  rewrite bit_Set by (try apply (wf_len _ _ Hm); pose proof (wf_num _ _ Hm); lia).
  apply eq_true_iff_eq. rewrite !orb_true_iff, !bool_decide_eq_true, elem_of_cons. case_decide; naive_solver.
Qed.

Lemma ToCpuList_spec n l :
  0 <= n <= MAX_CPUS -> (forall c, c ∈ l -> 0 <= c < n) ->
  map_wf n (ToCpuList l) /\ forall i, i ∈ cpus n (ToCpuList l) <-> i ∈ l.
Proof.
  intros Hn Hl. destruct (set_list_spec n l empty_map (empty_wf n Hn) Hl) as [Hwf Hb]. split; [done|].
  intros i. rewrite elem_of_cpus. split.
  - intros [Hi Hbi]. unfold ToCpuList in Hbi. rewrite Hb in Hbi by lia.
    apply orb_true_iff in Hbi as [H|H]; [by apply bool_decide_eq_true in H|].
    rewrite bit_empty in H by lia. done.
  - intros Hi. pose proof (Hl i Hi). split; [done|]. unfold ToCpuList. rewrite Hb by lia.
    by rewrite bool_decide_eq_true_2.
Qed.

(** A map is rebuilt from its vector. *)
Lemma ToCpuList_vector n m : map_wf n m -> ToCpuList (CpuList.ToIntVector n m) = m.
Proof.
  intros Hwf. pose proof Hwf as [Hn _ _ _].
  assert (Hv : CpuList.ToIntVector n m = cpus n m).
  { unfold CpuList.ToIntVector. rewrite vector_loop_spec, Size_spec, Nat2Z.id by (done || lia).
    cbn [Z.to_nat drop]. by apply take_ge. }
  rewrite Hv. destruct (ToCpuList_spec n (cpus n m) Hn) as [Hw Hin].
  { intros c Hc. by apply elem_of_cpus in Hc as [? _]. }
  apply (cpus_inj n); [done..|]. apply cpus_ext. intros i Hi. apply eq_true_iff_eq.
  specialize (Hin i). rewrite !elem_of_cpus in Hin. tauto.
Qed.

Lemma cpus_all n : 0 <= n <= MAX_CPUS -> map_wf n (set_all n) /\ cpus n (set_all n) = seqZ 0 n.
Proof.
  intros Hn. destruct (set_list_spec n (seqZ 0 n) empty_map (empty_wf n Hn)) as [Hwf Hb].
  { intros c Hc%elem_of_seqZ. lia. }
  split; [done|]. unfold cpus, set_all. apply filter_all. intros i Hi. pose proof Hi as Hi'%elem_of_seqZ. rewrite Hb by lia. by rewrite bool_decide_eq_true_2.
Qed.

Lemma iterate_all n : 0 <= n <= MAX_CPUS -> CpuMap.iterate n (set_all n) = seqZ 0 n.
Proof. intros Hn. destruct (cpus_all n Hn) as [Hwf <-]. by apply iterate_spec. Qed.

(** ** What [finish] establishes *)

(** The data of a topology before the final checks. *)
Record reps_ok (n : Z) (reps : list CpuRep) : Prop := {
  ro_num : 0 <= n <= MAX_CPUS;
  ro_len : Z.of_nat (length reps) = n;
  ro_sib : forall c, 0 <= c < n -> map_wf n (rep_siblings (cpu reps c));
  ro_l3 : forall c, 0 <= c < n -> map_wf n (rep_l3_siblings (cpu reps c));
}.

(** The siblings of a CPU, and the CPUs of a NUMA node. *)
Definition siblings (t : Topology) (c : Z) : list Z := cpus (num_cpus t) (rep_siblings (cpu (cpus_ t) c)).
Definition l3_siblings (t : Topology) (c : Z) : list Z := cpus (num_cpus t) (rep_l3_siblings (cpu (cpus_ t) c)).
Definition node_cpus (t : Topology) (k : Z) : list Z := cpus (num_cpus t) (cpus_on_node_ t !!! Z.to_nat k).

Record consistent (t : Topology) : Prop := {
  co_all : CpuMap.iterate (num_cpus t) (all_cpus t) = seqZ 0 (num_cpus t);
  co_self : forall c, 0 <= c < num_cpus t -> c ∈ siblings t c;
  co_sib : forall c s, 0 <= c < num_cpus t -> s ∈ siblings t c -> siblings t s = siblings t c;
  co_l3 : forall c s, 0 <= c < num_cpus t -> s ∈ l3_siblings t c -> l3_siblings t s = l3_siblings t c;
  co_nodes : Z.of_nat (length (cpus_on_node_ t)) = num_numa_nodes t;
  co_node : forall c, 0 <= c < num_cpus t ->
    0 <= rep_numa_node (cpu (cpus_ t) c) < num_numa_nodes t;
  co_numa : forall k c, 0 <= k < num_numa_nodes t ->
    (c ∈ node_cpus t k <-> 0 <= c < num_cpus t /\ rep_numa_node (cpu (cpus_ t) c) = k);
}.

Lemma check_Some {A} (b : bool) (k : option A) a : check b k = Some a <-> b = true /\ k = Some a.
Proof. destruct b; cbn; naive_solver. Qed.

Lemma numa_lists n reps nodes cs lists :
  0 <= n <= MAX_CPUS -> (forall c, c ∈ cs -> 0 <= c < n) ->
  foldl (fun acc c =>
    lists ← acc;
    let node := rep_numa_node (cpu reps c) in
    check ((0 <=? node) && (node <? nodes)) (Some (alter (fun m => CpuMap.Set_ m c) (Z.to_nat node) lists)))
    (Some (replicate (Z.to_nat nodes) empty_map)) cs = Some lists ->
  length lists = Z.to_nat nodes /\
  (forall c, c ∈ cs -> 0 <= rep_numa_node (cpu reps c) < nodes) /\
  (forall k, 0 <= k < nodes -> map_wf n (lists !!! Z.to_nat k) /\
     forall i, 0 <= i < n -> bit (lists !!! Z.to_nat k) i = bool_decide (i ∈ cs /\ rep_numa_node (cpu reps i) = k)).
Proof.
  intros Hn. revert lists. induction cs as [|c cs IH] using rev_ind; intros lists Hcs.
  - cbn. intros [= <-]. rewrite length_replicate. split; [done|]. split; [set_solver|].
    intros k Hk. rewrite lookup_total_replicate_2 by lia. split; [by apply empty_wf|].
    intros i Hi. rewrite bool_decide_eq_false_2 by (intros [H _]; by apply not_elem_of_nil in H).
    apply bit_empty. lia.
  - rewrite foldl_app. cbn [foldl]. intros H. apply bind_Some in H as (lists0 & H0 & H).
    apply check_Some in H as [Hr [= <-]]. apply andb_true_iff in Hr as [Hr1 Hr2].
    apply Z.leb_le in Hr1. apply Z.ltb_lt in Hr2.
    destruct (IH lists0) as (Hlen & Hnode & Hbits); [intros; apply Hcs; set_solver|done|].
    split; [by rewrite length_alter|]. split; [set_solver|]. intros k Hk.
    destruct (Hbits k Hk) as [Hwf Hb]. pose proof (Hcs c ltac:(set_solver)) as Hc.
    destruct (decide (rep_numa_node (cpu reps c) = k)) as [E|E].
    + rewrite E, list_lookup_total_alter_eq by lia. split; [by apply Set_wf|]. intros i Hi.
      rewrite bit_Set by (try apply (wf_len _ _ Hwf); lia). rewrite Hb by done.
      apply eq_true_iff_eq. rewrite bool_decide_eq_true. case_decide as Eic.
      * subst i. split; [|done]. intros _. split; [set_solver|done].
      * rewrite bool_decide_eq_true. set_solver.
    + rewrite list_lookup_total_alter_ne by (intros H; apply E; lia). split; [done|]. intros i Hi.
      rewrite Hb by done. apply bool_decide_ext. set_solver.
Qed.

Lemma finish_consistent n reps highest t :
  reps_ok n reps -> finish n reps (set_all n) highest = Some t -> -1 <= highest ->
  consistent t /\ num_cpus t = n /\ cpus_ t = reps /\ highest_node_idx t = highest /\ all_cpus t = set_all n.
Proof.
  intros [Hn Hlen Hsib Hl3] Hf Hhi. unfold finish in Hf. apply check_Some in Hf as [Hcs Hf].
  apply bind_Some in Hf as (lists & Hlists & Hf). apply bind_Some in Hf as (cons & _ & [= <-]).
  unfold CheckSiblings in Hcs. unfold CreateCpuListsForNumaNodes in Hlists. rewrite iterate_all in Hcs, Hlists by done.
  destruct (numa_lists n reps (highest + 1) (seqZ 0 n) lists Hn) as (L1 & L2 & L3); [intros c Hc%elem_of_seqZ; lia|done|].
  assert (Hc : forall c, 0 <= c < n -> CpuMap.IsSet (rep_siblings (cpu reps c)) c = true /\
    (forall s, s ∈ cpus n (rep_siblings (cpu reps c)) -> cpus n (rep_siblings (cpu reps s)) = cpus n (rep_siblings (cpu reps c))) /\
    (forall s, s ∈ cpus n (rep_l3_siblings (cpu reps c)) ->
       cpus n (rep_l3_siblings (cpu reps s)) = cpus n (rep_l3_siblings (cpu reps c)))).
  { intros c Hc. rewrite forallb_forall in Hcs. specialize (Hcs c). rewrite <- list_elem_of_In, elem_of_seqZ in Hcs.
    specialize (Hcs ltac:(lia)). rewrite !andb_true_iff in Hcs. destruct Hcs as [[C1 C2] C3].
    rewrite iterate_spec in C2, C3 by auto. rewrite forallb_forall in C2, C3. split_and!; [done|..].
    - intros s Hs. pose proof Hs as [Hs' _]%elem_of_cpus. apply list_elem_of_In, C2 in Hs. symmetry.
      apply eqb_spec; auto.
    - intros s Hs. pose proof Hs as [Hs' _]%elem_of_cpus. apply list_elem_of_In, C3 in Hs. symmetry.
      apply eqb_spec; auto. }
  split; [|done]. unfold num_numa_nodes. split; unfold siblings, l3_siblings, node_cpus, num_numa_nodes; cbn.
  - by apply iterate_all.
  - intros c Hcr. apply elem_of_cpus. split; [done|]. rewrite <- IsSet_bit by lia. by apply Hc.
  - intros c s Hcr. by apply Hc.
  - intros c s Hcr. by apply Hc.
  - lia.
  - intros c Hcr. apply L2, elem_of_seqZ. lia.
  - intros k c Hk. destruct (L3 k Hk) as [_ Hb]. rewrite elem_of_cpus. split.
    + intros [Hcr Hbc]. rewrite Hb in Hbc by done. apply bool_decide_eq_true in Hbc. tauto.
    + intros [Hcr Hnk]. split; [done|]. rewrite Hb by done. apply bool_decide_eq_true. split; [|done].
      apply elem_of_seqZ. lia.
Qed.

(** ** Raw data *)

Lemma insert_raw_length r l : length (insert_raw r l) = S (length l).
Proof. induction l as [|r' l IH]; cbn; [done|]. destruct (_ <? _); cbn; by rewrite ?IH. Qed.

Lemma sort_raws_length l : length (sort_raws l) = length l.
Proof.
  induction l as [|r l IH]; [done|]. change (sort_raws (r :: l)) with (insert_raw r (sort_raws l)).
  by rewrite insert_raw_length, IH.
Qed.

Lemma check_raws_spec n next l :
  check_raws n next l = true <->
  forall i r, l !! i = Some r -> raw_cpu r = next + Z.of_nat i /\
    (forall s, s ∈ raw_siblings r -> 0 <= s < n) /\ (forall s, s ∈ raw_l3_siblings r -> 0 <= s < n).
Proof.
  assert (Hf : forall l, forallb (in_range n) l = true <-> forall s, s ∈ l -> 0 <= s < n).
  { clear. intros l. rewrite forallb_forall. setoid_rewrite <- list_elem_of_In. unfold in_range.
    setoid_rewrite andb_true_iff. setoid_rewrite Z.leb_le. setoid_rewrite Z.ltb_lt. done. }
  revert next. induction l as [|r l IH]; intros next; cbn [check_raws]; [done|].
  rewrite !andb_true_iff, Z.eqb_eq, !Hf, IH. split.
  - intros [[[H1 H2] H3] H4] [|i] r' Hr; cbn in Hr.
    + injection Hr as <-. rewrite Z.add_0_r. done.
    + destruct (H4 i r' Hr) as (E & ? & ?). split; [lia|done].
  - intros H. destruct (H 0%nat r eq_refl) as (E & ? & ?). split; [split; [split; [lia|done]|done]|].
    intros i r' Hr. destruct (H (S i) r' Hr) as (E' & ? & ?). split; [lia|done].
Qed.

Lemma sort_raws_id next l : (forall i r, l !! i = Some r -> raw_cpu r = next + Z.of_nat i) -> sort_raws l = l.
Proof.
  revert next. induction l as [|r l IH]; intros next H; [done|]. cbn [sort_raws foldr]. fold (sort_raws l).
  rewrite (IH (next + 1)).
  - destruct l as [|r' l]; [done|]. cbn. pose proof (H 0%nat r eq_refl). pose proof (H 1%nat r' eq_refl).
    by rewrite (proj2 (Z.ltb_ge _ _)) by lia.
  - intros i r' Hr. rewrite (H (S i) r' Hr). lia.
Qed.

Lemma highest_ge l h : h <= foldl (fun h r => Z.max (raw_numa_node r) h) h l.
Proof. revert h. induction l as [|r l IH]; intros h; cbn [foldl]; [lia|]. specialize (IH (Z.max (raw_numa_node r) h)). lia. Qed.

Definition raw_reps (raws : list Raw) : list CpuRep := imap (fun i r => rep_of_raw (Z.of_nat i) r) raws.

Lemma raw_reps_lookup raws c r :
  0 <= c -> raws !! Z.to_nat c = Some r -> cpu (raw_reps raws) c = rep_of_raw c r.
Proof.
  intros Hc Hr. unfold cpu, raw_reps. rewrite list_lookup_total_alt, list_lookup_imap, Hr. cbn.
  by rewrite Z2Nat.id.
Qed.

Lemma custom_inv raws t :
  InitCustom raws = Some t ->
  let n := Z.of_nat (length raws) in
  let sorted := sort_raws raws in
  0 <= n <= MAX_CPUS /\ sorted <> [] /\ check_raws n 0 sorted = true /\ length sorted = length raws /\
  finish n (raw_reps sorted) (set_all n) (foldl (fun h r => Z.max (raw_numa_node r) h) (-1) sorted) = Some t.
Proof.
  intros H. unfold InitCustom in H. apply check_Some in H as [Hn H]. apply Z.leb_le in Hn.
  apply check_Some in H as [Hck H]. unfold CheckCustomTopology in Hck. apply andb_true_iff in Hck as [Hne Hck].
  rewrite sort_raws_length in Hck, Hne. cbv zeta. pose proof (sort_raws_length raws) as Hlen.
  split_and!; try done; try lia. intros E. rewrite E in Hlen. destruct (length raws); [done|discriminate Hlen].
Qed.

Lemma raw_reps_ok raws n :
  0 <= n <= MAX_CPUS -> Z.of_nat (length raws) = n -> check_raws n 0 raws = true -> reps_ok n (raw_reps raws).
Proof.
  intros Hn Hlen Hck. rewrite check_raws_spec in Hck. split; [done|unfold raw_reps; by rewrite length_imap|..].
  - intros c Hc. destruct (lookup_lt_is_Some_2 raws (Z.to_nat c)) as [r Hr]; [lia|].
    rewrite (raw_reps_lookup _ c r (proj1 Hc) Hr). cbn. by apply ToCpuList_spec; [|apply (Hck _ _ Hr)].
  - intros c Hc. destruct (lookup_lt_is_Some_2 raws (Z.to_nat c)) as [r Hr]; [lia|].
    rewrite (raw_reps_lookup _ c r (proj1 Hc) Hr). cbn. by apply ToCpuList_spec; [|apply (Hck _ _ Hr)].
Qed.

(** C37: a topology built from raw data is consistent: CPUs are numbered from
    zero, every CPU is its own sibling and siblings have the same sibling lists
    (so they form classes), likewise for the shared caches, and the NUMA lists
    partition the CPUs by their node. *)
Theorem custom_topology_consistent raws t :
  InitCustom raws = Some t -> consistent t /\ num_cpus t = Z.of_nat (length raws).
Proof.
  intros H. apply custom_inv in H as (Hn & _ & Hck & Hlen & Hf).
  destruct (finish_consistent _ _ _ _ (raw_reps_ok _ _ Hn (f_equal Z.of_nat Hlen) Hck) Hf (highest_ge _ _)) as (? & ? & _). done.
Qed.

(** What an exported topology looks like. *)
Lemma Export_lookup raws n :
  check_raws n 0 raws = true -> 0 <= n <= MAX_CPUS -> Z.of_nat (length raws) = n ->
  forall t, num_cpus t = n -> all_cpus t = set_all n -> cpus_ t = raw_reps raws ->
  length (Export t) = length raws /\
  forall i r, raws !! i = Some r -> exists r', Export t !! i = Some r' /\
    rep_of_raw (Z.of_nat i) r' = rep_of_raw (Z.of_nat i) r /\ raw_numa_node r' = raw_numa_node r /\
    raw_cpu r' = Z.of_nat i /\ (forall s, s ∈ raw_siblings r' -> 0 <= s < n) /\
    (forall s, s ∈ raw_l3_siblings r' -> 0 <= s < n).
Proof.
  intros Hck Hn Hlen t Et Ea Er. unfold Export. rewrite Et, Ea, Er, iterate_all by done.
  split; [rewrite length_map, length_seqZ; lia|]. intros i r Hr. pose proof (lookup_lt_Some _ _ _ Hr) as Hi.
  rewrite list_lookup_fmap, lookup_seqZ_lt by lia. cbn [fmap option_fmap option_map].
  rewrite Z.add_0_l, (raw_reps_lookup _ (Z.of_nat i) r) by (rewrite ?Nat2Z.id; done || lia). cbn.
  rewrite check_raws_spec in Hck. destruct (Hck i r Hr) as (_ & Hs & Hl).
  destruct (ToCpuList_spec n _ Hn Hs) as [Hws Hins]. destruct (ToCpuList_spec n _ Hn Hl) as [Hwl Hinl].
  eexists. split; [done|]. unfold rep_of_raw. cbn. rewrite !(ToCpuList_vector n) by done.
  split; [done|]. split; [done|]. split; [done|].
  assert (Hv : forall m, map_wf n m -> forall s, s ∈ CpuList.ToIntVector n m -> 0 <= s < n).
  { intros m Hwf s. unfold CpuList.ToIntVector. rewrite vector_loop_spec by (done || lia).
    intros Hs'. apply (elem_of_take _ _ _) in Hs' as (j & Hj & _). rewrite lookup_drop in Hj.
    apply list_elem_of_lookup_2 in Hj. by apply elem_of_cpus in Hj as [? _]. }
  split; by apply Hv.
Qed.

(** The topology rebuilt from its export, as in [UpdateCustomTopology]. *)
Definition rebuild (t : Topology) : option Topology := InitCustom (Export t).

(** A topology survives being exported and rebuilt. *)
Theorem export_custom_roundtrip raws t : InitCustom raws = Some t -> rebuild t = Some t.
Proof.
  intros H. unfold rebuild. apply custom_inv in H as (Hn & Hne & Hck & Hlen & Hf).
  set (n := Z.of_nat (length raws)) in *. set (sr := sort_raws raws) in *.
  destruct (finish_consistent _ _ _ _ (raw_reps_ok _ _ Hn (f_equal Z.of_nat Hlen) Hck) Hf (highest_ge _ _)) as (_ & Et & Er & _ & Ea).
  destruct (Export_lookup sr n Hck Hn ltac:(lia) t Et Ea Er) as [Hl Hx].
  assert (Hx' : forall i r', Export t !! i = Some r' -> exists r, sr !! i = Some r /\
    rep_of_raw (Z.of_nat i) r' = rep_of_raw (Z.of_nat i) r /\ raw_numa_node r' = raw_numa_node r /\
    raw_cpu r' = Z.of_nat i /\ (forall s, s ∈ raw_siblings r' -> 0 <= s < n) /\
    (forall s, s ∈ raw_l3_siblings r' -> 0 <= s < n)).
  { intros i r' Hr'. destruct (lookup_lt_is_Some_2 sr i) as [r Hr]; [apply lookup_lt_Some in Hr'; lia|].
    destruct (Hx i r Hr) as (r2 & Hr2 & HP). rewrite Hr' in Hr2. injection Hr2 as <-. by exists r. }
  assert (Hreps : raw_reps (Export t) = raw_reps sr).
  { apply list_eq. intros i. unfold raw_reps. rewrite !list_lookup_imap.
    destruct (Export t !! i) as [r'|] eqn:E.
    - destruct (Hx' i r' E) as (r & -> & Hrep & _). cbn. by rewrite Hrep.
    - apply lookup_ge_None in E. rewrite (lookup_ge_None_2 sr) by lia. done. }
  assert (Hnode : raw_numa_node <$> Export t = raw_numa_node <$> sr).
  { apply list_eq. intros i. rewrite !list_lookup_fmap. destruct (Export t !! i) as [r'|] eqn:E.
    - destruct (Hx' i r' E) as (r & -> & _ & Hnn & _). cbn. by rewrite Hnn.
    - apply lookup_ge_None in E. rewrite (lookup_ge_None_2 sr) by lia. done. }
  assert (Hsort : sort_raws (Export t) = Export t).
  { apply (sort_raws_id 0). intros i r' Hr'. destruct (Hx' i r' Hr') as (r & _ & _ & _ & E & _). lia. }
  unfold InitCustom. rewrite Hsort. replace (Z.of_nat (length (Export t))) with n by lia. cbv zeta.
  apply check_Some. split; [apply Z.leb_le; lia|]. apply check_Some. split.
  - unfold CheckCustomTopology. apply andb_true_iff. split.
    + apply negb_true_iff, Nat.eqb_neq. intros E. destruct sr; [done|]. cbn in Hl. lia.
    + replace (Z.of_nat (length (Export t))) with n by lia. apply check_raws_spec. intros i r' Hr'.
      destruct (Hx' i r' Hr') as (r & _ & _ & _ & E & ? & ?). split; [lia|done].
  - fold (raw_reps (Export t)). rewrite Hreps, <- Hf. f_equal.
    rewrite <- !(foldl_fmap (fun h x => Z.max x h) (-1) _ raw_numa_node), Hnode. done.
Qed.

(** ** Data from files *)

Lemma sibling_map_tail contents cs m :
  (forall c, c ∈ cs -> c <> 0) -> sibling_map contents cs = Some m ->
  m = map (fun c => (contents c, c)) cs.
Proof.
  revert m. induction cs as [|c cs IH]; intros m Hc; cbn [sibling_map map]; [by intros [= <-]|].
  case_bool_decide.
  - rewrite (proj2 (Z.eqb_neq c 0)) by (apply Hc; by left). done.
  - intros H'. apply bind_Some in H' as (m' & Hm & [= <-]). rewrite (IH m'); [done| |done].
    intros c' Hc'. apply Hc. by right.
Qed.

Lemma sibling_map_spec n contents m :
  sibling_map contents (seqZ 0 n) = Some m -> m = [] \/ m = map (fun c => (contents c, c)) (seqZ 0 n).
Proof.
  destruct (Z.le_gt_cases n 0) as [Hle|Hgt].
  { rewrite seqZ_nil by lia. intros [= <-]. by left. }
  rewrite seqZ_cons by lia. cbn [sibling_map]. case_bool_decide; [intros [= <-]; by left|].
  intros H'. apply bind_Some in H' as (m' & Hm & [= <-]). right.
  apply sibling_map_tail in Hm as ->; [done|]. intros c Hc%elem_of_seqZ. lia.
Qed.

(** Either no file has contents, or every CPU's list holds the CPUs with the same
    contents. *)
Lemma GetAllSiblings_spec n contents g :
  0 <= n <= MAX_CPUS -> GetAllSiblings n contents = Some g ->
  g = ∅ \/ forall c, 0 <= c < n -> exists m, g !! c = Some m /\ map_wf n m /\
    forall s, s ∈ cpus n m <-> 0 <= s < n /\ contents s = contents c.
Proof.
  intros Hn H. unfold GetAllSiblings in H. apply bind_Some in H as (m & Hm & [= <-]).
  apply sibling_map_spec in Hm as [->| ->]; [by left|right]. intros c Hc.
  rewrite map_map. set (f := fun x : Z => _).
  set (l := map snd (filter (fun p => fst p = contents c) (map (fun c0 => (contents c0, c0)) (seqZ 0 n)))).
  exists (ToCpuList l). split.
  - apply elem_of_list_to_map_1.
    + assert (E : forall l', (map f l').*1 = l').
      { intros l'. induction l' as [|x l' IH]; [done|]. cbn [map fmap list_fmap]. by rewrite IH. }
      rewrite E. apply NoDup_seqZ.
    + apply list_elem_of_fmap. exists c. split; [done|]. apply elem_of_seqZ. lia.
  - assert (Hl : forall s, s ∈ l <-> 0 <= s < n /\ contents s = contents c).
    { intros s. unfold l. rewrite list_elem_of_fmap. split.
      - intros ([k s'] & -> & Hin). apply list_elem_of_filter in Hin as [Hk Hin]. cbn in Hk.
        apply list_elem_of_fmap in Hin as (x & [= -> ->] & Hx%elem_of_seqZ). split; [cbn; lia|done].
      - intros [Hs Hk]. exists (contents s, s). split; [done|]. apply list_elem_of_filter. split; [done|].
        apply list_elem_of_fmap. exists s. split; [done|]. apply elem_of_seqZ. lia. }
    destruct (ToCpuList_spec n l Hn) as [Hwf Hin]; [intros s Hs; by apply Hl|]. split; [done|].
    intros s. by rewrite Hin, Hl.
Qed.

Lemma make_rep_inv n sib l3 numa c r :
  make_rep n sib l3 numa c = Some r ->
  exists m, sib !! c = Some m /\ rep_siblings r = m /\
    (if bool_decide (l3 = ∅) then Some empty_map else l3 !! c) = Some (rep_l3_siblings r) /\
    snd (CpuMap.begin n m) = Some (rep_core r) /\ rep_numa_node r = numa c (rep_core r).
Proof.
  intros H. unfold make_rep in H. apply bind_Some in H as (m & Em & H). apply bind_Some in H as (ml3 & El3 & H).
  apply bind_Some in H as (core & Ecore & H). set (idx := smt_loop _ _ _ _) in H. clearbody idx.
  apply check_Some in H as [_ [= <-]]. by exists m.
Qed.

Lemma make_reps n sib l3 numa reps :
  0 <= n -> mapM (fun i => make_rep n sib l3 numa i) (seqZ 0 n) = Some reps ->
  Z.of_nat (length reps) = n /\
  forall c, 0 <= c < n -> make_rep n sib l3 numa c = Some (cpu reps c).
Proof.
  intros Hn H. apply mapM_Some in H. split; [apply Forall2_length in H; rewrite length_seqZ in H; lia|].
  intros c Hc. destruct (Forall2_lookup_l _ _ _ (Z.to_nat c) c H) as (r & Hr & E).
  { rewrite lookup_seqZ_lt by lia. f_equal. lia. }
  rewrite E. f_equal. unfold cpu. by rewrite (list_lookup_total_correct _ _ _ Hr).
Qed.

(** A topology read from the machine's files is consistent: two CPUs are
    siblings exactly when their sibling files have the same contents, and a core
    is named after its lowest CPU. *)
Theorem host_topology_consistent n thread_siblings l3_list numa_node_of_cpu node_possible t :
  0 <= n -> InitHost n thread_siblings l3_list numa_node_of_cpu node_possible = Some t ->
  consistent t /\ num_cpus t = n /\
  (forall c s, 0 <= c < n -> 0 <= s < n -> (s ∈ siblings t c <-> thread_siblings s = thread_siblings c)) /\
  (forall c, 0 <= c < n -> head (siblings t c) = Some (rep_core (cpu (cpus_ t) c))) /\
  (forall c, 0 <= c < n -> rep_numa_node (cpu (cpus_ t) c) = numa_node_of_cpu c).
Proof.
  intros H0 H. unfold InitHost in H. apply check_Some in H as [Hn H]. apply Z.leb_le in Hn.
  assert (Hn' : 0 <= n <= MAX_CPUS) by done.
  apply bind_Some in H as (sib & Hsib & H). apply check_Some in H as [Hsz H]. apply Z.eqb_eq in Hsz.
  apply bind_Some in H as (l3 & Hl3 & H). apply check_Some in H as [_ H].
  apply bind_Some in H as (reps & Hreps & H). apply check_Some in H as [_ H].
  apply bind_Some in H as (highest & Hhi & H).
  destruct (make_reps _ _ _ _ _ H0 Hreps) as [Hlen Hrep].
  assert (Hinv : forall c, 0 <= c < n -> exists m, sib !! c = Some m /\ rep_siblings (cpu reps c) = m /\
    map_wf n (rep_l3_siblings (cpu reps c)) /\ snd (CpuMap.begin n m) = Some (rep_core (cpu reps c)) /\
    rep_numa_node (cpu reps c) = numa_node_of_cpu c).
  { intros c Hc. destruct (make_rep_inv _ _ _ _ _ _ (Hrep c Hc)) as (m & Em & Es & El3 & Ecore & En).
    exists m. split; [done|]. split; [done|]. split; [|by rewrite En].
    case_bool_decide as Ee; [injection El3 as El3; rewrite <- El3; by apply empty_wf|].
    apply GetAllSiblings_spec in Hl3 as [->|Hl3]; [done| |done]. destruct (Hl3 c Hc) as (m' & E' & Hw & _). congruence. }
  assert (Hs : forall c, 0 <= c < n -> map_wf n (rep_siblings (cpu reps c)) /\
    snd (CpuMap.begin n (rep_siblings (cpu reps c))) = Some (rep_core (cpu reps c)) /\
    forall s, s ∈ cpus n (rep_siblings (cpu reps c)) <-> 0 <= s < n /\ thread_siblings s = thread_siblings c).
  { intros c Hc. destruct (Hinv c Hc) as (m & Em & -> & _ & Hcore & _).
    apply GetAllSiblings_spec in Hsib as [->|Hsib]; [rewrite map_size_empty in Hsz; lia| |done].
    destruct (Hsib c Hc) as (m' & E' & Hw & Hin). rewrite Em in E'. by injection E' as <-. }
  assert (Hhi' : -1 <= highest).
  { clear -Hhi. unfold GetHighestNodeIdx in Hhi. assert (G : forall l a, 0 <= a ->
      foldl (fun acc f => h ← acc; i ← f; Some (Z.max h i)) (Some a) l = Some highest -> 0 <= highest).
    { induction l as [|f l IH]; cbn; intros a Ha E; [congruence|]. destruct f as [i|]; cbn in E.
      - apply (IH (Z.max a i)); [lia|done].
      - exfalso. clear -E. induction l as [|f l IH]; cbn in E; [done|auto]. }
    enough (0 <= highest) by lia. apply (G node_possible 0); [lia|exact Hhi]. }
  destruct (finish_consistent n reps highest t) as (Hcon & En & Er & _); [|done..|].
  { split; [done|done|intros c Hc; by apply Hs|]. intros c Hc. by destruct (Hinv c Hc) as (m & _ & _ & ? & _). }
  split; [done|]. split; [done|]. unfold siblings. rewrite En, Er. split_and!.
  - intros c s Hc Hsr. destruct (Hs c Hc) as (_ & _ & Hin). rewrite Hin. tauto.
  - intros c Hc. destruct (Hs c Hc) as (Hw & Hcore & _). rewrite <- Hcore. unfold CpuMap.begin.
    pose proof (FindNextSetBit_spec n _ 0 Hw ltac:(lia)) as Hf. unfold cpus_from in Hf. rewrite Z.sub_0_r in Hf.
    fold (cpus n (rep_siblings (cpu reps c))) in Hf. destruct (cpus n _); [by rewrite Hf|]. destruct Hf as [-> _]. done.
  - intros c Hc. by destruct (Hinv c Hc) as (m & _ & _ & _ & _ & ?).
Qed.

(** ** CPU strings and sets *)

(** CPU [i] is named by a field of the string. *)
Definition named (atoi : list Ascii.ascii -> option Z) (fields : list (list Ascii.ascii)) (i : Z) : Prop :=
  exists f a b, f ∈ fields /\ f <> [newline] /\ field_range atoi f = Some (a, b) /\ a <= i <= b.

(** A field that names no CPUs of the topology. *)
Definition bad_field (atoi : list Ascii.ascii -> option Z) (n : Z) (f : list Ascii.ascii) : Prop :=
  f <> [newline] /\ match field_range atoi f with Some (a, b) => ~ (0 <= a <= b /\ b < n) | None => True end.

Lemma named_snoc atoi fs f i :
  named atoi (fs ++ [f]) i <-> named atoi fs i \/ named atoi [f] i.
Proof.
  unfold named. split.
  - intros (g & a & b & Hg & H). apply elem_of_app in Hg as [Hg|Hg]; [left|right]; by exists g, a, b.
  - intros [(g & a & b & Hg & H)|(g & a & b & Hg & H)]; exists g, a, b; split; try done; apply elem_of_app; tauto.
Qed.

(** Parsing a CPU string sets exactly the CPUs its fields and ranges name,
    and aborts exactly when a field is malformed or names a CPU the topology
    does not have. *)
Theorem parse_cpu_str_exact atoi n str :
  0 <= n <= MAX_CPUS ->
  match ParseCpuStr atoi n str with
  | Some m => map_wf n m /\ (forall i, i ∈ cpus n m <-> named atoi (split_commas [] str) i) /\
              Forall (fun f => ~ bad_field atoi n f) (split_commas [] str)
  | None => Exists (bad_field atoi n) (split_commas [] str)
  end.
Proof.
  intros Hn. unfold ParseCpuStr. induction (split_commas [] str) as [|f fs IH] using rev_ind.
  { cbn. split; [by apply empty_wf|]. split; [|constructor]. intros i. rewrite elem_of_cpus. split.
    - intros [Hi Hb]. rewrite bit_empty in Hb by lia. done.
    - intros (f & a & b & Hf & _). by apply not_elem_of_nil in Hf. }
  rewrite foldl_app. cbn [foldl]. destruct (foldl _ _ fs) as [m|]; cbn [base.mbind option_bind].
  2:{ apply Exists_app. by left. }
  destruct IH as (Hwf & Hin & Hok). unfold parse_field. case_bool_decide as Hnl.
  { split; [done|]. split.
    - intros i. rewrite Hin, named_snoc. split; [tauto|]. intros [?|(g & a & b & Hg & Hne & _)]; [done|].
      apply list_elem_of_singleton in Hg. subst. done.
    - apply Forall_app. split; [done|]. constructor; [|constructor]. intros [? _]. done. }
  destruct (field_range atoi f) as [[a b]|] eqn:Ef; cbn [base.mbind option_bind].
  2:{ apply Exists_app. right. constructor. split; [done|]. by rewrite Ef. }
  cbn. unfold check. destruct ((0 <=? a) && (a <=? b) && (b <? n)) eqn:Eb.
  - rewrite !andb_true_iff, !Z.leb_le, Z.ltb_lt in Eb. destruct Eb as [[E1 E2] E3].
    destruct (set_list_spec n (seqZ a (b - a + 1)) m Hwf) as [Hwf' Hb]; [intros c Hc%elem_of_seqZ; lia|].
    split; [done|]. split.
    + intros i. rewrite named_snoc, <- Hin, !elem_of_cpus. split.
      * intros [Hi Hbi]. rewrite Hb in Hbi by lia. apply orb_true_iff in Hbi as [H|H]; [|by left].
        right. exists f, a, b. apply bool_decide_eq_true, elem_of_seqZ in H.
        split; [by apply list_elem_of_singleton|]. split; [done|]. split; [done|lia].
      * intros [[Hi Hbi]|(g & a' & b' & Hg & _ & Hr & Hi)].
        -- split; [done|]. rewrite Hb by lia. by rewrite Hbi, orb_true_r.
        -- apply list_elem_of_singleton in Hg. subst g. rewrite Ef in Hr. injection Hr as <- <-.
           split; [lia|]. rewrite Hb by lia. rewrite bool_decide_eq_true_2; [done|]. apply elem_of_seqZ. lia.
    + apply Forall_app. split; [done|]. constructor; [|constructor]. intros [_ H]. rewrite Ef in H. lia.
  - apply Exists_app. right. constructor. split; [done|]. rewrite Ef. intros H.
    rewrite (proj2 (Z.leb_le 0 a)), (proj2 (Z.leb_le a b)), (proj2 (Z.ltb_lt b n)) in Eb by lia. done.
Qed.

(** The physical cores of a set of CPUs. *)
Definition cores_of (t : Topology) (m : bitmap) (k : Z) : Prop :=
  exists c, c ∈ cpus (num_cpus t) m /\ rep_core (cpu (cpus_ t) c) = k.

Lemma cores_loop n reps cs result (seen : gset Z) :
  map_wf n result -> (forall c, c ∈ cs -> 0 <= rep_core (cpu reps c) < n) ->
  (forall k, k ∈ seen <-> k ∈ cpus n result) ->
  let r := fst (foldl (fun '(result, cores) c =>
    let core := rep_core (cpu reps c) in
    if bool_decide (core ∈ cores) then (result, cores) else (CpuMap.Set_ result core, {[core]} ∪ cores))
    (result, seen) cs) in
  map_wf n r /\ forall k, k ∈ cpus n r <-> k ∈ cpus n result \/ exists c, c ∈ cs /\ rep_core (cpu reps c) = k.
Proof.
  revert result seen. induction cs as [|c cs IH]; intros result seen Hwf Hr Hs; cbn [foldl fst].
  { split; [done|]. intros k. split; [by left|]. intros [?|(c & Hc & _)]; [done|]. by apply not_elem_of_nil in Hc. }
  pose proof (Hr c ltac:(by left)) as Hc. case_bool_decide as Hin.
  - destruct (IH result seen Hwf) as [Hw Hk]; [intros; apply Hr; by right|done|]. split; [done|]. intros k.
    rewrite Hk. setoid_rewrite elem_of_cons. split; [naive_solver|]. intros [?|(c' & [->|Hc'] & <-)]; [by left| |by right; exists c'].
    left. by apply Hs.
  - destruct (IH (CpuMap.Set_ result (rep_core (cpu reps c))) ({[rep_core (cpu reps c)]} ∪ seen)) as [Hw Hk].
    + by apply Set_wf.
    + intros; apply Hr; by right.
    + intros k. rewrite elem_of_union, elem_of_singleton, Hs, !elem_of_cpus.
      pose proof (wf_num _ _ Hwf). split.
      * intros [->|[Hk Hb]]; (split; [done|]); rewrite bit_Set by (try apply (wf_len _ _ Hwf); lia); case_decide; done.
      * intros [Hk Hb]. rewrite bit_Set in Hb by (try apply (wf_len _ _ Hwf); lia). case_decide; tauto.
    + split; [done|]. intros k. rewrite Hk, !elem_of_cpus. pose proof (wf_num _ _ Hwf). setoid_rewrite elem_of_cons. split.
      * intros [[Hk' Hb]|(c' & ? & ?)]; [|right; exists c'; tauto].
        rewrite bit_Set in Hb by (try apply (wf_len _ _ Hwf); lia). case_decide; [right; exists c; naive_solver|by left].
      * intros [[Hk' Hb]|(c' & [->|Hc'] & <-)].
        -- left. split; [done|]. rewrite bit_Set by (try apply (wf_len _ _ Hwf); lia). by case_decide.
        -- left. split; [done|]. rewrite bit_Set by (try apply (wf_len _ _ Hwf); lia). by case_decide.
        -- right. by exists c'.
Qed.

Lemma to_set_loop cs (S : gset Z) :
  (forall c, c ∈ cs -> 0 <= c < CPU_SETSIZE) ->
  foldl (fun acc c => set ← acc; check ((0 <=? c) && (c <? CPU_SETSIZE)) (Some ({[c]} ∪ set))) (Some S) cs =
  Some (list_to_set cs ∪ S).
Proof.
  revert S. induction cs as [|c cs IH]; intros S Hc; cbn [foldl]; [f_equal; set_solver|].
  pose proof (Hc c ltac:(by left)). cbn [base.mbind option_bind].
  rewrite (proj2 (Z.leb_le 0 c)), (proj2 (Z.ltb_lt c _)) by lia. cbn [andb check].
  rewrite IH by (intros; apply Hc; by right). f_equal. set_solver.
Qed.

(** [Cores] is the set of the cores of its CPUs; conversion to a [cpu_set_t]
    succeeds, holds exactly the CPUs of the list, and converts back to the list. *)
Theorem cpulist_conversions t m :
  map_wf (num_cpus t) m ->
  (forall c, 0 <= c < num_cpus t -> 0 <= rep_core (cpu (cpus_ t) c) < num_cpus t) ->
  (forall k, k ∈ cpus (num_cpus t) (Cores (num_cpus t) (cpus_ t) m) <-> cores_of t m k) /\
  ToCpuSet (num_cpus t) m = Some (list_to_set (cpus (num_cpus t) m)) /\
  ToCpuList_set (list_to_set (cpus (num_cpus t) m)) = m.
Proof.
  intros Hwf Hcore. set (n := num_cpus t) in *. pose proof Hwf as [Hn _ _ _]. split; [|split].
  - intros k. unfold Cores. rewrite iterate_spec by done.
    destruct (cores_loop n (cpus_ t) (cpus n m) empty_map ∅) as [_ Hk]; [by apply empty_wf|..].
    + intros c Hc. apply Hcore. by apply elem_of_cpus in Hc as [? _].
    + intros k'. rewrite elem_of_cpus. split; [set_solver|]. intros [Hk' Hb]. rewrite bit_empty in Hb by lia. done.
    + rewrite Hk. unfold cores_of. split; [|by right]. intros [Hk'|?]; [|done].
      apply elem_of_cpus in Hk' as [? Hb]. rewrite bit_empty in Hb by lia. done.
  - unfold ToCpuSet. rewrite iterate_spec by done. rewrite to_set_loop; [f_equal; set_solver|].
    intros c [Hc _]%elem_of_cpus. unfold CPU_SETSIZE, MAX_CPUS in *. lia.
  - unfold ToCpuList_set. set (S := list_to_set (cpus n m) : gset Z).
    assert (E : forall l m0, foldl (fun m c => if bool_decide (c ∈ S) then CpuMap.Set_ m c else m) m0 l =
      foldl CpuMap.Set_ m0 (filter (fun c => c ∈ S) l)).
    { induction l as [|c l IH]; intros m0; [done|]. cbn [foldl]. rewrite filter_cons.
      case_bool_decide; [rewrite decide_True by done|rewrite decide_False by done]; apply IH. }
    rewrite E. fold (ToCpuList (filter (fun c => c ∈ S) (seqZ 0 CPU_SETSIZE))).
    assert (HS : forall c, c ∈ S <-> c ∈ cpus n m) by (intros c; unfold S; by rewrite elem_of_list_to_set).
    destruct (ToCpuList_spec n (filter (fun c => c ∈ S) (seqZ 0 CPU_SETSIZE)) Hn) as [Hw Hin].
    + intros c Hc. apply list_elem_of_filter in Hc as [Hc _]. apply HS in Hc. by apply elem_of_cpus in Hc as [? _].
    + apply (cpus_inj n); [done..|]. apply cpus_ext. intros i Hi. apply eq_true_iff_eq. specialize (Hin i).
      rewrite list_elem_of_filter, HS, elem_of_seqZ, !elem_of_cpus in Hin. unfold CPU_SETSIZE, MAX_CPUS in *. naive_solver lia.
Qed.

(** ** The test topology *)

(** [P] of every CPU of a topology that could be built. *)
Definition for_cpus (o : option Topology) (P : Topology -> Z -> bool) : bool :=
  match o with None => false | Some t => forallb (P t) (seqZ 0 (num_cpus t)) end.

Definition siblings_are (t : Topology) (c : Z) (l : list Z) : bool :=
  bool_decide (CpuMap.iterate (num_cpus t) (rep_siblings (cpu (cpus_ t) c)) = l).

(** The layout of the test topology (without an L3 cache).  With an SMT offset of half the CPUs
    it is the documented one: CPU [c] shares the core [c mod 56] with [c + 56],
    and cores 0-27 are on node 0.  With consecutive numbering CPU pairs share a
    core, but node 0 gets CPUs 0-27 only, where the documentation has 0-55. *)
Theorem test_topology_layout :
  for_cpus (InitTest false false) (fun t c =>
    (num_cpus t =? 112) && siblings_are t c [c mod 56; c mod 56 + 56] && (rep_core (cpu (cpus_ t) c) =? c mod 56) &&
    (rep_smt_idx (cpu (cpus_ t) c) =? c / 56) && (rep_numa_node (cpu (cpus_ t) c) =? c mod 56 / 28)) = true /\
  for_cpus (InitTest false true) (fun t c =>
    (num_cpus t =? 112) && siblings_are t c [c / 2 * 2; c / 2 * 2 + 1] && (rep_core (cpu (cpus_ t) c) =? c / 2 * 2) &&
    (rep_smt_idx (cpu (cpus_ t) c) =? c mod 2) && (rep_numa_node (cpu (cpus_ t) c) =? if c <? 28 then 0 else 1)) = true.
Proof. split; vm_compute; reflexivity. Qed.


(** ** Witnesses *)

(** Two cores with two threads each, on two nodes, in a shuffled order. *)
Definition demo_raws : list Raw :=
  [mk_raw 2 0 1 [2; 0] [0; 2] 0; mk_raw 0 0 0 [0; 2] [0; 2] 0; mk_raw 3 1 1 [1; 3] [] 1; mk_raw 1 1 0 [3; 1] [] 1].

Definition no_topology : Topology := mk_topology 0 [] [] 0 false [].

Definition demo_topology : Topology :=
  Eval vm_compute in match InitCustom demo_raws with Some t => t | None => no_topology end.

Lemma custom_topology_consistent_witness : consistent demo_topology /\ num_cpus demo_topology = 4.
Proof. apply (custom_topology_consistent demo_raws demo_topology). vm_compute. reflexivity. Defined.

Lemma export_custom_roundtrip_witness : rebuild demo_topology = Some demo_topology.
Proof. apply (export_custom_roundtrip demo_raws demo_topology). vm_compute. reflexivity. Defined.

Definition demo_files (c : Z) : string := if Z.even c then "5"%string else "a"%string.

Definition demo_host : Topology :=
  Eval vm_compute in
  match InitHost 4 demo_files (fun _ => ""%string) (fun c => c / 2) [Some 0; Some 1] with
  | Some t => t | None => no_topology end.

Lemma host_topology_consistent_witness :
  consistent demo_host /\ (2 ∈ siblings demo_host 0 <-> demo_files 2 = demo_files 0).
Proof.
  destruct (host_topology_consistent 4 demo_files (fun _ => ""%string) (fun c => c / 2) [Some 0; Some 1] demo_host)
    as (H1 & _ & H2 & _); [lia|vm_compute; reflexivity|].
  split; [exact H1|apply H2; lia].
Defined.

Definition demo_atoi (s : list Ascii.ascii) : option Z :=
  match s with
  | [] => None
  | _ => fold_left (fun a c => v ← a; if is_digit c then Some (v * 10 + Z.of_N (Ascii.N_of_ascii c) - 48) else None) s (Some 0)
  end.

Definition demo_str : list Ascii.ascii := ["0"; "-"; "2"; ","; "5"]%char.

Lemma parse_cpu_str_exact_witness :
  ParseCpuStr demo_atoi 8 demo_str = Some (ToCpuList [0; 1; 2; 5]) /\
  map_wf 8 (ToCpuList [0; 1; 2; 5]).
Proof.
  split; [vm_compute; reflexivity|].
  pose proof (parse_cpu_str_exact demo_atoi 8 demo_str ltac:(unfold MAX_CPUS; lia)) as H.
  replace (ParseCpuStr demo_atoi 8 demo_str) with (Some (ToCpuList [0; 1; 2; 5])) in H by (vm_compute; reflexivity).
  apply H.
Defined.

Lemma cpulist_conversions_witness : ToCpuList_set (list_to_set (cpus 4 (ToCpuList [1; 2]))) = ToCpuList [1; 2].
Proof.
  apply (cpulist_conversions demo_topology (ToCpuList [1; 2])).
  - apply ToCpuList_spec; [unfold MAX_CPUS; cbn; lia|]. intros c Hc. cbn. set_solver by lia.
  - intros c Hc. assert (H : forallb (fun c => (0 <=? rep_core (cpu (cpus_ demo_topology) c)) &&
      (rep_core (cpu (cpus_ demo_topology) c) <? 4)) (seqZ 0 4) = true) by (vm_compute; reflexivity).
    rewrite forallb_forall in H. specialize (H c). rewrite <- list_elem_of_In, elem_of_seqZ in H.
    specialize (H ltac:(cbn in Hc; lia)). apply andb_true_iff in H as [H1 H2].
    apply Z.leb_le in H1. apply Z.ltb_lt in H2. exact (conj H1 H2).
Defined.
