(* ===== verification/Txn.v ===== *)
(** * Transactions: how an agent asks the kernel to run a task

    [src/lib/enclave.h] and [src/lib/enclave.cc]: the run request of one CPU (a
    transaction in memory shared with the kernel), the calls on it as sequences of
    atomic accesses, and the batch calls of the enclave on many requests. *)

From stdpp Require Import strings pretty.
From S2P Require Import Prelude CpuMap.

(** ** The ABI *)

Definition INT_MIN : Z := - 2 ^ 31.
Definition INT_MAX : Z := 2 ^ 31 - 1.

Definition GHOST_TXN_COMPLETE : Z := INT_MIN.
Definition GHOST_TXN_ABORTED : Z := INT_MIN + 1.
Definition GHOST_TXN_TARGET_ONCPU : Z := INT_MIN + 2.
Definition GHOST_TXN_TARGET_STALE : Z := INT_MIN + 3.
Definition GHOST_TXN_TARGET_NOT_FOUND : Z := INT_MIN + 4.
Definition GHOST_TXN_TARGET_NOT_RUNNABLE : Z := INT_MIN + 5.
Definition GHOST_TXN_AGENT_STALE : Z := INT_MIN + 6.
Definition GHOST_TXN_CPU_OFFLINE : Z := INT_MIN + 7.
Definition GHOST_TXN_CPU_UNAVAIL : Z := INT_MIN + 8.
Definition GHOST_TXN_INVALID_FLAGS : Z := INT_MIN + 9.
Definition GHOST_TXN_INVALID_TARGET : Z := INT_MIN + 10.
Definition GHOST_TXN_NOT_PERMITTED : Z := INT_MIN + 11.
Definition GHOST_TXN_INVALID_CPU : Z := INT_MIN + 12.
Definition GHOST_TXN_NO_AGENT : Z := INT_MIN + 13.
Definition GHOST_TXN_UNSUPPORTED_VERSION : Z := INT_MIN + 14.
Definition GHOST_TXN_POISONED : Z := INT_MIN + 15.
Definition GHOST_TXN_READY : Z := INT_MAX.

Record ghost_txn := mk_txn {
  version : Z; txn_cpu : Z;
  state : Z;
  agent_barrier : Z; task_barrier : Z;
  run_flags : Z;       (* 16 bits *)
  commit_flags : Z;    (* 8 bits *)
  gtid : Z;
  commit_time : Z; cpu_seqnum : Z;
  sync_group_owner : Z;
}.

Definition set_state (v : Z) (x : ghost_txn) : ghost_txn :=
  mk_txn (version x) (txn_cpu x) v (agent_barrier x) (task_barrier x) (run_flags x) (commit_flags x)
    (gtid x) (commit_time x) (cpu_seqnum x) (sync_group_owner x).
Definition set_agent_barrier (v : Z) (x : ghost_txn) : ghost_txn :=
  mk_txn (version x) (txn_cpu x) (state x) v (task_barrier x) (run_flags x) (commit_flags x)
    (gtid x) (commit_time x) (cpu_seqnum x) (sync_group_owner x).
Definition set_task_barrier (v : Z) (x : ghost_txn) : ghost_txn :=
  mk_txn (version x) (txn_cpu x) (state x) (agent_barrier x) v (run_flags x) (commit_flags x)
    (gtid x) (commit_time x) (cpu_seqnum x) (sync_group_owner x).
Definition set_run_flags (v : Z) (x : ghost_txn) : ghost_txn :=
  mk_txn (version x) (txn_cpu x) (state x) (agent_barrier x) (task_barrier x) v (commit_flags x)
    (gtid x) (commit_time x) (cpu_seqnum x) (sync_group_owner x).
Definition set_commit_flags (v : Z) (x : ghost_txn) : ghost_txn :=
  mk_txn (version x) (txn_cpu x) (state x) (agent_barrier x) (task_barrier x) (run_flags x) v
    (gtid x) (commit_time x) (cpu_seqnum x) (sync_group_owner x).
Definition set_gtid (v : Z) (x : ghost_txn) : ghost_txn :=
  mk_txn (version x) (txn_cpu x) (state x) (agent_barrier x) (task_barrier x) (run_flags x) (commit_flags x)
    v (commit_time x) (cpu_seqnum x) (sync_group_owner x).
Definition set_commit_time (v : Z) (x : ghost_txn) : ghost_txn :=
  mk_txn (version x) (txn_cpu x) (state x) (agent_barrier x) (task_barrier x) (run_flags x) (commit_flags x)
    (gtid x) v (cpu_seqnum x) (sync_group_owner x).
Definition set_owner (v : Z) (x : ghost_txn) : ghost_txn :=
  mk_txn (version x) (txn_cpu x) (state x) (agent_barrier x) (task_barrier x) (run_flags x) (commit_flags x)
    (gtid x) (commit_time x) (cpu_seqnum x) v.

(** ** Run requests *)

Definition is_open (state : Z) : bool := state =? GHOST_TXN_READY.
Definition is_claimed (state : Z) : bool := (0 <=? state) && (state <? MAX_CPUS).
Definition is_committed (state : Z) : bool := state <? 0.
Definition is_failed (state : Z) : bool := is_committed state && negb (state =? GHOST_TXN_COMPLETE).
Definition is_succeeded (state : Z) : bool := state =? GHOST_TXN_COMPLETE.

Definition kSyncGroupNotOwned : Z := -1.
Definition NullBarrierToken : Z := 0.

Record RunRequestOptions := mk_options {
  target : Z; target_barrier : Z; opt_agent_barrier : Z; opt_commit_flags : Z; opt_run_flags : Z;
  opt_sync_group_owner : Z; opt_allow_txn_target_on_cpu : bool;
}.

Definition default_options : RunRequestOptions :=
  mk_options 0 NullBarrierToken NullBarrierToken 0 0 kSyncGroupNotOwned false.

(** A request: its transaction, and the flag the agent process keeps beside it. *)
Record LocalRunRequest := mk_req { req_cpu : Z; txn : ghost_txn; allow_txn_target_on_cpu : bool }.

Definition on_txn (f : ghost_txn -> ghost_txn) (r : LocalRunRequest) : LocalRunRequest :=
  mk_req (req_cpu r) (f (txn r)) (allow_txn_target_on_cpu r).

Definition sync_group_owned (x : ghost_txn) : bool := negb (sync_group_owner x =? kSyncGroupNotOwned).

Definition StateToString (state : Z) : string :=
  if state =? GHOST_TXN_COMPLETE then "GHOST_TXN_COMPLETE"
  else if state =? GHOST_TXN_ABORTED then "GHOST_TXN_ABORTED"
  else if state =? GHOST_TXN_TARGET_ONCPU then "GHOST_TXN_TARGET_ONCPU"
  else if state =? GHOST_TXN_TARGET_STALE then "GHOST_TXN_TARGET_STALE"
  else if state =? GHOST_TXN_TARGET_NOT_FOUND then "GHOST_TXN_TARGET_NOT_FOUND"
  else if state =? GHOST_TXN_TARGET_NOT_RUNNABLE then "GHOST_TXN_TARGET_NOT_RUNNABLE"
  else if state =? GHOST_TXN_AGENT_STALE then "GHOST_TXN_AGENT_STALE"
  else if state =? GHOST_TXN_CPU_OFFLINE then "GHOST_TXN_CPU_OFFLINE"
  else if state =? GHOST_TXN_CPU_UNAVAIL then "GHOST_TXN_CPU_UNAVAIL"
  else if state =? GHOST_TXN_INVALID_FLAGS then "GHOST_TXN_INVALID_FLAGS"
  else if state =? GHOST_TXN_INVALID_TARGET then "GHOST_TXN_INVALID_TARGET"
  else if state =? GHOST_TXN_NOT_PERMITTED then "GHOST_TXN_NOT_PERMITTED"
  else if state =? GHOST_TXN_INVALID_CPU then "GHOST_TXN_INVALID_CPU"
  else if state =? GHOST_TXN_NO_AGENT then "GHOST_TXN_NO_AGENT"
  else if state =? GHOST_TXN_UNSUPPORTED_VERSION then "GHOST_TXN_UNSUPPORTED_VERSION"
  else if state =? GHOST_TXN_POISONED then "GHOST_TXN_POISONED"
  else if state =? GHOST_TXN_READY then "GHOST_TXN_READY"
  else if (0 <=? state) && (state <? MAX_CPUS) then "SUCCESSFUL_COMMIT_ON_CPU_" +:+ pretty state
  else "UNKNOWN_COMMIT_STATE_" +:+ pretty state.

(** What [CompleteRunRequest] makes of a committed state: [None] where it stops
    the process. *)
Definition commit_result (online allow : bool) (state : Z) : option bool :=
  if state =? GHOST_TXN_COMPLETE then Some true
  else if (state =? GHOST_TXN_TARGET_NOT_FOUND) || (state =? GHOST_TXN_TARGET_STALE) ||
          (state =? GHOST_TXN_AGENT_STALE) then Some false
  else if state =? GHOST_TXN_NO_AGENT then if online then None else Some false
  else if (state =? GHOST_TXN_CPU_UNAVAIL) || (state =? GHOST_TXN_POISONED) ||
          (state =? GHOST_TXN_ABORTED) then Some false
  else if state =? GHOST_TXN_TARGET_ONCPU then if allow then Some false else None
  else None.

(** ** The calls on one request, access by access

    Agents, the kernel and BPF programs share the transaction, so a call is a
    sequence of atomic accesses and what the other parties do comes in between. *)

Module Proto.
Inductive pc :=
  | Idle
  (* [Open] *)
  | OLoad (o : RunRequestOptions)            (* before [sync_group_owner_get] *)
  | OCas (o : RunRequestOptions)             (* before [sync_group_take_ownership] *)
  | OOwned (o : RunRequestOptions)           (* before [CHECK(sync_group_owned())] *)
  | ONotOwned (o : RunRequestOptions)        (* before [CHECK(!sync_group_owned())] *)
  | OCommitted (o : RunRequestOptions)       (* before [CHECK(committed())] *)
  | OStore (o : RunRequestOptions) (k : nat) (* before the store to field [k] *)
  | OAllow (o : RunRequestOptions)           (* before [CHECK(sync_group_owned())] of the flag *)
  | OReady (o : RunRequestOptions)           (* before the store to [state] *)
  (* [Abort] *)
  | ALoad | ACas | AOwned | ARelease
  (* [SubmitRunRequest], and whether [CompleteRunRequest] follows *)
  | SLoad (wait : bool) | SIoctl (wait : bool)
  (* [CompleteRunRequest] *)
  | CLoad | CState
  (* [CommitSyncRequests]: the call to the kernel and its answer, the wait for the
     commit, [ReleaseSyncRequests] *)
  | YIoctl | YRet (ok : bool) | YLoad | YState | YCommitted | YOwned | YStore
  (* the call has returned, a [CHECK] has failed, the commit failed unexpectedly *)
  | Returned (ok : bool)
  | Failed
  | Error.

(** The stores of [Open], in its order and with the widths of the fields. *)
Definition stores (o : RunRequestOptions) : list (ghost_txn -> ghost_txn) :=
  [ set_agent_barrier (opt_agent_barrier o);
    set_gtid (target o);
    set_task_barrier (target_barrier o);
    set_run_flags (opt_run_flags o mod 2 ^ 16);
    set_commit_flags (opt_commit_flags o mod 2 ^ 8) ].

Definition Open (o : RunRequestOptions) : pc :=
  if negb (opt_sync_group_owner o =? kSyncGroupNotOwned) then OLoad o else ONotOwned o.

Definition OpenUnschedule (cpu getcpu : Z) : pc :=
  if negb (cpu =? getcpu) then Open default_options else Failed.

(** One access of the thread at [p]; [spurious] is a spurious failure of the weak
    compare-exchange, [online] what [IsOnline] answers. *)
Definition step (spurious online : bool) (p : pc) (r : LocalRunRequest) : pc * LocalRunRequest :=
  let x := txn r in
  match p with
  | OLoad o =>
      let current_owner := sync_group_owner x in
      (if current_owner =? kSyncGroupNotOwned then OCas o
       else if negb (current_owner =? opt_sync_group_owner o) then OLoad o
       else OOwned o, r)
  | OCas o =>
      if negb spurious && (sync_group_owner x =? kSyncGroupNotOwned)
      then (OOwned o, on_txn (set_owner (opt_sync_group_owner o)) r)
      else (OLoad o, r)
  | OOwned o => (if sync_group_owned x then OCommitted o else Failed, r)
  | ONotOwned o => (if negb (sync_group_owned x) then OCommitted o else Failed, r)
  | OCommitted o => (if is_committed (state x) then OStore o 0 else Failed, r)
  | OStore o k =>
      match stores o !! k with
      | Some f => (OStore o (S k), on_txn f r)
      | None =>
          (if opt_allow_txn_target_on_cpu o then OAllow o else OReady o,
           mk_req (req_cpu r) x (opt_allow_txn_target_on_cpu o))
      end
  | OAllow o => (if sync_group_owned x then OReady o else Failed, r)
  | OReady o => (Idle, on_txn (set_state GHOST_TXN_READY) r)
  | ALoad => (if state x =? GHOST_TXN_READY then ACas else Returned false, r)
  | ACas =>
      if state x =? GHOST_TXN_READY then (AOwned, on_txn (set_state GHOST_TXN_ABORTED) r)
      else (Returned false, r)
  | AOwned => (if sync_group_owned x then ARelease else Returned true, r)
  | ARelease => (Returned true, on_txn (set_owner kSyncGroupNotOwned) r)
  | SLoad wait => (if is_open (state x) then SIoctl wait else if wait then CLoad else Idle, r)
  | SIoctl wait => (if wait then CLoad else Idle, r)
  | CLoad => (if is_committed (state x) then CState else CLoad, r)
  | CState =>
      (match commit_result online (allow_txn_target_on_cpu r) (state x) with
       | Some ok => Returned ok
       | None => Error
       end, r)
  | YRet ok => (if ok then Returned true else YLoad, r)
  | YLoad => (if is_committed (state x) then YState else YLoad, r)
  | YState =>
      (match commit_result online (allow_txn_target_on_cpu r) (state x) with
       | Some _ => YCommitted
       | None => Error
       end, r)
  | YCommitted => (if is_committed (state x) then YOwned else Failed, r)
  | YOwned => (if sync_group_owned x then YStore else Failed, r)
  | YStore => (Returned false, on_txn (set_owner kSyncGroupNotOwned) r)
  | Idle | YIoctl | Returned _ | Failed | Error => (p, r)
  end.

(** *** Everything that can happen to the request

    [solo]: the request belongs to one agent, which does not use sync groups;
    otherwise the agents that share it open it under their own owner ids.  Ghost
    state: the options of the requests opened so far and the decisions on them,
    newest first. *)

(** What the kernel is asked to do. *)
Definition fields (x : ghost_txn) : Z * Z * Z * Z * Z :=
  (agent_barrier x, gtid x, task_barrier x, run_flags x, commit_flags x).

Record sys := mk_sys {
  req : LocalRunRequest; threads : gmap Z pc;
  opens : list RunRequestOptions; decided : list (Z * Z * Z * Z * Z * Z) }.

Inductive action :=
  | StartOpen (t : Z) (o : RunRequestOptions)
  | StartAbort (t : Z)
  | StartSubmit (t : Z) (wait : bool)
  | StartComplete (t : Z)
  | StartSync (t : Z)
  | Step (t : Z) (spurious online : bool)
  (* the kernel: claims a request, commits it, ends a sync-group commit *)
  | KClaim (cpu : Z)
  | KCommit (v time : Z)
  | KRelease (t : Z)
  | KFail (t : Z).

Section System.
Context (solo : bool).

Definition idle (s : sys) (t : Z) : bool :=
  match threads s !! t with Some Idle | Some (Returned _) | None => true | _ => false end.

(** The agent whose request it is. *)
Definition holds (x : ghost_txn) (t : Z) : bool :=
  if solo then t =? 0 else (sync_group_owner x =? t) && negb (t =? kSyncGroupNotOwned).

Definition permitted (t : Z) (o : RunRequestOptions) : bool :=
  if solo then (t =? 0) && (opt_sync_group_owner o =? kSyncGroupNotOwned) && negb (opt_allow_txn_target_on_cpu o)
  else (opt_sync_group_owner o =? t) && negb (t =? kSyncGroupNotOwned).

Definition set_thread (s : sys) (t : Z) (p : pc) : sys :=
  mk_sys (req s) (<[t := p]> (threads s)) (opens s) (decided s).

Definition decide_now (x : ghost_txn) (v : Z) : Z * Z * Z * Z * Z * Z := (fields x, v).

Definition act (s : sys) (a : action) : option sys :=
  let x := txn (req s) in
  match a with
  | StartOpen t o =>
      if idle s t && permitted t o && (negb (holds x t) || is_committed (state x))
      then Some (set_thread s t (Open o)) else None
  | StartAbort t => if idle s t && holds x t then Some (set_thread s t ALoad) else None
  | StartSubmit t wait => if idle s t && holds x t then Some (set_thread s t (SLoad wait)) else None
  | StartComplete t => if idle s t && holds x t then Some (set_thread s t CLoad) else None
  | StartSync t =>
      if idle s t && holds x t && negb solo then Some (set_thread s t YIoctl) else None
  | Step t spurious online =>
      match threads s !! t with
      | Some p =>
          let '(p', r') := step spurious online p (req s) in
          Some (mk_sys r' (<[t := p']> (threads s))
            (match p with OReady o => o :: opens s | _ => opens s end)
            (match p, p' with ACas, AOwned => decide_now x GHOST_TXN_ABORTED :: decided s | _, _ => decided s end))
      | None => None
      end
  | KClaim cpu =>
      if is_open (state x) && is_claimed cpu
      then Some (mk_sys (on_txn (set_state cpu) (req s)) (threads s) (opens s) (decided s)) else None
  | KCommit v time =>
      if is_claimed (state x) && is_committed v
      then Some (mk_sys (on_txn (fun x => set_commit_time time (set_state v x)) (req s)) (threads s) (opens s)
             (decide_now x v :: decided s))
      else None
  | KRelease t =>
      match threads s !! t with
      | Some YIoctl =>
          if is_succeeded (state x)
          then Some (mk_sys (on_txn (set_owner kSyncGroupNotOwned) (req s)) (<[t := YRet true]> (threads s))
                 (opens s) (decided s))
          else None
      | _ => None
      end
  | KFail t =>
      match threads s !! t with
      | Some YIoctl => if is_failed (state x) then Some (set_thread s t (YRet false)) else None
      | _ => None
      end
  end.
End System.

Definition init_sys (r : LocalRunRequest) : sys := mk_sys r ∅ [] [].
End Proto.

(** ** The calls of the enclave on the requests of its CPUs

    What the kernel and the BPF programs do to the transactions between two
    accesses of the agent ([tick]) and in the system calls is a parameter. *)

Module Batch.
Notation mem := (gmap Z LocalRunRequest).

Class Kernel := {
  tick : mem -> mem;
  Commit : list Z -> mem -> Z * mem;       (* GHOST_IOC_COMMIT_TXN *)
  SyncCommit : list Z -> mem -> Z * mem;   (* GHOST_IOC_SYNC_GROUP_TXN *)
}.

Section Calls.
Context `{Kernel} (online : bool).

(** An access to the request of a CPU. *)
Definition access (cpu : Z) : M mem LocalRunRequest :=
  mmod tick ;;; m <- mget ;; deref (m !! cpu).

Definition ioctl (call : list Z -> mem -> Z * mem) (cpus : list Z) : M mem Z :=
  fun m => Some (call cpus m).

Definition sync_group_owner_set (cpu owner : Z) : M mem unit :=
  mmod (alter (on_txn (set_owner owner)) cpu).

(** [CompleteRunRequest]: the loop with its fuel, then the state again. *)
Fixpoint CompleteRunRequest (fuel : nat) (cpu : Z) : M mem bool :=
  match fuel with
  | O => fun _ => None
  | S fuel =>
      req <- access cpu ;;
      if negb (is_committed (state (txn req))) then CompleteRunRequest fuel cpu
      else
        req <- access cpu ;;
        deref (commit_result online (allow_txn_target_on_cpu req) (state (txn req)))
  end.

Definition SubmitRunRequest (cpu : Z) : M mem unit :=
  req <- access cpu ;;
  if is_open (state (txn req)) then ret <- ioctl Commit [cpu] ;; CHECK (ret =? 0) else mret tt.

Definition CommitRunRequest (fuel : nat) (cpu : Z) : M mem bool :=
  SubmitRunRequest cpu ;;; CompleteRunRequest fuel cpu.

(** The loop over [cpu_list]: whether every request completed. *)
Fixpoint CompleteRunRequests (fuel : nat) (cpu_list : list Z) (success : bool) : M mem bool :=
  match cpu_list with
  | [] => mret success
  | cpu :: cpu_list =>
      ok <- CompleteRunRequest fuel cpu ;;
      CompleteRunRequests fuel cpu_list (if negb ok then false else success)
  end.

Definition SubmitRunRequests (cpu_list : list Z) : M mem unit :=
  ret <- ioctl Commit cpu_list ;; CHECK (ret =? 0).

Definition CommitRunRequests (fuel : nat) (cpu_list : list Z) : M mem bool :=
  SubmitRunRequests cpu_list ;;; CompleteRunRequests fuel cpu_list true.

Definition SubmitSyncRequests (cpu_list : list Z) : M mem bool :=
  ret <- ioctl SyncCommit cpu_list ;;
  CHECK ((ret =? 0) || (ret =? 1)) ;;; mret (ret =? 1).

Fixpoint ReleaseSyncRequests (cpu_list : list Z) : M mem unit :=
  match cpu_list with
  | [] => mret tt
  | cpu :: cpu_list =>
      req <- access cpu ;; CHECK (is_committed (state (txn req))) ;;;
      req <- access cpu ;; CHECK (sync_group_owned (txn req)) ;;;
      sync_group_owner_set cpu kSyncGroupNotOwned ;;;
      ReleaseSyncRequests cpu_list
  end.

Definition CommitSyncRequests (fuel : nat) (cpu_list : list Z) : M mem bool :=
  committed <- SubmitSyncRequests cpu_list ;;
  if committed : bool then mret true
  else
    success <- CompleteRunRequests fuel cpu_list true ;;
    let failure_detected := negb success in
    CHECK failure_detected ;;;
    ReleaseSyncRequests cpu_list ;;;
    mret false.
End Calls.
End Batch.
