(* ===== verification/TxnProps.v ===== *)
(** * Transactions are decided once, as they were opened

    The safety of the access-by-access protocol on one run request, for any
    interleaving of agents and kernel. *)

From stdpp Require Import strings pretty.
From S2P Require Import Prelude CpuMap Txn.

(** ** States of a transaction *)

Lemma ready_not_committed : is_committed GHOST_TXN_READY = false.
Proof. done. Qed.

Lemma claimed_not_committed v : is_claimed v = true -> is_committed v = false.
Proof. unfold is_claimed, is_committed. lia. Qed.

Lemma open_not_committed v : is_open v = true -> is_committed v = false.
Proof. unfold is_open, is_committed, GHOST_TXN_READY, INT_MAX. lia. Qed.

Lemma succeeded_committed v : is_succeeded v = true -> is_committed v = true.
Proof. unfold is_succeeded, is_committed, GHOST_TXN_COMPLETE, INT_MIN. lia. Qed.

(** The names printed for the states are distinct. *)
Lemma StateToString_inj a b : StateToString a = StateToString b -> a = b.
Proof.
  unfold StateToString. intros H.
  repeat match type of H with
  | context [if a =? ?c then _ else _] => destruct (Z.eqb_spec a c) as [->|_]
  end;
  [..|destruct ((0 <=? a) && (a <? MAX_CPUS))];
  repeat match type of H with
  | context [if b =? ?c then _ else _] => destruct (Z.eqb_spec b c) as [Hb|_]; [first [exact (eq_sym Hb)|discriminate H]|]
  end;
  destruct ((0 <=? b) && (b <? MAX_CPUS)); try discriminate H;
    apply (inj (String.append _)) in H; by apply (inj pretty) in H.
Qed.

Module ProtoProps.
Import Proto.

(** ** The invariant *)

Section Safe.
Context (solo : bool).
Implicit Types (s : sys) (x : ghost_txn) (p : pc) (t : Z).

Definition encode (o : RunRequestOptions) : Z * Z * Z * Z * Z :=
  (opt_agent_barrier o, target o, target_barrier o, opt_run_flags o mod 2 ^ 16, opt_commit_flags o mod 2 ^ 8).

(** The options a call carries. *)
Definition carries p : option RunRequestOptions :=
  match p with
  | OLoad o | OCas o | OOwned o | ONotOwned o | OCommitted o | OStore o _ | OAllow o | OReady o => Some o
  | _ => None
  end.

(** A point from which the thread may act on the request, which is then its own. *)
Definition owning p : bool :=
  match p with
  | OOwned _ | ONotOwned _ | OCommitted _ | OStore _ _ | OAllow _ | OReady _
  | ACas | AOwned | ARelease | ALoad | YIoctl | YRet false | YLoad | YState | YCommitted | YOwned | YStore => true
  | _ => false
  end.

(** A point at which no commit is pending. *)
Definition settled p : bool :=
  match p with
  | OOwned _ | ONotOwned _ | OCommitted _ | OStore _ _ | OAllow _ | OReady _
  | AOwned | ARelease | YState | YCommitted | YOwned | YStore => true
  | _ => false
  end.

(** The stores still to come. *)
Definition remaining p : list (ghost_txn -> ghost_txn) :=
  match p with OStore o k => drop k (stores o) | _ => [] end.

(** What holds at each point of a call. *)
Record at_pc x t p : Prop := {
  pc_ok : p <> Failed;
  pc_permitted : forall o, carries p = Some o -> permitted solo t o = true;
  pc_mode : match p with
            | OLoad _ | OCas _ | OOwned _ | ARelease | YIoctl | YRet _ | YLoad | YState | YCommitted | YOwned | YStore => solo = false
            | ONotOwned _ => solo = true
            | _ => True
            end;
  pc_holds : owning p = true -> holds solo x t = true;
  pc_settled : settled p = true -> is_committed (state x) = true;
  pc_fields : match p with
              | OStore o _ | OAllow o | OReady o =>
                  fields (fold_left (fun x f => f x) (remaining p) x) = encode o
              | _ => True
              end;
  pc_allow : match p with OAllow _ => solo = false | _ => True end;
  pc_again : match p with
             | OLoad _ | OCas _ => holds solo x t = true -> is_committed (state x) = true
             | _ => True
             end;
}.

(** Every request opened before the current one has been decided as opened. *)
Definition log_ok x (opens : list RunRequestOptions) (decided : list (Z * Z * Z * Z * Z * Z)) : Prop :=
  if is_committed (state x) then decided.*1 = encode <$> opens
  else (is_open (state x) || is_claimed (state x)) = true /\
    exists o rest, opens = o :: rest /\ fields x = encode o /\ decided.*1 = encode <$> rest.

Record inv s : Prop := {
  inv_threads : forall t p, threads s !! t = Some p -> at_pc (txn (req s)) t p;
  inv_unowned : solo = false -> sync_group_owner (txn (req s)) = kSyncGroupNotOwned -> is_committed (state (txn (req s))) = true;
  inv_solo : solo = true -> sync_group_owner (txn (req s)) = kSyncGroupNotOwned /\ forall t p, threads s !! t = Some p -> t = 0;
  inv_log : log_ok (txn (req s)) (opens s) (decided s);
}.

Lemma holds_unique x t t' : holds solo x t = true -> holds solo x t' = true -> t = t'.
Proof. unfold holds. destruct solo; lia. Qed.

(** What a write by the thread that holds the request, or that takes it, keeps:
    the other threads are at points where they do not rely on the memory. *)
Lemma others x x' t t' p' :
  (holds solo x t = true \/ solo = false /\ sync_group_owner x = kSyncGroupNotOwned) -> t' <> t ->
  (sync_group_owner x' = sync_group_owner x \/ sync_group_owner x' = t \/ sync_group_owner x' = kSyncGroupNotOwned) ->
  at_pc x t' p' -> at_pc x' t' p'.
Proof.
  intros Ht Hne Hw [H1 H2 H3 H4 H5 H6 H7 H8].
  assert (Hh : holds solo x t' = false).
  { destruct (holds solo x t') eqn:E; [|done]. destruct Ht as [Ht|[-> Ht]].
    - by destruct Hne, (holds_unique _ _ _ E Ht).
    - unfold holds in E. lia. }
  assert (Ho : owning p' = false) by (destruct (owning p'); [rewrite H4 in Hh; done|done]).
  assert (Hh' : solo = false -> holds solo x' t' = false) by (intros E; unfold holds in *; rewrite E in *; lia).
  split; try done.
  - by rewrite Ho.
  - by destruct p' as [| | | | | | | | | | | | | | | | | |[]| | | | | | | |].
  - by destruct p'.
  - destruct p'; try done; by rewrite (Hh' H3).
Qed.

(** ** Every step keeps it *)

(** A step that only reads. *)
Lemma inv_set_thread s t p' :
  inv s -> (solo = true -> t = 0) -> at_pc (txn (req s)) t p' -> inv (set_thread s t p').
Proof.
  intros [H1 H2 H3 H4] Ht Hp. split; try done; cbn.
  - intros t' p. rewrite lookup_insert_Some. intros [[<- <-]|[_ ?]]; [done|by apply H1].
  - intros Hs. destruct (H3 Hs) as [H5 H6]. split; [done|].
    intros t' p. rewrite lookup_insert_Some. intros [[<- <-]|[_ ?]]; [by apply Ht|by eapply H6].
Qed.

(** A write by the thread that holds the request, or that takes it. *)
Lemma inv_write s t p' r' opens' decided' :
  inv s -> (solo = true -> t = 0) ->
  (holds solo (txn (req s)) t = true \/ solo = false /\ sync_group_owner (txn (req s)) = kSyncGroupNotOwned) ->
  at_pc (txn r') t p' ->
  (solo = false -> sync_group_owner (txn r') = kSyncGroupNotOwned -> is_committed (state (txn r')) = true) ->
  (sync_group_owner (txn r') = sync_group_owner (txn (req s)) \/
   solo = false /\ (sync_group_owner (txn r') = t \/ sync_group_owner (txn r') = kSyncGroupNotOwned)) ->
  log_ok (txn r') opens' decided' ->
  inv (mk_sys r' (<[t := p']> (threads s)) opens' decided').
Proof.
  intros [H1 H2 H3 H4] Ht Hh Hp Hu Hs Hl. split; try done; cbn.
  - intros t' p. rewrite lookup_insert_Some. intros [[<- <-]|[? ?]]; [done|].
    eapply others; [exact Hh|done|tauto|by apply H1].
  - intros E. destruct (H3 E) as [H5 H6]. split; [destruct Hs as [->|[Hs _]]; [done|congruence]|].
    intros t' p. rewrite lookup_insert_Some. intros [[<- <-]|[_ ?]]; [by apply Ht|by eapply H6].
Qed.

(** The kernel moves an uncommitted request. *)
Lemma inv_kernel s r' decided' :
  inv s -> is_committed (state (txn (req s))) = false ->
  sync_group_owner (txn r') = sync_group_owner (txn (req s)) ->
  log_ok (txn r') (opens s) decided' ->
  inv (mk_sys r' (threads s) (opens s) decided').
Proof.
  intros [H1 H2 H3 H4] Hc Ho Hl. split; try done; cbn.
  - intros t p Hp. destruct (H1 t p Hp) as [G1 G2 G3 G4 G5 G6 G7 G8].
    assert (Hs : settled p = false) by (destruct (settled p); [rewrite G5 in Hc; done|done]).
    split; try done.
    + intros E. specialize (G4 E). unfold holds in *. by rewrite Ho.
    + by rewrite Hs.
    + by destruct p.
    + destruct p; try done; intros E; assert (Hh : holds solo (txn (req s)) t = true)
        by (unfold holds in *; by rewrite <- Ho); by rewrite (G8 Hh) in Hc.
  - intros E E'. rewrite Ho in E'. by rewrite (H2 E E') in Hc.
  - intros E. rewrite Ho. by apply H3.
Qed.

Lemma log_same x x' opens decided :
  state x' = state x -> fields x' = fields x -> log_ok x opens decided -> log_ok x' opens decided.
Proof. unfold log_ok. by intros -> ->. Qed.

Lemma log_committed x x' opens decided :
  is_committed (state x) = true -> state x' = state x -> log_ok x opens decided -> log_ok x' opens decided.
Proof. unfold log_ok. intros E ->. by rewrite E. Qed.

(** The calls start in order. *)
Lemma start_ok s t p :
  inv s -> holds solo (txn (req s)) t = true ->
  (p = ALoad \/ (exists w, p = SLoad w) \/ p = CLoad \/ p = YIoctl /\ solo = false) -> inv (set_thread s t p).
Proof.
  intros Hi Hh Hp. apply inv_set_thread; [done| |].
  - intros E. unfold holds in Hh. rewrite E in Hh. lia.
  - destruct Hp as [->|[[w ->]|[->|[-> ?]]]]; split; try done.
Qed.

Lemma open_ok s t o :
  inv s -> permitted solo t o = true -> negb (holds solo (txn (req s)) t) || is_committed (state (txn (req s))) = true ->
  inv (set_thread s t (Open o)).
Proof.
  intros Hi Hp Hc. unfold Open. assert (Ht : solo = true -> t = 0) by (unfold permitted in Hp; destruct solo; lia).
  apply inv_set_thread; [done..|]. destruct (Z.eqb_spec (opt_sync_group_owner o) kSyncGroupNotOwned) as [E|E]; cbn [negb].
  - assert (Hs : solo = true) by (unfold permitted in Hp; destruct solo; lia).
    assert (Hh : holds solo (txn (req s)) t = true) by (unfold holds; rewrite Hs, (Ht Hs); done).
    rewrite Hh in Hc. split; try done. by intros ? [= <-].
  - split; try done; [by intros ? [= <-]|cbn; unfold permitted in Hp; destruct solo; lia|].
    intros Hh. by rewrite Hh in Hc.
Qed.

(** Moving on without a write. *)
Lemma move_on s t p p' :
  inv s -> threads s !! t = Some p -> at_pc (txn (req s)) t p' -> inv (set_thread s t p').
Proof.
  intros Hi Hp. apply inv_set_thread; [done|]. intros E. by apply (proj2 (inv_solo _ Hi E) t p).
Qed.

Lemma thread_zero s t p : inv s -> threads s !! t = Some p -> solo = true -> t = 0.
Proof. intros Hi Hp E. by apply (proj2 (inv_solo _ Hi E) t p). Qed.

(** The next point of a call: what the last one gives and what was read. *)
Lemma advance x t p p' :
  at_pc x t p -> p' <> Failed -> (forall o, carries p' = Some o -> carries p = Some o) ->
  match p' with
  | OLoad _ | OCas _ | OOwned _ | ARelease | YIoctl | YRet _ | YLoad | YState | YCommitted | YOwned | YStore => solo = false
  | ONotOwned _ => solo = true
  | _ => True
  end ->
  (owning p' = true -> owning p = true \/ holds solo x t = true) ->
  (settled p' = true -> settled p = true \/ is_committed (state x) = true) ->
  match p' with
  | OStore o _ | OAllow o | OReady o => fields (fold_left (fun x f => f x) (remaining p') x) = encode o
  | _ => True
  end ->
  match p' with OAllow _ => solo = false | _ => True end ->
  match p' with
  | OLoad _ | OCas _ => holds solo x t = true -> is_committed (state x) = true
  | _ => True
  end ->
  at_pc x t p'.
Proof.
  intros [H1 H2 H3 H4 H5 H6 H7 H8] K1 K2 K3 K4 K5 K6 K7 K8. split; try done.
  - intros o Ho. by apply H2, K2.
  - intros E. destruct (K4 E); auto.
  - intros E. destruct (K5 E); auto.
Qed.

Lemma owned_sync x t p : at_pc x t p -> owning p = true -> solo = false -> sync_group_owned x = true.
Proof.
  intros Hp Ho E. pose proof (pc_holds _ _ _ Hp Ho) as Hh. unfold holds, sync_group_owned in *.
  rewrite E in Hh. lia.
Qed.

Lemma owned_solo s t p : inv s -> threads s !! t = Some p -> solo = true -> sync_group_owned (txn (req s)) = false.
Proof. intros Hi Hp E. unfold sync_group_owned. by rewrite (proj1 (inv_solo _ Hi E)). Qed.

(** All the stores together write the options. *)
Lemma stores_encode o x : fields (fold_left (fun x f => f x) (stores o) x) = encode o.
Proof. done. Qed.

Lemma store_keeps o k f x :
  stores o !! k = Some f -> state (f x) = state x /\ sync_group_owner (f x) = sync_group_owner x.
Proof. intros E. do 5 (destruct k as [|k]; [by injection E as <-|]). done. Qed.

(** *** The steps that only read *)

Lemma open_reads s t p spurious online p' :
  inv s -> threads s !! t = Some p -> step spurious online p (req s) = (p', req s) ->
  match p with OLoad _ | OOwned _ | ONotOwned _ | OCommitted _ | OAllow _ => True | _ => False end ->
  at_pc (txn (req s)) t p'.
Proof.
  intros Hi Hp E Hread. pose proof (inv_threads _ Hi t p Hp) as Hat. pose proof (pc_settled _ _ _ Hat) as Hs.
  pose proof (pc_mode _ _ _ Hat) as Hm. pose proof (pc_permitted _ _ _ Hat) as Hperm.
  pose proof (pc_fields _ _ _ Hat) as Hf. pose proof (pc_allow _ _ _ Hat) as Hal.
  pose proof (pc_again _ _ _ Hat) as Hag.
  destruct p; try done; cbn in E, Hs, Hm, Hf, Hal, Hag; injection E as <-.
  - specialize (Hperm o eq_refl). unfold permitted in Hperm. rewrite Hm in Hperm. cbn iota in Hperm.
    destruct (Z.eqb_spec (sync_group_owner (txn (req s))) kSyncGroupNotOwned) as [E|E].
    { by apply (advance _ _ _ _ Hat). }
    destruct (Z.eqb_spec (sync_group_owner (txn (req s))) (opt_sync_group_owner o)) as [E'|E']; [|done].
    assert (Hh : holds solo (txn (req s)) t = true) by (unfold holds; rewrite Hm; lia).
    apply (advance _ _ _ _ Hat); auto.
  - rewrite (owned_sync _ _ _ Hat eq_refl Hm). by apply (advance _ _ _ _ Hat); auto.
  - rewrite (owned_solo _ _ _ Hi Hp Hm). by apply (advance _ _ _ _ Hat); auto.
  - rewrite Hs by done. apply (advance _ _ _ _ Hat); auto.
  - rewrite (owned_sync _ _ _ Hat eq_refl Hal). apply (advance _ _ _ _ Hat); auto.
Qed.

Lemma other_reads s t p spurious online p' :
  inv s -> threads s !! t = Some p -> step spurious online p (req s) = (p', req s) ->
  match p with
  | ALoad | AOwned | SLoad _ | SIoctl _ | CLoad | CState | YRet _ | YLoad | YState | YCommitted | YOwned
  | Idle | YIoctl | Returned _ | Error => True
  | _ => False
  end ->
  at_pc (txn (req s)) t p'.
Proof.
  intros Hi Hp E Hread. pose proof (inv_threads _ Hi t p Hp) as Hat. pose proof (pc_settled _ _ _ Hat) as Hs.
  pose proof (pc_mode _ _ _ Hat) as Hm. pose proof (pc_holds _ _ _ Hat) as Hh.
  destruct p; try done; cbn in E, Hs, Hm, Hh; injection E as <-; try done;
    try (repeat case_match; by apply (advance _ _ _ _ Hat); auto).
  - destruct (sync_group_owned _) eqn:Eo; [|by apply (advance _ _ _ _ Hat); auto].
    apply (advance _ _ _ _ Hat); auto.
    destruct solo eqn:Es; [|done]. by rewrite (owned_solo _ _ _ Hi Hp Es) in Eo.
  - rewrite Hs by done. by apply (advance _ _ _ _ Hat); auto.
  - rewrite (owned_sync _ _ _ Hat eq_refl Hm). by apply (advance _ _ _ _ Hat); auto.
Qed.

(** *** The steps that write *)

Definition stepped s t p spurious online : sys :=
  let '(p', r') := step spurious online p (req s) in
  mk_sys r' (<[t := p']> (threads s))
    (match p with OReady o => o :: opens s | _ => opens s end)
    (match p, p' with
     | ACas, AOwned => decide_now (txn (req s)) GHOST_TXN_ABORTED :: decided s
     | _, _ => decided s
     end).

Lemma take_ok s t o spurious online :
  inv s -> threads s !! t = Some (OCas o) -> inv (stepped s t (OCas o) spurious online).
Proof.
  intros Hi Hp. pose proof (inv_threads _ Hi t _ Hp) as Hat. pose proof (pc_mode _ _ _ Hat) as Hm.
  pose proof (pc_permitted _ _ _ Hat o eq_refl) as Hperm. unfold stepped, step. cbv zeta.
  destruct (negb spurious && _) eqn:E.
  - apply andb_prop in E as [_ E%Z.eqb_eq]. cbn in Hm. unfold permitted in Hperm. rewrite Hm in Hperm. cbn iota in Hperm.
    assert (Hc : is_committed (state (txn (req s))) = true) by (by apply (inv_unowned _ Hi)).
    apply inv_write; try done.
    + congruence.
    + by right.
    + split; try done.
      * intros ? [= <-]. unfold permitted. by rewrite Hm.
      * intros _. unfold holds. rewrite Hm. cbn. lia.
    + right. split; [done|]. left. cbn. lia.
    + apply (log_committed (txn (req s))); [done..|apply (inv_log _ Hi)].
  - apply (move_on _ _ _ _ Hi Hp). apply (advance _ _ _ _ Hat); try done. apply (pc_again _ _ _ Hat).
Qed.

Lemma store_ok s t o k spurious online :
  inv s -> threads s !! t = Some (OStore o k) -> inv (stepped s t (OStore o k) spurious online).
Proof.
  intros Hi Hp. pose proof (inv_threads _ Hi t _ Hp) as Hat. pose proof (pc_holds _ _ _ Hat eq_refl) as Hh.
  pose proof (pc_settled _ _ _ Hat eq_refl) as Hc. pose proof (pc_fields _ _ _ Hat) as Hf. cbn in Hf.
  pose proof (pc_permitted _ _ _ Hat o eq_refl) as Hperm. pose proof (thread_zero _ _ _ Hi Hp) as Hz.
  unfold stepped, step. cbv zeta. destruct (stores o !! k) as [f|] eqn:Ek.
  - destruct (store_keeps _ _ _ (txn (req s)) Ek) as [Es Eo]. apply inv_write; try done.
    + by left.
    + split; try done; cbn.
      * intros ? [= <-]. done.
      * intros _. unfold holds in *. by rewrite Eo.
      * by rewrite Es.
      * by rewrite (drop_S _ _ _ Ek) in Hf.
    + cbn. rewrite Es. done.
    + by left.
    + apply (log_committed (txn (req s))); [done..|apply (inv_log _ Hi)].
  - apply lookup_ge_None in Ek. rewrite drop_ge in Hf by done. apply inv_write; try done.
    + by left.
    + destruct (opt_allow_txn_target_on_cpu o) eqn:Ea; split; try done; try (by intros ? [= <-]).
      cbn. unfold permitted in Hperm. rewrite Ea in Hperm. destruct solo; [lia|done].
    + by left.
    + apply (inv_log _ Hi).
Qed.

Lemma ready_ok s t o spurious online :
  inv s -> threads s !! t = Some (OReady o) -> inv (stepped s t (OReady o) spurious online).
Proof.
  intros Hi Hp. pose proof (inv_threads _ Hi t _ Hp) as Hat. pose proof (pc_holds _ _ _ Hat eq_refl) as Hh.
  pose proof (pc_settled _ _ _ Hat eq_refl) as Hc. pose proof (pc_fields _ _ _ Hat) as Hf. cbn in Hf.
  pose proof (thread_zero _ _ _ Hi Hp) as Hz. pose proof (inv_log _ Hi) as Hl. unfold log_ok in Hl. rewrite Hc in Hl.
  apply inv_write; try done.
  - by left.
  - intros E Eo. cbn in Eo. unfold holds in Hh. rewrite E in Hh. lia.
  - by left.
  - split; [done|]. by exists o, (opens s).
Qed.

Lemma abort_ok s t spurious online :
  inv s -> threads s !! t = Some ACas -> inv (stepped s t ACas spurious online).
Proof.
  intros Hi Hp. pose proof (inv_threads _ Hi t _ Hp) as Hat. pose proof (pc_holds _ _ _ Hat eq_refl) as Hh.
  pose proof (thread_zero _ _ _ Hi Hp) as Hz. unfold stepped, step. cbv zeta.
  destruct (Z.eqb_spec (state (txn (req s))) GHOST_TXN_READY) as [E|E].
  - pose proof (inv_log _ Hi) as Hl. unfold log_ok in Hl. rewrite E in Hl. destruct Hl as (_ & o & rest & Eo & Ef & Ed).
    apply inv_write; try done; [by left|by left|].
    unfold log_ok. cbn. by rewrite Eo, Ed, Ef.
  - apply (move_on _ _ _ _ Hi Hp). by apply (advance _ _ _ _ Hat).
Qed.

(** Giving the request up. *)
Lemma release_ok s t p spurious online :
  inv s -> threads s !! t = Some p -> p = ARelease \/ p = YStore -> inv (stepped s t p spurious online).
Proof.
  intros Hi Hp Hrel. pose proof (inv_threads _ Hi t _ Hp) as Hat. pose proof (thread_zero _ _ _ Hi Hp) as Hz.
  assert (Hown : owning p = true /\ settled p = true /\ solo = false).
  { pose proof (pc_mode _ _ _ Hat). by destruct Hrel as [-> | ->]. }
  destruct Hown as (Ho & Hse & Hm). pose proof (pc_holds _ _ _ Hat Ho) as Hh. pose proof (pc_settled _ _ _ Hat Hse) as Hc.
  destruct Hrel as [-> | ->]; (apply inv_write; try done; [by left|by right; split; [|right]|]);
    (apply (log_committed (txn (req s))); [done..|apply (inv_log _ Hi)]).
Qed.

Lemma stepped_inv s t p spurious online :
  inv s -> threads s !! t = Some p -> inv (stepped s t p spurious online).
Proof.
  intros Hi Hp. assert (Hread : forall p', step spurious online p (req s) = (p', req s) -> at_pc (txn (req s)) t p' ->
    (forall o, p <> OReady o) -> p <> ACas -> inv (stepped s t p spurious online)).
  { intros p' E Hat Hr Ha. unfold stepped. rewrite E.
    replace (match p with OReady o => o :: opens s | _ => opens s end) with (opens s) by (destruct p; try done; by destruct (Hr o)).
    replace (match p, p' with ACas, AOwned => _ | _, _ => decided s end) with (decided s) by (by destruct p).
    by apply (move_on _ _ _ _ Hi Hp). }
  destruct p; try (eapply Hread; [reflexivity| |done..]; first [by eapply (open_reads _ _ _ spurious online)|by eapply (other_reads _ _ _ spurious online)]).
  - by apply take_ok.
  - by apply store_ok.
  - by apply ready_ok.
  - by apply abort_ok.
  - apply release_ok; auto.
  - apply release_ok; auto.
  - by destruct (pc_ok _ _ _ (inv_threads _ Hi t _ Hp)).
Qed.

(** *** The kernel *)

Lemma txn_act_inv s a s' : inv s -> act solo s a = Some s' -> inv s'.
Proof.
  intros Hi E. destruct a; cbn in E.
  - case_match eqn:G; [|done]. apply andb_prop in G as [[_ G1]%andb_prop G2]. injection E as <-. by apply open_ok.
  - case_match eqn:G; [|done]. apply andb_prop in G as [_ G]. injection E as <-. by apply start_ok; auto.
  - case_match eqn:G; [|done]. apply andb_prop in G as [_ G]. injection E as <-. apply start_ok; eauto.
  - case_match eqn:G; [|done]. apply andb_prop in G as [_ G]. injection E as <-. by apply start_ok; auto.
  - case_match eqn:G; [|done]. apply andb_prop in G as [[_ G]%andb_prop Gs]. injection E as <-.
    apply start_ok; [done..|]. do 3 right. by destruct solo.
  - destruct (threads s !! t) as [p|] eqn:Hp; [|done]. pose proof (stepped_inv s t p spurious online Hi Hp) as H.
    unfold stepped in H. destruct (step spurious online p (req s)) as [p' r']. by injection E as <-.
  - case_match eqn:G; [|done]. apply andb_prop in G as [G1 G2]. injection E as <-.
    pose proof (open_not_committed _ G1) as Hc. apply inv_kernel; try done.
    pose proof (inv_log _ Hi) as Hl. unfold log_ok in *. rewrite Hc in Hl. cbn [state set_state txn on_txn].
    rewrite (claimed_not_committed _ G2), G2, orb_true_r. destruct Hl as [_ Hl]. by split.
  - case_match eqn:G; [|done]. apply andb_prop in G as [G1 G2]. injection E as <-.
    pose proof (claimed_not_committed _ G1) as Hc. apply inv_kernel; try done.
    pose proof (inv_log _ Hi) as Hl. unfold log_ok in *. rewrite Hc in Hl. cbn [state set_state set_commit_time txn on_txn].
    rewrite G2. destruct Hl as (_ & o & rest & -> & Hf & Hd). cbn. by rewrite Hf, Hd.
  - destruct (threads s !! t) as [[]|] eqn:Hp; try done. case_match eqn:G; [|done]. injection E as <-.
    pose proof (inv_threads _ Hi t _ Hp) as Hat. pose proof (pc_mode _ _ _ Hat) as Hm. cbn in Hm.
    pose proof (succeeded_committed _ G) as Hc. apply inv_write; try done.
    + congruence.
    + left. by apply (pc_holds _ _ _ Hat).
    + by right; split; [|right].
    + apply (log_committed (txn (req s))); [done..|apply (inv_log _ Hi)].
  - destruct (threads s !! t) as [[]|] eqn:Hp; try done. case_match eqn:G; [|done]. injection E as <-.
    pose proof (inv_threads _ Hi t _ Hp) as Hat. apply (move_on _ _ _ _ Hi Hp). apply (advance _ _ _ _ Hat); auto.
    apply (pc_mode _ _ _ Hat).
Qed.

(** ** Runs *)

Inductive run : sys -> list action -> sys -> Prop :=
  | run_nil s : run s [] s
  | run_cons s a s1 acts s2 : act solo s a = Some s1 -> run s1 acts s2 -> run s (a :: acts) s2.

Lemma txn_run_inv s acts s' : run s acts s' -> inv s -> inv s'.
Proof. induction 1 as [|s a s1 acts s2 Ha _ IH]; [done|]. intros Hi. apply IH. by eapply txn_act_inv. Qed.

Lemma txn_init_inv r :
  is_committed (state (txn r)) = true -> sync_group_owner (txn r) = kSyncGroupNotOwned -> inv (init_sys r).
Proof.
  intros Hc Ho. split; cbn.
  - intros t p. by rewrite lookup_empty.
  - done.
  - intros _. split; [done|]. intros t p. by rewrite lookup_empty.
  - unfold log_ok. by rewrite Hc.
Qed.

(** C4: in every interleaving of the calls of the agents that share a run request
    (each under its own sync-group owner id, or one agent alone without sync
    groups) with the kernel's claims, commits and releases, no [CHECK] of [Open] or
    [ReleaseSyncRequests] fails, at most one agent is at a point where it writes
    the request, and every request opened is decided exactly once, in order and
    with exactly the fields it was opened with: the newest is still pending while
    the state is not a committed one. *)
Theorem txn_decided_once r acts s :
  is_committed (state (txn r)) = true -> sync_group_owner (txn r) = kSyncGroupNotOwned ->
  run (init_sys r) acts s ->
  (forall t, threads s !! t <> Some Failed) /\
  (forall t t' p p', threads s !! t = Some p -> threads s !! t' = Some p' ->
     owning p = true -> owning p' = true -> t = t') /\
  (if is_committed (state (txn (req s))) then (decided s).*1 = encode <$> opens s
   else exists o rest, opens s = o :: rest /\ fields (txn (req s)) = encode o /\ (decided s).*1 = encode <$> rest).
Proof.
  intros Hc Ho Hr. pose proof (txn_run_inv _ _ _ Hr (txn_init_inv r Hc Ho)) as Hi. split_and!.
  - intros t Ht. by destruct (pc_ok _ _ _ (inv_threads _ Hi t _ Ht)).
  - intros t t' p p' Ht Ht' Hp Hp'. eapply holds_unique.
    + by apply (pc_holds _ _ _ (inv_threads _ Hi t _ Ht)).
    + by apply (pc_holds _ _ _ (inv_threads _ Hi t' _ Ht')).
  - pose proof (inv_log _ Hi) as Hl. unfold log_ok in Hl. by case_match; [|destruct Hl].
Qed.
End Safe.

(** Two agents, 1 and 2, open the request; 1 commits its group, then 2 gets it. *)
Definition demo_req : LocalRunRequest :=
  mk_req 5 (mk_txn 0 5 GHOST_TXN_COMPLETE 0 0 0 0 0 0 0 kSyncGroupNotOwned) false.

Definition demo_opts (t target : Z) : RunRequestOptions := mk_options target 3 0 1 0 t false.

Definition steps (t : Z) (n : nat) : list action := replicate n (Step t false true).

Definition demo_acts : list action :=
  [StartOpen 1 (demo_opts 1 77); StartOpen 2 (demo_opts 2 88)] ++ steps 1 2 ++ steps 2 3 ++ steps 1 9 ++
  [StartSync 1; KClaim 5; KCommit GHOST_TXN_COMPLETE 1000; KRelease 1] ++ steps 2 12 ++ steps 1 1.

Fixpoint exec (solo : bool) (s : sys) (acts : list action) : option sys :=
  match acts with [] => Some s | a :: acts => match act solo s a with Some s' => exec solo s' acts | None => None end end.

Lemma txn_exec_run solo s acts s' : exec solo s acts = Some s' -> run solo s acts s'.
Proof.
  revert s. induction acts as [|a acts IH]; intros s; cbn; [intros [= ->]; constructor|].
  destruct (act solo s a) eqn:E; [|done]. intros H. by eapply run_cons; [|apply IH].
Qed.

Definition demo_s : sys := default (init_sys demo_req) (exec false (init_sys demo_req) demo_acts).

(** Agent 1's request completed, agent 2's is pending. *)
Lemma txn_decided_once_witness :
  state (txn (req demo_s)) = GHOST_TXN_READY /\ threads demo_s !! 1 = Some (Returned true) /\
  decided demo_s = [(0, 77, 3, 0, 1, GHOST_TXN_COMPLETE)] /\
  exists o rest, opens demo_s = o :: rest /\ fields (txn (req demo_s)) = encode o /\
    (decided demo_s).*1 = encode <$> rest.
Proof.
  split_and!; [vm_compute; reflexivity..|].
  assert (Hr : run false (init_sys demo_req) demo_acts demo_s) by (apply txn_exec_run; vm_compute; reflexivity).
  exact (proj2 (proj2 (txn_decided_once false demo_req demo_acts demo_s eq_refl eq_refl Hr))).
Defined.
End ProtoProps.
