(* ===== verification/TxnBatch.v ===== *)
(** * Batch commits: every request of the list is settled when the call returns

    The enclave's calls on the requests of several CPUs, against the documented
    behaviour of the kernel. *)

From S2P Require Import Prelude CpuMap Txn TxnProps.

Module BatchProps.
Import Proto Batch.

(** ** What the kernel does to a request it has been given *)

(** The states a transaction can be in. *)
Definition valid_state (v : Z) : bool := is_open v || is_claimed v || is_committed v.

Record advances (r r' : LocalRunRequest) : Prop := {
  adv_cpu : req_cpu r' = req_cpu r;
  adv_allow : allow_txn_target_on_cpu r' = allow_txn_target_on_cpu r;
  adv_fields : fields (txn r') = fields (txn r);
  adv_owner : sync_group_owner (txn r') = sync_group_owner (txn r);
  adv_committed : is_committed (state (txn r)) = true -> state (txn r') = state (txn r);
  adv_valid : valid_state (state (txn r)) = true -> valid_state (state (txn r')) = true;
}.

Definition later (m m' : mem) : Prop :=
  forall cpu r, m !! cpu = Some r -> exists r', m' !! cpu = Some r' /\ advances r r'.

#[global] Instance advances_preorder : PreOrder advances.
Proof.
  split; [by intros r; split|]. intros r1 r2 r3 [A1 A2 A3 A4 A5 A6] [B1 B2 B3 B4 B5 B6].
  split; try congruence; auto. intros E. rewrite B5; auto. by rewrite A5.
Qed.

#[global] Instance later_preorder : PreOrder later.
Proof.
  split; [intros m cpu r E; by exists r|]. intros m1 m2 m3 H1 H2 cpu r E.
  destruct (H1 _ _ E) as (r2 & E2 & A2). destruct (H2 _ _ E2) as (r3 & E3 & A3).
  exists r3. split; [done|]. by trans r2.
Qed.

Section Laws.
Context `{K : Kernel}.
Implicit Types (m : mem) (cpu : Z) (cpus : list Z).

Definition run_on (n : nat) m : mem := Nat.iter n tick m.

(** The requests of [cpus] are committed [n] accesses from now. *)
Definition settles (n : nat) cpus m : Prop :=
  forall cpu, cpu ∈ cpus -> is_Some (m !! cpu) /\
    exists r, run_on n m !! cpu = Some r /\ is_committed (state (txn r)) = true.

Definition pending_sync cpus m : Prop :=
  forall cpu, cpu ∈ cpus -> exists r, m !! cpu = Some r /\ is_open (state (txn r)) = true /\ sync_group_owned (txn r) = true.

(** The documented behaviour: the fields of a request are the agents', a committed
    state is final until the request is opened again, a submitted or claimed
    request is committed after a while, and a sync group commits as a whole, with
    ownership released, or not at all. *)
Class KernelLaws := {
  law_tick : forall m, later m (tick m);
  law_commit : forall cpus m, (forall cpu, cpu ∈ cpus -> is_Some (m !! cpu)) ->
    (Commit cpus m).1 = 0 /\ later m (Commit cpus m).2 /\ exists n, settles n cpus (Commit cpus m).2;
  law_claimed : forall cpu m r, m !! cpu = Some r -> is_claimed (state (txn r)) = true -> exists n, settles n [cpu] m;
  law_sync : forall cpus m, pending_sync cpus m -> let m' := (SyncCommit cpus m).2 in
    (SyncCommit cpus m).1 = 1 /\
      (forall cpu, cpu ∈ cpus -> exists r', m' !! cpu = Some r' /\
         state (txn r') = GHOST_TXN_COMPLETE /\ sync_group_owned (txn r') = false) \/
    (SyncCommit cpus m).1 = 0 /\ later m m' /\ (exists n, settles n cpus m') /\
      (forall n cpu r', cpu ∈ cpus -> run_on n m' !! cpu = Some r' -> state (txn r') <> GHOST_TXN_COMPLETE);
}.

Context {L : KernelLaws} (online : bool).

Lemma run_on_S n m : run_on n (tick m) = run_on (S n) m.
Proof. unfold run_on. cbn. by rewrite Nat.iter_swap. Qed.

Lemma run_on_add n k m : run_on n (run_on k m) = run_on (n + k) m.
Proof. unfold run_on. by rewrite Nat.iter_add. Qed.

Lemma run_on_later n m : later m (run_on n m).
Proof. induction n as [|n IH]; [done|]. trans (run_on n m); [done|]. apply law_tick. Qed.

Lemma settled_stays m m' cpu r :
  later m m' -> m !! cpu = Some r -> is_committed (state (txn r)) = true ->
  exists r', m' !! cpu = Some r' /\ state (txn r') = state (txn r) /\
    allow_txn_target_on_cpu r' = allow_txn_target_on_cpu r.
Proof.
  intros H E Hc. destruct (H _ _ E) as (r' & E' & []). exists r'. auto.
Qed.

Lemma settles_tick n cpus m : settles n cpus m -> settles n cpus (tick m).
Proof.
  intros H cpu Hc. destruct (H cpu Hc) as ([r0 E0] & r & E & Hr). rewrite run_on_S.
  split; [by destruct (law_tick m cpu r0 E0) as (r1 & -> & _)|].
  destruct (law_tick (run_on n m) cpu r E) as (r' & E' & A). exists r'. split; [done|].
  by rewrite (adv_committed _ _ A).
Qed.

Lemma settles_run n k cpus m : settles n cpus m -> settles n cpus (run_on k m).
Proof. intros H. induction k as [|k IH]; [done|]. by apply settles_tick. Qed.

(** States the calls do not expect stop the process; [benign] rules them out. *)
Definition benign cpus m : Prop :=
  forall k cpu r, cpu ∈ cpus -> run_on k m !! cpu = Some r -> is_committed (state (txn r)) = true ->
    is_Some (commit_result online (allow_txn_target_on_cpu r) (state (txn r))).

Lemma benign_run k cpus m : benign cpus m -> benign cpus (run_on k m).
Proof. intros H j cpu r Hc E. rewrite run_on_add in E. by eapply H. Qed.

(** The request of [cpu] has been decided, and the call on it answers [ok]. *)
Definition answers m cpu (ok : bool) : Prop :=
  exists r, m !! cpu = Some r /\ is_committed (state (txn r)) = true /\
    commit_result online (allow_txn_target_on_cpu r) (state (txn r)) = Some ok.

Lemma answers_later m m' cpu ok : later m m' -> answers m cpu ok -> answers m' cpu ok.
Proof.
  intros H (r & E & Hc & Hr). destruct (settled_stays _ _ _ _ H E Hc) as (r' & E' & Es & Ea).
  exists r'. by rewrite Es, Ea.
Qed.

Lemma commit_result_true allow v : commit_result online allow v = Some true <-> v = GHOST_TXN_COMPLETE.
Proof.
  unfold commit_result. destruct (Z.eqb_spec v GHOST_TXN_COMPLETE) as [E|E]; [done|].
  split; [|done]. repeat case_match; done.
Qed.

(** ** One request *)

Lemma wp_access cpu m (Q : LocalRunRequest -> mem -> Prop) :
  is_Some (m !! cpu) -> (forall r, tick m !! cpu = Some r -> Q r (tick m)) -> wp (access cpu) Q m.
Proof.
  intros [r E] HQ. destruct (law_tick m cpu r E) as (r' & E' & _). unfold access. wp_steps; [exact E'|by apply HQ].
Qed.

Lemma settles_step n cpu r m :
  settles n [cpu] m -> tick m !! cpu = Some r -> is_committed (state (txn r)) = false ->
  exists n', n = S n' /\ settles n' [cpu] (tick m).
Proof.
  intros Hs E Hc. destruct n as [|n].
  - destruct (Hs cpu ltac:(set_solver)) as (_ & r0 & E0 & H0).
    destruct (settled_stays _ _ _ _ (law_tick m) E0 H0) as (r1 & E1 & Es & _). rewrite E1 in E. injection E as <-.
    by rewrite Es, H0 in Hc.
  - exists n. split; [done|]. intros cpu' ->%list_elem_of_singleton.
    rewrite run_on_S. split; [by eexists|]. apply Hs. set_solver.
Qed.

Lemma complete_ok n fuel cpu m :
  settles n [cpu] m -> benign [cpu] m -> (n < fuel)%nat ->
  wp (CompleteRunRequest online fuel cpu) (fun ok m' => exists k, m' = run_on k m /\ answers m' cpu ok) m.
Proof.
  revert n m. induction fuel as [|fuel IH]; intros n m Hs Hb Hf; [lia|]. cbn [CompleteRunRequest].
  apply wp_bind, wp_access; [apply (Hs cpu); set_solver|]. intros r E.
  destruct (is_committed (state (txn r))) eqn:Hc; cbn [negb].
  - apply wp_bind, wp_access; [by eexists|]. intros r' E'.
    destruct (settled_stays _ _ _ _ (law_tick (tick m)) E Hc) as (r'' & E'' & Es & Ea).
    rewrite E' in E''. injection E'' as <-. assert (Hc' : is_committed (state (txn r')) = true) by (by rewrite Es).
    destruct (Hb 2%nat cpu r' ltac:(set_solver) E' Hc') as [ok Hok]. eapply wp_deref; [exact Hok|].
    exists 2%nat. split; [done|]. by exists r'.
  - destruct (settles_step _ _ _ _ Hs E Hc) as (n' & -> & Hs').
    eapply wp_mono; [apply (IH n' (tick m)); [done|by apply (benign_run 1)|lia]|].
    intros ok m' (k & -> & Ha). exists (S k). by rewrite run_on_S in *.
Qed.

(** ** All the requests of a list *)

Lemma settles_sub n cpus cpus' m : cpus' ⊆ cpus -> settles n cpus m -> settles n cpus' m.
Proof. intros Hsub H cpu Hc. apply H. set_solver. Qed.

Lemma benign_sub cpus cpus' m : cpus' ⊆ cpus -> benign cpus m -> benign cpus' m.
Proof. intros Hsub H k cpu r Hc. apply H. set_solver. Qed.

Lemma complete_all_ok n fuel cpus m success :
  settles n cpus m -> benign cpus m -> (n < fuel)%nat ->
  wp (CompleteRunRequests online fuel cpus success) (fun ok m' =>
    exists k oks, m' = run_on k m /\ Forall2 (answers m') cpus oks /\ ok = success && forallb id oks) m.
Proof.
  revert m success. induction cpus as [|cpu cpus IH]; intros m success Hs Hb Hf; cbn [CompleteRunRequests].
  { apply wp_ret. exists 0%nat, []. split_and!; [done|constructor|by rewrite andb_true_r]. }
  apply wp_bind. eapply wp_mono.
  { apply (complete_ok n); [|by eapply benign_sub; [|done]; set_solver|done]. eapply settles_sub; [|done]. set_solver. }
  intros ok m' (k & -> & Ha). eapply wp_mono.
  { apply IH; [| |done].
    - apply settles_run. eapply settles_sub; [|done]. set_solver.
    - apply benign_run. eapply benign_sub; [|done]. set_solver. }
  intros ok' m'' (k' & oks & -> & Hoks & ->). exists (k' + k)%nat, (ok :: oks).
  rewrite run_on_add in *. split; [done|]. split.
  - constructor; [|done]. eapply answers_later; [|exact Ha]. rewrite <- run_on_add. apply run_on_later.
  - cbn. by destruct ok, success, (forallb id oks).
Qed.

(** What a batch leaves: every request decided, and the answer says whether all of
    them completed. *)
Definition all_decided cpus m (ok : bool) : Prop :=
  (forall cpu, cpu ∈ cpus -> exists r, m !! cpu = Some r /\ is_committed (state (txn r)) = true) /\
  (ok = true <-> forall cpu r, cpu ∈ cpus -> m !! cpu = Some r -> state (txn r) = GHOST_TXN_COMPLETE).

Lemma answers_decided cpus oks m :
  Forall2 (answers m) cpus oks -> all_decided cpus m (forallb id oks).
Proof.
  induction 1 as [|cpu ok cpus oks (r & E & Hc & Hr) _ [IH1 IH2]]; [split; [set_solver|]|split].
  - split; [|done]. intros _ cpu r. set_solver.
  - intros cpu' [->|Hin]%elem_of_cons; [by exists r|by apply IH1].
  - cbn. rewrite andb_true_iff, IH2. split.
    + intros [Hok H] cpu' r' [->|Hin]%elem_of_cons E'; [|by eapply H].
      cbv in Hok. subst ok. rewrite E in E'. injection E' as <-. by apply commit_result_true in Hr.
    + intros H. split.
      * assert (Es : state (txn r) = GHOST_TXN_COMPLETE) by (apply (H cpu); [set_solver|done]).
        rewrite Es in Hr. unfold commit_result in Hr. cbn in Hr. by injection Hr as <-.
      * intros cpu' r' Hin. apply H. set_solver.
Qed.

(** ** Releasing a sync group *)

(** The request of [cpu] is in state [v]; [owned] says whether a sync group has it. *)
Definition rests m cpu (v : Z) (owned : bool) : Prop :=
  exists r, m !! cpu = Some r /\ state (txn r) = v /\ is_committed v = true /\ sync_group_owned (txn r) = owned.

Lemma rests_later m m' cpu v owned : later m m' -> rests m cpu v owned -> rests m' cpu v owned.
Proof.
  intros H (r & E & <- & Hc & Ho). destruct (H _ _ E) as (r' & E' & []). exists r'.
  split_and!; auto. unfold sync_group_owned in *. congruence.
Qed.

Lemma rests_release m cpu v owned : rests m cpu v owned -> rests (alter (on_txn (set_owner kSyncGroupNotOwned)) cpu m) cpu v false.
Proof. intros (r & E & Hs & Hc & Ho). eexists. rewrite lookup_alter_eq, E. by split_and!. Qed.

Lemma rests_alter m f cpu cpu' v owned : cpu <> cpu' -> rests m cpu v owned -> rests (alter f cpu' m) cpu v owned.
Proof. intros Hne (r & E & H). exists r. by rewrite lookup_alter_ne. Qed.

Lemma wp_access_rests cpu v owned m (Q : LocalRunRequest -> mem -> Prop) :
  rests m cpu v owned ->
  (forall r, state (txn r) = v -> is_committed v = true -> sync_group_owned (txn r) = owned -> Q r (tick m)) ->
  wp (access cpu) Q m.
Proof.
  intros Hr HQ. destruct (rests_later _ _ _ _ _ (law_tick m) Hr) as (r & E & Hs & Hc & Ho).
  apply wp_access; [by destruct Hr as (? & -> & _)|]. intros r' E'. rewrite E in E'. injection E' as <-. auto.
Qed.

Lemma group_release_ok cpus vs m :
  NoDup cpus -> Forall2 (fun cpu v => rests m cpu v true) cpus vs ->
  wp (ReleaseSyncRequests cpus) (fun _ m' =>
    Forall2 (fun cpu v => rests m' cpu v false) cpus vs /\
    forall cpu v owned, cpu ∉ cpus -> rests m cpu v owned -> rests m' cpu v owned) m.
Proof.
  intros Hnd H. revert m Hnd H. revert vs. induction cpus as [|cpu cpus IH]; intros vs m Hnd H; cbn [ReleaseSyncRequests].
  { apply wp_ret. inversion H; subst. by split; [constructor|]. }
  apply NoDup_cons in Hnd as [Hn Hnd]. inversion H as [|? v ? vs' Hr Hrs]; subst.
  apply wp_bind, (wp_access_rests _ _ _ _ _ Hr). intros r1 Hs1 Hc _. wp_step. apply wp_check; [by rewrite Hs1|].
  assert (Hr1 : rests (tick m) cpu v true) by (by eapply rests_later; [apply law_tick|]).
  apply wp_bind, (wp_access_rests _ _ _ _ _ Hr1). intros r2 _ _ Ho2. wp_step. apply wp_check; [done|].
  assert (Hl : later m (tick (tick m))) by (trans (tick m); apply law_tick).
  wp_step. apply wp_mod. set (m1 := alter _ cpu _).
  assert (Hm1 : rests m1 cpu v false) by (eapply rests_release, rests_later; [apply law_tick|exact Hr1]).
  assert (Hout : forall c w owned, c <> cpu -> rests m c w owned -> rests m1 c w owned).
  { intros c w owned Hc' Hr'. apply rests_alter; [done|]. by eapply rests_later. }
  eapply wp_mono; [apply (IH vs'); [done|]|].
  - eapply Forall2_impl_in; [exact Hrs|]. clear -Hn Hout. intros c w Hc Hr. apply Hout; [|done]. by intros ->.
  - intros _ m' [Hf Hk]. split.
    + constructor; [|done]. by apply Hk.
    + intros c w owned [Hc1 Hc2]%not_elem_of_cons Hr'. apply Hk; [done|]. by apply Hout.
Qed.

(** ** The calls *)

(** [CommitRunRequest], the commit the per-CPU schedulers make, decides the
    request: whether the kernel has taken it already or not, with enough fuel the
    call returns, the request is committed with the fields it was opened with, and
    the answer is true exactly when it completed. *)
Theorem commit_run_request_decides cpu m r :
  m !! cpu = Some r -> valid_state (state (txn r)) = true ->
  benign [cpu] (tick m) -> benign [cpu] (Commit [cpu] (tick m)).2 ->
  exists n, forall fuel, (n < fuel)%nat ->
    wp (CommitRunRequest online fuel cpu) (fun ok m' => exists r',
      m' !! cpu = Some r' /\ fields (txn r') = fields (txn r) /\ is_committed (state (txn r')) = true /\
      (ok = true <-> state (txn r') = GHOST_TXN_COMPLETE)) m.
Proof.
  intros E Hv Hb1 Hb2. destruct (law_tick m cpu r E) as (r1 & E1 & A1).
  assert (Hfin : forall m1 n fuel, later m m1 -> settles n [cpu] m1 -> benign [cpu] m1 -> (n < fuel)%nat ->
    wp (CompleteRunRequest online fuel cpu) (fun ok m' => exists r',
      m' !! cpu = Some r' /\ fields (txn r') = fields (txn r) /\ is_committed (state (txn r')) = true /\
      (ok = true <-> state (txn r') = GHOST_TXN_COMPLETE)) m1).
  { intros m1 n fuel Hl Hs Hb Hf. eapply wp_mono; [by apply (complete_ok n)|].
    intros ok m' (k & -> & r' & E' & Hc & Hr). exists r'.
    destruct (Hl _ _ E) as (r2 & E2 & A2). destruct (run_on_later k _ _ _ E2) as (r3 & E3 & A3).
    rewrite E' in E3. injection E3 as <-. split_and!; try done.
    - by rewrite (adv_fields _ _ A3), (adv_fields _ _ A2).
    - rewrite <- (commit_result_true (allow_txn_target_on_cpu r')), Hr. split; congruence. }
  unfold CommitRunRequest, SubmitRunRequest.
  destruct (is_open (state (txn r1))) eqn:Ho.
  - destruct (law_commit [cpu] (tick m)) as (Hret & Hl & n & Hs); [by intros ? ->%list_elem_of_singleton|].
    exists n. intros fuel Hf. apply wp_bind, wp_bind, wp_access; [by eexists|]. intros r' E'.
    rewrite E1 in E'. injection E' as <-. rewrite Ho. unfold ioctl.
    destruct (Commit [cpu] (tick m)) as [ret m1] eqn:Ec. cbn in Hret, Hl, Hs, Hb2. subst ret.
    apply wp_bind. eapply wp_intro; [by rewrite Ec|]. apply wp_check; [done|].
    apply (Hfin m1 n); [|done..]. trans (tick m); [apply law_tick|done].
  - assert (Hset : exists n, settles n [cpu] (tick m)).
    { pose proof (adv_valid _ _ A1 Hv) as Hv1. unfold valid_state in Hv1. rewrite Ho in Hv1.
      destruct (is_claimed (state (txn r1))) eqn:Hc; [by eapply law_claimed|]. exists 0%nat.
      intros cpu' ->%list_elem_of_singleton. split; [by eexists|by exists r1]. }
    destruct Hset as [n Hs]. exists n. intros fuel Hf. apply wp_bind, wp_bind, wp_access; [by eexists|].
    intros r' E'. rewrite E1 in E'. injection E' as <-. rewrite Ho. apply wp_ret.
    apply (Hfin (tick m) n); [apply law_tick|done..].
Qed.

(** [CommitRunRequests] decides every request of the list: with enough fuel it
    returns, with every request committed and the others as the kernel left them,
    and its answer is true exactly when all requests of the list completed. *)
Theorem commit_run_requests_decide cpus m :
  (forall cpu, cpu ∈ cpus -> is_Some (m !! cpu)) -> benign cpus (Commit cpus m).2 ->
  exists n, forall fuel, (n < fuel)%nat ->
    wp (CommitRunRequests online fuel cpus) (fun ok m' => later m m' /\ all_decided cpus m' ok) m.
Proof.
  intros Hdom Hb. destruct (law_commit cpus m Hdom) as (Hret & Hl & n & Hs). exists n. intros fuel Hf.
  unfold CommitRunRequests, SubmitRunRequests, ioctl. apply wp_bind, wp_bind.
  destruct (Commit cpus m) as [ret m'] eqn:Ec. cbn in Hret, Hl, Hs, Hb. subst ret.
  eapply wp_intro; [by rewrite Ec|]. apply wp_check; [done|].
  eapply wp_mono; [by apply (complete_all_ok n)|]. intros ok m'' (k & oks & -> & Hoks & ->). split.
  - trans m'; [done|]. apply run_on_later.
  - by apply answers_decided.
Qed.

(** After a failed sync commit, the requests of the group, still owned. *)
Lemma failed_sync_rests cpus m m' :
  pending_sync cpus m -> later m m' ->
  (forall cpu, cpu ∈ cpus -> exists r, m' !! cpu = Some r /\ is_committed (state (txn r)) = true) ->
  Forall2 (fun cpu v => rests m' cpu v true) cpus ((fun cpu => default 0 ((fun r => state (txn r)) <$> m' !! cpu)) <$> cpus).
Proof.
  intros Hp Hl Hc. apply Forall2_fmap_r, Forall_Forall2_diag, Forall_forall. intros cpu Hin.
  destruct (Hp cpu Hin) as (r0 & E0 & _ & Ho). destruct (Hl _ _ E0) as (r & E & A).
  destruct (Hc cpu Hin) as (r' & E' & Hr). rewrite E in E'. injection E' as <-.
  exists r. rewrite E. cbn. split_and!; try done. unfold sync_group_owned in *. by rewrite (adv_owner _ _ A).
Qed.

(** C21: [CommitSyncRequests] is all or none and leaks no ownership: with enough
    fuel it returns, no [CHECK] on the way fails, and every request of the group is
    then committed and released, all of them completed when the answer is true and
    none of them when it is false. *)
Theorem commit_sync_requests_all_or_none cpus m :
  NoDup cpus -> cpus <> [] -> pending_sync cpus m -> benign cpus (SyncCommit cpus m).2 ->
  exists n, forall fuel, (n < fuel)%nat ->
    wp (CommitSyncRequests online fuel cpus) (fun ok m' =>
      forall cpu, cpu ∈ cpus -> exists v, rests m' cpu v false /\ (v = GHOST_TXN_COMPLETE <-> ok = true)) m.
Proof.
  intros Hnd Hne Hp Hb. pose proof (law_sync cpus m Hp) as Hlaw. cbv zeta in Hlaw.
  unfold CommitSyncRequests, SubmitSyncRequests, ioctl.
  destruct (SyncCommit cpus m) as [ret m1] eqn:Es. cbn [fst snd] in Hlaw, Hb.
  destruct Hlaw as [[-> Hok]|(-> & Hl & [n Hs] & Hbad)].
  - exists 0%nat. intros fuel _. apply wp_bind, wp_bind. eapply wp_intro; [by rewrite Es|]. wp_steps; [done|].
    intros cpu Hc. destruct (Hok cpu Hc) as (r & E & Hst & Ho). exists GHOST_TXN_COMPLETE. split; [|done]. by exists r.
  - exists n. intros fuel Hf. apply wp_bind, wp_bind. eapply wp_intro; [by rewrite Es|]. wp_steps; [done|].
    cbn iota. apply wp_bind. eapply wp_mono; [by apply (complete_all_ok n)|].
    intros ok m' (k & oks & -> & Hoks & ->). destruct (answers_decided _ _ _ Hoks) as [Hdec Hall].
    assert (Hno : forallb id oks = false).
    { destruct (forallb id oks); [|done]. destruct cpus as [|cpu cpus]; [done|].
      destruct (Hdec cpu ltac:(set_solver)) as (r & E & _). destruct (Hbad k cpu r ltac:(set_solver) E).
      by apply (proj1 Hall eq_refl cpu); [set_solver|]. }
    rewrite Hno. cbn [andb negb]. wp_step. apply wp_check; [done|]. wp_step. eapply wp_mono.
    { eapply group_release_ok; [done|]. apply (failed_sync_rests cpus m); [done| |done]. trans m1; [done|apply run_on_later]. }
    intros _ m' [Hfr _]. apply wp_ret. intros cpu Hc. destruct (list_elem_of_lookup_1 _ _ Hc) as [i Hi].
    destruct (Forall2_lookup_l _ _ _ _ _ Hfr Hi) as (v & Hv & Hr). rewrite list_lookup_fmap, Hi in Hv.
    injection Hv as <-. eexists. split; [exact Hr|].
    destruct (Hdec cpu Hc) as (r & E & _). rewrite E. cbn. split; [|done]. intros Hst. by destruct (Hbad k cpu r Hc E).
Qed.
End Laws.

(** ** A kernel that satisfies the laws

    It claims submitted requests and completes claimed ones at the next access; a
    sync group with an empty request (gtid 0) is poisoned. *)

Definition settle_req (r : LocalRunRequest) : LocalRunRequest :=
  if is_claimed (state (txn r)) then on_txn (set_state GHOST_TXN_COMPLETE) r else r.

Definition claim_req (r : LocalRunRequest) : LocalRunRequest :=
  if is_committed (state (txn r)) then r else on_txn (set_state 0) r.

Definition poison_req (r : LocalRunRequest) : LocalRunRequest := on_txn (set_state GHOST_TXN_POISONED) r.

Definition finish_req (r : LocalRunRequest) : LocalRunRequest :=
  on_txn (fun x => set_owner kSyncGroupNotOwned (set_state GHOST_TXN_COMPLETE x)) r.

Definition on_cpus (f : LocalRunRequest -> LocalRunRequest) (cpus : list Z) (m : mem) : mem :=
  map_imap (fun cpu r => Some (if decide (cpu ∈ cpus) then f r else r)) m.

Definition runs_task (m : mem) (cpu : Z) : bool :=
  match m !! cpu with Some r => negb (gtid (txn r) =? 0) | None => false end.

#[local] Instance demo_kernel : Kernel := {
  tick m := settle_req <$> m;
  Commit cpus m := (0, on_cpus claim_req cpus m);
  SyncCommit cpus m := if forallb (runs_task m) cpus then (1, on_cpus finish_req cpus m) else (0, on_cpus poison_req cpus m);
}.

Lemma on_cpus_in f cpus m cpu r : cpu ∈ cpus -> m !! cpu = Some r -> on_cpus f cpus m !! cpu = Some (f r).
Proof. intros Hc E. unfold on_cpus. rewrite map_lookup_imap, E. cbn. by rewrite decide_True. Qed.

Lemma on_cpus_later f cpus m :
  (forall cpu r, cpu ∈ cpus -> m !! cpu = Some r -> advances r (f r)) -> later m (on_cpus f cpus m).
Proof.
  intros Hf cpu r E. unfold on_cpus. rewrite map_lookup_imap, E. cbn. eexists. split; [done|].
  destruct (decide (cpu ∈ cpus)); [by eapply Hf|done].
Qed.

Lemma settle_advances r : advances r (settle_req r).
Proof.
  unfold settle_req. destruct (is_claimed (state (txn r))) eqn:Hc; [|done].
  split; try done. by rewrite (claimed_not_committed _ Hc).
Qed.

Lemma claim_advances r : advances r (claim_req r).
Proof.
  unfold claim_req. destruct (is_committed (state (txn r))) eqn:Hc; [done|]. by split; rewrite ?Hc.
Qed.

Lemma poison_advances r : is_open (state (txn r)) = true -> advances r (poison_req r).
Proof. intros Ho. split; try done. by rewrite (open_not_committed _ Ho). Qed.

(** A committed request is not touched again. *)
Lemma demo_settled n m cpu r :
  m !! cpu = Some r -> is_committed (state (txn r)) = true -> run_on n m !! cpu = Some r.
Proof.
  intros E Hc. induction n as [|n IH]; [done|]. change (run_on (S n) m) with (settle_req <$> run_on n m).
  rewrite lookup_fmap, IH. cbn. unfold settle_req. by destruct (is_claimed _) eqn:H; [rewrite claimed_not_committed in Hc|].
Qed.

#[local] Instance demo_laws : KernelLaws.
Proof.
  split.
  - intros m cpu r E. cbn. rewrite lookup_fmap, E. eexists. split; [done|]. apply settle_advances.
  - intros cpus m Hdom. split_and!; [done|apply on_cpus_later; intros; apply claim_advances|].
    exists 1%nat. intros cpu Hc. destruct (Hdom cpu Hc) as [r E]. pose proof (on_cpus_in claim_req cpus m cpu r Hc E) as E'.
    split; [by eexists|]. eexists. cbn. rewrite lookup_fmap, E'. split; [done|]. unfold settle_req, claim_req.
    destruct (is_committed (state (txn r))) eqn:Hr; [|done].
    by destruct (is_claimed (state (txn r))) eqn:H; [|rewrite Hr].
  - intros cpu m r E Hc. exists 1%nat. intros ? ->%list_elem_of_singleton. split; [by eexists|].
    eexists. cbn. rewrite lookup_fmap, E. split; [done|]. unfold settle_req. by rewrite Hc.
  - intros cpus m Hp m'. cbn in m'. cbn. destruct (forallb (runs_task m) cpus); [left|right]; cbn in m' |- *.
    + split; [done|]. intros cpu Hc. destruct (Hp cpu Hc) as (r & E & _). exists (finish_req r).
      by rewrite (on_cpus_in _ _ _ _ _ Hc E).
    + assert (Hin : forall n cpu, cpu ∈ cpus -> exists r, run_on n m' !! cpu = Some (poison_req r)).
      { intros n cpu Hc. destruct (Hp cpu Hc) as (r & E & _). exists r. apply demo_settled; [|done]. by apply on_cpus_in. }
      split; [done|]. split; [|split].
      * apply on_cpus_later. intros cpu r Hc E. destruct (Hp cpu Hc) as (r' & E' & Ho & _).
        rewrite E in E'. injection E' as <-. by apply poison_advances.
      * exists 0%nat. intros cpu Hc. destruct (Hin 0%nat cpu Hc) as (r & E). split; [by eexists|by eexists].
      * intros n cpu r' Hc E'. destruct (Hin n cpu Hc) as (r & E).
        assert (E2 : Some r' = Some (poison_req r)) by (rewrite <- E; symmetry; exact E'). by injection E2 as ->.
Qed.

(** Requests for CPUs 1 and 2; the group that contains 2 has an empty request. *)
Definition demo_txn (state gtid owner : Z) (cpu : Z) : LocalRunRequest :=
  mk_req cpu (mk_txn 0 cpu state 0 0 0 0 gtid 0 0 owner) false.

Definition demo_mem : mem :=
  {[ 1 := demo_txn GHOST_TXN_READY 77 4 1; 2 := demo_txn GHOST_TXN_READY 0 4 2; 3 := demo_txn GHOST_TXN_READY 88 (-1) 3 ]}.

Definition demo_state (v : Z) : bool :=
  is_open v || is_claimed v || (v =? GHOST_TXN_COMPLETE) || (v =? GHOST_TXN_POISONED).

Lemma demo_benign cpus m :
  (forall cpu r, cpu ∈ cpus -> m !! cpu = Some r -> demo_state (state (txn r)) = true) -> benign true cpus m.
Proof.
  intros H k cpu r Hc E Hr.
  assert (Hs : demo_state (state (txn r)) = true).
  { clear Hr. revert r E. induction k as [|k IH]; intros r E; [by eapply H|].
    change (run_on (S k) m) with (settle_req <$> run_on k m) in E. apply lookup_fmap_Some in E as (r' & <- & E).
    specialize (IH _ E). unfold settle_req. by destruct (is_claimed _). }
  unfold demo_state in Hs. destruct (is_open (state (txn r))) eqn:E1; [by rewrite open_not_committed in Hr|].
  destruct (is_claimed (state (txn r))) eqn:E2; [by rewrite claimed_not_committed in Hr|].
  cbn in Hs. apply orb_prop in Hs as [->%Z.eqb_eq| ->%Z.eqb_eq]; by eexists.
Qed.

Lemma demo_benign_list cpus m :
  forallb (fun cpu => match m !! cpu with Some r => demo_state (state (txn r)) | None => true end) cpus = true ->
  benign true cpus m.
Proof.
  intros H. apply demo_benign. intros cpu r Hc E. rewrite forallb_forall in H.
  specialize (H cpu (proj1 (list_elem_of_In _ _) Hc)). by rewrite E in H.
Qed.

Lemma commit_run_request_decides_witness :
  (exists m', CommitRunRequest true 3 3 demo_mem = Some (true, m')) /\
  exists n, forall fuel, (n < fuel)%nat ->
    wp (CommitRunRequest true fuel 3) (fun ok m' => exists r', m' !! 3 = Some r' /\
      fields (txn r') = (0, 88, 0, 0, 0) /\ is_committed (state (txn r')) = true /\
      (ok = true <-> state (txn r') = GHOST_TXN_COMPLETE)) demo_mem.
Proof.
  split; [eexists; vm_compute; reflexivity|].
  apply (commit_run_request_decides true 3 demo_mem (demo_txn GHOST_TXN_READY 88 (-1) 3));
    [reflexivity|reflexivity|apply demo_benign_list; vm_compute; reflexivity..].
Defined.

Lemma commit_run_requests_decide_witness :
  exists n, forall fuel, (n < fuel)%nat ->
    wp (CommitRunRequests true fuel [1; 2; 3]) (fun ok m' => later demo_mem m' /\ all_decided [1; 2; 3] m' ok) demo_mem.
Proof.
  apply (commit_run_requests_decide true [1; 2; 3] demo_mem).
  - intros cpu Hc. repeat (apply elem_of_cons in Hc as [->|Hc]; [by eexists|]). by apply not_elem_of_nil in Hc.
  - apply demo_benign_list. vm_compute. reflexivity.
Defined.

(** The group of CPUs 1 and 2 fails as a whole and is released. *)
Lemma commit_sync_requests_all_or_none_witness :
  (exists m', CommitSyncRequests true 1 [1; 2] demo_mem = Some (false, m')) /\
  exists n, forall fuel, (n < fuel)%nat ->
    wp (CommitSyncRequests true fuel [1; 2]) (fun ok m' =>
      forall cpu, cpu ∈ [1; 2] -> exists v, rests m' cpu v false /\ (v = GHOST_TXN_COMPLETE <-> ok = true)) demo_mem.
Proof.
  split; [eexists; vm_compute; reflexivity|].
  apply (commit_sync_requests_all_or_none true [1; 2] demo_mem).
  - apply (bool_decide_unpack _). vm_compute. exact I.
  - discriminate.
  - intros cpu Hc. repeat (apply elem_of_cons in Hc as [->|Hc]; [by eexists|]). by apply not_elem_of_nil in Hc.
  - apply demo_benign_list. vm_compute. reflexivity.
Defined.
End BatchProps.
