(* ===== verification/Notification.v ===== *)
(** * Notifications

    [Notification] of [src/lib/base.h] and [src/lib/base.cc]: a trigger on a futex,
    access by access, and the proof that no wake-up is lost. *)

From S2P Require Import Prelude.

(** ** The calls *)

Module Notification.
Inductive NotifiedState := kNoWaiter | kWaiter | kNotified.

#[export] Instance notified_state_eq_dec : EqDecision NotifiedState.
Proof. solve_decision. Defined.

Definition HasBeenNotified (m : NotifiedState) : bool := bool_decide (m = kNotified).

Inductive pc :=
  (* [Notify] *)
  | NLoad                      (* before the load *)
  | NCheck (v : NotifiedState) (* before [CHECK(!HasBeenNotified())] *)
  | NCas (v : NotifiedState)   (* before the compare-exchange *)
  | NWake (v : NotifiedState)  (* before [Futex::Wake] *)
  | NDone
  | NFailed                    (* the [CHECK] failed *)
  (* [WaitForNotification] *)
  | WLoad                      (* before the load *)
  | WCas                       (* before the compare-exchange *)
  | WFutex                     (* before the FUTEX_WAIT of [Futex::Wait] *)
  | WSleep                     (* asleep in the kernel *)
  | WAwake                     (* FUTEX_WAIT returned 0 *)
  | WDone.

(** One access of a thread; [spurious] is a spurious failure of the weak
    compare-exchange.  FUTEX_WAIT sleeps only while the word has the value it was
    given. *)
Definition step (spurious : bool) (p : pc) (m : NotifiedState) : pc * NotifiedState :=
  match p with
  | NLoad => (NCheck m, m)
  | NCheck v => (if negb (HasBeenNotified m) then NCas v else NFailed, m)
  | NCas v => if negb spurious && bool_decide (m = v) then (NWake v, kNotified) else (NLoad, m)
  | NWake v => (NDone, m)
  | WLoad =>
      (match m with kNotified => WDone | kNoWaiter => WCas | kWaiter => WFutex end, m)
  | WCas => if negb spurious && bool_decide (m = kNoWaiter) then (WLoad, kWaiter) else (WLoad, m)
  | WFutex => (if bool_decide (m = kWaiter) then WSleep else WDone, m)
  | WAwake => (if negb (bool_decide (m = kWaiter)) then WDone else WFutex, m)
  | WSleep | NDone | NFailed | WDone => (p, m)
  end.

(** ** The system *)

Definition wake (p : pc) : pc := match p with WSleep => WAwake | _ => p end.

(** [Futex::Wake] of every sleeper. *)
Definition wakes (p : pc) : bool := match p with NWake kWaiter => true | _ => false end.

Record sys := mk_sys { word : NotifiedState; threads : gmap Z pc }.

Inductive action :=
  | StartNotify (t : Z)
  | StartWait (t : Z)
  | Step (t : Z) (spurious : bool)
  | Wakeup (t : Z)          (* FUTEX_WAIT returns 0 for no reason *)
  | Interrupt (t : Z)       (* FUTEX_WAIT returns EINTR *)
  | Reset.

Definition notifying (p : pc) : bool :=
  match p with NLoad | NCheck _ | NCas _ | NWake _ => true | _ => false end.

Definition waiting (p : pc) : bool :=
  match p with WLoad | WCas | WFutex | WSleep | WAwake => true | _ => false end.

Definition busy (s : sys) (t : Z) : bool :=
  match threads s !! t with Some p => notifying p || waiting p | None => false end.

(** The users' side of the contract: a notification that has not been notified is
    notified by one thread at a time, and is reset only when nobody waits. *)
Definition act (s : sys) (a : action) : option sys :=
  match a with
  | StartNotify t =>
      if negb (busy s t) && bool_decide (map_Forall (fun _ p => notifying p = false) (threads s)) &&
         negb (HasBeenNotified (word s))
      then Some (mk_sys (word s) (<[t := NLoad]> (threads s))) else None
  | StartWait t => if negb (busy s t) then Some (mk_sys (word s) (<[t := WLoad]> (threads s))) else None
  | Step t spurious =>
      match threads s !! t with
      | Some p =>
          let '(p', m') := step spurious p (word s) in
          Some (mk_sys m' (<[t := p']> (if wakes p then wake <$> threads s else threads s)))
      | None => None
      end
  | Wakeup t =>
      match threads s !! t with Some WSleep => Some (mk_sys (word s) (<[t := WAwake]> (threads s))) | _ => None end
  | Interrupt t =>
      match threads s !! t with Some WSleep => Some (mk_sys (word s) (<[t := WFutex]> (threads s))) | _ => None end
  | Reset =>
      if HasBeenNotified (word s) && bool_decide (map_Forall (fun _ p => waiting p = false) (threads s))
      then Some (mk_sys kNoWaiter (threads s)) else None
  end.

Definition init_sys : sys := mk_sys kNoWaiter ∅.

(** ** No wake-up is lost *)

Inductive run : sys -> list action -> sys -> Prop :=
  | run_nil s : run s [] s
  | run_cons s a s1 acts s2 : act s a = Some s1 -> run s1 acts s2 -> run s (a :: acts) s2.

(** What holds of a thread: a sleeper the word no longer asks to sleep is about to
    be woken. *)
Definition thread_ok (s : sys) (p : pc) : Prop :=
  match p with
  | NFailed => False
  | NLoad | NCheck _ | NCas _ => word s <> kNotified
  | WFutex | WAwake => word s <> kNoWaiter
  | WSleep => word s = kWaiter \/ word s = kNotified /\ exists t, threads s !! t = Some (NWake kWaiter)
  | _ => True
  end.

Definition one_notifier (th : gmap Z pc) : Prop :=
  forall t t' p p', th !! t = Some p -> th !! t' = Some p' -> notifying p = true -> notifying p' = true -> t = t'.

Record inv (s : sys) : Prop := {
  inv_threads : forall t p, threads s !! t = Some p -> thread_ok s p;
  inv_one : one_notifier (threads s);
}.

Lemma one_insert th t p' :
  one_notifier th -> (notifying p' = true -> forall t' p, t' <> t -> th !! t' = Some p -> notifying p = false) ->
  one_notifier (<[t := p']> th).
Proof.
  intros H Hn t1 t2 p1 p2. rewrite !lookup_insert_Some. intros [[<- <-]|[? E1]] [[<- <-]|[? E2]] N1 N2; try done.
  - by rewrite (Hn N1 t2 p2) in N2.
  - by rewrite (Hn N2 t1 p1) in N1.
  - by apply (H t1 t2 p1 p2).
Qed.

Lemma one_others th t p : one_notifier th -> th !! t = Some p -> notifying p = true ->
  forall t' p', t' <> t -> th !! t' = Some p' -> notifying p' = false.
Proof. intros H Hp Hn t' p' Hne Hp'. destruct (notifying p') eqn:E; [|done]. by destruct Hne, (H t' t p' p). Qed.

(** Moving a thread that is not the one about to wake the others. *)
Lemma ok_insert s t p' q :
  (forall v, threads s !! t <> Some (NWake v)) -> thread_ok s q -> thread_ok (mk_sys (word s) (<[t := p']> (threads s))) q.
Proof.
  intros Hw. destruct q; cbn; try done. intros [?|(? & t' & Ht')]; [by left|right]. split; [done|].
  exists t'. rewrite lookup_insert_ne; [done|]. intros ->. by destruct (Hw kWaiter).
Qed.

Lemma inv_insert s t p' :
  inv s -> (forall v, threads s !! t <> Some (NWake v)) -> thread_ok s p' ->
  (notifying p' = true -> forall t' p, t' <> t -> threads s !! t' = Some p -> notifying p = false) ->
  inv (mk_sys (word s) (<[t := p']> (threads s))).
Proof.
  intros [H1 H2] Hw Hok Hn. split; cbn; [|by apply one_insert].
  intros t' q. rewrite lookup_insert_Some. intros [[<- <-]|[_ Hq]]; apply ok_insert; try done. by apply (H1 t').
Qed.

(** A step that leaves the word alone. *)
Lemma inv_move s t p p' :
  inv s -> threads s !! t = Some p -> (notifying p' = true -> notifying p = true) -> (forall v, p <> NWake v) ->
  thread_ok s p' -> inv (mk_sys (word s) (<[t := p']> (threads s))).
Proof.
  intros Hi Hp Hn Hw Hok. apply inv_insert; [done| |done|].
  - intros v E. rewrite Hp in E. injection E as ->. by destruct (Hw v).
  - intros N. eapply one_others; [apply Hi|done|by apply Hn].
Qed.

(** A thread that starts a call. *)
Lemma inv_start s t p' :
  inv s -> busy s t = false -> thread_ok s p' ->
  (notifying p' = true -> map_Forall (fun _ p => notifying p = false) (threads s)) ->
  inv (mk_sys (word s) (<[t := p']> (threads s))).
Proof.
  intros Hi Hb Hok Hn. apply inv_insert; [done| |done|].
  - intros v E. unfold busy in Hb. by rewrite E in Hb.
  - intros N t' p _. by apply (Hn N).
Qed.

(** The write of [Notify]: the sleepers will be woken. *)
Lemma inv_notify s t v :
  inv s -> threads s !! t = Some (NCas v) -> word s = v ->
  inv (mk_sys kNotified (<[t := NWake v]> (threads s))).
Proof.
  intros [H1 H2] Hp Hv. pose proof (one_others _ _ _ H2 Hp eq_refl) as Hoth.
  split; cbn; [|by apply one_insert].
  intros t' q. rewrite lookup_insert_Some. intros [[<- <-]|[Hne Hq]]; [done|]. pose proof (H1 t' q Hq) as Hok.
  destruct q; cbn in *; try done; try (by specialize (Hoth t' _ (not_eq_sym Hne) Hq)).
  right. split; [done|]. exists t. rewrite lookup_insert_eq. destruct Hok as [<-|(E & t1 & E1)]; [by rewrite Hv|].
  destruct (H1 t _ Hp). by rewrite E.
Qed.

(** The write of a waiter. *)
Lemma inv_register s t :
  inv s -> threads s !! t = Some WCas -> word s = kNoWaiter -> inv (mk_sys kWaiter (<[t := WLoad]> (threads s))).
Proof.
  intros [H1 H2] Hp Hv. split; cbn; [|by apply one_insert].
  intros t' q. rewrite lookup_insert_Some. intros [[<- <-]|[Hne Hq]]; [done|]. pose proof (H1 t' q Hq) as Hok.
  destruct q; cbn in *; try done. by left.
Qed.

(** [Futex::Wake]. *)
Lemma inv_wake s t v :
  inv s -> threads s !! t = Some (NWake v) ->
  inv (mk_sys (word s) (<[t := NDone]> (if wakes (NWake v) then wake <$> threads s else threads s))).
Proof.
  intros [H1 H2] Hp. set (th := if wakes (NWake v) then _ else _).
  assert (Hth : forall t' q, th !! t' = Some q -> thread_ok s q /\ (exists q0, threads s !! t' = Some q0 /\ notifying q0 = notifying q) /\
    (q = WSleep -> word s = kWaiter)).
  { intros t' q. unfold th. destruct v; cbn; try (intros Hq; split_and!; [by eapply H1|by exists q|]; intros ->;
      destruct (H1 _ _ Hq) as [?|(_ & t1 & E1)]; [done|]; destruct (H2 t t1 _ _ Hp E1 eq_refl eq_refl); rewrite Hp in E1; done).
    rewrite lookup_fmap_Some. intros (q0 & <- & Hq). pose proof (H1 _ _ Hq) as Hok. split_and!.
    - destruct q0; try done. cbn in *. destruct Hok as [->|[-> _]]; done.
    - exists q0. split; [done|]. by destruct q0.
    - by destruct q0. }
  split; cbn.
  - intros t' q. rewrite lookup_insert_Some. intros [[<- <-]|[_ Hq]]; [done|].
    destruct (Hth _ _ Hq) as (Hok & _ & Hs). destruct q; try done. left. by apply Hs.
  - apply one_insert; [|done]. intros t1 t2 p1 p2 E1 E2 N1 N2.
    destruct (Hth _ _ E1) as (_ & (q1 & F1 & G1) & _), (Hth _ _ E2) as (_ & (q2 & F2 & G2) & _).
    apply (H2 t1 t2 q1 q2); congruence.
Qed.

Lemma step_inv s t p sp :
  inv s -> threads s !! t = Some p ->
  inv (let '(p', m') := step sp p (word s) in
       mk_sys m' (<[t := p']> (if wakes p then wake <$> threads s else threads s))).
Proof.
  intros Hi Hp. pose proof (inv_threads _ Hi t p Hp) as Hok.
  destruct p as [|v|v|v| | | | | | | |]; cbn [step wakes];
    try (by apply (inv_move _ _ _ _ Hi Hp)); cbn in Hok; try done.
  - unfold HasBeenNotified. rewrite bool_decide_false by done. by apply (inv_move _ _ _ _ Hi Hp).
  - destruct (negb sp && _) eqn:E.
    + apply andb_prop in E as [_ E%bool_decide_eq_true]. by apply inv_notify.
    + by apply (inv_move _ _ _ _ Hi Hp).
  - by apply inv_wake.
  - apply (inv_move _ _ _ _ Hi Hp); try done; destruct (word s) eqn:E; cbn; try done; by rewrite E.
  - destruct (negb sp && _) eqn:E.
    + apply andb_prop in E as [_ E%bool_decide_eq_true]. by apply inv_register.
    + by apply (inv_move _ _ _ _ Hi Hp).
  - case_bool_decide; apply (inv_move _ _ _ _ Hi Hp); try done. by left.
  - case_bool_decide; by apply (inv_move _ _ _ _ Hi Hp).
Qed.

Lemma note_act_inv s a s' : inv s -> act s a = Some s' -> inv s'.
Proof.
  intros Hi E. destruct a as [t|t|t sp|t|t|]; cbn in E.
  - case_match eqn:G; [|done]. apply andb_prop in G as [[G1%negb_true_iff G2%bool_decide_eq_true]%andb_prop G3].
    injection E as <-. apply inv_start; try done. unfold HasBeenNotified in G3. cbn. by case_bool_decide.
  - case_match eqn:G; [|done]. apply negb_true_iff in G. injection E as <-. by apply inv_start.
  - destruct (threads s !! t) as [p|] eqn:Hp; [|done]. pose proof (step_inv s t p sp Hi Hp) as H.
    destruct (step sp p (word s)). by injection E as <-.
  - destruct (threads s !! t) as [[]|] eqn:Hp; try done. injection E as <-.
    apply (inv_move _ _ _ _ Hi Hp); try done. destruct (inv_threads _ Hi t _ Hp) as [E|[E _]]; cbn; by rewrite E.
  - destruct (threads s !! t) as [[]|] eqn:Hp; try done. injection E as <-.
    apply (inv_move _ _ _ _ Hi Hp); try done. destruct (inv_threads _ Hi t _ Hp) as [E|[E _]]; cbn; by rewrite E.
  - case_match eqn:G; [|done]. apply andb_prop in G as [_ G%bool_decide_eq_true]. injection E as <-.
    destruct Hi as [H1 H2]. split; [|done]. cbn. intros t p Hp. pose proof (H1 t p Hp) as Hok.
    pose proof (G t p Hp) as Hw. by destruct p.
Qed.

Lemma note_run_inv s acts s' : run s acts s' -> inv s -> inv s'.
Proof. induction 1 as [|s a s1 acts s2 Ha _ IH]; [done|]. intros Hi. apply IH. by eapply note_act_inv. Qed.

Lemma note_init_inv : inv init_sys.
Proof. split; cbn; intros ?; [intros ?|intros ? ? ?]; by rewrite lookup_empty. Qed.

(** *** A waiter after the notification *)

(** The steps a waiter still takes once the word says [kNotified]. *)
Definition left (p : pc) : nat := match p with WCas => 2 | WLoad | WFutex | WAwake => 1 | _ => 0 end.

Fixpoint own_steps (t : Z) (acts : list action) : nat :=
  match acts with
  | [] => 0
  | a :: acts => (match a with Step t' _ => if decide (t' = t) then 1 else 0 | _ => 0 end + own_steps t acts)%nat
  end.

(** [Notify] has returned and [t] is still in its call. *)
Record notified (s : sys) (t : Z) (p : pc) : Prop := {
  nd_inv : inv s;
  nd_word : word s = kNotified;
  nd_quiet : forall t' p', threads s !! t' = Some p' -> notifying p' = false;
  nd_thread : threads s !! t = Some p;
  nd_waiting : waiting p = true;
}.

Lemma notified_awake s t p : notified s t p -> (1 <= left p)%nat.
Proof.
  intros [Hi Hw Hq Hp Hwait]. destruct p; cbn in *; try done; try lia.
  destruct (inv_threads _ Hi t _ Hp) as [E|(_ & t' & E)]; [congruence|]. by specialize (Hq _ _ E).
Qed.

(** Its own step brings it closer. *)
Lemma notified_step s t p sp s' :
  notified s t p -> act s (Step t sp) = Some s' ->
  threads s' !! t = Some WDone \/ exists p', notified s' t p' /\ (left p' < left p)%nat.
Proof.
  intros Hn E. pose proof (notified_awake _ _ _ Hn) as Hl. destruct Hn as [Hi Hw Hq Hp Hwait].
  pose proof (note_act_inv _ _ _ Hi E) as Hi'. cbn in E. rewrite Hp in E.
  destruct p; cbn in Hwait, Hl; try done; try lia; cbn in E; rewrite Hw in E; destruct sp; cbn in E; injection E as <-;
    cbn [threads]; rewrite ?lookup_insert_eq; try (by left).
  all: right; exists WLoad; (split; [|cbn; lia]); split; cbn; rewrite ?lookup_insert_eq; try done.
  all: intros t' p'; rewrite lookup_insert_Some; intros [[_ <-]|[_ ?]]; [done|by eapply Hq].
Qed.

(** The steps of the others do not disturb it. *)
Lemma notified_other s t p a s' :
  notified s t p -> act s a = Some s' -> own_steps t [a] = 0%nat -> notified s' t p.
Proof.
  intros Hn E Ho. pose proof (notified_awake _ _ _ Hn) as Hl. destruct Hn as [Hi Hw Hq Hp Hwait].
  pose proof (note_act_inv _ _ _ Hi E) as Hi'.
  assert (Hset : forall t' p', t' <> t -> notifying p' = false ->
    s' = mk_sys kNotified (<[t' := p']> (threads s)) -> notified s' t p).
  { intros t' p' Hne Hnp ->. split; cbn; try done; [|by rewrite lookup_insert_ne].
    intros t1 p1. rewrite lookup_insert_Some. intros [[_ <-]|[_ ?]]; [done|by eapply Hq]. }
  destruct a as [t'|t'|t' sp|t'|t'|]; cbn in E.
  - unfold HasBeenNotified in E. rewrite Hw, bool_decide_true, andb_false_r in E by done. done.
  - case_match eqn:G; [|done]. rewrite Hw in E. injection E as E. apply (Hset t' WLoad); try done.
    intros ->. unfold busy in G. rewrite Hp, Hwait, orb_true_r in G. done.
  - cbn in Ho. destruct (decide (t' = t)) as [|Hne]; [done|]. destruct (threads s !! t') as [q|] eqn:Hq'; [|done].
    pose proof (Hq _ _ Hq') as Hnq. rewrite Hw in E.
    destruct q, sp; cbn in Hnq, E; try done; injection E as E; (eapply Hset; [exact Hne| |symmetry; exact E]); done.
  - destruct (threads s !! t') as [[]|] eqn:Hq'; try done. rewrite Hw in E. injection E as E. apply (Hset t' WAwake); try done.
    intros ->. rewrite Hp in Hq'. injection Hq' as ->. cbn in Hl. lia.
  - destruct (threads s !! t') as [[]|] eqn:Hq'; try done. rewrite Hw in E. injection E as E. apply (Hset t' WFutex); try done.
    intros ->. rewrite Hp in Hq'. injection Hq' as ->. cbn in Hl. lia.
  - case_match eqn:G; [|done]. apply andb_prop in G as [_ G%bool_decide_eq_true]. by rewrite (G t p Hp) in Hwait.
Qed.

Lemma notified_returns s t p acts s' :
  notified s t p -> run s acts s' -> (left p <= own_steps t acts)%nat ->
  exists acts1 acts2 s1, acts = acts1 ++ acts2 /\ run s acts1 s1 /\ threads s1 !! t = Some WDone.
Proof.
  intros Hn Hr. revert p Hn. induction Hr as [s|s a s1 acts s2 Ha Hr IH]; intros p Hn Hl.
  { pose proof (notified_awake _ _ _ Hn). cbn in Hl. lia. }
  assert (Hgo : forall p', notified s1 t p' -> (left p' <= own_steps t acts)%nat ->
    exists acts1 acts2 s3, a :: acts = acts1 ++ acts2 /\ run s acts1 s3 /\ threads s3 !! t = Some WDone).
  { intros p' Hn' Hl'. destruct (IH p' Hn' Hl') as (a1 & a2 & s3 & -> & Hr3 & Hd).
    exists (a :: a1), a2, s3. split_and!; [done| |done]. by eapply run_cons. }
  destruct (decide (own_steps t [a] = 0%nat)) as [E|E].
  - apply (Hgo p); [by eapply notified_other|]. cbn in E, Hl |- *. lia.
  - assert (exists sp, a = Step t sp) as [sp ->].
    { cbn in E. destruct a as [| |t' sp| | |]; try done. destruct (decide (t' = t)) as [->|]; [by eexists|done]. }
    destruct (notified_step _ _ _ _ _ Hn Ha) as [Hd|(p' & Hn' & Hlt)].
    + exists [Step t sp], acts, s1. split_and!; [done| |done]. eapply run_cons; [exact Ha|constructor].
    + apply (Hgo p'); [done|]. cbn in Hl. destruct (decide (t = t)); [lia|done].
Qed.

(** C26: for any number of waiters, one notifier at a time and resets while nobody
    waits, in every interleaving, with spurious failures of the compare-exchanges,
    spurious wake-ups and signals: the [CHECK] of [Notify] does not fail, a wait
    ends only when the word says [kNotified], and once [Notify] has returned no
    waiter is asleep and each returns within two more steps of its own. *)
Theorem notification_no_lost_wakeup acts s :
  run init_sys acts s ->
  (forall t, threads s !! t <> Some NFailed) /\
  (forall t p sp s', threads s !! t = Some p -> waiting p = true -> act s (Step t sp) = Some s' ->
     threads s' !! t = Some WDone -> word s' = kNotified) /\
  (word s = kNotified -> (forall t p, threads s !! t = Some p -> notifying p = false) ->
   forall t p, threads s !! t = Some p -> waiting p = true ->
     p <> WSleep /\
     forall acts' s', run s acts' s' -> (2 <= own_steps t acts')%nat ->
       exists acts1 acts2 s1, acts' = acts1 ++ acts2 /\ run s acts1 s1 /\ threads s1 !! t = Some WDone).
Proof.
  intros Hr. pose proof (note_run_inv _ _ _ Hr note_init_inv) as Hi. split_and!.
  - intros t Ht. by apply (inv_threads _ Hi t _ Ht).
  - intros t p sp s' Hp Hw E Hd. pose proof (inv_threads _ Hi t p Hp) as Hok. cbn in E. rewrite Hp in E.
    destruct p; cbn in Hw, Hok, E; try done; repeat case_bool_decide; repeat case_match; simplify_eq/=;
      rewrite ?lookup_insert_eq in Hd; try done; by destruct (word s).
  - intros Hw Hq t p Hp Hwait. assert (Hn : notified s t p) by by split.
    pose proof (notified_awake _ _ _ Hn) as Hl. split; [intros ->; cbn in Hl; lia|].
    intros acts' s' Hr' Hs. eapply notified_returns; [done..|]. destruct p; cbn in *; lia.
Qed.

(** A waiter that sleeps, is woken for no reason, sleeps again and is notified. *)
Definition demo_acts : list action :=
  [StartWait 1; Step 1 false; Step 1 true; Step 1 false; Step 1 false; Step 1 false; Step 1 false; Wakeup 1; Step 1 false;
   Step 1 false; StartNotify 2; Step 2 false; Step 2 false; Step 2 false; Step 2 false].

Fixpoint exec (s : sys) (acts : list action) : option sys :=
  match acts with [] => Some s | a :: acts => match act s a with Some s' => exec s' acts | None => None end end.

Lemma note_exec_run s acts s' : exec s acts = Some s' -> run s acts s'.
Proof.
  revert s. induction acts as [|a acts IH]; intros s; cbn; [intros [= ->]; constructor|].
  destruct (act s a) eqn:E; [|done]. intros H. by eapply run_cons; [|apply IH].
Qed.

Definition demo_s : sys := default init_sys (exec init_sys demo_acts).

Lemma notification_no_lost_wakeup_witness :
  word demo_s = kNotified /\ threads demo_s !! 1 = Some WAwake /\ threads demo_s !! 1 <> Some NFailed.
Proof.
  split_and!; [vm_compute; reflexivity..|].
  assert (Hr : run init_sys demo_acts demo_s) by (apply note_exec_run; vm_compute; reflexivity).
  exact (proj1 (notification_no_lost_wakeup demo_acts demo_s Hr) 1).
Defined.
End Notification.
