(* ===== verification/Lifecycle.v ===== *)
(** * The life of the agents of an enclave

    Start-up and shut-down of the agent threads: the main thread
    ([FullAgent::StartAgentTasks] and [TerminateAgentTasks] of [src/lib/agent.h],
    [Enclave::Ready] of [src/lib/enclave.cc]) and one thread per CPU
    ([LocalAgent::ThreadBody] of [src/lib/agent.cc], [O1Agent::AgentThread] of
    [src/schedulers/o1/o1_scheduler.cc]), which meet at notifications and at the
    list of attached agents. *)

From S2P Require Import Prelude.

Module Life.

(** ** State *)

(** The points of an agent thread. *)
Inductive apc :=
  | AWaitOld        (* before [WaitForOldAgent] returns *)
  | AEnter          (* the loop around [SchedAgentEnterGhost] *)
  | AAttach         (* before [LocalEnclave::AttachAgent] sets the CPU's pointer *)
  | AList           (* before [Enclave::AttachAgent] appends to the list *)
  | ASignal         (* before [SignalReady] *)
  | AWaitEnclave    (* in [WaitForEnclaveReady] *)
  | ALoop           (* the test of the scheduling loop *)
  | AExitCheck      (* before the [CHECK] of [WaitForExitNotification] *)
  | AWaitExit       (* before [do_exit_.WaitForNotification] returns *)
  | AExited
  | AFailed.

(** An agent: its thread, its notifications, and the pointer [rep(cpu)->agent]. *)
Record agent := mk_agent {
  pc : apc; ready : bool; finished : bool; enclave_ready : bool; do_exit : bool; rep : bool }.

Definition new_agent : agent := mk_agent AWaitOld false false false false false.

(** The points of the main thread. *)
Inductive mpc :=
  | MStart (k : nat)       (* [StartAgentTasks]: before agent [k] is made and started *)
  | MComplete (k : nat)    (* before agent [k]'s [StartComplete] returns *)
  | MReady                 (* [Enclave::Ready]: before [LockWhen] returns *)
  | MDerived | MDefault | MInsert | MDisable
  | MDiscover (j : nat)    (* before [DiscoverTasks] of scheduler [j] *)
  | MSchedReady (j : nat)  (* before [EnclaveReady] of scheduler [j] *)
  | MAgentReady (k : nat)  (* before [EnclaveReady] of agent [k] *)
  | MUnlock | MOnline
  | MRun                   (* until the agent process is told to exit *)
  | MPrepare               (* [TerminateAgentTasks]: before [PrepareToExit] *)
  | MFinish (k : nat)      (* [TerminateBegin] of agent [k]: before [finished_.Notify] *)
  | MPing (k : nat) | MDoExit (k : nat)
  | MJoin (k : nat)        (* before agent [k]'s [TerminateComplete] returns *)
  | MDetach (k : nat)      (* [~Agent]: before the CPU's pointer is cleared *)
  | MUnlist (k : nat)      (* before agent [k] leaves the list *)
  | MJoinable (k : nat)    (* before [CHECK(!thread_.joinable())] *)
  | MEnd
  | MFailed.

Inductive event :=
  | EDerivedReady | ESetEnclaveDefault | EInsertBpfPrograms | EDisableMyBpfProgLoad
  | EDiscoverTasks (j : nat) | ESchedulerReady (j : nat) | EAgentReady (k : nat) | EOnline | EOffline.

(** Agent [k] is the agent of the [k]-th CPU of the enclave. *)
Record sys := mk_sys {
  main : mpc; agents : list agent; attached : list nat; locked : bool; is_online : bool; trace : list event }.

Definition set_main (p : mpc) (s : sys) : sys :=
  mk_sys p (agents s) (attached s) (locked s) (is_online s) (trace s).
Definition set_agents (l : list agent) (s : sys) : sys :=
  mk_sys (main s) l (attached s) (locked s) (is_online s) (trace s).
Definition set_attached (l : list nat) (s : sys) : sys :=
  mk_sys (main s) (agents s) l (locked s) (is_online s) (trace s).
Definition set_locked (b : bool) (s : sys) : sys :=
  mk_sys (main s) (agents s) (attached s) b (is_online s) (trace s).
Definition set_online (b : bool) (s : sys) : sys :=
  mk_sys (main s) (agents s) (attached s) (locked s) b (trace s).
Definition emit (e : event) (s : sys) : sys :=
  mk_sys (main s) (agents s) (attached s) (locked s) (is_online s) (trace s ++ [e]).

Definition set_pc (p : apc) (a : agent) : agent :=
  mk_agent p (ready a) (finished a) (enclave_ready a) (do_exit a) (rep a).
Definition set_ready (a : agent) : agent :=
  mk_agent (pc a) true (finished a) (enclave_ready a) (do_exit a) (rep a).
Definition set_finished (a : agent) : agent :=
  mk_agent (pc a) (ready a) true (enclave_ready a) (do_exit a) (rep a).
Definition set_enclave_ready (a : agent) : agent :=
  mk_agent (pc a) (ready a) (finished a) true (do_exit a) (rep a).
Definition set_do_exit (a : agent) : agent :=
  mk_agent (pc a) (ready a) (finished a) (enclave_ready a) true (rep a).
Definition set_rep (b : bool) (a : agent) : agent :=
  mk_agent (pc a) (ready a) (finished a) (enclave_ready a) (do_exit a) b.

(** ** Steps *)

Section Steps.
Context (n : nat).       (* the CPUs of the enclave, one agent each *)
Context (scheds : nat).  (* the schedulers attached to it *)

(** A call on agent [k], where there is one. *)
Definition on_agent (k : nat) (f : agent -> sys) (s : sys) : option sys :=
  match agents s !! k with Some a => Some (f a) | None => None end.

(** [Notify] of a notification that is [already] notified fails its [CHECK]. *)
Definition notify (already : bool) (k : nat) (a' : agent) (next : mpc) (s : sys) : sys :=
  if already then set_main MFailed s else set_main next (set_agents (<[k := a']> (agents s)) s).

(** [FullAgent::StartAgentTasks] *)
Definition start_step (s : sys) : option sys :=
  match main s with
  | MStart k =>
      if (k <? n)%nat then Some (set_main (MStart (S k)) (set_agents (agents s ++ [new_agent]) s))
      else Some (set_main (MComplete 0) s)
  | MComplete k =>
      if (k <? n)%nat then
        match agents s !! k with
        | Some a => if ready a then Some (set_main (MComplete (S k)) s) else None
        | None => None
        end
      else Some (set_main MReady s)
  | _ => None
  end.

(** [Enclave::Ready] *)
Definition ready_step (s : sys) : option sys :=
  match main s with
  | MReady => if (length (attached s) =? n)%nat then Some (set_main MDerived (set_locked true s)) else None
  | MDerived => Some (set_main MDefault (emit EDerivedReady s))
  | MDefault => Some (set_main MInsert (if (0 <? scheds)%nat then emit ESetEnclaveDefault s else s))
  | MInsert => Some (set_main MDisable (emit EInsertBpfPrograms s))
  | MDisable => Some (set_main (MDiscover 0) (emit EDisableMyBpfProgLoad s))
  | MDiscover j =>
      if (j <? scheds)%nat then Some (set_main (MDiscover (S j)) (emit (EDiscoverTasks j) s))
      else Some (set_main (MSchedReady 0) s)
  | MSchedReady j =>
      if (j <? scheds)%nat then Some (set_main (MSchedReady (S j)) (emit (ESchedulerReady j) s))
      else Some (set_main (MAgentReady 0) s)
  | MAgentReady k =>
      if (k <? n)%nat then
        on_agent k (fun a =>
          if negb (rep a) then set_main MFailed s
          else notify (enclave_ready a) k (set_enclave_ready a) (MAgentReady (S k)) (emit (EAgentReady k) s)) s
      else Some (set_main MUnlock s)
  | MUnlock => Some (set_main MOnline (set_locked false s))
  | MOnline => Some (set_main MRun (set_online true (emit EOnline s)))
  | _ => None
  end.

(** [FullAgent::TerminateAgentTasks], with the destructors of the agents *)
Definition terminate_step (s : sys) : option sys :=
  match main s with
  | MRun => Some (set_main MPrepare s)
  | MPrepare => Some (set_main (MFinish 0) (set_online false (emit EOffline s)))
  | MFinish k =>
      if (k <? n)%nat then on_agent k (fun a => notify (finished a) k (set_finished a) (MPing k) s) s
      else Some (set_main (MJoin 0) s)
  | MPing k => Some (set_main (MDoExit k) s)
  | MDoExit k => on_agent k (fun a => notify (do_exit a) k (set_do_exit a) (MFinish (S k)) s) s
  | MJoin k =>
      if (k <? n)%nat then
        match agents s !! k with
        | Some a => match pc a with AExited => Some (set_main (MJoin (S k)) s) | _ => None end
        | None => None
        end
      else Some (set_main (MDetach 0) s)
  | MDetach k =>
      if (k <? n)%nat then
        on_agent k (fun a => set_main (MUnlist k) (set_agents (<[k := set_rep false a]> (agents s)) s)) s
      else Some (set_main MEnd s)
  | MUnlist k => if locked s then None else Some (set_main (MJoinable k) (set_attached (filter (fun j => j <> k) (attached s)) s))
  | MJoinable k =>
      on_agent k (fun a => match pc a with AExited => set_main (MDetach (S k)) s | _ => set_main MFailed s end) s
  | _ => None
  end.

Definition main_step (s : sys) : option sys :=
  match main s with
  | MStart _ | MComplete _ => start_step s
  | MReady | MDerived | MDefault | MInsert | MDisable | MDiscover _ | MSchedReady _ | MAgentReady _ | MUnlock | MOnline =>
      ready_step s
  | MRun | MPrepare | MFinish _ | MPing _ | MDoExit _ | MJoin _ | MDetach _ | MUnlist _ | MJoinable _ => terminate_step s
  | MEnd | MFailed => None
  end.

(** One step of agent [k]; [env] is what its surroundings answer: the old agent
    is gone, the CPU could be entered, the run queue is empty. *)
Definition agent_step (k : nat) (env : bool) (s : sys) : option sys :=
  match agents s !! k with
  | None => None
  | Some a =>
      let set a' := Some (set_agents (<[k := a']> (agents s)) s) in
      match pc a with
      | AWaitOld => if env then set (set_pc AEnter a) else Some s
      | AEnter => if env then set (set_pc AAttach a) else Some s
      | AAttach => if rep a then set (set_pc AFailed a) else set (set_pc AList (set_rep true a))
      | AList =>
          if locked s then None
          else Some (set_agents (<[k := set_pc ASignal a]> (agents s)) (set_attached (attached s ++ [k]) s))
      | ASignal => if ready a then set (set_pc AFailed a) else set (set_pc AWaitEnclave (set_ready a))
      | AWaitEnclave => if enclave_ready a then set (set_pc ALoop a) else None
      | ALoop => if negb (finished a) || negb env then Some s else set (set_pc AExitCheck a)
      | AExitCheck => if finished a then set (set_pc AWaitExit a) else set (set_pc AFailed a)
      | AWaitExit => if do_exit a then set (set_pc AExited a) else None
      | AExited | AFailed => None
      end
  end.

Inductive action := Main | Agent (k : nat) (env : bool).

Definition act (s : sys) (x : action) : option sys :=
  match x with Main => main_step s | Agent k env => agent_step k env s end.

Definition init_sys : sys := mk_sys (MStart 0) [] [] false false [].
End Steps.
End Life.
