(* ===== verification/LifecycleProps.v ===== *)
(** * Start-up and shut-down of the agents

    In every interleaving the agents schedule only after discovery, no [CHECK]
    fails, no agent is detached while a thread runs, and the threads never wait for
    each other in a circle. *)

From Stdlib Require Import ZifyBool.
From S2P Require Import Prelude Lifecycle.

Module LifeProps.
Import Life.

#[local] Arguments Nat.ltb : simpl never.
#[local] Arguments Nat.leb : simpl never.
#[local] Arguments seq : simpl never.

Section Life.
Context (n scheds : nat).
Implicit Types (m : mpc) (a : agent) (k : nat) (s : sys).

(** ** What the main thread has done at each point *)

Definition stage m : nat :=
  match m with
  | MStart _ => 0 | MComplete _ => 1 | MReady => 2 | MDerived => 3 | MDefault => 4 | MInsert => 5 | MDisable => 6
  | MDiscover _ => 7 | MSchedReady _ => 8 | MAgentReady _ => 9 | MUnlock => 10 | MOnline => 11 | MRun => 12
  | MPrepare => 13 | MFinish _ | MPing _ | MDoExit _ => 14 | MJoin _ => 15
  | MDetach _ | MUnlist _ | MJoinable _ => 16 | MEnd => 17 | MFailed => 18
  end.

Definition started m : nat := match m with MStart k => k | _ => n end.

(** Whether [StartComplete] of agent [k] has returned, whether it has been told
    that the enclave is ready, to finish, to exit, whether it has been joined, and
    whether its pointer and its list entry are gone. *)
Definition waited m k : bool := match m with MComplete j => (k <? j)%nat | _ => (2 <=? stage m)%nat end.
Definition told_ready m k : bool := match m with MAgentReady j => (k <? j)%nat | _ => (10 <=? stage m)%nat end.
Definition told_finish m k : bool :=
  match m with MFinish j => (k <? j)%nat | MPing j | MDoExit j => (k <=? j)%nat | _ => (15 <=? stage m)%nat end.
Definition told_exit m k : bool :=
  match m with MFinish j | MPing j | MDoExit j => (k <? j)%nat | _ => (15 <=? stage m)%nat end.
Definition joined m k : bool := match m with MJoin j => (k <? j)%nat | _ => (16 <=? stage m)%nat end.
Definition cleared m k : bool :=
  match m with MDetach j => (k <? j)%nat | MUnlist j | MJoinable j => (k <=? j)%nat | _ => (17 <=? stage m)%nat end.
Definition unlisted m k : bool :=
  match m with MDetach j | MUnlist j => (k <? j)%nat | MJoinable j => (k <=? j)%nat | _ => (17 <=? stage m)%nat end.

Definition in_bounds m : Prop :=
  match m with
  | MStart k | MComplete k | MAgentReady k | MFinish k | MJoin k | MDetach k => (k <= n)%nat
  | MDiscover j | MSchedReady j => (j <= scheds)%nat
  | MPing k | MDoExit k | MUnlist k | MJoinable k => (k < n)%nat
  | MFailed => False
  | _ => True
  end.

(** The calls [Ready] and [TerminateAgentTasks] have made. *)
Definition first_calls : list event :=
  [EDerivedReady] ++ (if (0 <? scheds)%nat then [ESetEnclaveDefault] else []) ++ [EInsertBpfPrograms; EDisableMyBpfProgLoad].
Definition discovery (j : nat) : list event := first_calls ++ (EDiscoverTasks <$> seq 0 j).
Definition sched_calls (j : nat) : list event := discovery scheds ++ (ESchedulerReady <$> seq 0 j).
Definition agent_calls k : list event := sched_calls scheds ++ (EAgentReady <$> seq 0 k).

Definition calls m : list event :=
  match m with
  | MDefault => [EDerivedReady]
  | MInsert => [EDerivedReady] ++ (if (0 <? scheds)%nat then [ESetEnclaveDefault] else [])
  | MDisable => ([EDerivedReady] ++ (if (0 <? scheds)%nat then [ESetEnclaveDefault] else [])) ++ [EInsertBpfPrograms]
  | MDiscover j => discovery j
  | MSchedReady j => sched_calls j
  | MAgentReady k => agent_calls k
  | MUnlock | MOnline => agent_calls n
  | MRun | MPrepare => agent_calls n ++ [EOnline]
  | _ => if (14 <=? stage m)%nat then (agent_calls n ++ [EOnline]) ++ [EOffline] else []
  end.

(** ** What an agent has done *)

Definition has_rep (p : apc) : bool := match p with AWaitOld | AEnter | AAttach => false | _ => true end.
Definition has_listed (p : apc) : bool := match p with AWaitOld | AEnter | AAttach | AList => false | _ => true end.
Definition has_signalled (p : apc) : bool := match p with AWaitOld | AEnter | AAttach | AList | ASignal => false | _ => true end.
Definition has_entered (p : apc) : bool := match p with ALoop | AExitCheck | AWaitExit | AExited => true | _ => false end.
Definition has_left (p : apc) : bool := match p with AExitCheck | AWaitExit | AExited => true | _ => false end.
Definition has_exited (p : apc) : bool := match p with AExited => true | _ => false end.

(** ** The invariant *)

Record agent_ok m k a : Prop := {
  ok_pc : pc a <> AFailed;
  ok_ready : ready a = has_signalled (pc a);
  ok_enclave : enclave_ready a = told_ready m k;
  ok_finished : finished a = told_finish m k;
  ok_do_exit : do_exit a = told_exit m k;
  ok_rep : rep a = has_rep (pc a) && negb (cleared m k);
  ok_waited : waited m k = true -> has_signalled (pc a) = true;
  ok_entered : has_entered (pc a) = true -> told_ready m k = true;
  ok_left : has_left (pc a) = true -> told_finish m k = true;
  ok_exited : has_exited (pc a) = true -> told_exit m k = true;
  ok_joined : joined m k = true -> has_exited (pc a) = true;
}.

Record inv s : Prop := {
  inv_bounds : in_bounds (main s);
  inv_length : length (agents s) = started (main s);
  inv_agents : forall k a, agents s !! k = Some a -> agent_ok (main s) k a;
  inv_nodup : NoDup (attached s);
  inv_attached : forall k, k ∈ attached s <->
    exists a, agents s !! k = Some a /\ has_listed (pc a) = true /\ unlisted (main s) k = false;
  inv_locked : locked s = ((3 <=? stage (main s)) && (stage (main s) <=? 10))%nat;
  inv_online : is_online s = ((12 <=? stage (main s)) && (stage (main s) <=? 13))%nat;
  inv_trace : trace s = calls (main s);
}.

(** A move of the main thread that tells agent [k] nothing new. *)
Lemma agent_ok_main m m' k a :
  agent_ok m k a -> told_ready m' k = told_ready m k -> told_finish m' k = told_finish m k ->
  told_exit m' k = told_exit m k -> cleared m' k = cleared m k ->
  (waited m' k = true -> waited m k = true \/ has_signalled (pc a) = true) ->
  (joined m' k = true -> joined m k = true \/ has_exited (pc a) = true) -> agent_ok m' k a.
Proof.
  intros [H1 H2 H3 H4 H5 H6 H7 H8 H9 H10 H11] E1 E2 E3 E4 Hw Hj.
  split; rewrite ?E1, ?E2, ?E3, ?E4; try done.
  - intros Ew. destruct (Hw Ew); auto.
  - intros Ej. destruct (Hj Ej); auto.
Qed.

(** Nothing changes for the agents. *)
Definition same m m' : Prop :=
  started m' = started m /\ forall k, (k < n)%nat ->
    told_ready m' k = told_ready m k /\ told_finish m' k = told_finish m k /\ told_exit m' k = told_exit m k /\
    cleared m' k = cleared m k /\ unlisted m' k = unlisted m k /\
    (waited m' k = true -> waited m k = true) /\ (joined m' k = true -> joined m k = true).

(** The main thread moves and the agents' threads do not. *)
Lemma inv_main s m' ags loc onl tr :
  inv s -> in_bounds m' -> length ags = started m' -> started m' = started (main s) ->
  (forall k a', ags !! k = Some a' -> exists a, agents s !! k = Some a /\ pc a' = pc a /\ agent_ok m' k a') ->
  (forall k, (k < started m')%nat -> unlisted m' k = unlisted (main s) k) ->
  loc = ((3 <=? stage m') && (stage m' <=? 10))%nat -> onl = ((12 <=? stage m') && (stage m' <=? 13))%nat ->
  tr = calls m' -> inv (mk_sys m' ags (attached s) loc onl tr).
Proof.
  intros [H1 H2 H3 H4 H5 H6 H7 H8] Hb Hlen Hst Hag Hun -> -> ->. split; try done; cbn.
  - intros k a Hk. by destruct (Hag k a Hk) as (? & _ & _ & ?).
  - intros k. rewrite H5. split.
    + intros (a & Ha & Hl & Hu). assert (Hk : (k < length ags)%nat).
      { rewrite Hlen, Hst, <- H2. by eapply lookup_lt_Some. }
      destruct (lookup_lt_is_Some_2 ags k Hk) as [a' Ha']. exists a'. split; [done|].
      destruct (Hag k a' Ha') as (a0 & E0 & Ep & _). rewrite Ha in E0. injection E0 as <-.
      rewrite Ep, Hun; [done|]. by rewrite <- Hlen.
    + intros (a' & Ha' & Hl & Hu). destruct (Hag k a' Ha') as (a & Ha & Ep & _). exists a. rewrite <- Ep.
      split_and!; try done. rewrite <- Hun; [done|]. rewrite <- Hlen. by eapply lookup_lt_Some.
Qed.

Lemma inv_quiet s m' loc onl tr :
  inv s -> in_bounds m' -> same (main s) m' -> started (main s) = n ->
  loc = ((3 <=? stage m') && (stage m' <=? 10))%nat -> onl = ((12 <=? stage m') && (stage m' <=? 13))%nat ->
  tr = calls m' -> inv (mk_sys m' (agents s) (attached s) loc onl tr).
Proof.
  intros Hi Hb [Hst Hsame] Hn Hloc Honl Htr. pose proof (inv_length _ Hi) as Hlen.
  apply inv_main; try done.
  - by rewrite Hst.
  - intros k a Ha. exists a. split_and!; try done.
    assert (Hk : (k < n)%nat) by (rewrite <- Hn, <- Hlen; by eapply lookup_lt_Some).
    destruct (Hsame k Hk) as (? & ? & ? & ? & _ & ? & ?).
    eapply agent_ok_main; [by apply inv_agents|done..|auto|auto].
  - intros k Hk. apply Hsame. lia.
Qed.

(** The main thread tells agent [j] something. *)
Lemma inv_tell s m' j a a' loc onl tr :
  inv s -> agents s !! j = Some a -> pc a' = pc a -> in_bounds m' -> started (main s) = n -> started m' = n ->
  agent_ok m' j a' ->
  (forall k, (k < n)%nat -> k <> j -> told_ready m' k = told_ready (main s) k /\ told_finish m' k = told_finish (main s) k /\
     told_exit m' k = told_exit (main s) k /\ cleared m' k = cleared (main s) k /\
     (waited m' k = true -> waited (main s) k = true) /\ (joined m' k = true -> joined (main s) k = true)) ->
  (forall k, (k < n)%nat -> unlisted m' k = unlisted (main s) k) ->
  loc = ((3 <=? stage m') && (stage m' <=? 10))%nat -> onl = ((12 <=? stage m') && (stage m' <=? 13))%nat ->
  tr = calls m' -> inv (mk_sys m' (<[j := a']> (agents s)) (attached s) loc onl tr).
Proof.
  intros Hi Hj Ep Hb Hn Hn' Hok Hoth Hun Hloc Honl Htr. pose proof (inv_length _ Hi) as Hlen.
  apply inv_main; try done.
  - rewrite length_insert. congruence.
  - congruence.
  - intros k a0. destruct (decide (k = j)) as [->|Hne].
    + rewrite list_lookup_insert_eq by (by eapply lookup_lt_Some). intros [= <-]. by exists a.
    + rewrite list_lookup_insert_ne by done. intros Ha. exists a0. split_and!; try done.
      assert (Hk : (k < n)%nat) by (rewrite <- Hn, <- Hlen; by eapply lookup_lt_Some).
      destruct (Hoth k Hk Hne) as (? & ? & ? & ? & ? & ?).
      eapply agent_ok_main; [by apply inv_agents|done..|auto|auto].
  - intros k Hk. apply Hun. lia.
Qed.

Lemma calls_snoc {A} (f : nat -> A) k : f <$> seq 0 (S k) = (f <$> seq 0 k) ++ [f k].
Proof. by rewrite seq_S, fmap_app. Qed.

(** The points the agents do not notice. *)
Ltac reduce := unfold set_main, set_locked, set_online, set_agents, set_attached, emit; cbn [main agents attached locked is_online trace].
Ltac quiet Hi Em :=
  reduce; apply inv_quiet; rewrite ?(inv_locked _ Hi), ?(inv_online _ Hi), ?(inv_trace _ Hi), ?Em; cbn;
  try done; try lia; try (split; [done|]; intros; cbn; split_and!; intros; lia).

Lemma start_inv s k s' : inv s -> main s = MStart k -> main_step n scheds s = Some s' -> inv s'.
Proof.
  intros Hi Em. unfold main_step, start_step, ready_step, terminate_step. rewrite Em. pose proof Hi as [H1 H2 H3 H4 H5 H6 H7 H8]. rewrite Em in *. cbn in *.
  destruct (Nat.ltb_spec k n); intros [= <-].
  - split; cbn; try done.
    + rewrite length_app, H2. cbn. lia.
    + intros j a Ha. destruct (decide (j = k)) as [->|Hne].
      * rewrite lookup_app_r, H2, Nat.sub_diag in Ha by lia. injection Ha as <-. by split.
      * apply lookup_app_Some in Ha as [Ha|[Hj Ha]]; [|apply list_lookup_singleton_Some in Ha as [? _]; lia].
        eapply agent_ok_main; [by apply H3|done..].
    + intros j. rewrite H5. split; intros (a & Ha & Hl & _); exists a.
      * by rewrite (lookup_app_l_Some _ _ _ _ Ha).
      * apply lookup_app_Some in Ha as [Ha|[_ Ha]]; [done|]. apply list_lookup_singleton_Some in Ha as [_ <-]. done.
  - assert (k = n) as -> by lia. quiet Hi Em.
Qed.

(** [Ready] up to its loop over the agents, and the points between the loops. *)
Lemma plain_inv s s' :
  inv s -> main_step n scheds s = Some s' ->
  match main s with
  | MReady | MDerived | MDefault | MInsert | MDisable | MDiscover _ | MSchedReady _ | MUnlock | MOnline | MRun
  | MPrepare | MPing _ => True
  | _ => False
  end -> inv s'.
Proof.
  intros Hi E Hm. unfold main_step, start_step, ready_step, terminate_step in E. pose proof (inv_bounds _ Hi) as Hb. pose proof (inv_trace _ Hi) as Ht.
  destruct (main s) as [ | | | | | | |j|j| | | | | | |k| | | | | | |] eqn:Em; try done; cbn in Hb.
  - case_match; [|done]. injection E as <-. quiet Hi Em.
  - injection E as <-. quiet Hi Em.
  - injection E as <-. destruct (0 <? scheds)%nat eqn:Es; quiet Hi Em; by rewrite Es.
  - injection E as <-. quiet Hi Em.
  - injection E as <-. quiet Hi Em. unfold discovery, first_calls. cbn. by destruct (0 <? scheds)%nat.
  - destruct (Nat.ltb_spec j scheds); injection E as <-.
    + quiet Hi Em. unfold discovery. by rewrite calls_snoc, app_assoc.
    + assert (j = scheds) as -> by lia. quiet Hi Em. unfold sched_calls. by rewrite app_nil_r.
  - destruct (Nat.ltb_spec j scheds); injection E as <-.
    + quiet Hi Em. unfold sched_calls. by rewrite calls_snoc, app_assoc.
    + assert (j = scheds) as -> by lia. quiet Hi Em. unfold agent_calls. by rewrite app_nil_r.
  - injection E as <-. quiet Hi Em.
  - injection E as <-. quiet Hi Em.
  - injection E as <-. quiet Hi Em.
  - injection E as <-. quiet Hi Em.
  - injection E as <-. quiet Hi Em.
Qed.

(** [StartComplete] and [TerminateComplete]. *)
Lemma wait_inv s s' :
  inv s -> main_step n scheds s = Some s' ->
  match main s with MComplete _ | MJoin _ => True | _ => False end -> inv s'.
Proof.
  intros Hi E Hm. unfold main_step, start_step, ready_step, terminate_step in E. pose proof (inv_bounds _ Hi) as Hb.
  destruct (main s) as [|k| | | | | | | | | | | | | | | |k| | | | |] eqn:Em; try done; cbn in Hb.
  - destruct (Nat.ltb_spec k n).
    + destruct (agents s !! k) as [a|] eqn:Ha; [|done]. destruct (ready a) eqn:Hr; [|done]. injection E as <-.
      pose proof (inv_agents _ Hi k a Ha) as Hok. rewrite (ok_ready _ _ _ Hok) in Hr.
      reduce. apply inv_main; rewrite ?(inv_locked _ Hi), ?(inv_online _ Hi), ?(inv_trace _ Hi), ?Em; cbn; try done.
      * rewrite (inv_length _ Hi), Em. done.
      * intros j b Hj. exists b. split_and!; try done. eapply agent_ok_main; [by apply (inv_agents _ Hi)|rewrite Em; cbn..]; try done.
        intros Hw. destruct (decide (j = k)) as [->|]; [right|left; lia]. rewrite Ha in Hj. by injection Hj as <-.
    + assert (k = n) as -> by lia. injection E as <-. quiet Hi Em.
  - destruct (Nat.ltb_spec k n).
    + destruct (agents s !! k) as [a|] eqn:Ha; [|done]. destruct (pc a) eqn:Hr; try done. injection E as <-.
      reduce. apply inv_main; rewrite ?(inv_locked _ Hi), ?(inv_online _ Hi), ?(inv_trace _ Hi), ?Em; cbn; try done.
      * rewrite (inv_length _ Hi), Em. done.
      * intros j b Hj. exists b. split_and!; try done. eapply agent_ok_main; [by apply (inv_agents _ Hi)|rewrite Em; cbn..]; try done.
        { by left. }
        intros Hw. destruct (decide (j = k)) as [->|]; [right|left; lia]. rewrite Ha in Hj. injection Hj as <-. by rewrite Hr.
    + assert (k = n) as -> by lia. injection E as <-. quiet Hi Em.
Qed.

(** Notifications and the clearing of a pointer. *)
Ltac tell Hi Em :=
  reduce; eapply inv_tell; rewrite ?(inv_locked _ Hi), ?(inv_online _ Hi), ?(inv_trace _ Hi), ?Em; cbn; try done; try (clear; lia);
  try (by split; cbn; try done; intros; first [clear; lia|match goal with H : ?x = _ |- ?x = _ => rewrite H; clear; lia end]);
  try (clear; intros; split_and!; intros; try done; lia).

Lemma tell_inv s s' :
  inv s -> main_step n scheds s = Some s' ->
  match main s with MAgentReady _ | MFinish _ | MDoExit _ | MDetach _ => True | _ => False end -> inv s'.
Proof.
  intros Hi E Hm. unfold main_step, start_step, ready_step, terminate_step, on_agent, notify in E. pose proof (inv_bounds _ Hi) as Hb.
  assert (Hag : forall k a, agents s !! k = Some a -> agent_ok (main s) k a) by apply (inv_agents _ Hi).
  destruct (main s) as [ | | | | | | | | |k| | | | |k| |k| |k| | | |] eqn:Em; try done; cbn in Hb.
  all: try (destruct (Nat.ltb_spec k n); [|assert (k = n) as -> by lia; injection E as <-; quiet Hi Em]).
  all: destruct (agents s !! k) as [a|] eqn:Ha; [|done]; destruct (Hag k a Ha) as [G1 G2 G3 G4 G5 G6 G7 G8 G9 G10 G11]; cbn in *.
  - assert (Hrep : rep a = true) by (rewrite G6; specialize (G7 eq_refl); by destruct (pc a)).
    assert (Her : enclave_ready a = false) by (rewrite G3; clear; lia).
    rewrite Hrep, Her in E. injection E as <-. tell Hi Em. unfold agent_calls. by rewrite calls_snoc, app_assoc.
  - assert (Hf : finished a = false) by (rewrite G4; clear; lia). rewrite Hf in E. injection E as <-. tell Hi Em.
  - assert (Hd : do_exit a = false) by (rewrite G5; clear; lia). rewrite Hd in E. injection E as <-. tell Hi Em.
  - injection E as <-. tell Hi Em.
Qed.

(** [~Agent]: the list entry, and the [CHECK] that the thread has been joined. *)
Lemma unlist_inv s k s' : inv s -> main s = MUnlist k -> main_step n scheds s = Some s' -> inv s'.
Proof.
  intros Hi Em E. unfold main_step, start_step, ready_step, terminate_step in E. rewrite Em in E. pose proof Hi as [H1 H2 H3 H4 H5 H6 H7 H8]. rewrite Em in *.
  cbn in *. rewrite H6 in E. injection E as <-. split; cbn; try done.
  - intros j a Ha. eapply agent_ok_main; [by apply H3|done..|by left|by left].
  - by apply NoDup_filter.
  - intros j. rewrite list_elem_of_filter, H5. split.
    + intros (Hne & a & Ha & Hl & Hu). exists a. split_and!; try done. lia.
    + intros (a & Ha & Hl & Hu). split; [lia|]. exists a. split_and!; try done. lia.
Qed.

Lemma joinable_inv s k s' : inv s -> main s = MJoinable k -> main_step n scheds s = Some s' -> inv s'.
Proof.
  intros Hi Em E. unfold main_step, start_step, ready_step, terminate_step, on_agent in E. rewrite Em in E. pose proof (inv_bounds _ Hi) as Hb. rewrite Em in Hb. cbn in Hb.
  destruct (agents s !! k) as [a|] eqn:Ha; [|done]. pose proof (inv_agents _ Hi k a Ha) as Hok. rewrite Em in Hok.
  pose proof (ok_joined _ _ _ Hok eq_refl) as Hx. destruct (pc a); try done. injection E as <-. quiet Hi Em.
Qed.

Lemma main_inv s s' : inv s -> main_step n scheds s = Some s' -> inv s'.
Proof.
  intros Hi E. destruct (main s) as [k| | | | | | | | | | | | | | | | | | |k|k| |] eqn:Em.
  all: try (apply (plain_inv s s' Hi E); by rewrite Em).
  all: try (apply (tell_inv s s' Hi E); by rewrite Em).
  all: try (apply (wait_inv s s' Hi E); by rewrite Em).
  - by apply (start_inv s k).
  - by apply (unlist_inv s k).
  - by apply (joinable_inv s k).
  - unfold main_step, start_step, ready_step, terminate_step in E. by rewrite Em in E.
  - unfold main_step, start_step, ready_step, terminate_step in E. by rewrite Em in E.
Qed.

(** *** The agents *)

Lemma inv_agent s k a a' att :
  inv s -> agents s !! k = Some a -> agent_ok (main s) k a' -> NoDup att ->
  (forall j, j ∈ att <-> if decide (j = k) then has_listed (pc a') = true /\ unlisted (main s) k = false else j ∈ attached s) ->
  inv (mk_sys (main s) (<[k := a']> (agents s)) att (locked s) (is_online s) (trace s)).
Proof.
  intros [H1 H2 H3 H4 H5 H6 H7 H8] Ha Hok Hnd Hatt. pose proof (lookup_lt_Some _ _ _ Ha) as Hlt.
  split; cbn; try done.
  - by rewrite length_insert.
  - intros j b. destruct (decide (j = k)) as [->|Hne].
    + rewrite list_lookup_insert_eq by done. by intros [= <-].
    + rewrite list_lookup_insert_ne by done. apply H3.
  - intros j. rewrite Hatt. destruct (decide (j = k)) as [->|Hne].
    + rewrite list_lookup_insert_eq by done. naive_solver.
    + rewrite list_lookup_insert_ne by done. apply H5.
Qed.

(** A step that does not touch the list. *)
Lemma inv_agent_move s k a a' :
  inv s -> agents s !! k = Some a -> agent_ok (main s) k a' -> has_listed (pc a') = has_listed (pc a) ->
  inv (set_agents (<[k := a']> (agents s)) s).
Proof.
  intros Hi Ha Hok Hl. apply (inv_agent s k a); try done; [apply Hi|].
  intros j. destruct (decide (j = k)) as [->|]; [|done]. rewrite (inv_attached _ Hi), Hl. naive_solver.
Qed.

Lemma cleared_joined m k : cleared m k = true \/ unlisted m k = true -> joined m k = true.
Proof. destruct m; cbn; intros [H|H]; try done; lia. Qed.

Lemma agent_inv s k env s' : inv s -> agent_step k env s = Some s' -> inv s'.
Proof.
  intros Hi E. unfold agent_step in E. destruct (agents s !! k) as [a|] eqn:Ha; [|done].
  pose proof (inv_agents _ Hi k a Ha) as Hok. pose proof Hok as [G1 G2 G3 G4 G5 G6 G7 G8 G9 G10 G11].
  assert (Hmove : forall a', agent_ok (main s) k a' -> has_listed (pc a') = has_listed (pc a) ->
    inv (set_agents (<[k := a']> (agents s)) s)) by (intros; by eapply inv_agent_move).
  assert (Halive : has_exited (pc a) = false -> cleared (main s) k = false /\ unlisted (main s) k = false).
  { intros Hx. pose proof (cleared_joined (main s) k) as Hj.
    destruct (cleared (main s) k), (unlisted (main s) k); try done; rewrite G11 in Hx; auto; done. }
  destruct (pc a) eqn:Ep; cbn in *; try done.
  - destruct env; injection E as <-; [|done]. apply Hmove; [|done]. by split.
  - destruct env; injection E as <-; [|done]. apply Hmove; [|done]. by split.
  - rewrite G6 in E. injection E as <-. apply Hmove; [|done]. destruct (Halive eq_refl) as [Hc _]. split; try done.
    cbn. by rewrite Hc.
  - destruct (locked s) eqn:Hlock; [done|]. injection E as <-. reduce.
    destruct (Halive eq_refl) as [_ Hu]. assert (Hn : k ∉ attached s).
    { rewrite (inv_attached _ Hi). intros (a0 & Ha0 & Hl0 & _). rewrite Ha in Ha0. injection Ha0 as <-. by rewrite Ep in Hl0. }
    apply (inv_agent s k a); try done.
    + apply NoDup_snoc. split; [done|apply Hi].
    + intros j. rewrite elem_of_app, list_elem_of_singleton. destruct (decide (j = k)) as [->|]; cbn; naive_solver.
  - rewrite G2 in E. injection E as <-. apply Hmove; [|done]. by split.
  - destruct (enclave_ready a) eqn:Her; [|done]. injection E as <-. apply Hmove; [|done]. split; try done; cbn; congruence.
  - destruct (negb (finished a) || negb env) eqn:Ef; injection E as <-; [done|]. apply orb_false_iff in Ef as [Ef%negb_false_iff _].
    apply Hmove; [|done]. split; try done; cbn; congruence.
  - rewrite G4, (G9 eq_refl) in E. injection E as <-. apply Hmove; [|done]. by split.
  - destruct (do_exit a) eqn:Hd; [|done]. injection E as <-. apply Hmove; [|done]. split; try done; cbn; congruence.
Qed.

Inductive run : sys -> list action -> sys -> Prop :=
  | run_nil s : run s [] s
  | run_cons s x s1 xs s2 : act n scheds s x = Some s1 -> run s1 xs s2 -> run s (x :: xs) s2.

Lemma life_run_inv s xs s' : run s xs s' -> inv s -> inv s'.
Proof.
  induction 1 as [|s x s1 xs s2 Hx _ IH]; [done|]. intros Hi. apply IH.
  destruct x as [|k env]; [by eapply main_inv|by eapply agent_inv].
Qed.

Lemma life_init_inv : inv init_sys.
Proof.
  split; cbn; try done; [lia|constructor|]. intros k. split; [by intros ?%elem_of_nil|by intros (a & Ha & _)].
Qed.

(** ** No deadlock *)

(** The steps left to the main thread, and to an agent. *)
Definition main_left m : nat :=
  let detach := (3 * n + 2)%nat in let finish := (detach + n + 1)%nat in
  let prepare := (finish + 3 * n + 1)%nat in let tell := (prepare + 4)%nat in
  let ready := (tell + n + 1)%nat in let discover := (ready + scheds + 1)%nat in
  let disable := (discover + scheds + 1)%nat in let complete := (disable + 5)%nat in
  let start := (complete + n + 1)%nat in
  (match m with
   | MStart k => n - k + start | MComplete k => n - k + complete
   | MReady => disable + 4 | MDerived => disable + 3 | MDefault => disable + 2 | MInsert => disable + 1
   | MDisable => disable | MDiscover j => scheds - j + discover | MSchedReady j => scheds - j + ready
   | MAgentReady k => n - k + tell | MUnlock => prepare + 3 | MOnline => prepare + 2 | MRun => prepare + 1
   | MPrepare => prepare | MFinish k => 3 * (n - k) + finish | MPing k => 3 * (n - k) - 1 + finish
   | MDoExit k => 3 * (n - k) - 2 + finish | MJoin k => n - k + detach
   | MDetach k => 3 * (n - k) + 1 | MUnlist k => 3 * (n - k) | MJoinable k => 3 * (n - k) - 1
   | MEnd | MFailed => 0
   end)%nat.

Definition agent_left (p : apc) : nat :=
  match p with
  | AWaitOld => 9 | AEnter => 8 | AAttach => 7 | AList => 6 | ASignal => 5 | AWaitEnclave => 4
  | ALoop => 3 | AExitCheck => 2 | AWaitExit => 1 | AExited | AFailed => 0
  end.

Definition sum_left (l : list agent) : nat := sum_list_with (fun a => agent_left (pc a)) l.

(** Agents that have not been made yet count in full. *)
Definition measure s : nat := main_left (main s) + 10 * (n - length (agents s)) + sum_left (agents s).

Lemma sum_left_insert l k a a' :
  l !! k = Some a -> (sum_left (<[k := a']> l) + agent_left (pc a) = sum_left l + agent_left (pc a'))%nat.
Proof.
  unfold sum_left. revert k. induction l as [|b l IH]; intros [|k] Hk; try done.
  - injection Hk as ->. cbn. lia.
  - specialize (IH k Hk). change (<[S k := a']> (b :: l)) with (b :: <[k := a']> l). cbn [sum_list_with]. lia.
Qed.

Lemma sum_left_same l k a a' : l !! k = Some a -> pc a' = pc a -> sum_left (<[k := a']> l) = sum_left l.
Proof. intros Hk Ep. pose proof (sum_left_insert l k a a' Hk). rewrite Ep in *. lia. Qed.

Lemma sum_left_new l : sum_left (l ++ [new_agent]) = (sum_left l + 9)%nat.
Proof. unfold sum_left. rewrite sum_list_with_app. done. Qed.

Lemma main_decreases s s' : inv s -> main_step n scheds s = Some s' -> (measure s' < measure s)%nat.
Proof.
  intros Hi E. pose proof (main_inv s s' Hi E) as Hi'. pose proof (inv_bounds _ Hi) as Hb. pose proof (inv_bounds _ Hi') as Hb'.
  pose proof (inv_length _ Hi) as Hlen. unfold measure, main_step, start_step, ready_step, terminate_step, on_agent, notify in *.
  destruct (main s) eqn:Em; cbn [in_bounds started] in Hb, Hlen; try done.
  all: repeat (case_match; try done); injection E as <-; unfold set_main, set_locked, set_online, set_agents, set_attached, emit in *;
    cbn [main agents attached locked is_online trace in_bounds] in *; rewrite ?Em; cbn [main_left].
  all: rewrite ?length_insert, ?length_app, ?sum_left_new; cbn [length]; try (erewrite sum_left_same; [|eassumption|reflexivity]); clear Hi Hi'; lia.
Qed.

Lemma agent_decreases s k a a' s' :
  agents s !! k = Some a -> main s' = main s -> agents s' = <[k := a']> (agents s) ->
  (agent_left (pc a') < agent_left (pc a))%nat -> (measure s' < measure s)%nat.
Proof.
  intros Ha E1 E2 Hlt. unfold measure. rewrite E1, E2, length_insert.
  pose proof (sum_left_insert (agents s) k a a' Ha). lia.
Qed.

(** Where an agent must be before it can move. *)
Lemma agent_moves s k a :
  inv s -> agents s !! k = Some a -> pc a <> AExited -> (pc a = AList -> locked s = false) ->
  (pc a = AWaitEnclave -> enclave_ready a = true) -> (pc a = ALoop -> finished a = true) ->
  (pc a = AWaitExit -> do_exit a = true) ->
  exists s', act n scheds s (Agent k true) = Some s' /\ (measure s' < measure s)%nat.
Proof.
  intros Hi Ha Hx Hl He Hf Hd. pose proof (inv_agents _ Hi k a Ha) as [G1 G2 G3 G4 G5 G6 G7 G8 G9 G10 G11].
  pose proof (fun a' s' => agent_decreases s k a a' s' Ha) as Hdec.
  cbn. unfold agent_step. rewrite Ha. destruct (pc a) eqn:Ep; try done.
  - eexists. split; [done|]. eapply Hdec; [reflexivity..|cbn; clear; lia].
  - eexists. split; [done|]. eapply Hdec; [reflexivity..|cbn; clear; lia].
  - cbn in G6. rewrite G6. eexists. split; [done|]. eapply Hdec; [reflexivity..|cbn; clear; lia].
  - rewrite Hl by done. eexists. split; [done|]. eapply Hdec; [reflexivity..|cbn; clear; lia].
  - cbn in G2. rewrite G2. eexists. split; [done|]. eapply Hdec; [reflexivity..|cbn; clear; lia].
  - rewrite He by done. eexists. split; [done|]. eapply Hdec; [reflexivity..|cbn; clear; lia].
  - rewrite Hf by done. eexists. split; [done|]. eapply Hdec; [reflexivity..|cbn; clear; lia].
  - rewrite G4, (G9 eq_refl). eexists. split; [done|]. eapply Hdec; [reflexivity..|cbn; clear; lia].
  - rewrite Hd by done. eexists. split; [done|]. eapply Hdec; [reflexivity..|cbn; clear; lia].
Qed.

(** ** The theorems *)

Lemma agent_exists s k : inv s -> started (main s) = n -> (k < n)%nat -> exists a, agents s !! k = Some a.
Proof. intros Hi Hs Hk. apply lookup_lt_is_Some_2. rewrite (inv_length _ Hi). lia. Qed.

(** When [Ready] takes the lock all agents are on the list. *)
Lemma all_attached s : inv s -> stage (main s) = 2%nat -> length (attached s) = n.
Proof.
  intros Hi Hst. assert (Em : main s = MReady) by (by destruct (main s)).
  assert (HP : attached s ≡ₚ seq 0 n); [|by rewrite HP, length_seq].
  apply NoDup_Permutation; [apply Hi|apply NoDup_ListNoDup, seq_NoDup|]. intros k.
  rewrite (inv_attached _ Hi), elem_of_seq, Em. split.
  - intros (a & Ha & _). apply lookup_lt_Some in Ha. rewrite (inv_length _ Hi), Em in Ha. cbn in Ha. lia.
  - intros Hk. destruct (agent_exists s k Hi) as [a Ha]; [by rewrite Em|lia|]. exists a. split_and!; try done.
    pose proof (inv_agents _ Hi k a Ha) as Hok. rewrite Em in Hok. pose proof (ok_waited _ _ _ Hok eq_refl). by destruct (pc a).
Qed.

Lemma calls_prefix m : in_bounds m -> calls m `prefix_of` agent_calls n ++ [EOnline; EOffline].
Proof.
  intros Hb.
  assert (Happ : forall l1 l2 : list event, l1 `prefix_of` l1 ++ l2) by (intros; by eexists).
  assert (Hseq : forall (f : nat -> event) (l : list event) j j', (j <= j')%nat -> l ++ (f <$> seq 0 j) `prefix_of` l ++ (f <$> seq 0 j')).
  { intros f l j j' Hj. apply prefix_app. replace j' with (j + (j' - j))%nat by lia. rewrite seq_app, fmap_app. apply Happ. }
  assert (P1 : first_calls `prefix_of` agent_calls n).
  { unfold agent_calls, sched_calls, discovery. rewrite <- !app_assoc. apply Happ. }
  assert (P2 : forall j, (j <= scheds)%nat -> discovery j `prefix_of` agent_calls n).
  { intros j Hj. trans (discovery scheds); [by apply Hseq|]. unfold agent_calls, sched_calls. rewrite <- app_assoc. apply Happ. }
  assert (P3 : forall j, (j <= scheds)%nat -> sched_calls j `prefix_of` agent_calls n).
  { intros j Hj. trans (sched_calls scheds); [by apply Hseq|]. apply Happ. }
  assert (P0 : agent_calls n `prefix_of` agent_calls n ++ [EOnline; EOffline]) by apply Happ.
  assert (Pe : agent_calls n ++ [EOnline] `prefix_of` agent_calls n ++ [EOnline; EOffline]) by (by apply prefix_app, (Happ [EOnline] [EOffline])).
  assert (Hnil : [] `prefix_of` agent_calls n ++ [EOnline; EOffline]) by apply prefix_nil.
  assert (Hall : (agent_calls n ++ [EOnline]) ++ [EOffline] `prefix_of` agent_calls n ++ [EOnline; EOffline]) by (by rewrite <- app_assoc).
  set (all := agent_calls n ++ [EOnline; EOffline]) in *. clearbody all.
  destruct m; cbn [calls stage in_bounds] in Hb |- *; try done.
  - trans first_calls; [by eexists|etrans; [exact P1|exact P0]].
  - trans first_calls; [|etrans; [exact P1|exact P0]]. apply prefix_cons, (Happ (if (0 <? scheds)%nat then _ else _)).
  - trans first_calls; [|etrans; [exact P1|exact P0]]. apply prefix_cons, prefix_app, (Happ [_] [_]).
  - etrans; [by apply P2|exact P0].
  - etrans; [by apply P3|exact P0].
  - etrans; [by apply Hseq|exact P0].
Qed.

Lemma told_stage m k : told_ready m k = true -> (9 <= stage m)%nat.
Proof. destruct m; cbn; try done; lia. Qed.

(** C25: in every interleaving of the main thread and the agent threads no [CHECK]
    fails (no notification is notified twice, no CPU gets a second agent, [Ready]
    finds an agent on every CPU, no running thread is destroyed); [Ready] finds all
    agents attached when it gets there; the calls of start-up and shut-down are made
    in a fixed order; an agent schedules only when it has been told so, after every
    scheduler has discovered its tasks and been made ready and every agent has
    attached; and agents are detached only when all their threads have exited. *)
Theorem agents_life_safe xs s :
  run init_sys xs s ->
  main s <> MFailed /\ (forall k a, agents s !! k = Some a -> pc a <> AFailed) /\
  (main s = MReady -> length (attached s) = n) /\
  trace s `prefix_of` agent_calls n ++ [EOnline; EOffline] /\
  (forall k a, agents s !! k = Some a -> has_entered (pc a) = true ->
     sched_calls scheds `prefix_of` trace s /\ EAgentReady k ∈ trace s /\
     forall j, (j < n)%nat -> exists b, agents s !! j = Some b /\ has_signalled (pc b) = true) /\
  ((16 <= stage (main s))%nat -> forall k a, agents s !! k = Some a -> pc a = AExited).
Proof.
  intros Hr. pose proof (life_run_inv _ _ _ Hr life_init_inv) as Hi. pose proof (inv_bounds _ Hi) as Hb. split_and!.
  - by destruct (main s).
  - intros k a Ha. apply (inv_agents _ Hi k a Ha).
  - intros Em. apply (all_attached s Hi). by rewrite Em.
  - rewrite (inv_trace _ Hi). by apply calls_prefix.
  - intros k a Ha He. pose proof (inv_agents _ Hi k a Ha) as Hok. pose proof (ok_entered _ _ _ Hok He) as Ht.
    pose proof (told_stage _ _ Ht) as Hst. pose proof (lookup_lt_Some _ _ _ Ha) as Hk. rewrite (inv_length _ Hi) in Hk.
    assert (Hsn : started (main s) = n) by (destruct (main s); cbn in *; lia). rewrite Hsn in Hk.
    assert (Hcalls : exists i, (k < i)%nat /\ agent_calls i `prefix_of` trace s).
    { rewrite (inv_trace _ Hi). clear -Ht Hst Hk Hb.
      destruct (main s) as [ | | | | | | | | |i| | | | | | | | | | | | |]; cbn [stage told_ready calls in_bounds] in *; try lia;
        try (exists n; split; [lia|first [reflexivity|apply prefix_app_r; reflexivity|do 2 apply prefix_app_r; reflexivity]]).
      exists i. split; [lia|done]. }
    destruct Hcalls as (i & Hik & Hpre). split_and!.
    + trans (agent_calls i); [|done]. unfold agent_calls. by eexists.
    + eapply elem_of_prefix; [|exact Hpre]. unfold agent_calls. rewrite elem_of_app. right. apply list_elem_of_fmap.
      exists k. split; [done|]. apply elem_of_seq. lia.
    + intros j Hj. destruct (agent_exists s j Hi Hsn Hj) as [b Eb]. exists b. split; [done|].
      pose proof (inv_agents _ Hi j b Eb) as Hbk. apply (ok_waited _ _ _ Hbk). clear -Hst. destruct (main s); cbn in *; try done; lia.
  - intros Hst k a Ha. pose proof (inv_agents _ Hi k a Ha) as Hok. pose proof (ok_joined _ _ _ Hok) as Hj.
    assert (joined (main s) k = true) as Hjk by (clear -Hst Hb; destruct (main s); cbn in *; try done; lia).
    specialize (Hj Hjk). by destruct (pc a).
Qed.

(** C27: the threads never wait for each other in a circle: in every reachable state
    but the last some thread has a step that brings the life of the agents closer to
    its end (an agent's when the old agent is gone, the CPU can be entered and its
    run queue is empty). *)
Theorem agents_life_progress xs s :
  run init_sys xs s -> main s <> MEnd ->
  exists x s', act n scheds s x = Some s' /\ (measure s' < measure s)%nat.
Proof.
  intros Hr Hne. pose proof (life_run_inv _ _ _ Hr life_init_inv) as Hi. pose proof (inv_bounds _ Hi) as Hb.
  destruct (main_step n scheds s) as [s'|] eqn:E; [exists Main, s'; split; [done|by apply main_decreases]|].
  assert (Hlook : started (main s) = n -> forall k, (k < n)%nat -> exists a, agents s !! k = Some a) by (intros; by apply agent_exists).
  unfold main_step, start_step, ready_step, terminate_step, on_agent in E. destruct (main s) as [|k| | | | | | | |k| | | | |k| |k|k|k|k|k| |] eqn:Em; cbn in Hb; try done.
  - by case_match.
  - destruct (Nat.ltb_spec k n) as [Hk|]; [|done]. destruct (Hlook eq_refl k Hk) as [a Ha]. rewrite Ha in E.
    destruct (ready a) eqn:Hrd; [done|]. exists (Agent k true). pose proof (inv_agents _ Hi k a Ha) as Hok.
    rewrite (ok_ready _ _ _ Hok) in Hrd. apply (agent_moves s k a Hi Ha); try (intros Ep; by rewrite Ep in Hrd).
    intros _. by rewrite (inv_locked _ Hi), Em.
  - rewrite (all_attached s Hi), Nat.eqb_refl in E by (by rewrite Em). done.
  - by case_match.
  - by case_match.
  - destruct (Nat.ltb_spec k n) as [Hk|]; [|done]. destruct (Hlook eq_refl k Hk) as [a Ha]. by rewrite Ha in E.
  - destruct (Nat.ltb_spec k n) as [Hk|]; [|done]. destruct (Hlook eq_refl k Hk) as [a Ha]. by rewrite Ha in E.
  - destruct (Hlook eq_refl k Hb) as [a Ha]. by rewrite Ha in E.
  - destruct (Nat.ltb_spec k n) as [Hk|]; [|done]. destruct (Hlook eq_refl k Hk) as [a Ha]. rewrite Ha in E.
    exists (Agent k true). pose proof (inv_agents _ Hi k a Ha) as Hok. rewrite Em in Hok.
    pose proof (ok_waited _ _ _ Hok eq_refl) as Hw.
    apply (agent_moves s k a Hi Ha).
    + intros Ep. by rewrite Ep in E.
    + intros Ep. by rewrite Ep in Hw.
    + intros _. apply (ok_enclave _ _ _ Hok).
    + intros _. apply (ok_finished _ _ _ Hok).
    + intros _. apply (ok_do_exit _ _ _ Hok).
  - destruct (Nat.ltb_spec k n) as [Hk|]; [|done]. destruct (Hlook eq_refl k Hk) as [a Ha]. by rewrite Ha in E.
  - rewrite (inv_locked _ Hi), Em in E. done.
  - destruct (Hlook eq_refl k Hb) as [a Ha]. by rewrite Ha in E.
Qed.
End Life.

(** Two agents and one scheduler, the threads taking turns; a blocked thread misses
    its turn. *)
Fixpoint exec (n scheds : nat) (s : sys) (xs : list action) : list action * sys :=
  match xs with
  | [] => ([], s)
  | x :: xs =>
      match act n scheds s x with
      | Some s' => let '(taken, s2) := exec n scheds s' xs in (x :: taken, s2)
      | None => exec n scheds s xs
      end
  end.

Lemma life_exec_run n scheds s xs : run n scheds s (exec n scheds s xs).1 (exec n scheds s xs).2.
Proof.
  revert s. induction xs as [|x xs IH]; intros s; cbn; [constructor|].
  destruct (act n scheds s x) as [s'|] eqn:E; [|apply IH]. specialize (IH s').
  destruct (exec n scheds s' xs) as [taken s2]. by eapply run_cons.
Qed.

Definition turns (r : nat) : list action := concat (replicate r [Main; Agent 0 true; Agent 1 true]).

Definition demo_end : list action * sys := exec 2 1 init_sys (turns 60).

Definition demo_mid : list action * sys := exec 2 1 init_sys (turns 20).

(** Half-way agent 0 is scheduling; at the end everything has been shut down. *)
Lemma agents_life_safe_witness :
  (pc <$> agents demo_mid.2 !! 0%nat) = Some ALoop /\ main demo_end.2 = MEnd /\ attached demo_end.2 = [] /\
  main demo_end.2 <> MFailed.
Proof.
  split_and!; [vm_compute; reflexivity..|].
  exact (proj1 (agents_life_safe 2 1 _ _ (life_exec_run 2 1 init_sys (turns 60)))).
Defined.

Lemma agents_life_progress_witness :
  exists x s', act 2 1 demo_mid.2 x = Some s' /\ (measure 2 1 s' < measure 2 1 demo_mid.2)%nat.
Proof.
  apply (agents_life_progress 2 1 _ _ (life_exec_run 2 1 init_sys (turns 20))).
  vm_compute. discriminate.
Defined.
End LifeProps.
