(* ===== verification/AgentRpc.v ===== *)
(** * Data and calls into the agent process

    [src/lib/agent.h] and [src/lib/trivial_status.cc]: the buffer that carries plain
    data between two processes ([AgentRpcBuffer]), the statuses sent through it, and
    the calls of [AgentProcess] over two notifications. *)

From S2P Require Import Prelude.

(** ** Trivially copyable objects *)

(** An object is its bytes, each in [0 .. 255]. *)
Notation bytes := (list Z).

Class TriviallyCopyable (T : Type) := {
  sizeof : Z;
  repr : T -> bytes;
  value : bytes -> T }.
Arguments sizeof _ {_}.

(** Copying the bytes of an object gives the object. *)
Class TriviallyCopyableLaws (T : Type) `{TriviallyCopyable T} (wf : T -> Prop) : Prop := {
  sizeof_pos : 0 < sizeof T;
  length_repr t : wf t -> Z.of_nat (length (repr t)) = sizeof T;
  value_repr t : wf t -> value (repr t) = t }.

(** Little-endian integers of [n] bytes. *)
Fixpoint le (n : nat) (z : Z) : bytes :=
  match n with O => [] | S n => z mod 256 :: le n (z / 256) end.

Fixpoint of_le (bs : bytes) : Z := match bs with [] => 0 | b :: bs => b + 256 * of_le bs end.

(** ** The buffer *)

Module Buffer.
Section Buffer.
Context (BufferBytes : Z).

Record AgentRpcBuffer := mk_buffer { data : bytes; string_length : Z; is_serialized : bool }.

Definition new_buffer : AgentRpcBuffer := mk_buffer (replicate (Z.to_nat BufferBytes) 0) 0 false.

Inductive status := Ok | InvalidArgumentError.

(** [absl::StatusOr], or the exception of a vector that cannot be that long. *)
Inductive outcome (A : Type) := Value (a : A) | InvalidArgument | LengthError.
#[global] Arguments Value {A} _.
#[global] Arguments InvalidArgument {A}.
#[global] Arguments LengthError {A}.

(** [std::copy_n] to position [i] of the array. *)
Definition copy_to (i : nat) (bs : bytes) (d : bytes) : bytes :=
  take i d ++ bs ++ drop (i + length bs) d.

Definition set_data (d : bytes) (b : AgentRpcBuffer) : AgentRpcBuffer :=
  mk_buffer d (string_length b) (is_serialized b).
Definition mark (v : bool) (b : AgentRpcBuffer) : AgentRpcBuffer := mk_buffer (data b) (string_length b) v.

(** [Serialize(t, size)], given the bytes at [t]. *)
Definition Serialize_size (t : bytes) (size : Z) (b : AgentRpcBuffer) : AgentRpcBuffer * status :=
  let b := mark false b in
  if BufferBytes <? size then (b, InvalidArgumentError)
  else (mark true (set_data (copy_to 0 (take (Z.to_nat size) t) (data b)) b), Ok).

Definition Deserialize_size (size : Z) (b : AgentRpcBuffer) : outcome bytes :=
  if BufferBytes <? size then InvalidArgument
  else if negb (is_serialized b) then InvalidArgument
  else Value (take (Z.to_nat size) (data b)).

(** Element [i] of an array of objects of [size] bytes. *)
Definition element (size : Z) (d : bytes) (i : nat) : bytes := take (Z.to_nat size) (drop (Z.to_nat size * i) d).

Definition SerializeString (s : bytes) (b : AgentRpcBuffer) : AgentRpcBuffer * status :=
  let b := mark false b in
  if u64 (BufferBytes - 1) <? Z.of_nat (length s) then (b, InvalidArgumentError)
  else
    let d := <[length s := 0]> (copy_to 0 s (data b)) in
    (mk_buffer d (Z.of_nat (length s)) true, Ok).

Definition DeserializeString (b : AgentRpcBuffer) : outcome bytes :=
  if u64 (BufferBytes - 1) <? string_length b then InvalidArgument
  else if negb (is_serialized b) then InvalidArgument
  else Value (take (Z.to_nat (string_length b)) (data b)).

Definition ForceMarkSerialized (b : AgentRpcBuffer) : AgentRpcBuffer := mark true b.

Section Typed.
Context {T : Type} `{TriviallyCopyable T}.

Definition Serialize (t : T) (b : AgentRpcBuffer) : AgentRpcBuffer * status :=
  Serialize_size (repr t) (sizeof T) b.

Definition Deserialize (b : AgentRpcBuffer) : outcome T :=
  match Deserialize_size (sizeof T) b with
  | Value bs => Value (value bs)
  | InvalidArgument => InvalidArgument
  | LengthError => LengthError
  end.

Fixpoint copy_elements (i : nat) (vt : list T) (d : bytes) : bytes :=
  match vt with
  | [] => d
  | t :: vt => copy_elements (S i) vt (copy_to (Z.to_nat (sizeof T) * i) (repr t) d)
  end.

Definition SerializeVector (vt : list T) (b : AgentRpcBuffer) : AgentRpcBuffer * status :=
  let b := mark false b in
  if BufferBytes <? u64 (sizeof T * Z.of_nat (length vt)) then (b, InvalidArgumentError)
  else (mark true (set_data (copy_elements 0 vt (data b)) b), Ok).

(** No vector is longer than [PTRDIFF_MAX] bytes: the constructor throws. *)
Definition DeserializeVector (num_elements : Z) (b : AgentRpcBuffer) : outcome (list T) :=
  if BufferBytes <? u64 (sizeof T * num_elements) then InvalidArgument
  else if negb (is_serialized b) then InvalidArgument
  else if 2 ^ 63 <=? sizeof T * num_elements then LengthError
  else Value ((fun i => value (element (sizeof T) (data b) i)) <$> seq 0 (Z.to_nat num_elements)).
End Typed.
End Buffer.
End Buffer.

(** ** Statuses *)

Module Trivial.

(** [absl::Status]: [kOk] is 0 and has no message. *)
Record Status := mk_status { code : Z; message : bytes }.
Definition absl_Status (c : Z) (m : bytes) : Status := if c =? 0 then mk_status 0 [] else mk_status c m.
Definition OkStatus : Status := mk_status 0 [].
Definition status_ok (s : Status) : bool := code s =? 0.

(** [CopyString], for an array of the length of [dest]. *)
Definition CopyString (dest : bytes) (s : bytes) : bytes :=
  let chars_to_copy := Nat.min (length dest - 1) (length s) in
  <[chars_to_copy := 0]> (Buffer.copy_to 0 (take chars_to_copy s) dest).

(** The C string in an array: up to the first null byte. *)
Fixpoint c_str (l : bytes) : bytes :=
  match l with [] => [] | c :: l => if c =? 0 then [] else c :: c_str l end.

Definition kMaxErrorMessageSize : Z := 1000.
Definition kMaxStringSize : Z := 30000.

Record TrivialStatus := mk_trivial { code_ : Z; error_message_ : bytes }.

(** The constructor; [mem] is what the array holds before it. *)
Definition TrivialStatus_of (mem : bytes) (s : Status) : TrivialStatus :=
  mk_trivial (code s) (CopyString mem (message s)).

Definition ToStatus (t : TrivialStatus) : Status := absl_Status (code_ t) (c_str (error_message_ t)).
Definition ok (t : TrivialStatus) : bool := code_ t =? 0.

Inductive StatusOr (A : Type) := OkValue (a : A) | Error (s : Status).
#[global] Arguments OkValue {A} _.
#[global] Arguments Error {A} _.

Definition status_of {A} (x : StatusOr A) : Status := match x with OkValue _ => OkStatus | Error s => s end.

Record TrivialStatusOrString := mk_or_string { status_ : TrivialStatus; str_ : bytes; string_length_ : Z }.

Definition TrivialStatusOrString_of (mem mem_str : bytes) (s : StatusOr bytes) : TrivialStatusOrString :=
  mk_or_string (TrivialStatus_of mem (status_of s))
    (match s with OkValue v => CopyString mem_str v | Error _ => mem_str end)
    (match s with OkValue v => Z.of_nat (length v) | Error _ => 0 end).

(** [None]: the string is read past the end of the array. *)
Definition ToStatusOr_string (t : TrivialStatusOrString) : option (StatusOr bytes) :=
  let s := ToStatus (status_ t) in
  if status_ok s then
    if Z.of_nat (length (str_ t)) <? string_length_ t then None
    else Some (OkValue (take (Z.to_nat (string_length_ t)) (str_ t)))
  else Some (Error s).

(** [TrivialStatusOr<T>]. *)
Record TrivialStatusOr (T : Type) := mk_or { or_status : TrivialStatus; or_value : T }.
#[global] Arguments mk_or {T} _ _.
#[global] Arguments or_status {T} _.
#[global] Arguments or_value {T} _.

Definition TrivialStatusOr_of {T} (mem : bytes) (mem_value : T) (s : StatusOr T) : TrivialStatusOr T :=
  mk_or (TrivialStatus_of mem (status_of s)) (match s with OkValue v => v | Error _ => mem_value end).

Definition ToStatusOr {T} (t : TrivialStatusOr T) : StatusOr T :=
  let s := ToStatus (or_status t) in if status_ok s then OkValue (or_value t) else Error s.

(** Layouts: an [int], the message; and the string after it, its length aligned to
    8 bytes. *)
#[export] Instance trivial_status_copyable : TriviallyCopyable TrivialStatus := {
  sizeof := 1004;
  repr t := le 4 (code_ t) ++ error_message_ t;
  value bs := mk_trivial (of_le (take 4 bs)) (drop 4 bs) }.

#[export] Instance trivial_or_string_copyable : TriviallyCopyable TrivialStatusOrString := {
  sizeof := 31016;
  repr t := repr (status_ t) ++ str_ t ++ replicate 4 0 ++ le 8 (string_length_ t);
  value bs :=
    mk_or_string (value (take 1004 bs)) (take (Z.to_nat kMaxStringSize) (drop 1004 bs)) (of_le (drop (Z.to_nat 31008) bs)) }.

Section Send.
Context (BufferBytes : Z).

Definition SerializeStatus (mem : bytes) (s : Status) (b : Buffer.AgentRpcBuffer) :=
  Buffer.Serialize BufferBytes (TrivialStatus_of mem s) b.

Definition DeserializeStatus (b : Buffer.AgentRpcBuffer) : Buffer.outcome TrivialStatus :=
  Buffer.Deserialize BufferBytes b.

Definition SerializeStatusOrString (mem mem_str : bytes) (s : StatusOr bytes) (b : Buffer.AgentRpcBuffer) :=
  Buffer.Serialize BufferBytes (TrivialStatusOrString_of mem mem_str s) b.

Definition DeserializeStatusOrString (b : Buffer.AgentRpcBuffer) : Buffer.outcome (option (StatusOr bytes)) :=
  match Buffer.Deserialize BufferBytes b with
  | Buffer.Value t => Buffer.Value (ToStatusOr_string t)
  | Buffer.InvalidArgument => Buffer.InvalidArgument
  | Buffer.LengthError => Buffer.LengthError
  end.

Context {T : Type} `{TriviallyCopyable (TrivialStatusOr T)}.

Definition SerializeStatusOr (mem : bytes) (mem_value : T) (s : StatusOr T) (b : Buffer.AgentRpcBuffer) :=
  Buffer.Serialize BufferBytes (TrivialStatusOr_of mem mem_value s) b.

Definition DeserializeStatusOr (b : Buffer.AgentRpcBuffer) : Buffer.outcome (StatusOr T) :=
  match Buffer.Deserialize BufferBytes b with
  | Buffer.Value t => Buffer.Value (ToStatusOr t)
  | Buffer.InvalidArgument => Buffer.InvalidArgument
  | Buffer.LengthError => Buffer.LengthError
  end.
End Send.
End Trivial.
