(* ===== verification/AgentRpcProps.v ===== *)
(** * What goes through the buffer comes out of it

    Round trips of plain objects, vectors, strings and statuses through
    [AgentRpcBuffer], and where they end: what does not fit is refused, and the
    statuses cut what is too long. *)

From S2P Require Import Prelude AgentRpc.

(** ** Integers *)

Lemma length_le n z : length (le n z) = n.
Proof. revert z. induction n; intros z; cbn; auto. Qed.

Lemma of_le_le n z : 0 <= z < 256 ^ Z.of_nat n -> of_le (le n z) = z.
Proof.
  revert z. induction n as [|n IH]; intros z Hz; cbn [le of_le]; [cbn in Hz; lia|].
  rewrite Nat2Z.inj_succ, Z.pow_succ_r in Hz by lia.
  rewrite IH by (split; [apply Z.div_pos; lia|apply Z.div_lt_upper_bound; lia]).
  pose proof (Z.div_mod z 256). lia.
Qed.

(** ** Arrays *)

Section Arrays.
Import Buffer.
Implicit Types (bs d : bytes).

Lemma length_copy_to i bs d : (i + length bs <= length d)%nat -> length (copy_to i bs d) = length d.
Proof. intros H. unfold copy_to. rewrite !length_app, length_take, length_drop. lia. Qed.

Lemma take_copy bs d : take (length bs) (copy_to 0 bs d) = bs.
Proof. unfold copy_to. change (take 0 d) with (@nil Z). cbn [app]. by rewrite take_app_length. Qed.

Lemma element_copy_ne size i j bs d :
  (j < i)%nat -> (size * S i <= length d)%nat ->
  element (Z.of_nat size) (copy_to (size * i) bs d) j = element (Z.of_nat size) d j.
Proof.
  intros Hj Hd. unfold element, copy_to. rewrite Nat2Z.id.
  rewrite drop_app_le by (rewrite length_take; nia). rewrite take_app_le by (rewrite length_drop, length_take; nia).
  rewrite !take_drop_commute, take_take. by rewrite Nat.min_l by nia.
Qed.

Lemma element_copy_eq size i bs d :
  length bs = size -> (size * S i <= length d)%nat ->
  element (Z.of_nat size) (copy_to (size * i) bs d) i = bs.
Proof.
  intros Hb Hd. unfold element, copy_to. rewrite Nat2Z.id.
  rewrite drop_app_length' by (rewrite length_take; nia). by rewrite take_app_length' by lia.
Qed.

Context {T : Type} `{TriviallyCopyableLaws T wf}.

(** The elements copied so far are in place. *)
Lemma copy_elements_spec i (vt : list T) d :
  Forall wf vt -> sizeof T * Z.of_nat (i + length vt) <= Z.of_nat (length d) ->
  length (copy_elements i vt d) = length d /\
  (forall j, (j < i)%nat -> element (sizeof T) (copy_elements i vt d) j = element (sizeof T) d j) /\
  (forall j t, vt !! j = Some t -> element (sizeof T) (copy_elements i vt d) (i + j) = repr t).
Proof.
  pose proof sizeof_pos as Hs. intros Hf. revert i d.
  assert (Es : sizeof T = Z.of_nat (Z.to_nat (sizeof T))) by lia. set (n := Z.to_nat (sizeof T)) in *.
  induction Hf as [|t vt Ht _ IH]; intros i d Hd; cbn [copy_elements length] in *; [done|].
  assert (Hl : length (repr t) = n) by (pose proof (length_repr t Ht); lia).
  assert (Hi : (n * S i <= length d)%nat) by (rewrite Es in Hd; nia).
  fold n. set (d' := copy_to _ (repr t) d). assert (Hd' : length d' = length d) by (apply length_copy_to; lia).
  destruct (IH (S i) d') as (H1 & H2 & H3); [rewrite Hd'; lia|]. split_and!.
  - lia.
  - intros j Hj. rewrite H2 by lia. rewrite Es. by apply element_copy_ne.
  - intros [|j] t' Hj; cbn in Hj.
    + injection Hj as <-. rewrite Nat.add_0_r, H2 by lia. rewrite Es. by apply element_copy_eq.
    + replace (i + S j)%nat with (S i + j)%nat by lia. by apply H3.
Qed.
End Arrays.

(** ** The buffer *)

Module BufferProps.
Import Buffer.
Section Buffer.
Context (BufferBytes : Z) (Hbytes : 0 < BufferBytes < 2 ^ 63).
Implicit Types (b : AgentRpcBuffer).

Definition buffer_ok b : Prop :=
  Z.of_nat (length (data b)) = BufferBytes /\ 0 <= string_length b < 2 ^ 64.

(** No read of the buffer returns data. *)
Definition unreadable b : Prop :=
  (forall size, Deserialize_size BufferBytes size b = InvalidArgument) /\
  DeserializeString BufferBytes b = InvalidArgument /\
  (forall T (HT : TriviallyCopyable T), Deserialize (T:=T) BufferBytes b = InvalidArgument) /\
  forall T (HT : TriviallyCopyable T) num, DeserializeVector (T:=T) BufferBytes num b = InvalidArgument.

Lemma not_serialized_unreadable b : is_serialized b = false -> unreadable b.
Proof.
  intros Hb. unfold unreadable, Deserialize, Deserialize_size, DeserializeString, DeserializeVector. rewrite Hb.
  split_and!; intros; cbn [negb]; repeat case_match; done.
Qed.

Lemma new_buffer_ok : buffer_ok (new_buffer BufferBytes) /\ unreadable (new_buffer BufferBytes).
Proof.
  split; [|by apply not_serialized_unreadable]. unfold buffer_ok, new_buffer. cbn [data string_length].
  rewrite length_replicate. lia.
Qed.

Lemma u64_last : u64 (BufferBytes - 1) = BufferBytes - 1.
Proof. apply u64_id. lia. Qed.

(** *** Strings *)

Lemma string_roundtrip s b : buffer_ok b -> Z.of_nat (length s) < BufferBytes ->
  exists b', SerializeString BufferBytes s b = (b', Ok) /\ buffer_ok b' /\
    data b' !! length s = Some 0 /\ DeserializeString BufferBytes b' = Value s.
Proof.
  intros [Hd _] Hs. unfold SerializeString. rewrite u64_last. cbn [data mark].
  destruct (Z.ltb_spec (BufferBytes - 1) (Z.of_nat (length s))); [lia|]. eexists. split; [done|].
  assert (Hl : length (copy_to 0 s (data b)) = length (data b)) by (apply length_copy_to; lia).
  unfold buffer_ok, DeserializeString. cbn [data string_length is_serialized]. split_and!.
  - by rewrite length_insert, Hl.
  - lia.
  - lia.
  - rewrite list_lookup_insert_eq; [done|lia].
  - rewrite u64_last. destruct (Z.ltb_spec (BufferBytes - 1) (Z.of_nat (length s))); [lia|].
    rewrite Nat2Z.id, take_insert_ge by lia. by rewrite take_copy.
Qed.

Lemma string_too_long s b : BufferBytes <= Z.of_nat (length s) ->
  exists b', SerializeString BufferBytes s b = (b', InvalidArgumentError) /\ unreadable b'.
Proof.
  intros Hs. unfold SerializeString. rewrite u64_last.
  destruct (Z.ltb_spec (BufferBytes - 1) (Z.of_nat (length s))); [|lia].
  eexists. split; [done|]. by apply not_serialized_unreadable.
Qed.

Section Typed.
Context {T : Type} `{TriviallyCopyableLaws T wf}.

(** *** Objects *)

Lemma object_roundtrip (t : T) b : buffer_ok b -> wf t -> sizeof T <= BufferBytes ->
  exists b', Serialize BufferBytes t b = (b', Ok) /\ buffer_ok b' /\ Deserialize BufferBytes b' = Value t.
Proof.
  intros [Hd Hsl] Ht Hs. pose proof (length_repr t Ht) as Hl. unfold Serialize, Serialize_size. cbn [data mark].
  destruct (Z.ltb_spec BufferBytes (sizeof T)); [lia|]. eexists. split; [done|].
  assert (En : Z.to_nat (sizeof T) = length (repr t)) by lia. rewrite En, firstn_all.
  unfold buffer_ok, Deserialize, Deserialize_size. cbn [mark set_data data string_length is_serialized negb].
  rewrite length_copy_to by lia. destruct (Z.ltb_spec BufferBytes (sizeof T)); [lia|].
  rewrite En, take_copy, value_repr by done. done.
Qed.

(** *** Vectors *)

Lemma vector_roundtrip (vt : list T) b :
  buffer_ok b -> Forall wf vt -> sizeof T * Z.of_nat (length vt) <= BufferBytes ->
  exists b', SerializeVector BufferBytes vt b = (b', Ok) /\ buffer_ok b' /\
    DeserializeVector BufferBytes (Z.of_nat (length vt)) b' = Value vt.
Proof.
  intros [Hd Hsl] Hf Hs. pose proof sizeof_pos as Hp. unfold SerializeVector. cbn [mark data].
  rewrite u64_id by lia. destruct (Z.ltb_spec BufferBytes (sizeof T * Z.of_nat (length vt))); [lia|].
  eexists. split; [done|].
  destruct (copy_elements_spec 0 vt (data b) Hf) as (Hlen & _ & Hel); [cbn; lia|].
  unfold buffer_ok, DeserializeVector. cbn [mark set_data data string_length is_serialized negb].
  rewrite Hlen. split; [done|]. rewrite u64_id by lia.
  destruct (Z.ltb_spec BufferBytes (sizeof T * Z.of_nat (length vt))); [lia|].
  destruct (Z.leb_spec (2 ^ 63) (sizeof T * Z.of_nat (length vt))); [lia|].
  rewrite Nat2Z.id. f_equal. apply list_eq. intros j. rewrite list_lookup_fmap.
  destruct (vt !! j) as [t|] eqn:Ej.
  - rewrite lookup_seq_lt by (by apply lookup_lt_Some in Ej). cbn. f_equal.
    pose proof (Hel j t Ej) as He. cbn in He. rewrite He. apply value_repr. by eapply Forall_lookup_1.
  - rewrite lookup_seq_ge; [done|]. by apply lookup_ge_None.
Qed.

Lemma vector_too_long (vt : list T) b :
  BufferBytes < sizeof T * Z.of_nat (length vt) < 2 ^ 63 ->
  exists b', SerializeVector BufferBytes vt b = (b', InvalidArgumentError) /\ unreadable b'.
Proof.
  intros Hs. unfold SerializeVector. rewrite u64_id by lia.
  destruct (Z.ltb_spec BufferBytes (sizeof T * Z.of_nat (length vt))); [|lia].
  eexists. split; [done|]. by apply not_serialized_unreadable.
Qed.
End Typed.
End Buffer.

(** *** The round trips together *)

(** C33: What [AgentRpcBuffer] was given comes out of it, from any earlier content of
    the buffer: a trivially copyable object that fits is read back by [Deserialize],
    the elements of a vector by [DeserializeVector] of as many elements, and a
    string, null bytes included, by [DeserializeString], with a null byte after it.
    A vector or string that does not fit is refused, and after that (as before any
    serialization) every read of the buffer is an error, never stale data. *)
Theorem buffer_roundtrip BufferBytes b :
  0 < BufferBytes < 2 ^ 63 -> buffer_ok BufferBytes b ->
  (forall T (HT : TriviallyCopyable T) wf (HL : TriviallyCopyableLaws T wf),
    (forall t : T, wf t -> sizeof T <= BufferBytes ->
      exists b', Serialize BufferBytes t b = (b', Ok) /\ buffer_ok BufferBytes b' /\
        Deserialize BufferBytes b' = Value t) /\
    (forall vt : list T, Forall wf vt -> sizeof T * Z.of_nat (length vt) < 2 ^ 63 ->
      exists b' st, SerializeVector BufferBytes vt b = (b', st) /\
        if decide (sizeof T * Z.of_nat (length vt) <= BufferBytes)
        then st = Ok /\ buffer_ok BufferBytes b' /\
          DeserializeVector BufferBytes (Z.of_nat (length vt)) b' = Value vt
        else st = InvalidArgumentError /\ unreadable BufferBytes b')) /\
  (forall s, exists b' st, SerializeString BufferBytes s b = (b', st) /\
    if decide (Z.of_nat (length s) < BufferBytes)
    then st = Ok /\ buffer_ok BufferBytes b' /\ data b' !! length s = Some 0 /\
      DeserializeString BufferBytes b' = Value s
    else st = InvalidArgumentError /\ unreadable BufferBytes b') /\
  unreadable BufferBytes (new_buffer BufferBytes).
Proof.
  intros HB Hb. split_and!.
  - intros T HT wf HL. split; [intros t Ht Hs; by eapply object_roundtrip|].
    intros vt Hf Hs. case_decide as E.
    + destruct (vector_roundtrip _ HB vt b Hb Hf E) as (b' & H). exists b', Ok. naive_solver.
    + destruct (vector_too_long BufferBytes HB vt b) as (b' & H); [lia|]. exists b', InvalidArgumentError. naive_solver.
  - intros s. case_decide as E.
    + destruct (string_roundtrip _ HB s b Hb E) as (b' & H). exists b', Ok. naive_solver.
    + destruct (string_too_long _ HB s b) as (b' & H); [lia|]. exists b', InvalidArgumentError. naive_solver.
  - by apply new_buffer_ok.
Qed.
End BufferProps.

(** ** Statuses *)

Module TrivialProps.
Import Buffer Trivial BufferProps.

Lemma CopyString_eq dest s : (0 < length dest)%nat ->
  let k := Nat.min (length dest - 1) (length s) in CopyString dest s = take k s ++ 0 :: drop (S k) dest.
Proof.
  intros Hd k. assert (Hk : length (take k s) = k) by (rewrite length_take; lia).
  unfold CopyString, copy_to. fold k. change (take 0 dest) with (@nil Z). cbn [app]. rewrite Hk.
  rewrite insert_app_r_alt by lia. rewrite Hk, Nat.sub_diag. f_equal.
  destruct (drop (0 + k) dest) as [|x l] eqn:E.
  - apply (f_equal length) in E. rewrite length_drop in E. cbn in E. lia.
  - cbn. f_equal. replace (S k) with (k + 1)%nat by lia. rewrite <- drop_drop. cbn in E. by rewrite E.
Qed.

Lemma length_CopyString dest s : length (CopyString dest s) = length dest.
Proof.
  unfold CopyString. rewrite length_insert. apply length_copy_to. rewrite length_take. lia.
Qed.

Lemma c_str_app x y : c_str (x ++ 0 :: y) = c_str x.
Proof. induction x as [|c x IH]; cbn; [done|]. by rewrite IH. Qed.

Lemma c_str_id x : Forall (fun c => c <> 0) x -> c_str x = x.
Proof. induction 1 as [|c x Hc _ IH]; cbn; [done|]. destruct (Z.eqb_spec c 0); [done|]. by rewrite IH. Qed.

Lemma take_min_length {A} n (l : list A) : take (Nat.min n (length l)) l = take n l.
Proof. destruct (Nat.min_spec n (length l)) as [[_ ->]|[? ->]]; [done|]. rewrite firstn_all, take_ge; done. Qed.

(** Copying into an array keeps a prefix, with a null byte after it. *)
Lemma CopyString_prefix dest s : (0 < length dest)%nat ->
  c_str (CopyString dest s) = c_str (take (length dest - 1) s) /\
  take (length s) (CopyString dest s) = take (length s) (take (length dest - 1) s ++ 0 :: drop (length dest) dest) /\
  ((length s < length dest)%nat -> take (length s) (CopyString dest s) = s).
Proof.
  intros Hd. rewrite (CopyString_eq dest s Hd), take_min_length. split_and!.
  - apply c_str_app.
  - destruct (decide (length s <= length dest - 1)%nat) as [E|E].
    + rewrite !take_app_le by (rewrite length_take; lia). done.
    + rewrite Nat.min_l by lia. by replace (S (length dest - 1)) with (length dest) by lia.
  - intros E. rewrite take_app_le by (rewrite length_take; lia). rewrite take_take. apply take_ge. lia.
Qed.

(** *** The objects sent *)

Definition status_wf (s : Status) : Prop := 0 <= code s < 2 ^ 31 /\ (code s = 0 -> message s = []).

Definition trivial_wf (t : TrivialStatus) : Prop :=
  0 <= code_ t < 2 ^ 32 /\ Z.of_nat (length (error_message_ t)) = kMaxErrorMessageSize.

Definition or_string_wf (t : TrivialStatusOrString) : Prop :=
  trivial_wf (status_ t) /\ Z.of_nat (length (str_ t)) = kMaxStringSize /\ 0 <= string_length_ t < 2 ^ 64.

#[export] Instance trivial_status_laws : TriviallyCopyableLaws TrivialStatus trivial_wf.
Proof.
  split; [done|intros t (Hc & Hm); unfold kMaxErrorMessageSize in Hm..]; cbn [repr value trivial_status_copyable sizeof].
  - rewrite length_app, length_le. lia.
  - rewrite (take_app_length' _ _ 4), (drop_app_length' _ _ 4) by (by rewrite length_le).
    rewrite of_le_le by (change (256 ^ Z.of_nat 4) with (2 ^ 32); lia). by destruct t.
Qed.

#[export] Instance or_string_laws : TriviallyCopyableLaws TrivialStatusOrString or_string_wf.
Proof.
  split; [done|intros t (Ht & Hm & Hl); unfold kMaxStringSize in Hm;
    pose proof (length_repr (status_ t) Ht) as Hr; cbn [sizeof trivial_status_copyable] in Hr..];
    cbn [repr value trivial_or_string_copyable sizeof].
  - rewrite !length_app, length_le, length_replicate. lia.
  - rewrite (take_app_length' _ _ 1004), (drop_app_length' _ _ 1004) by lia.
    rewrite (take_app_length' _ _ (Z.to_nat kMaxStringSize)) by (unfold kMaxStringSize; lia).
    replace (drop (Z.to_nat 31008) _) with (le 8 (string_length_ t)).
    + rewrite of_le_le by (change (256 ^ Z.of_nat 8) with (2 ^ 64); lia). rewrite value_repr by done. by destruct t.
    + rewrite !app_assoc. rewrite drop_app_length'; [done|]. rewrite !length_app, length_replicate. lia.
Qed.

Lemma TrivialStatus_of_wf mem s :
  Z.of_nat (length mem) = kMaxErrorMessageSize -> status_wf s -> trivial_wf (TrivialStatus_of mem s).
Proof. intros Hm [Hc _]. split; cbn; [lia|]. by rewrite length_CopyString. Qed.

(** The status that arrives. *)
Definition received (s : Status) : Status := absl_Status (code s) (c_str (take 999 (message s))).

Lemma ToStatus_of mem s :
  Z.of_nat (length mem) = kMaxErrorMessageSize -> ToStatus (TrivialStatus_of mem s) = received s.
Proof.
  unfold kMaxErrorMessageSize. intros Hm. unfold ToStatus, received. cbn [TrivialStatus_of code_ error_message_].
  destruct (CopyString_prefix mem (message s)) as [-> _]; [lia|].
  by replace (length mem - 1)%nat with 999%nat by lia.
Qed.

Lemma received_id s : status_wf s -> (length (message s) <= 999)%nat -> Forall (fun c => c <> 0) (message s) -> received s = s.
Proof.
  intros [_ H0] Hl Hz. unfold received, absl_Status. rewrite take_ge, c_str_id by done.
  destruct s as [c m]. cbn in *. destruct (Z.eqb_spec c 0) as [->|]; [|done]. by rewrite H0.
Qed.

Lemma received_ok s : status_ok (received s) = status_ok s.
Proof. unfold received, absl_Status, status_ok. destruct (code s =? 0) eqn:E; [done|exact E]. Qed.

(** A string that arrives. *)
Definition received_string (v : bytes) : option (StatusOr bytes) :=
  match Z.of_nat (length v) ?= kMaxStringSize with
  | Lt => Some (OkValue v)
  | Eq => Some (OkValue (take (length v - 1) v ++ [0]))
  | Gt => None
  end.

Lemma ToStatusOr_string_of mem mem_str s :
  Z.of_nat (length mem) = kMaxErrorMessageSize -> Z.of_nat (length mem_str) = kMaxStringSize ->
  ToStatusOr_string (TrivialStatusOrString_of mem mem_str s) =
    match s with
    | OkValue v => received_string v
    | Error e => if status_ok e then Some (OkValue []) else Some (Error (received e))
    end.
Proof.
  intros Hm Hs. unfold ToStatusOr_string. cbn [TrivialStatusOrString_of status_].
  rewrite ToStatus_of, received_ok by done. destruct s as [v|e]; cbn [status_of str_ string_length_].
  - change (status_ok OkStatus) with true. cbn match. cbn [TrivialStatusOrString_of str_ string_length_]. rewrite length_CopyString, Nat2Z.id, Hs. unfold received_string.
    destruct (CopyString_prefix mem_str v) as (_ & H1 & H2); [unfold kMaxStringSize in *; lia|].
    destruct (Z.compare_spec (Z.of_nat (length v)) kMaxStringSize) as [E|E|E]; destruct (Z.ltb_spec kMaxStringSize (Z.of_nat (length v))); try lia; cbn.
    + rewrite H1. replace (length mem_str) with (length v) by lia.
      rewrite take_app_ge, length_take, Nat.min_l by (rewrite ?length_take; lia).
      replace (length v - (length v - 1))%nat with 1%nat by (unfold kMaxStringSize in *; lia). done.
    + rewrite H2; [done|lia].
    + done.
  - destruct (status_ok e); [|done]. cbn [TrivialStatusOrString_of str_ string_length_]. by rewrite Hs.
Qed.

(** C34: What statuses become on the way through the buffer, for a buffer the objects
    fit in and whatever the memory of the arrays held before.  [SerializeStatus] then
    [DeserializeStatus] keeps the code and the message up to its first null byte or
    999 bytes; so a status with a short message without null bytes arrives unchanged.
    [SerializeStatusOrString] then [DeserializeStatusOrString] delivers the error the
    same way, and a string of fewer than 30000 bytes unchanged; but the length sent is
    that of the whole string although only 29999 bytes are copied: a string of 30000
    bytes loses its last byte, and a longer one is read past the end of the array. *)
Theorem status_roundtrip BufferBytes b mem mem_str :
  31016 <= BufferBytes < 2 ^ 63 -> buffer_ok BufferBytes b ->
  Z.of_nat (length mem) = kMaxErrorMessageSize -> Z.of_nat (length mem_str) = kMaxStringSize ->
  (forall s, status_wf s ->
    exists b' t, SerializeStatus BufferBytes mem s b = (b', Ok) /\
      DeserializeStatus BufferBytes b' = Value t /\ ToStatus t = received s /\ ok t = status_ok s /\
      ((length (message s) <= 999)%nat -> Forall (fun c => c <> 0) (message s) -> ToStatus t = s)) /\
  (forall e, status_wf e -> status_ok e = false ->
    exists b', SerializeStatusOrString BufferBytes mem mem_str (Error e) b = (b', Ok) /\
      DeserializeStatusOrString BufferBytes b' = Value (Some (Error (received e)))) /\
  (forall v, Z.of_nat (length v) < 2 ^ 64 ->
    exists b', SerializeStatusOrString BufferBytes mem mem_str (OkValue v) b = (b', Ok) /\
      DeserializeStatusOrString BufferBytes b' = Value (received_string v)).
Proof.
  intros HB Hb Hm Hs. split_and!.
  - intros s Hw. destruct (object_roundtrip BufferBytes ltac:(lia) (TrivialStatus_of mem s) b Hb) as (b' & H1 & _ & H2).
    + by apply TrivialStatus_of_wf.
    + cbn. lia.
    + exists b', (TrivialStatus_of mem s). rewrite ToStatus_of by done. split_and!; try done. intros. by apply received_id.
  - intros e Hw He.
    destruct (object_roundtrip BufferBytes ltac:(lia) (TrivialStatusOrString_of mem mem_str (Error e)) b Hb) as (b' & H1 & _ & H2).
    + split_and!; [by apply TrivialStatus_of_wf|done|cbn; lia..].
    + cbn. lia.
    + exists b'. split; [done|]. unfold DeserializeStatusOrString. rewrite H2, ToStatusOr_string_of by done. cbn. by rewrite He.
  - intros v Hv.
    destruct (object_roundtrip BufferBytes ltac:(lia) (TrivialStatusOrString_of mem mem_str (OkValue v)) b Hb) as (b' & H1 & _ & H2).
    + split_and!; [by apply TrivialStatus_of_wf|cbn; by rewrite length_CopyString|cbn; lia..].
    + cbn. lia.
    + exists b'. split; [done|]. unfold DeserializeStatusOrString. by rewrite H2, ToStatusOr_string_of.
Qed.
End TrivialProps.

(** ** Examples *)

Section Examples.
Import Buffer Trivial BufferProps TrivialProps.

(** A buffer of 16 bytes. *)
Lemma buffer_roundtrip_witness :
  (exists b', SerializeString 16 [104; 0; 105] (new_buffer 16) = (b', Ok) /\ DeserializeString 16 b' = Value [104; 0; 105]) /\
  exists b', SerializeString 16 (replicate 16 7) (new_buffer 16) = (b', InvalidArgumentError) /\ unreadable 16 b'.
Proof.
  destruct (buffer_roundtrip 16 (new_buffer 16)) as (_ & H & _); [done|by vm_compute|]. split.
  - destruct (H [104; 0; 105]) as (b' & st & H1 & H2). rewrite decide_True in H2 by done.
    destruct H2 as (-> & _ & _ & H2). by exists b'.
  - destruct (H (replicate 16 7)) as (b' & st & H1 & H2). rewrite decide_False in H2 by done.
    destruct H2 as (-> & H2). by exists b'.
Defined.

(** An error arrives; a string of 30001 bytes is read past the end of its array. *)
Lemma status_roundtrip_witness :
  let mem := replicate 1000 170 in let mem_str := replicate (Z.to_nat 30000) 170 in
  (exists b', SerializeStatusOrString 32768 mem mem_str (Error (mk_status 5 [110; 111])) (new_buffer 32768) = (b', Ok) /\
    DeserializeStatusOrString 32768 b' = Value (Some (Error (mk_status 5 [110; 111])))) /\
  exists b', SerializeStatusOrString 32768 mem mem_str (OkValue (replicate (Z.to_nat 30001) 120)) (new_buffer 32768) = (b', Ok) /\
    DeserializeStatusOrString 32768 b' = Value None.
Proof.
  intros mem mem_str. destruct (status_roundtrip 32768 (new_buffer 32768) mem mem_str) as (_ & He & Hv).
  - lia.
  - unfold buffer_ok, new_buffer. cbn [data string_length]. rewrite length_replicate. lia.
  - unfold mem. by rewrite length_replicate.
  - unfold mem_str. rewrite length_replicate. unfold kMaxStringSize. lia.
  - split; [apply He; [by split|done]|].
    destruct (Hv (replicate (Z.to_nat 30001) 120)) as (b' & H1 & H2); [rewrite length_replicate; lia|].
    exists b'. split; [exact H1|]. rewrite H2. unfold received_string. rewrite length_replicate, Z2Nat.id by lia. done.
Defined.
End Examples.
