(* ===== verification/RpcCalls.v ===== *)
(** * Calls into the agent process

    [Rpc], [RpcWithResponse] and [PerformRpc] of [AgentProcess] and the thread that
    serves them ([src/lib/agent.h]), as threads over the memory the two processes
    share.  A notification is a flag here: [Notify] fails its [CHECK] when it is set,
    and [WaitForNotification] returns once it is (the file on notifications has its
    futex). *)

From S2P Require Import Prelude AgentRpc.

Module Rpc.
Import Buffer.

(** ** State *)

Definition kBufferBytes : Z := 32768.
Definition ENODEV : Z := 19.

Record AgentRpcArgs := mk_args { arg0 : Z; arg1 : Z; args_buffer : AgentRpcBuffer }.
Record AgentRpcResponse := mk_response { response_code : Z; res_buffer : AgentRpcBuffer }.

Definition new_args : AgentRpcArgs := mk_args 0 0 (new_buffer kBufferBytes).
Definition new_response : AgentRpcResponse := mk_response (-1) (new_buffer kBufferBytes).

Record SharedBlob := mk_blob {
  rpc_req : Z; rpc_args : AgentRpcArgs; rpc_res : AgentRpcResponse; rpc_pending : bool; rpc_done : bool }.

Definition set_req (r : Z) (b : SharedBlob) : SharedBlob := mk_blob r (rpc_args b) (rpc_res b) (rpc_pending b) (rpc_done b).
Definition set_args (a : AgentRpcArgs) (b : SharedBlob) : SharedBlob := mk_blob (rpc_req b) a (rpc_res b) (rpc_pending b) (rpc_done b).
Definition set_res (r : AgentRpcResponse) (b : SharedBlob) : SharedBlob := mk_blob (rpc_req b) (rpc_args b) r (rpc_pending b) (rpc_done b).
Definition set_pending (v : bool) (b : SharedBlob) : SharedBlob := mk_blob (rpc_req b) (rpc_args b) (rpc_res b) v (rpc_done b).
Definition set_done (v : bool) (b : SharedBlob) : SharedBlob := mk_blob (rpc_req b) (rpc_args b) (rpc_res b) (rpc_pending b) v.

(** A call: [full] for [RpcWithResponse]. *)
Record call := mk_call { req : Z; args : AgentRpcArgs; full : bool }.

Inductive answer := Code (z : Z) | Response (r : AgentRpcResponse).

Definition answer_of (c : call) (r : AgentRpcResponse) : answer :=
  if full c then Response r else Code (response_code r).

(** The points of a caller. *)
Inductive cpc :=
  | CLock (c : call)                (* before the lock *)
  | CReq (c : call) | CArgs (c : call)
  | CNotify (c : call)              (* before [rpc_pending_.Notify] *)
  | CWait (c : call)                (* before [rpc_done_.WaitForNotification] returns *)
  | CReset (c : call)
  | CCopy (c : call)                (* before the answer is read *)
  | CUnlock (c : call) (a : answer)
  | CDone (c : call) (a : answer)
  | CFailed.

(** The points of the thread that serves the calls. *)
Inductive hpc := HWait | HReset | HOnline | HFresh | HCall | HOffline | HNotify | HFailed.

Section Rpc.
Context {Agent : Type}.
Context (RpcHandler : Z -> AgentRpcArgs -> AgentRpcResponse -> Agent -> AgentRpcResponse * Agent).

Record sys := mk_sys {
  sb : SharedBlob; mutex : option Z; callers : gmap Z cpc; handler : hpc; full_agent : Agent;
  returned : list (Z * call * answer) }.

(** ** Steps *)

(** Thread [t] moves to [p] and leaves [b] in the shared memory. *)
Definition move (t : Z) (p : cpc) (b : SharedBlob) (s : sys) : sys :=
  mk_sys b (mutex s) (<[t := p]> (callers s)) (handler s) (full_agent s) (returned s).
Definition set_mutex (m : option Z) (s : sys) : sys :=
  mk_sys (sb s) m (callers s) (handler s) (full_agent s) (returned s).
Definition log (e : Z * call * answer) (s : sys) : sys :=
  mk_sys (sb s) (mutex s) (callers s) (handler s) (full_agent s) (e :: returned s).

(** [Rpc] and [RpcWithResponse], with [PerformRpc] from [CReq] to [CReset]. *)
Definition caller_step (t : Z) (s : sys) : option sys :=
  let b := sb s in
  match callers s !! t with
  | Some (CLock c) =>
      match mutex s with None => Some (set_mutex (Some t) (move t (CReq c) b s)) | Some _ => None end
  | Some (CReq c) => Some (move t (CArgs c) (set_req (req c) b) s)
  | Some (CArgs c) => Some (move t (CNotify c) (set_args (args c) b) s)
  | Some (CNotify c) => Some (if rpc_pending b then move t CFailed b s else move t (CWait c) (set_pending true b) s)
  | Some (CWait c) => if rpc_done b then Some (move t (CReset c) b s) else None
  | Some (CReset c) => Some (move t (CCopy c) (set_done false b) s)
  | Some (CCopy c) =>
      let a := answer_of c (rpc_res b) in Some (log (t, c, a) (move t (CUnlock c a) b s))
  | Some (CUnlock c a) => Some (set_mutex None (move t (CDone c a) b s))
  | Some (CDone _ _) | Some CFailed | None => None
  end.

Definition hmove (p : hpc) (b : SharedBlob) (g : Agent) (s : sys) : sys :=
  mk_sys b (mutex s) (callers s) p g (returned s).

(** The loop of the [rpc_handler] thread; [online] is what [enclave_.IsOnline]
    answers. *)
Definition handler_step (online : bool) (s : sys) : option sys :=
  let b := sb s in let g := full_agent s in
  match handler s with
  | HWait => if rpc_pending b then Some (hmove HReset b g s) else None
  | HReset => Some (hmove HOnline (set_pending false b) g s)
  | HOnline => Some (hmove (if online then HFresh else HOffline) b g s)
  | HFresh => Some (hmove HCall (set_res new_response b) g s)
  | HCall =>
      let '(r, g') := RpcHandler (rpc_req b) (rpc_args b) (rpc_res b) g in Some (hmove HNotify (set_res r b) g' s)
  | HOffline => Some (hmove HNotify (set_res (mk_response (- ENODEV) (res_buffer (rpc_res b))) b) g s)
  | HNotify => Some (if rpc_done b then hmove HFailed b g s else hmove HWait (set_done true b) g s)
  | HFailed => None
  end.

Inductive action := Call (t : Z) (c : call) | Caller (t : Z) | Handler (online : bool).

Definition act (s : sys) (x : action) : option sys :=
  match x with
  | Call t c =>
      match callers s !! t with
      | None | Some (CDone _ _) => Some (move t (CLock c) (sb s) s)
      | _ => None
      end
  | Caller t => caller_step t s
  | Handler online => handler_step online s
  end.

(** Once the agent is ready: no call yet, nothing notified. *)
Definition init_sys (b : SharedBlob) (g : Agent) : sys :=
  mk_sys (mk_blob (rpc_req b) (rpc_args b) (rpc_res b) false false) None ∅ HWait g [].

Inductive run : sys -> list action -> sys -> Prop :=
  | run_nil s : run s [] s
  | run_cons s x s1 xs s2 : act s x = Some s1 -> run s1 xs s2 -> run s (x :: xs) s2.

(** ** The contract: calls served one after the other *)

(** One call on the last response and the agent. *)
Definition serve (online : bool) (c : call) (st : AgentRpcResponse * Agent) : AgentRpcResponse * Agent :=
  if online then RpcHandler (req c) (args c) new_response (snd st)
  else (mk_response (- ENODEV) (res_buffer (fst st)), snd st).

(** The calls of [l], the latest first, served in turn from [st0]. *)
Inductive sequential (st0 : AgentRpcResponse * Agent) : list (Z * call * answer) -> AgentRpcResponse * Agent -> Prop :=
  | seq_nil : sequential st0 [] st0
  | seq_cons l st t c online :
      sequential st0 l st ->
      sequential st0 ((t, c, answer_of c (fst (serve online c st))) :: l) (serve online c st).
End Rpc.
End Rpc.
