(* ===== verification/RpcCallsProps.v ===== *)
(** * Calls into the agent process are served in turn

    Safety and progress of [Rpc] and [RpcWithResponse] for any interleaving of the
    callers with the thread that serves them. *)

From S2P Require Import Prelude AgentRpc RpcCalls.

Module RpcProps.
Import Rpc.

Section Calls.
Context {Agent : Type}.
Context (RpcHandler : Z -> AgentRpcArgs -> AgentRpcResponse -> Agent -> AgentRpcResponse * Agent).
Context (b0 : SharedBlob) (g0 : Agent).
Notation sys := (@sys Agent).
Notation serve := (serve RpcHandler).
Notation act := (act RpcHandler).
Notation sequential := (sequential RpcHandler (rpc_res b0, g0)).
Implicit Types (s : sys) (st : AgentRpcResponse * Agent) (p : cpc) (t : Z).

(** ** The invariant *)

(** A point inside the lock. *)
Definition inside p : bool :=
  match p with
  | CReq _ | CArgs _ | CNotify _ | CWait _ | CReset _ | CCopy _ | CUnlock _ _ => true
  | CLock _ | CDone _ _ | CFailed => false
  end.

Definition notifs s : bool * bool := (rpc_pending (sb s), rpc_done (sb s)).
Lemma notifs_eq s x y : notifs s = (x, y) -> rpc_pending (sb s) = x /\ rpc_done (sb s) = y.
Proof. by injection 1. Qed.

Definition idle s : Prop := handler s = HWait /\ notifs s = (false, false).
Definition current s : AgentRpcResponse * Agent := (rpc_res (sb s), full_agent s).
Definition posted s (c : call) : Prop := rpc_req (sb s) = req c /\ rpc_args (sb s) = args c.
Definition served s (c : call) st : Prop := exists online, current s = serve online c st.

(** How far the handler is with the call of a waiting caller. *)
Definition handling s (c : call) st : Prop :=
  match handler s with
  | HWait => notifs s = (true, false) /\ current s = st \/ notifs s = (false, true) /\ served s c st
  | HReset => notifs s = (true, false) /\ current s = st
  | HOnline | HFresh | HOffline => notifs s = (false, false) /\ current s = st
  | HCall => notifs s = (false, false) /\ current s = (new_response, snd st)
  | HNotify => notifs s = (false, false) /\ served s c st
  | HFailed => False
  end.

(** What holds while the lock is held at [p]; [st] is the state after the calls that
    have returned. *)
Definition holder_ok s st p : Prop :=
  match p with
  | CReq c => idle s /\ current s = st
  | CArgs c => idle s /\ current s = st /\ rpc_req (sb s) = req c
  | CNotify c => idle s /\ current s = st /\ posted s c
  | CWait c => posted s c /\ handling s c st
  | CReset c => handler s = HWait /\ notifs s = (false, true) /\ served s c st
  | CCopy c => idle s /\ served s c st
  | CUnlock c a => idle s /\ current s = st
  | CLock _ | CDone _ _ | CFailed => False
  end.

Definition caller_ok s t p : Prop :=
  (inside p = true -> mutex s = Some t) /\
  match p with
  | CFailed => False
  | CUnlock c a | CDone c a => (t, c, a) ∈ returned s
  | _ => True
  end.

Record inv_at s st : Prop := {
  at_sequential : sequential (returned s) st;
  at_callers : forall t p, callers s !! t = Some p -> caller_ok s t p;
  at_mutex : match mutex s with
             | None => idle s /\ current s = st
             | Some t => exists p, callers s !! t = Some p /\ holder_ok s st p
             end }.

Definition inv s : Prop := exists st, inv_at s st.

Lemma init_inv : inv (init_sys b0 g0).
Proof. exists (rpc_res b0, g0). split; cbn; [constructor|intros t p; by rewrite lookup_empty|done]. Qed.

(** ** Every step keeps it *)

(** A caller moves while the lock is in its hands before and after. *)
Lemma calls_inv_move l s st st' s' t p' :
  inv_at s st -> mutex s = Some t -> mutex s' = Some t -> callers s' = <[t := p']> (callers s) ->
  returned s' = l ++ returned s -> sequential (returned s') st' ->
  caller_ok s' t p' -> holder_ok s' st' p' -> inv s'.
Proof.
  intros [_ H2 _] Hm Hm' Hc Hl Hs Hk Hh. exists st'. split; [done|..].
  - intros t1 p1. rewrite Hc, lookup_insert_Some. intros [[<- <-]|[Hne Ht1]]; [done|].
    destruct (H2 _ _ Ht1) as [H3 H4]. split.
    + intros Hi. specialize (H3 Hi). congruence.
    + rewrite Hl. destruct p1; try done; set_solver.
  - rewrite Hm'. exists p'. rewrite Hc. by rewrite lookup_insert_eq.
Qed.

(** A caller outside the lock moves to another point outside. *)
Lemma calls_inv_outside s t p' :
  inv s -> (forall p, callers s !! t = Some p -> inside p = false) -> caller_ok s t p' -> inside p' = false ->
  inv (move t p' (sb s) s).
Proof.
  intros [st [H1 H2 H3]] Ho Hk Hi. exists st. split; cbn; [done|..].
  - intros t1 p1. rewrite lookup_insert_Some. intros [[<- <-]|[Hne Ht1]]; [done|by apply H2].
  - destruct (mutex s) as [t1|] eqn:E; [|done]. destruct H3 as (p & Hp & Hh). exists p.
    rewrite lookup_insert_ne; [done|]. intros <-. specialize (Ho p Hp). by destruct p.
Qed.

Lemma inv_caller s s' t : inv s -> caller_step t s = Some s' -> inv s'.
Proof.
  intros [st Hi] Hs. pose proof Hi as [H1 H2 H3]. unfold caller_step in Hs.
  destruct (callers s !! t) as [p|] eqn:Ep; [|done]. destruct (H2 t p Ep) as [Hm Hok].
  destruct p; try done; cbn [inside] in Hm.
  1: { (* the lock is taken *)
    destruct (mutex s) eqn:E; [done|]. injection Hs as <-. exists st. split; cbn; [done|..].
    - intros t1 p1. rewrite lookup_insert_Some. intros [[<- <-]|[Hne Ht1]]; [done|].
      destruct (H2 _ _ Ht1) as [H4 H5]. split; [|done]. intros Hi1. specialize (H4 Hi1). congruence.
    - exists (CReq c). by rewrite lookup_insert_eq. }
  all: specialize (Hm eq_refl); rewrite Hm in H3; destruct H3 as (p' & Hp' & Hh); rewrite Ep in Hp'; injection Hp' as <-.
  7: { (* the lock is released *)
    injection Hs as <-. exists st. split; cbn; [done|..].
    - intros t1 p1. rewrite lookup_insert_Some. intros [[<- <-]|[Hne Ht1]]; [done|].
      destruct (H2 _ _ Ht1) as [H4 H5]. split; [|done]. intros Hi1. specialize (H4 Hi1). congruence.
    - done. }
  6: { (* the answer is read *)
    destruct Hh as (Hidle & online & Hc). injection Hs as <-.
    assert (Er : rpc_res (sb s) = fst (serve online c st)) by (by rewrite <- Hc).
    eapply (calls_inv_move [(t, c, answer_of c (rpc_res (sb s)))] s st (serve online c st)); [done..|cbn|cbn|cbn].
    - rewrite Er. by constructor.
    - split; [done|]. left.
    - done. }
  all: cbn in Hh; unfold idle, posted in Hh; destruct_and? Hh.
  - injection Hs as <-. by eapply (calls_inv_move [] s st st).
  - injection Hs as <-. by eapply (calls_inv_move [] s st st).
  - destruct (notifs_eq s false false) as [Ep' Ed]; [done|]. rewrite Ep' in Hs.
    injection Hs as <-. eapply (calls_inv_move [] s st st); try done.
    split; [done|]. unfold handling, notifs. cbn. rewrite Ed. destruct (handler s) eqn:E; try done. by left.
  - destruct (rpc_done (sb s)) eqn:Ed; [|done]. injection Hs as <-.
    eapply (calls_inv_move [] s st st); try done.
    assert (Hw : handler s = HWait /\ notifs s = (false, true) /\ served s c st); [|done].
    unfold handling, notifs in *. destruct (handler s) eqn:E; destruct_or?; destruct_and?; try congruence; done.
  - injection Hs as <-. eapply (calls_inv_move [] s st st); try done.
    destruct (notifs_eq s false true) as [Ep' _]; [done|]. split; [|done]. split; [done|]. unfold notifs. cbn. by rewrite Ep'.
Qed.

(** What the handler does for a waiting caller. *)
Lemma handler_waiting s s' online c st :
  posted s c -> handling s c st -> handler_step RpcHandler online s = Some s' ->
  (mutex s', callers s', returned s') = (mutex s, callers s, returned s) /\ posted s' c /\ handling s' c st.
Proof.
  intros Hp Hh Hs. unfold handling in Hh. unfold handler_step in Hs. destruct (handler s) eqn:E; try done.
  - destruct (rpc_pending (sb s)) eqn:Ep; [|done]. injection Hs as <-. split_and!; try done.
    destruct Hh as [?|[Hn _]]; [done|]. apply notifs_eq in Hn as [Hn _]. by rewrite Ep in Hn.
  - injection Hs as <-. destruct Hh as [Hn Hc]. apply notifs_eq in Hn as [_ Hn]. split_and!; try done.
    unfold handling, notifs. cbn. by rewrite Hn.
  - injection Hs as <-. by destruct online.
  - injection Hs as <-. destruct Hh as [Hn Hc]. split_and!; try done. split; [done|]. unfold current in *. cbn. by rewrite <- Hc.
  - destruct Hh as [Hn Hc], Hp as [Hr Ha]. unfold current in Hc. injection Hc as Hres Hg.
    rewrite Hr, Ha, Hres, Hg in Hs. destruct (RpcHandler _ _ _ _) as [r g] eqn:Er. injection Hs as <-.
    split_and!; try done. split; [done|]. exists true. unfold Rpc.serve. by rewrite Er.
  - injection Hs as <-. destruct Hh as [Hn <-]. split_and!; try done. split; [done|]. by exists false.
  - destruct Hh as [Hn Hc]. apply notifs_eq in Hn as [Ep Ed]. rewrite Ed in Hs. injection Hs as <-.
    split_and!; try done. right. unfold notifs. cbn. by rewrite Ep.
Qed.

(** The handler sleeps unless a caller waits. *)
Lemma handler_asleep s online :
  handler s = HWait -> rpc_pending (sb s) = false -> handler_step RpcHandler online s = None.
Proof. intros E Ep. unfold handler_step. by rewrite E, Ep. Qed.

Lemma idle_asleep s online : idle s -> handler_step RpcHandler online s = None.
Proof. intros [E [Ep _]%notifs_eq]. by apply handler_asleep. Qed.

Lemma holder_asleep s st p online : holder_ok s st p ->
  match p with CWait c => posted s c /\ handling s c st | _ => handler_step RpcHandler online s = None end.
Proof.
  destruct p; cbn; try done; intros H; try (by destruct H as [? _]; apply idle_asleep).
  destruct H as (? & ? & _). destruct (notifs_eq s false true) as [Ep _]; [done|]. by apply handler_asleep.
Qed.

Lemma inv_handler s s' online : inv s -> handler_step RpcHandler online s = Some s' -> inv s'.
Proof.
  intros [st [H1 H2 H3]] Hs. destruct (mutex s) as [t|] eqn:Em; cycle 1.
  { destruct H3 as [Hidle _]. by rewrite idle_asleep in Hs. }
  destruct H3 as (p & Hp & Hh). pose proof (holder_asleep s st p online Hh) as Hw.
  destruct p; try (by rewrite Hw in Hs). destruct Hw as [Hw1 Hw2].
  destruct (handler_waiting _ _ _ _ _ Hw1 Hw2 Hs) as (Eq & Hp' & Hh'). injection Eq as E1 E2 E3. exists st. split.
  - by rewrite E3.
  - intros t1 p1. rewrite E2. intros Ht1. unfold caller_ok. rewrite E1, E3. by apply H2.
  - rewrite E1, Em, E2. by exists (CWait c).
Qed.

Lemma calls_inv_act s x s' : inv s -> act s x = Some s' -> inv s'.
Proof.
  intros Hi. destruct x as [t c|t|online]; cbn.
  - destruct (callers s !! t) as [[]|] eqn:E; try done; intros [= <-]; apply calls_inv_outside; try done;
      intros p; rewrite E; [by intros [= <-]|done].
  - by apply inv_caller.
  - by apply inv_handler.
Qed.

Lemma inv_run s xs s' : inv s -> run RpcHandler s xs s' -> inv s'.
Proof. intros Hi Hr. induction Hr as [|s x s1 xs s2 Hx _ IH]; [done|]. apply IH. by eapply calls_inv_act. Qed.

(** ** Progress *)

(** Steps left until the lock is released. *)
Definition rank_at (h : hpc) (pending : bool) p : nat :=
  match p with
  | CReq _ => 13 | CArgs _ => 12 | CNotify _ => 11
  | CWait _ =>
      match h with
      | HWait => if pending then 10 else 3
      | HReset => 9 | HOnline => 8 | HFresh => 7 | HCall | HOffline => 6 | HNotify => 5 | HFailed => 0
      end
  | CReset _ => 2 | CCopy _ => 1 | _ => 0
  end.

Definition rank s : nat :=
  match mutex s with
  | Some t => match callers s !! t with Some p => S (rank_at (handler s) (rpc_pending (sb s)) p) | None => 0 end
  | None => 0
  end.

(** The holder of the lock or the handler can step. *)
Lemma held_enabled s t : inv s -> mutex s = Some t ->
  act s (Caller t) <> None \/ forall online, act s (Handler online) <> None.
Proof.
  intros [st [_ _ H3]] Hm. rewrite Hm in H3. destruct H3 as (p & Hp & Hh). cbn. unfold caller_step. rewrite Hp.
  destruct p; try (by left). destruct Hh as [_ Hh]. unfold handling in Hh. unfold handler_step.
  destruct (handler s); try (by right); [|by right; intros; case_match].
  destruct Hh as [[[Ep Ed]%notifs_eq _]|[[Ep Ed]%notifs_eq _]].
  - right. by rewrite Ep.
  - left. by rewrite Ed.
Qed.

Lemma caller_rank s s' t : inv s -> mutex s = Some t -> caller_step t s = Some s' -> (rank s' < rank s)%nat.
Proof.
  intros [st [_ _ H3]] Hm Hs. rewrite Hm in H3. destruct H3 as (p & Hp & Hh).
  unfold rank. rewrite Hm, Hp. unfold caller_step in Hs. rewrite Hp, Hm in Hs. clear Hp.
  destruct p; try done; cbn in Hh; try (injection Hs as <-; cbn; rewrite ?Hm, ?lookup_insert_eq; cbn; lia).
  - destruct Hh as ([Eh [Ep Ed]%notifs_eq] & _ & _). rewrite Ep in Hs. injection Hs as <-.
    cbn. rewrite Hm, lookup_insert_eq. cbn. rewrite Eh. lia.
  - destruct Hh as [_ Hh]. destruct (rpc_done (sb s)) eqn:Ed; [|done]. injection Hs as <-.
    cbn. rewrite Hm, lookup_insert_eq. cbn. unfold handling in Hh. destruct (handler s); try done; repeat case_match; lia.
Qed.

Lemma handler_rank s s' online : inv s -> handler_step RpcHandler online s = Some s' -> (rank s' < rank s)%nat.
Proof.
  intros [st [_ _ H3]] Hs. destruct (mutex s) as [t|] eqn:Em; cycle 1.
  { destruct H3 as [Hidle _]. by rewrite idle_asleep in Hs. }
  destruct H3 as (p & Hp & Hh). pose proof (holder_asleep s st p online Hh) as Hw.
  destruct p; try (by rewrite Hw in Hs). destruct Hw as [Hw1 Hw2].
  destruct (handler_waiting _ _ _ _ _ Hw1 Hw2 Hs) as (Eq & _ & _). injection Eq as E1 E2 _.
  unfold rank. rewrite E1, E2, Em, Hp. unfold handling in Hw2. unfold handler_step in Hs. unfold rank_at.
  destruct (handler s) eqn:E; try done.
  - destruct (rpc_pending (sb s)); [|done]. injection Hs as <-. cbn. lia.
  - injection Hs as <-. cbn. lia.
  - injection Hs as <-. cbn. destruct online; lia.
  - injection Hs as <-. cbn. lia.
  - destruct (RpcHandler _ _ _ _). injection Hs as <-. cbn. lia.
  - injection Hs as <-. cbn. lia.
  - destruct Hw2 as [[Ep Ed]%notifs_eq _]. rewrite Ed in Hs. injection Hs as <-. cbn. rewrite Ep. lia.
Qed.

(** Nobody else gets in the way of the holder of the lock. *)
Lemma other_rank s x s' t : inv s -> mutex s = Some t -> act s x = Some s' ->
  (forall online, x <> Handler online) -> x <> Caller t -> mutex s' = Some t /\ rank s' = rank s.
Proof.
  intros [st [_ H2 H3]] Hm Hx Hh Hc. rewrite Hm in H3. destruct H3 as (p & Hp & Hk).
  assert (Hin : forall t' p', callers s !! t' = Some p' -> inside p' = true -> t' = t).
  { intros t' p' H Hi. destruct (H2 _ _ H) as [H4 _]. specialize (H4 Hi). congruence. }
  assert (Hmv : forall t' p', t' <> t -> rank (move t' p' (sb s) s) = rank s).
  { intros t' p' Hne. unfold rank. cbn. by rewrite Hm, lookup_insert_ne. }
  destruct x as [t' c|t'|online]; cbn in Hx; [| |by destruct (Hh online)].
  - assert (Hne : t' <> t) by (intros ->; rewrite Hp in Hx; by destruct p).
    destruct (callers s !! t') as [[]|]; try done; injection Hx as <-; by split; [|apply Hmv].
  - unfold caller_step in Hx. destruct (callers s !! t') as [p'|] eqn:E; [|done].
    destruct (inside p') eqn:Ei; [by destruct Hc; rewrite (Hin _ _ E Ei)|]. destruct p'; try done. by rewrite Hm in Hx.
Qed.

Lemma inv_handler_ok s : inv s -> handler s <> HFailed.
Proof.
  intros [st [_ _ H]] E. destruct (mutex s); [|by destruct H as [[Hh _] _]; rewrite E in Hh].
  destruct H as (p & _ & Hp). destruct p; cbn in Hp; unfold idle, handling in Hp; try done; rewrite E in Hp; naive_solver.
Qed.
End Calls.

(** ** The calls *)

(** C22: Calls into the agent process behave as if served one after the other.  In
    every interleaving of any number of callers with the thread that serves them, no
    [CHECK] of a notification fails, and the answers returned so far, in the order the
    callers held the lock, are those of serving the calls in turn: the handler is run
    once per call, on the request and arguments of that call and a fresh response, or,
    while the enclave is offline, the answer is [-ENODEV] and the agent is untouched.
    A finished call has returned its own answer. *)
Theorem rpc_serves_in_turn {Agent} (RpcHandler : Z -> AgentRpcArgs -> AgentRpcResponse -> Agent -> AgentRpcResponse * Agent)
    (b0 : SharedBlob) (g0 : Agent) xs s :
  run RpcHandler (init_sys b0 g0) xs s ->
  handler s <> HFailed /\ (forall t, callers s !! t <> Some CFailed) /\
  (exists st, sequential RpcHandler (rpc_res b0, g0) (returned s) st /\
    (mutex s = None -> st = (rpc_res (sb s), full_agent s))) /\
  forall t c a, callers s !! t = Some (CDone c a) -> (t, c, a) ∈ returned s.
Proof.
  intros Hr. pose proof (inv_run _ b0 g0 _ _ _ (init_inv _ b0 g0) Hr) as Hi.
  split; [by eapply inv_handler_ok|]. destruct Hi as [st [H1 H2 H3]]. split_and!.
  - intros t Ht. by destruct (H2 _ _ Ht) as [_ []].
  - exists st. split; [done|]. intros Em. rewrite Em in H3. by destruct H3 as [_ <-].
  - intros t c a Ht. by destruct (H2 _ _ Ht) as [_ Ha].
Qed.


(** *** Examples *)

(** Two callers: the first asks for a sum and gets it, the second finds the enclave
    offline. *)
Definition sum_handler (r : Z) (a : AgentRpcArgs) (res : AgentRpcResponse) (g : Z) : AgentRpcResponse * Z :=
  (mk_response (arg0 a + arg1 a) (res_buffer res), g + 1).

Fixpoint run_steps (xs : list action) (s : sys) : option sys :=
  match xs with
  | [] => Some s
  | x :: xs => match act sum_handler s x with Some s1 => run_steps xs s1 | None => None end
  end.

Lemma run_steps_run xs s s' : run_steps xs s = Some s' -> run sum_handler s xs s'.
Proof.
  revert s. induction xs as [|x xs IH]; cbn; intros s H.
  - injection H as <-. constructor.
  - destruct (act sum_handler s x) as [s1|] eqn:E; [|done]. econstructor; [done|]. by apply IH.
Qed.

Definition small_buffer : Buffer.AgentRpcBuffer := Buffer.mk_buffer [] 0 false.
Definition demo_blob : SharedBlob := mk_blob 0 (mk_args 0 0 small_buffer) (mk_response 0 small_buffer) false false.
Definition demo_call : call := mk_call 1 (mk_args 20 22 small_buffer) false.

Definition demo_trace : list action :=
  [Call 1 demo_call; Call 2 demo_call; Caller 1; Caller 1; Caller 1; Caller 1] ++
  replicate 6 (Handler true) ++ [Caller 1; Caller 1; Caller 1; Caller 1; Caller 2; Caller 2; Caller 2; Caller 2] ++
  replicate 5 (Handler false) ++ [Caller 2; Caller 2; Caller 2; Caller 2].

Definition demo_end : option (list (Z * answer) * Z) :=
  (fun s => ((fun '(t, _, a) => (t, a)) <$> returned s, full_agent s)) <$> run_steps demo_trace (init_sys demo_blob 0).

Lemma rpc_serves_in_turn_witness :
  demo_end = Some ([(2, Code (-19)); (1, Code 42)], 1) /\
  exists s, run sum_handler (init_sys demo_blob 0) demo_trace s /\ handler s <> HFailed /\
    forall t, callers s !! t <> Some CFailed.
Proof.
  assert (Hd : demo_end = Some ([(2, Code (-19)); (1, Code 42)], 1)) by (by vm_compute). split; [done|].
  unfold demo_end in Hd. destruct (run_steps demo_trace (init_sys demo_blob 0)) as [s|] eqn:E; [|done]. clear Hd.
  apply run_steps_run in E. exists s. split; [done|].
  by destruct (rpc_serves_in_turn sum_handler demo_blob 0 demo_trace s E) as (H1 & H2 & _).
Defined.

End RpcProps.
