(* ===== verification/Process.v ===== *)
(** * Forked processes and signals

    [ForkedProcess] of [src/lib/base.h], [src/lib/base.cc]: a parent that shares the fate of
    its children, with its handlers and the signal that announces their end; and
    [GhostSignals] of [src/lib/ghost.cc]. *)

From S2P Require Import Prelude.

(** ** Children *)

(** How a child changed its state. *)
Inductive wait_status := Exited (code : Z) | Signaled (sig : Z) | Stopped.

Definition handler : Type := Z -> wait_status -> bool.

Module Fork.

(** The parent: the handlers of its children (by process), the children that have died
    and are not waited for, whether SIGCHLD is pending (a second one is not queued), its
    own end, and the handlers called so far, latest first. *)
Record parent := mk_parent {
  children : gmap Z (list handler);
  zombies : list (Z * wait_status);
  sigchld : bool;
  exited : option Z;
  called : list (Z * nat) }.

Definition new_parent : parent := mk_parent ∅ [] false None [].

Definition set_children (c : gmap Z (list handler)) (p : parent) : parent :=
  mk_parent c (zombies p) (sigchld p) (exited p) (called p).
Definition set_zombies (z : list (Z * wait_status)) (p : parent) : parent :=
  mk_parent (children p) z (sigchld p) (exited p) (called p).
Definition set_sigchld (b : bool) (p : parent) : parent :=
  mk_parent (children p) (zombies p) b (exited p) (called p).
Definition call_handler (child : Z) (i : nat) (p : parent) : parent :=
  mk_parent (children p) (zombies p) (sigchld p) (exited p) ((child, i) :: called p).

(** [exit]: the status seen outside has 8 bits. *)
Definition exit (status : Z) (p : parent) : parent :=
  mk_parent (children p) (zombies p) (sigchld p) (Some (Z.land status 0xFF)) (called p).

(** [ForkedProcess::ForkedProcess], in the parent. *)
Definition ForkedProcess (child : Z) (p : parent) : parent := set_children (<[child := []]> (children p)) p.

(** [~ForkedProcess], in the parent. *)
Definition Destroy (child : Z) (p : parent) : parent := set_children (delete child (children p)) p.

Definition AddExitHandler (child : Z) (h : handler) (p : parent) : parent :=
  set_children (alter (fun hs => hs ++ [h]) child (children p)) p.

(** All handlers run, from the [i]-th on. *)
Fixpoint run_handlers (child : Z) (st : wait_status) (i : nat) (hs : list handler) (handled : bool) (p : parent) : bool * parent :=
  match hs with
  | [] => (handled, p)
  | h :: hs => run_handlers child st (S i) hs (handled || h child st) (call_handler child i p)
  end.

Definition HandleAbnormalExit (child : Z) (st : wait_status) (p : parent) : bool * parent :=
  match children p !! child with
  | None => (false, p)
  | Some hs => run_handlers child st 0 hs false p
  end.

Definition exit_status (st : wait_status) : Z :=
  match st with Exited code => code | Signaled _ => -1 | Stopped => 0 end.

Definition HandleIfAbnormalExit (child : Z) (st : wait_status) (p : parent) : parent :=
  if exit_status st =? 0 then p
  else let '(handled, p) := HandleAbnormalExit child st p in if handled then p else exit (exit_status st) p.

(** [HandleSigchild]: one child per signal. *)
Definition HandleSigchild (p : parent) : parent :=
  match zombies p with
  | [] => p
  | (child, st) :: z => HandleIfAbnormalExit child st (set_zombies z p)
  end.

Fixpoint take_zombie (child : Z) (z : list (Z * wait_status)) : option (wait_status * list (Z * wait_status)) :=
  match z with
  | [] => None
  | (c, st) :: z =>
      if c =? child then Some (st, z)
      else match take_zombie child z with Some (st', z') => Some (st', (c, st) :: z') | None => None end
  end.

(** [WaitForChildExit]: [alive] says whether the child is running; [None]: it blocks. *)
Definition WaitForChildExit (child : Z) (alive : bool) (p : parent) : option (Z * parent) :=
  match take_zombie child (zombies p) with
  | Some (st, z) =>
      let p := HandleIfAbnormalExit child st (set_zombies z p) in
      Some (match st with Exited code => code | _ => -1 end, p)
  | None => if alive then None else Some (-1, p)
  end.

(** ** What happens to a parent *)

Inductive event :=
  | ChildEnds (child : Z) (st : wait_status)   (* the kernel keeps it and raises SIGCHLD *)
  | Deliver                                    (* the pending signal is handled *).

(** Nothing happens to a parent that has exited. *)
Definition step (ev : event) (p : parent) : parent :=
  match exited p, ev with
  | Some _, _ => p
  | None, ChildEnds child st => set_sigchld true (set_zombies (zombies p ++ [(child, st)]) p)
  | None, Deliver => if sigchld p then HandleSigchild (set_sigchld false p) else p
  end.

Definition run (evs : list event) (p : parent) : parent := foldl (fun p ev => step ev p) p evs.
End Fork.

(** ** Signals *)

Module Signals.

(** The handlers of a signal, and the signals handled so far, latest first, with the
    number of the handler. *)
Record signals := mk_signals { handlers_ : gmap Z (list (Z -> bool)); ran : list (Z * nat); exit_code : option Z }.

Definition AddHandler (signal : Z) (h : Z -> bool) (s : signals) : signals :=
  mk_signals (<[signal := default [] (handlers_ s !! signal) ++ [h]]> (handlers_ s)) (ran s) (exit_code s).

Fixpoint run_all (signum : Z) (i : nat) (hs : list (Z -> bool)) (fatal : bool) (s : signals) : bool * signals :=
  match hs with
  | [] => (fatal, s)
  | h :: hs => run_all signum (S i) hs (h signum && fatal) (mk_signals (handlers_ s) ((signum, i) :: ran s) (exit_code s))
  end.

Definition SigHand (signum : Z) (s : signals) : signals :=
  let hs := default [] (handlers_ s !! signum) in
  let s := mk_signals (<[signum := hs]> (handlers_ s)) (ran s) (exit_code s) in
  let '(fatal, s) := run_all signum 0 hs true s in
  if fatal then mk_signals (handlers_ s) (ran s) (Some 1) else s.
End Signals.

(** ** What the handlers decide *)

Module ForkProps.
Import Fork.
Implicit Type p : parent.

Definition set_called (l : list (Z * nat)) p : parent := mk_parent (children p) (zombies p) (sigchld p) (exited p) l.

Lemma run_handlers_spec child st i hs b p :
  run_handlers child st i hs b p =
    (b || existsb (fun h => h child st) hs, set_called (reverse ((fun j => (child, j)) <$> seq i (length hs)) ++ called p) p).
Proof.
  revert i b p. induction hs as [|h hs IH]; intros i b p; cbn [run_handlers existsb length seq fmap list_fmap];
    [by destruct p; rewrite orb_false_r|].
  rewrite IH, orb_assoc, reverse_cons, <- app_assoc. done.
Qed.

(** The parent after the news of a child. *)
Definition told child st p : parent :=
  if exit_status st =? 0 then p
  else match children p !! child with
       | None => exit (exit_status st) p
       | Some hs =>
           let p := set_called (reverse ((fun j => (child, j)) <$> seq 0 (length hs)) ++ called p) p in
           if existsb (fun h => h child st) hs then p else exit (exit_status st) p
       end.

Lemma handle_spec child st p : HandleIfAbnormalExit child st p = told child st p.
Proof.
  unfold HandleIfAbnormalExit, told, HandleAbnormalExit. destruct (exit_status st =? 0); [done|].
  destruct (children p !! child) as [hs|]; [|done]. by rewrite run_handlers_spec.
Qed.

Lemma deliver_idle p : sigchld p = false -> step Deliver p = p.
Proof. intros E. unfold step. rewrite E. by destruct (exited p). Qed.

(** A parent shares the fate of its children.  The news that a child ended well
    changes nothing; that it failed or was killed makes every handler of the child run,
    each once and in the order they were added, and the parent exits with the child's
    code (255 for a signal) unless one of them takes care of it.  A signal that
    announces one child at a time brings the news of each; but when another child ends
    before the signal is handled only the first is noticed, and the parent runs on with
    a child dead and no signal to come, however that child ended. *)
Theorem forked_process_shares_fate p c1 st1 c2 st2 :
  exited p = None -> zombies p = [] -> sigchld p = false ->
  (forall child st, HandleIfAbnormalExit child st p = told child st p) /\
  run [ChildEnds c1 st1; Deliver] p = told c1 st1 p /\
  (exited (told c1 st1 p) = None ->
   run [ChildEnds c1 st1; Deliver; ChildEnds c2 st2; Deliver] p = told c2 st2 (told c1 st1 p)) /\
  (let p' := run [ChildEnds c1 st1; ChildEnds c2 st2; Deliver; Deliver] p in
   p' = set_zombies [(c2, st2)] (told c1 st1 p) /\ sigchld p' = false).
Proof.
  intros He Hz Hs. split; [intros; apply handle_spec|].
  assert (H1 : forall p c st, exited p = None -> zombies p = [] -> sigchld p = false ->
    step Deliver (step (ChildEnds c st) p) = told c st p).
  { intros [ch z s e l] c st. cbn. intros -> -> ->. cbn. rewrite handle_spec. unfold told, set_called, exit, set_zombies, set_sigchld. cbn.
    by repeat case_match. }
  assert (Hz1 : zombies (told c1 st1 p) = [] /\ sigchld (told c1 st1 p) = false).
  { unfold told, exit, set_called. repeat case_match; cbn; by rewrite ?Hz, ?Hs. }
  split; [by apply H1|]. split.
  - intros He1. change (step Deliver (step (ChildEnds c2 st2) (step Deliver (step (ChildEnds c1 st1) p))) = told c2 st2 (told c1 st1 p)).
    rewrite (H1 p) by done. apply H1; [done|apply Hz1..].
  - cbn zeta. assert (E : run [ChildEnds c1 st1; ChildEnds c2 st2; Deliver; Deliver] p = set_zombies [(c2, st2)] (told c1 st1 p)).
    { change (step Deliver (step Deliver (step (ChildEnds c2 st2) (step (ChildEnds c1 st1) p))) = set_zombies [(c2, st2)] (told c1 st1 p)).
      assert (E1 : step Deliver (step (ChildEnds c2 st2) (step (ChildEnds c1 st1) p)) = set_zombies [(c2, st2)] (told c1 st1 p)).
      { destruct p as [ch z s e l]. cbn in He, Hz, Hs. subst. cbn. rewrite handle_spec.
        unfold told, set_called, exit, set_zombies, set_sigchld. cbn. by repeat case_match. }
      rewrite E1. apply deliver_idle. apply Hz1. }
    rewrite E. cbn. by destruct Hz1 as [_ ->].
Qed.

Lemma forked_process_shares_fate_witness :
  let p := ForkedProcess 8 (ForkedProcess 7 new_parent) in
  exited (run [ChildEnds 7 (Exited 0); Deliver; ChildEnds 8 (Exited 3); Deliver] p) = Some 3 /\
  exited (run [ChildEnds 7 (Exited 0); ChildEnds 8 (Exited 3); Deliver; Deliver] p) = None.
Proof.
  cbn zeta. destruct (forked_process_shares_fate (ForkedProcess 8 (ForkedProcess 7 new_parent)) 7 (Exited 0) 8 (Exited 3)
    eq_refl eq_refl eq_refl) as (_ & _ & H1 & H2 & _).
  rewrite (H1 eq_refl). rewrite H2. split; reflexivity.
Defined.
End ForkProps.

(** A signal without handlers is fatal, as is one all of whose handlers say so; all of
    them run. *)
Lemma sighand_spec signum (s : Signals.signals) :
  let hs := default [] (Signals.handlers_ s !! signum) in
  Signals.exit_code (Signals.SigHand signum s) = (if forallb (fun h => h signum) hs then Some 1 else Signals.exit_code s) /\
  Signals.ran (Signals.SigHand signum s) = reverse ((fun j => (signum, j)) <$> seq 0 (length hs)) ++ Signals.ran s.
Proof.
  cbn zeta. unfold Signals.SigHand. set (hs := default [] _).
  assert (H : forall hs i b (s : Signals.signals), Signals.run_all signum i hs b s =
    (b && forallb (fun h => h signum) hs,
     Signals.mk_signals (Signals.handlers_ s) (reverse ((fun j => (signum, j)) <$> seq i (length hs)) ++ Signals.ran s) (Signals.exit_code s))).
  { clear. intros hs. induction hs as [|h hs IH]; intros i b [m r e]; cbn [Signals.run_all forallb length seq fmap list_fmap];
      [by rewrite andb_true_r|]. rewrite IH, reverse_cons, <- app_assoc. cbn. by rewrite andb_assoc, (andb_comm (h signum)), <- andb_assoc. }
  rewrite H. cbn. by destruct (forallb _ hs).
Qed.
