(* ===== verification/Interaction.v ===== *)
(** * Programs that talk to the operating system

    A program is an interaction tree: its calls are events, its loops [ITree.iter], so a
    server may run for ever.  [exec] runs it for a number of steps against an operating
    system whose answers may depend on everything that happened before; [keeps] and
    [reaches] are the triples for what holds all along and for termination. *)

From S2P Require Import Prelude.
From ITree Require Import ITree.

Notation "x <- m ;; k" := (ITree.bind m (fun x => k)) : itree_scope.
Notation "m ;;; k" := (ITree.bind m (fun _ => k)) : itree_scope.

(** A call with the answer it got. *)
Inductive entry (E : Type -> Type) : Type :=
  | Entry (X : Type) (e : E X) (a : X).
Arguments Entry {E X} e a.

(** What happened so far, latest first. *)
Notation history E := (list (entry E)).

(** An operating system: the answer to a call after a history. *)
Definition answers (E : Type -> Type) : Type := history E -> forall X, E X -> X.

Section Interaction.
Context {E : Type -> Type} (os : answers E).
Implicit Types (h : history E) (n : nat).

(** The result comes with the steps left; [None]: not finished after [n] steps. *)
Fixpoint exec {R} n h (t : itree E R) : history E * option (R * nat) :=
  match n with
  | O => (h, None)
  | S m =>
      match observe t with
      | RetF r => (h, Some (r, n))
      | TauF u => exec m h u
      | VisF e k => exec m (Entry e (os h _ e) :: h) (k (os h _ e))
      end
  end.

(** A call, as a step. *)
Definition syscall {X} (e : E X) : itree E X := ITree.trigger e.

(** ** How a run unfolds *)

Lemma exec_observe {R} (t u : itree E R) n h : observe t = observe u -> exec n h t = exec n h u.
Proof. destruct n; [done|]. cbn. by intros ->. Qed.

Lemma exec_left {R} (t : itree E R) n h h' r m : exec n h t = (h', Some (r, m)) -> (0 < m <= n)%nat.
Proof.
  revert t h. induction n as [|n IH]; intros t h; cbn; [done|].
  destruct (observe t); [intros [= -> -> <-]; lia|..]; intros Hr%IH; lia.
Qed.

Lemma observe_bind {R S} (t : itree E R) (k : R -> itree E S) :
  observe (ITree.bind t k) =
    match observe t with
    | RetF r => observe (k r)
    | TauF u => TauF (ITree.bind u k)
    | VisF e f => VisF e (fun x => ITree.bind (f x) k)
    end.
Proof. unfold observe at 1. cbn. fold (observe t). by destruct (observe t). Qed.

Lemma exec_bind {R S} (t : itree E R) (k : R -> itree E S) n h :
  exec n h (ITree.bind t k) =
    match exec n h t with (h', Some (r, m)) => exec m h' (k r) | (h', None) => (h', None) end.
Proof.
  revert t h. induction n as [|n IH]; intros t h; [done|].
  cbn [exec]. rewrite observe_bind. destruct (observe t); [reflexivity|apply IH..].
Qed.

Lemma exec_more {R} (t : itree E R) n d h h' r m :
  exec n h t = (h', Some (r, m)) -> exec (n + d) h t = (h', Some (r, m + d)%nat).
Proof.
  revert t h. induction n as [|n IH]; intros t h; cbn; [done|].
  destruct (observe t); [by intros [= -> -> <-]|apply IH..].
Qed.

Definition again {A R} (body : A -> itree E (A + R)) (lr : A + R) : itree E R :=
  match lr with inl i => Tau (ITree.iter body i) | inr r => Ret r end.

Lemma exec_iter {A R} (body : A -> itree E (A + R)) i n h :
  exec n h (ITree.iter body i) = exec n h (ITree.bind (body i) (again body)).
Proof. by apply exec_observe. Qed.

(** ** What holds all along, and of the result if there is one *)

Definition keeps {R} (I : history E -> Prop) (t : itree E R) (Q : R -> history E -> Prop) h : Prop :=
  forall n, let '(h', o) := exec n h t in I h' /\ match o with Some (r, _) => Q r h' | None => True end.

Section Keeps.
Context (I : history E -> Prop).

Lemma keeps_ret {R} (r : R) (Q : R -> history E -> Prop) h : I h -> Q r h -> keeps I (Ret r) Q h.
Proof. intros Hi Hq [|n]; by cbn. Qed.

Lemma keeps_bind {R S} (t : itree E R) (k : R -> itree E S) (Q : S -> history E -> Prop) h :
  keeps I t (fun r => keeps I (k r) Q) h -> keeps I (ITree.bind t k) Q h.
Proof.
  intros H n. rewrite exec_bind. specialize (H n). destruct (exec n h t) as [h' [[r m]|]]; [|done].
  destruct H as [_ H]. apply (H m).
Qed.

Lemma keeps_call {X} (e : E X) (Q : X -> history E -> Prop) h :
  I h -> (let h' := Entry e (os h _ e) :: h in I h' /\ Q (os h _ e) h') -> keeps I (syscall e) Q h.
Proof. intros Hi [Hi' Hq] [|[|n]]; by cbn. Qed.

Lemma keeps_mono {R} (t : itree E R) (P Q : R -> history E -> Prop) h :
  keeps I t P h -> (forall r h', I h' -> P r h' -> Q r h') -> keeps I t Q h.
Proof. intros H HPQ n. specialize (H n). destruct (exec n h t) as [h' [[r m]|]]; naive_solver. Qed.

Lemma keeps_iter {A R} (Inv : A -> history E -> Prop) (body : A -> itree E (A + R)) (Q : R -> history E -> Prop) i h :
  (forall i h, Inv i h -> keeps I (body i) (fun lr h' => match lr with inl i' => Inv i' h' | inr r => Q r h' end) h) ->
  Inv i h -> keeps I (ITree.iter body i) Q h.
Proof.
  intros Hb Hinv n. revert i h Hinv. induction n as [n IH] using lt_wf_ind. intros i h Hinv.
  rewrite exec_iter, exec_bind. specialize (Hb i h Hinv n). destruct (exec n h (body i)) as [h' [[r m]|]] eqn:Ex; [|done].
  destruct Hb as [Hi Hq]. apply exec_left in Ex. destruct m as [|m]; [lia|]. destruct r as [i'|r]; cbn; [|done].
  apply IH; [lia|done].
Qed.
End Keeps.

(** ** Termination *)

Definition reaches {R} (t : itree E R) (Q : R -> history E -> Prop) h : Prop :=
  exists n h' r m, exec n h t = (h', Some (r, m)) /\ Q r h'.

Lemma reaches_ret {R} (r : R) (Q : R -> history E -> Prop) h : Q r h -> reaches (Ret r) Q h.
Proof. exists 1%nat, h, r, 1%nat. done. Qed.

Lemma reaches_bind {R S} (t : itree E R) (k : R -> itree E S) (Q : S -> history E -> Prop) h :
  reaches t (fun r => reaches (k r) Q) h -> reaches (ITree.bind t k) Q h.
Proof.
  intros (n & h1 & r & m & E1 & n2 & h2 & r2 & m2 & E2 & Hq). exists (n + n2)%nat, h2, r2, (m2 + m)%nat. split; [|done].
  rewrite exec_bind, (exec_more _ _ n2 _ _ _ _ E1), (Nat.add_comm m n2). by apply exec_more.
Qed.

Lemma reaches_call {X} (e : E X) (Q : X -> history E -> Prop) h :
  Q (os h _ e) (Entry e (os h _ e) :: h) -> reaches (syscall e) Q h.
Proof. intros Hq. by eexists 2%nat, _, _, _. Qed.

Lemma reaches_mono {R} (t : itree E R) (P Q : R -> history E -> Prop) h :
  reaches t P h -> (forall r h', P r h' -> Q r h') -> reaches t Q h.
Proof. intros (n & h' & r & m & Hx & Hp) HPQ. exists n, h', r, m. auto. Qed.

(** A loop ends if some measure of its state and the history gets smaller. *)
Lemma reaches_iter {A R} (Inv : A -> history E -> Prop) (mu : A -> history E -> nat) (body : A -> itree E (A + R))
    (Q : R -> history E -> Prop) i h :
  (forall i h, Inv i h ->
    reaches (body i) (fun lr h' => match lr with inl i' => Inv i' h' /\ (mu i' h' < mu i h)%nat | inr r => Q r h' end) h) ->
  Inv i h -> reaches (ITree.iter body i) Q h.
Proof.
  intros Hb. remember (mu i h) as n eqn:En. assert (Hn : (mu i h <= n)%nat) by lia. clear En. revert i h Hn.
  induction n as [|n IH]; intros i h Hn Hinv;
    (assert (Hit : reaches (ITree.bind (body i) (again body)) Q h);
     [apply reaches_bind; eapply reaches_mono; [by apply Hb|]; intros [i'|r] h'; cbn; [intros [Hi' Hlt]|by apply reaches_ret]
     |by destruct Hit as (n1 & h' & r & m & Hx & Hq); exists n1, h', r, m; rewrite exec_iter]); [lia|].
  destruct (IH i' h' ltac:(lia) Hi') as (n1 & h2 & r & m & Hx & Hq). exists (S n1), h2, r, m. done.
Qed.
End Interaction.

(** ** Programs that may abort *)

(** [None] is an abort: a failed [CHECK]. *)
Notation may_abort E A := (itree E (option A)).

Definition abort {E A} : may_abort E A := Ret None.
Definition done {E A} (a : A) : may_abort E A := Ret (Some a).
Definition CHECK_ {E} (b : bool) : may_abort E unit := if b then done tt else abort.
Definition get {E : Type -> Type} {X} (e : E X) : may_abort E X := ITree.bind (syscall e) done.
Definition bindP {E A B} (m : may_abort E A) (k : A -> may_abort E B) : may_abort E B :=
  ITree.bind m (fun o => match o with Some a => k a | None => abort end).

Notation "x <! m ;; k" := (bindP m (fun x => k)) (at level 100, m at next level, right associativity) : itree_scope.
Notation "m ;;! k" := (bindP m (fun _ => k)) (at level 100, right associativity) : itree_scope.


Section Triples.
Context {E : Type -> Type} (os : answers E).
Implicit Type h : history E.

(** The program ends; if it does not abort, [Q] holds. *)
Definition ok {A} (m : may_abort E A) (Q : A -> history E -> Prop) h : Prop :=
  reaches os m (fun r h' => match r with Some a => Q a h' | None => True end) h.

Lemma ok_done {A} (a : A) (Q : A -> history E -> Prop) h : Q a h -> ok (done a) Q h.
Proof. intros H. by apply reaches_ret. Qed.

Lemma ok_abort {A} (Q : A -> history E -> Prop) h : ok abort Q h.
Proof. by apply reaches_ret. Qed.

Lemma ok_bind {A B} (m : may_abort E A) (k : A -> may_abort E B) (Q : B -> history E -> Prop) h :
  ok m (fun a => ok (k a) Q) h -> ok (bindP m k) Q h.
Proof. intros H. apply reaches_bind. eapply reaches_mono; [exact H|]. intros [a|] h'; [done|intros _; by apply reaches_ret]. Qed.

Lemma ok_mono {A} (m : may_abort E A) (Q Q' : A -> history E -> Prop) h : ok m Q h -> (forall a h', Q a h' -> Q' a h') -> ok m Q' h.
Proof. intros H HQ. eapply reaches_mono; [exact H|]. intros [a|] h'; [apply HQ|done]. Qed.

Lemma ok_check (b : bool) (Q : unit -> history E -> Prop) h : (b = true -> Q tt h) -> ok (CHECK_ b) Q h.
Proof. destruct b; intros H; [apply ok_done; auto|apply ok_abort]. Qed.

Lemma ok_get {X} (e : E X) (Q : X -> history E -> Prop) h :
  Q (os h _ e) (Entry e (os h _ e) :: h) -> ok (get e) Q h.
Proof. intros H. apply reaches_bind, reaches_call. by apply ok_done. Qed.

(** The steps of a program that does not abort. *)
Lemma reaches_get {X B} (e : E X) (k : X -> may_abort E B) (Q : option B -> history E -> Prop) h :
  reaches os (k (os h _ e)) Q (Entry e (os h _ e) :: h) -> reaches os (bindP (get e) k) Q h.
Proof. intros H. apply reaches_bind, reaches_bind, reaches_call. by apply reaches_ret. Qed.

Lemma reaches_check {B} (b : bool) (k : unit -> may_abort E B) (Q : option B -> history E -> Prop) h :
  b = true -> reaches os (k tt) Q h -> reaches os (bindP (CHECK_ b) k) Q h.
Proof. intros -> H. apply reaches_bind. by apply reaches_ret. Qed.

Lemma reaches_bindP {A B} (m : may_abort E A) (k : A -> may_abort E B) (Q : option B -> history E -> Prop) h :
  reaches os m (fun r h' => exists a, r = Some a /\ reaches os (k a) Q h') h -> reaches os (bindP m k) Q h.
Proof. intros H. apply reaches_bind. eapply reaches_mono; [exact H|]. by intros r h' (a & -> & Hk). Qed.
End Triples.

(** ** Resources *)

(** What calls acquire and release, as multisets. *)
Section Resources.
Context {E : Type -> Type} {H : Type} (acquired released : entry E -> list H).
Implicit Type h : history E.

(** [L] is what is held. *)
Definition holds (L : list H) h : Prop := mjoin (acquired <$> h) ≡ₚ L ++ mjoin (released <$> h).

Lemma holds_cons L L' x h : holds L h -> acquired x ++ L ≡ₚ L' ++ released x -> holds L' (x :: h).
Proof. unfold holds. cbn. intros H1 H2. rewrite H1, app_assoc, H2, <- app_assoc. done. Qed.

Lemma holds_perm L L' h : L ≡ₚ L' -> holds L h -> holds L' h.
Proof. unfold holds. by intros ->. Qed.

Lemma holds_nil h : holds [] h -> mjoin (acquired <$> h) ≡ₚ mjoin (released <$> h).
Proof. done. Qed.

(** A call changes what is held by what it acquires and releases. *)
Lemma holds_call (os : answers E) {X} (e : E X) (P : X -> history E -> Prop) L h :
  holds L h ->
  (forall a h', (forall L', acquired (Entry e a) ++ L ≡ₚ L' ++ released (Entry e a) -> holds L' h') -> P a h') ->
  keeps os (fun _ => True) (syscall e) P h.
Proof. intros Hh HP. apply keeps_call; [done|]. split; [done|]. apply HP. intros L' HL. by eapply holds_cons. Qed.
End Resources.
