(* ===== verification/FdServer.v ===== *)
(** * Sharing a file descriptor over a socket

    [src/shared/fd_server.h], [src/shared/fd_server.cc]: a server that hands a descriptor
    to whoever presents a nonce, its client, and the limit on the threads of
    [AsyncFdServer].  The programs are interaction trees over the system calls they make. *)

From S2P Require Import Prelude Interaction.
From ITree Require Import ITree.
From Stdlib Require Import Ascii.
From stdpp Require Import strings.
#[local] Open Scope itree_scope.
#[local] Open Scope Z_scope.

(** ** System calls *)

(** The result of a call, and [errno]. *)
Record res := mk_res { ret : Z; errno : Z }.

(** A control message: level, type, length and the descriptor in it. *)
Record cmsghdr := mk_cmsg { cmsg_level : Z; cmsg_type : Z; cmsg_len : Z; cmsg_fd : Z }.

(** [RecvMsg] also fills a buffer and may bring a control message, [GetSockName] a
    size and a path; the file descriptor to pass on is the [rights] of [SendMsg]. *)
Variant osE : Type -> Type :=
  | Dup (fd : Z) : osE res
  | Socket : osE res
  | GetFl (fd : Z) : osE res
  | SetFl (fd flags : Z) : osE res
  | Bind (fd : Z) : osE res
  | Listen (fd : Z) : osE res
  | GetSockName (fd : Z) : osE (res * (Z * string))
  | EpollCreate1 : osE res
  | EpollCtlAdd (ep fd : Z) : osE res
  | EpollCtlDel (ep fd : Z) : osE res
  | EpollWait (ep timeout : Z) : osE res
  | Accept4 (fd : Z) : osE res
  | Connect (fd : Z) (path : string) : osE res
  | RecvMsg (fd : Z) : osE (res * (string * option cmsghdr))
  | SendMsg (fd : Z) (data : string) (rights : option Z) : osE res
  | Close (fd : Z) : osE res.

Definition EINTR : Z := 4.
Definition EAGAIN : Z := 11.
Definition O_NONBLOCK : Z := 2048.
Definition SOL_SOCKET : Z := 1.
Definition SCM_RIGHTS : Z := 1.

(** [offsetof(sun_path)], [sizeof(sun_path)] and [CMSG_LEN(sizeof(int))]. *)
Definition sun_path_off : Z := 2.
Definition sun_path_size : Z := 108.
Definition CMSG_LEN_int : Z := 20.

(** ** Statuses *)

Record Status := mk_status { code : Z; message : string }.

(** An OK status has no message. *)
Definition absl_Status (c : Z) (m : string) : Status := if c =? 0 then mk_status 0 "" else mk_status c m.

Definition kOk : Z := 0.
Definition kInvalidArgument : Z := 3.
Definition kDeadlineExceeded : Z := 4.
Definition kUnauthenticated : Z := 16.
Definition OkStatus : Status := mk_status kOk "".
Definition InvalidArgumentError (m : string) : Status := mk_status kInvalidArgument m.
Definition DeadlineExceededError (m : string) : Status := mk_status kDeadlineExceeded m.
Definition UnauthenticatedError (m : string) : Status := mk_status kUnauthenticated m.

Definition nul : string := String (Ascii.ascii_of_nat 0) EmptyString.
Definition good : string := ("GOOD NONCE" ++ nul)%string.
Definition bad : string := ("BAD NONCE" ++ nul)%string.

(** ** The server *)

(** A timeout in nanoseconds, [None] the infinite one. *)
Record FdServer := mk_server {
  fd_to_share_ : Z;
  nonce_ : string;
  timeout_ : option Z;
  serve_forever_ : bool;
  sock_fd_ : Z;
  dup_fd_ : Z;
  ep_fd_ : Z }.

Module Fd.
Section Fd.
(** [absl::ErrnoToStatusCode] *)
Context (ErrnoToStatusCode : Z -> Z).
Implicit Type s : FdServer.

Definition FdServer_new (fd : Z) (nonce : string) (timeout : option Z) (serve_forever : bool) : FdServer :=
  mk_server fd nonce timeout serve_forever (-1) (-1) (-1).

Definition set_sock_fd (fd : Z) s : FdServer :=
  mk_server (fd_to_share_ s) (nonce_ s) (timeout_ s) (serve_forever_ s) fd (dup_fd_ s) (ep_fd_ s).
Definition set_dup_fd (fd : Z) s : FdServer :=
  mk_server (fd_to_share_ s) (nonce_ s) (timeout_ s) (serve_forever_ s) (sock_fd_ s) fd (ep_fd_ s).
Definition set_ep_fd (fd : Z) s : FdServer :=
  mk_server (fd_to_share_ s) (nonce_ s) (timeout_ s) (serve_forever_ s) (sock_fd_ s) (dup_fd_ s) fd.

Definition close_if (fd : Z) : itree osE unit :=
  if fd =? -1 then Ret tt else syscall (Close fd) ;;; Ret tt.

(** [~FdServer] *)
Definition Destroy s : itree osE unit := close_if (sock_fd_ s) ;;; close_if (dup_fd_ s) ;;; close_if (ep_fd_ s).

(** In milliseconds; [ToInt64Milliseconds] truncates. *)
Definition EpollTimeout s : Z :=
  match timeout_ s with
  | None => -1
  | Some ns =>
      if ns =? 0 then -1
      else let to := Z.quot ns 1000000 in if to =? 0 then 1 else to
  end.

Definition failed {A} (m : string) (r : res) : Status + A := inl (absl_Status (ErrnoToStatusCode (errno r)) m).

(** The path the kernel chose, of which byte 0 is null. *)
Definition abstract_path (sa_size : Z) (sun_path : string) : string :=
  String.substring 0 (Z.to_nat (sa_size - sun_path_off))
    match sun_path with EmptyString => "@" | String _ p => String "@"%char p end.

Definition Init s : itree osE (FdServer * (Status + string)) :=
  if (String.length (nonce_ s) =? 0)%nat then Ret (s, inl (InvalidArgumentError "nonce must not be empty"))
  else if negb (sock_fd_ s =? -1) then Ret (s, inl (InvalidArgumentError "do not reinitialize FdServer"))
  else
    r <- syscall (Dup (fd_to_share_ s)) ;;
    let s := set_dup_fd (ret r) s in
    if ret r <? 0 then Ret (s, failed "dup" r) else
    r <- syscall Socket ;;
    let s := set_sock_fd (ret r) s in
    if ret r <? 0 then Ret (s, failed "socket" r) else
    r <- syscall (GetFl (sock_fd_ s)) ;;
    if ret r <? 0 then Ret (s, failed "f_getfl" r) else
    r <- syscall (SetFl (sock_fd_ s) (Z.lor (ret r) O_NONBLOCK)) ;;
    if ret r <? 0 then Ret (s, failed "f_setfl" r) else
    r <- syscall (Bind (sock_fd_ s)) ;;
    if ret r <? 0 then Ret (s, failed "bind" r) else
    r <- syscall (Listen (sock_fd_ s)) ;;
    if ret r <? 0 then Ret (s, failed "listen" r) else
    n <- syscall (GetSockName (sock_fd_ s)) ;;
    if ret (fst n) <? 0 then Ret (s, failed "getsockname" (fst n)) else
    let '(sa_size, sun_path) := snd n in
    if sun_path_off + sun_path_size <? sa_size then Ret (s, inl (InvalidArgumentError "getsockname truncation")) else
    r <- syscall EpollCreate1 ;;
    let s := set_ep_fd (ret r) s in
    if ret r <? 0 then Ret (s, failed "epoll create" r) else
    Ret (s, inr (abstract_path sa_size sun_path)).

(** One round of the loop in [WaitForFdCmd]: [inl] goes on. *)
Definition wait_round {A} s (cmd : itree osE (res * A)) : itree osE (unit + (Status + Z * A)) :=
  c <- cmd ;;
  let r := fst c in
  if 0 <=? ret r then Ret (inr (inr (ret r, snd c)))
  else if errno r =? EINTR then Ret (inl tt)
  else if negb (errno r =? EAGAIN) then Ret (inr (failed "cmd error" r))
  else
    w <- syscall (EpollWait (ep_fd_ s) (s32 (EpollTimeout s))) ;;
    if ret w =? 0 then Ret (inr (inl (DeadlineExceededError "epoll timeout")))
    else if ret w <? 0 then
      if errno w =? EINTR then Ret (inl tt) else Ret (inr (failed "epoll wait" w))
    else Ret (inl tt).

Definition WaitForFdCmd {A} s (fd : Z) (cmd : itree osE (res * A)) : itree osE (Status + Z * A) :=
  r <- syscall (EpollCtlAdd (ep_fd_ s) fd) ;;
  if negb (ret r =? 0) then Ret (failed "epoll_ctl_add" r)
  else
    result <- ITree.iter (fun _ => wait_round s cmd) tt ;;
    syscall (EpollCtlDel (ep_fd_ s) fd) ;;;
    Ret result.

Definition HandleConnection s (conn_fd : Z) : itree osE Status :=
  result <- WaitForFdCmd s conn_fd (syscall (RecvMsg conn_fd)) ;;
  match result with
  | inl st => Ret st
  | inr (bytes_read, (buf, _)) =>
      let query := String.substring 0 (Z.to_nat bytes_read) buf in
      if negb (String.eqb query (nonce_ s)) then
        syscall (SendMsg conn_fd bad None) ;;;
        Ret (UnauthenticatedError "bad nonce")
      else
        r <- syscall (SendMsg conn_fd good (Some (dup_fd_ s))) ;;
        if negb (ret r =? Z.of_nat (String.length good))
        then Ret (absl_Status (ErrnoToStatusCode (errno r)) "sendmsg FD")
        else Ret OkStatus
  end.

Definition serve_round s : itree osE (unit + Status) :=
  conn <- WaitForFdCmd s (sock_fd_ s) (r <- syscall (Accept4 (sock_fd_ s)) ;; Ret (r, tt)) ;;
  match conn with
  | inl st => Ret (inr st)
  | inr (conn_fd, _) =>
      status <- HandleConnection s conn_fd ;;
      syscall (Close conn_fd) ;;;
      if code status =? kUnauthenticated then Ret (inl tt)
      else if (code status =? kOk) && serve_forever_ s then Ret (inl tt)
      else Ret (inr status)
  end.

Definition Serve s : itree osE Status :=
  if sock_fd_ s =? -1 then Ret (InvalidArgumentError "server was not initialized")
  else ITree.iter (fun _ => serve_round s) tt.

(** ** The client *)

Definition first_null (path : string) : string :=
  match path with String "@"%char p => String (Ascii.ascii_of_nat 0) p | _ => path end.

(** What the client makes of the reply. *)
Definition shared_fd_of (c : option cmsghdr) : Status + Z :=
  match c with
  | None => inl (InvalidArgumentError "recvmsg no fd")
  | Some c =>
      if negb (cmsg_level c =? SOL_SOCKET) || negb (cmsg_type c =? SCM_RIGHTS) || negb (cmsg_len c =? CMSG_LEN_int)
      then inl (InvalidArgumentError "recvmsg no fd")
      else inr (cmsg_fd c)
  end.

(** The exchange on a connected socket. *)
Definition exchange (sock_fd : Z) (path nonce : string) : itree osE (Status + Z) :=
  r <- syscall (Connect sock_fd path) ;;
  if ret r <? 0 then Ret (failed "connect" r) else
  r <- syscall (SendMsg sock_fd nonce None) ;;
  if ret r =? 0 then Ret (inl (InvalidArgumentError "sendmsg empty write: maybe no nonce")) else
  if ret r <? 0 then Ret (failed "sendmsg" r) else
  if negb (ret r =? Z.of_nat (String.length nonce)) then Ret (inl (InvalidArgumentError "sendmsg short write")) else
  m <- syscall (RecvMsg sock_fd) ;;
  if ret (fst m) <? 0 then Ret (failed "recvmsg" (fst m)) else
  if ret (fst m) =? 0 then Ret (inl (InvalidArgumentError "recvmsg short read")) else
  Ret (shared_fd_of (snd (snd m))).

Definition GetSharedFd (sock_path nonce : string) : itree osE (Status + Z) :=
  if sun_path_size <? Z.of_nat (String.length sock_path) then Ret (inl (InvalidArgumentError "sock_path too big"))
  else
    r <- syscall Socket ;;
    if ret r <? 0 then Ret (failed "socket" r)
    else
      result <- exchange (ret r) (first_null sock_path) nonce ;;
      syscall (Close (ret r)) ;;;
      Ret result.

(** The server from construction to destruction, as the thread of [AsyncFdServer]
    uses it. *)
Definition InitServeDestroy s : itree osE (Status + Status) :=
  i <- Init s ;;
  let '(s, path) := i in
  st <- (match path with inl st => Ret (inl st) | inr _ => st <- Serve s ;; Ret (inr st) end) ;;
  Destroy s ;;;
  Ret st.
End Fd.
End Fd.

(** ** The threads of [AsyncFdServer] *)

Module Async.

Definition kMaxNrThreads : Z := 42.

(** A call of [InitAndServe] after its [Init]: before and after the test of the limit. *)
Inductive caller := Initialized | BelowLimit.

(** [nr_threads_], the calls in progress, and the threads running. *)
Record async := mk_async { nr_threads_ : Z; callers : gmap nat caller; threads : nat }.

Definition new_async : async := mk_async 0 ∅ 0.

Inductive event :=
  | Call (c : nat)      (* [InitAndServe] is called, and [Init] succeeds *)
  | Load (c : nat)      (* [nr_threads_.load() >= kMaxNrThreads] *)
  | Start (c : nat)     (* [nr_threads_++] and the new thread *)
  | Exit.               (* the end of a thread: [nr_threads_--] *)

(** [None]: the step is not possible. *)
Definition async_step (ev : event) (a : async) : option async :=
  match ev with
  | Call c =>
      match callers a !! c with
      | None => Some (mk_async (nr_threads_ a) (<[c := Initialized]> (callers a)) (threads a))
      | Some _ => None
      end
  | Load c =>
      match callers a !! c with
      | Some Initialized =>
          if kMaxNrThreads <=? nr_threads_ a
          then Some (mk_async (nr_threads_ a) (delete c (callers a)) (threads a))
          else Some (mk_async (nr_threads_ a) (<[c := BelowLimit]> (callers a)) (threads a))
      | _ => None
      end
  | Start c =>
      match callers a !! c with
      | Some BelowLimit => Some (mk_async (nr_threads_ a + 1) (delete c (callers a)) (S (threads a)))
      | _ => None
      end
  | Exit =>
      match threads a with
      | O => None
      | S n => Some (mk_async (nr_threads_ a - 1) (callers a) n)
      end
  end.

Fixpoint async_run (evs : list event) (a : async) : option async :=
  match evs with
  | [] => Some a
  | ev :: evs => match async_step ev a with Some a => async_run evs a | None => None end
  end.
End Async.
