(* ===== verification/FdServerProps.v ===== *)
(** * The descriptor is shared with those who know the nonce

    What the server of descriptors does whatever its clients and the kernel answer, and
    that it serves a client with the nonce in the end. *)

From S2P Require Import Prelude Interaction FdServer.
From ITree Require Import ITree.
From stdpp Require Import strings.
#[local] Open Scope itree_scope.
#[local] Open Scope Z_scope.

Module FdProps.
Import Fd.

(** ** What a history says *)

Notation hist := (history osE).
Implicit Types (h : hist) (x : entry osE).

(** The result of a call. *)
Definition result x : res :=
  match x with
  | Entry e a =>
      match e in osE X return X -> res with
      | GetSockName _ => fst
      | RecvMsg _ => fst
      | _ => fun a => a
      end a
  end.

Definition if_ok (r : res) : option Z := if 0 <=? ret r then Some (ret r) else None.

(** The descriptor a call opened, one it closed, and one it made by [dup]. *)
Definition opened x : option Z :=
  match x with
  | Entry e a =>
      match e in osE X return X -> option Z with
      | Dup _ | Socket | EpollCreate1 | Accept4 _ => if_ok
      | _ => fun _ => None
      end a
  end.

Definition closed x : option Z :=
  match x with Entry e _ => match e with Close fd => Some fd | _ => None end end.

Definition dupped x : option Z :=
  match x with
  | Entry e a => match e in osE X return X -> option Z with Dup _ => if_ok | _ => fun _ => None end a
  end.

(** The connection accepted; what was read, and from where; the descriptor that was
    sent, and to whom. *)
Definition accepted x : option Z :=
  match x with
  | Entry e a => match e in osE X return X -> option Z with Accept4 _ => if_ok | _ => fun _ => None end a
  end.

Definition received x : option (Z * string) :=
  match x with
  | Entry e a =>
      match e in osE X return X -> option (Z * string) with
      | RecvMsg c => fun m => if 0 <=? ret (fst m) then Some (c, String.substring 0 (Z.to_nat (ret (fst m))) (fst (snd m))) else None
      | _ => fun _ => None
      end a
  end.

Definition share x : option (Z * Z) :=
  match x with Entry e _ => match e with SendMsg c _ (Some fd) => Some (c, fd) | _ => None end end.

(** Every descriptor sent was the copy made by [dup], and went to the connection
    accepted last, after the nonce had been read from it. *)
Fixpoint authentic (nonce : string) h : Prop :=
  match h with
  | [] => True
  | x :: h =>
      match share x with
      | Some (c, fd) => omap dupped h = [fd] /\ head (omap accepted h) = Some c /\ head (omap received h) = Some (c, nonce)
      | None => True
      end /\ authentic nonce h
  end.

(** What the manual pages say of every call: it fails with -1 and a reason
    ([epoll_ctl] has no result but 0 otherwise). *)
Class PosixLaws (os : answers osE) : Prop := {
  posix_ret h X (e : osE X) : -1 <= ret (result (Entry e (os h X e)));
  posix_errno h X (e : osE X) : ret (result (Entry e (os h X e))) < 0 -> errno (result (Entry e (os h X e))) <> 0;
  posix_epoll_ctl h ep fd : ret (os h _ (EpollCtlAdd ep fd)) <= 0 }.

(** What absl documents of its codes: only no error is OK, and none is a failed
    authentication. *)
Class ErrnoLaws (ErrnoToStatusCode : Z -> Z) : Prop := {
  errno_ok e : ErrnoToStatusCode e = kOk -> e = 0;
  errno_auth e : ErrnoToStatusCode e <> kUnauthenticated }.

Section Props.
Context (os : answers osE) `{!PosixLaws os}.
Context (ErrnoToStatusCode : Z -> Z) `{!ErrnoLaws ErrnoToStatusCode}.
Context (nonce : string) (forever : bool).

(** [k] descriptors were sent (unless the server serves for ever), the copies made are
    [d], and the descriptors open are [L]. *)
Record st (k : nat) (d L : list Z) h : Prop := {
  st_auth : authentic nonce h;
  st_shares : forever = false -> length (omap share h) = k;
  st_dups : omap dupped h = d;
  st_open : omap opened h ≡ₚ L ++ omap closed h }.

Definition safe h : Prop := authentic nonce h /\ (forever = false -> (length (omap share h) <= 1)%nat).

Lemma st_safe k d L h : (k <= 1)%nat -> st k d L h -> safe h.
Proof. intros Hk [H1 H2 _ _]. split; [done|]. intros Hf. rewrite H2; done. Qed.

(** A call that neither opens, closes nor sends a descriptor. *)
Definition quiet x : Prop := opened x = None /\ closed x = None /\ dupped x = None /\ share x = None.

Lemma st_quiet k d L x h : quiet x -> st k d L h -> st k d L (x :: h).
Proof.
  intros (H1 & H2 & H3 & H4) [A B C D]. split; cbn; rewrite ?H1, ?H2, ?H3, ?H4; done.
Qed.

Lemma st_opens k d L x h :
  closed x = None -> share x = None -> st k d L h -> st k (omap dupped [x] ++ d) (omap opened [x] ++ L) (x :: h).
Proof.
  intros H2 H4 [A B C D]. split; cbn; rewrite ?H2, ?H4; [done|done|..].
  - by destruct (dupped x); cbn; rewrite C.
  - by destruct (opened x); cbn; rewrite D.
Qed.

Lemma st_closes k d L fd a h : st k d (fd :: L) h -> st k d L (Entry (Close fd) a :: h).
Proof. intros [A B C D]. split; cbn; try done. rewrite D. cbn. apply Permutation_middle. Qed.

Lemma st_perm k d L L' h : L ≡ₚ L' -> st k d L h -> st k d L' h.
Proof. intros HL [A B C D]. split; try done. by rewrite <- HL. Qed.

(** ** Waiting for a command *)

Notation keeps := (keeps os safe).

(** The calls of [WaitForFdCmd] around the command. *)
Definition polling x : Prop :=
  match x with Entry e _ => match e with EpollCtlAdd _ _ | EpollCtlDel _ _ | EpollWait _ _ => True | _ => False end end.

Lemma polling_quiet x : polling x -> quiet x.
Proof. destruct x as [X [] a]; done. Qed.

(** A status that reports a failure. *)
Definition failure (s : Status) : Prop := code s <> kUnauthenticated /\ code s <> kOk.

Lemma absl_Status_code c m : code (absl_Status c m) = c.
Proof. unfold absl_Status. by destruct (Z.eqb_spec c 0) as [->|]. Qed.

Lemma errno_failure X (e : osE X) h m :
  ret (result (Entry e (os h X e))) < 0 -> failure (absl_Status (ErrnoToStatusCode (errno (result (Entry e (os h X e))))) m).
Proof.
  intros Hr%posix_errno. split; rewrite absl_Status_code; [apply errno_auth|]. by intros ?%errno_ok.
Qed.

Section Wait.
Context {A : Type} (s : FdServer) (fd : Z) (cmd : itree osE (res * A)).
Context (J : hist -> Prop) (Q : Z -> A -> hist -> Prop).
Hypothesis J_safe : forall h, J h -> safe h.
Hypothesis J_polling : forall x h, polling x -> J h -> J (x :: h).
Hypothesis Q_safe : forall n a h, Q n a h -> safe h.
Hypothesis Q_polling : forall n a x h, polling x -> Q n a h -> Q n a (x :: h).
(** The command answers, or fails for a reason and changes nothing of note. *)
Hypothesis cmd_keeps : forall h, J h -> keeps cmd (fun c h' =>
  if 0 <=? ret (fst c) then Q (ret (fst c)) (snd c) h' else errno (fst c) <> 0 /\ J h') h.

Definition waited (o : Status + Z * A) h : Prop :=
  match o with inl st => failure st /\ J h | inr (n, a) => 0 <= n /\ Q n a h end.

Lemma waited_safe o h : waited o h -> safe h.
Proof. destruct o as [st|[n a]]; cbn; [intros [_ H]; by apply J_safe|intros [_ H]; by eapply Q_safe]. Qed.

Lemma poll_call (e : osE res) (P : res -> hist -> Prop) h :
  (forall a, polling (Entry e a)) -> J h -> (J (Entry e (os h _ e) :: h) -> P (os h _ e) (Entry e (os h _ e) :: h)) ->
  keeps (syscall e) P h.
Proof.
  intros Hp Hj HP. assert (Hj' : J (Entry e (os h _ e) :: h)) by (apply J_polling; [apply Hp|done]).
  apply keeps_call; [by apply J_safe|]. cbn. split; [by apply J_safe|by apply HP].
Qed.

Lemma wait_round_keeps h : J h ->
  keeps (wait_round ErrnoToStatusCode s cmd) (fun lr h' => match lr with inl _ => J h' | inr o => waited o h' end) h.
Proof.
  intros Hj. unfold wait_round. apply keeps_bind. eapply keeps_mono; [by apply cmd_keeps|]. intros [r a] h1 _. cbn [fst snd].
  destruct (Z.leb_spec 0 (ret r)); [intros Hq; apply keeps_ret; [by eapply Q_safe|by cbn]|]. intros [He Hj1].
  destruct (errno r =? EINTR); [by apply keeps_ret; [apply J_safe|]|].
  destruct (errno r =? EAGAIN); cbn [negb].
  - apply keeps_bind. apply poll_call; [done..|]. intros Hj2.
    set (e := EpollWait _ _) in *. pose proof (posix_ret h1 _ e) as Hge. pose proof (errno_failure _ e h1 "epoll wait") as Hf.
    change (result (Entry e (os h1 res e))) with (os h1 res e) in *. destruct (os h1 res e) as [w err]. cbn [ret errno] in *.
    destruct (Z.eqb_spec w 0); [by apply keeps_ret; [apply J_safe|]|].
    destruct (Z.ltb_spec w 0); [|by apply keeps_ret; [apply J_safe|]].
    destruct (err =? EINTR); apply keeps_ret; try by apply J_safe. { done. } by split; [apply Hf|].
  - apply keeps_ret; [by apply J_safe|]. cbn. split; [|done]. split; rewrite absl_Status_code; [apply errno_auth|].
    by intros ?%errno_ok.
Qed.

Lemma WaitForFdCmd_keeps h : J h -> keeps (WaitForFdCmd ErrnoToStatusCode s fd cmd) waited h.
Proof.
  intros Hj. unfold WaitForFdCmd. apply keeps_bind. apply poll_call; [done..|]. intros Hj1.
  set (e := EpollCtlAdd _ _) in *. pose proof (errno_failure _ e h "epoll_ctl_add") as Hf.
  pose proof (posix_epoll_ctl h (ep_fd_ s) fd) as Hle. change (result (Entry e (os h res e))) with (os h res e) in *.
  fold e in Hle. destruct (os h res e) as [r err]. cbn [ret errno] in *. destruct (Z.eqb_spec r 0) as [->|Hne]; cbn [negb].
  - apply keeps_bind. eapply keeps_mono; [apply (keeps_iter os safe (fun _ => J)); [intros _; apply wait_round_keeps|done]|].
    intros o h2 _ Ho. apply keeps_bind, keeps_call; [by eapply waited_safe|].
    set (x := Entry (EpollCtlDel _ _) _). assert (Ho' : waited o (x :: h2)).
    { destruct o as [st0|[n a]]; destruct Ho; (split; [done|]); [by apply J_polling|by apply Q_polling]. }
    split; [by eapply waited_safe|]. by apply keeps_ret; [eapply waited_safe|].
  - apply keeps_ret; [by apply J_safe|]. split; [apply Hf; lia|done].
Qed.
End Wait.

(** ** The server *)

(** A call that does nothing of note. *)
Lemma quiet_call {X} (e : osE X) k d L (P : X -> hist -> Prop) h :
  (k <= 1)%nat -> (forall a, quiet (Entry e a)) -> st k d L h ->
  (st k d L (Entry e (os h _ e) :: h) -> P (os h _ e) (Entry e (os h _ e) :: h)) -> keeps (syscall e) P h.
Proof.
  intros Hk Hq Hs HP. assert (Hs' : st k d L (Entry e (os h _ e) :: h)) by (apply st_quiet; [apply Hq|done]).
  apply keeps_call; [by eapply st_safe|]. split; [by eapply st_safe|by apply HP].
Qed.

Lemma close_call k d L fd (P : res -> hist -> Prop) h :
  (k <= 1)%nat -> st k d (fd :: L) h -> (forall a h', st k d L h' -> P a h') -> keeps (syscall (Close fd)) P h.
Proof.
  intros Hk Hs HP. apply keeps_call; [by eapply st_safe|].
  assert (Hs' : st k d L (Entry (Close fd) (os h _ (Close fd)) :: h)) by (by apply st_closes).
  split; [by eapply st_safe|by apply HP].
Qed.

(** The state while a connection is served. *)
Definition conn k fd c L h : Prop := st k [fd] L h /\ head (omap accepted h) = Some c.

(** How many descriptors were sent, given the status. *)
Definition sent (s : Status) : nat := if code s =? kUnauthenticated then 0 else 1.

Lemma HandleConnection_keeps s c L h :
  nonce_ s = nonce -> conn 0 (dup_fd_ s) c L h ->
  keeps (HandleConnection ErrnoToStatusCode s c)
    (fun status h' => exists k, conn k (dup_fd_ s) c L h' /\ (k <= 1)%nat /\
       (code status = kUnauthenticated -> k = 0%nat) /\ (code status = kOk -> k = 1%nat)) h.
Proof.
  intros Hn Hc. unfold HandleConnection. apply keeps_bind.
  set (J h := conn 0 (dup_fd_ s) c L h).
  set (Q n (m : string * option cmsghdr) h := J h /\ head (omap received h) = Some (c, String.substring 0 (Z.to_nat n) (fst m))).
  assert (J_safe : forall h, J h -> safe h) by (intros h1 [Hs _]; by eapply st_safe, Hs; lia).
  assert (J_polling : forall x h, polling x -> J h -> J (x :: h)).
  { intros x h1 Hp [Hs Ha]. split; [by apply st_quiet; [apply polling_quiet|]|]. by destruct x as [X [] a]. }
  eapply keeps_mono; [apply (WaitForFdCmd_keeps s c (syscall (RecvMsg c)) J Q)|].
  - done.
  - done.
  - intros n a h1 [Hj _]. by apply J_safe.
  - intros n a x h1 Hp [Hj Hr]. split; [by apply J_polling|]. by destruct x as [X [] b].
  - intros h1 [Hs Ha]. apply (quiet_call _ 0 [dup_fd_ s] L); [lia|done|done|]. intros Hs'.
    pose proof (posix_errno h1 _ (RecvMsg c)) as He. cbn [result] in He. set (x := os h1 _ (RecvMsg c)) in *.
    destruct (Z.leb_spec 0 (ret (fst x))) as [Hle|Hlt]; [|by split; [apply He|split]].
    split; [by split|]. cbn. by rewrite (proj2 (Z.leb_le _ _) Hle).
  - done.
  - intros [st0|[n [buf m]]] h1 _; cbn [waited].
    + intros [[Hf1 Hf2] Hj]. apply keeps_ret; [by apply J_safe|]. exists 0%nat. split_and!; [done|lia|done|done].
    + intros (Hpos & [Hs Ha] & Hr). cbn [fst] in Hr. set (query := String.substring 0 (Z.to_nat n) buf) in *.
      destruct (String.eqb_spec query (nonce_ s)) as [Hq|Hq]; cbn [negb].
      * apply keeps_bind, keeps_call; [by eapply st_safe, Hs; lia|]. set (e := SendMsg _ _ _).
        assert (Hs1 : st 1 [dup_fd_ s] L (Entry e (os h1 _ e) :: h1)).
        { destruct Hs as [A B C D]. split; cbn; [|intros Hf; by rewrite B|done|done]. split; [|done]. split_and!; [done|done|].
          by rewrite Hr, Hq, Hn. }
        split; [by eapply st_safe, Hs1|].
        destruct (ret (os h1 _ e) =? _); cbn [negb]; (apply keeps_ret; [by eapply st_safe, Hs1|]); exists 1%nat.
        { by split_and!; [split|..]. }
        split_and!; [by split|done| |done]. rewrite absl_Status_code. by intros ?%errno_auth.
      * apply keeps_bind. apply (quiet_call _ 0 [dup_fd_ s] L); [lia|done|done|]. intros Hs'.
        apply keeps_ret; [by eapply st_safe, Hs'; lia|]. exists 0%nat. split_and!; [by split|lia|done|done].
Qed.

Lemma st_forever k k' d L h : forever = true -> st k d L h -> st k' d L h.
Proof. intros Hf [A B C D]. split; try done. by rewrite Hf. Qed.

(** The server's result: if it is OK then one descriptor was sent. *)
Definition served s L (status : Status) h : Prop :=
  exists k, st k [dup_fd_ s] L h /\ (k <= 1)%nat /\ (code status = kOk -> forever = false /\ k = 1%nat).

Lemma serve_round_keeps s L h :
  nonce_ s = nonce -> serve_forever_ s = forever -> st 0 [dup_fd_ s] L h ->
  keeps (serve_round ErrnoToStatusCode s)
    (fun lr h' => match lr with inl _ => st 0 [dup_fd_ s] L h' | inr status => served s L status h' end) h.
Proof.
  intros Hn Hfor Hs. unfold serve_round. apply keeps_bind.
  eapply keeps_mono; [apply (WaitForFdCmd_keeps s _ _ (st 0 [dup_fd_ s] L) (fun n _ => conn 0 (dup_fd_ s) n (n :: L)))|].
  - intros h1 H1. by eapply st_safe, H1; lia.
  - intros x h1 Hp H1. by apply st_quiet; [apply polling_quiet|].
  - intros n a h1 [H1 _]. by eapply st_safe, H1; lia.
  - intros n a x h1 Hp [H1 H2]. split; [by apply st_quiet; [apply polling_quiet|]|]. by destruct x as [X [] b].
  - intros h1 H1. set (e := Accept4 (sock_fd_ s)). apply keeps_bind, keeps_call; [by eapply st_safe, H1; lia|].
    pose proof (posix_errno h1 _ e) as He. change (result (Entry e (os h1 res e))) with (os h1 res e) in He.
    destruct (Z.leb_spec 0 (ret (os h1 _ e))) as [Hle|Hlt].
    + assert (H2 : conn 0 (dup_fd_ s) (ret (os h1 _ e)) (ret (os h1 _ e) :: L) (Entry e (os h1 _ e) :: h1)).
      { assert (Eo : if_ok (os h1 _ e) = Some (ret (os h1 _ e))) by (unfold if_ok; by rewrite (proj2 (Z.leb_le _ _) Hle)).
        pose proof (st_opens 0 [dup_fd_ s] L (Entry e (os h1 _ e)) h1 eq_refl eq_refl H1) as H2. cbn in H2. rewrite Eo in H2.
        split; [exact H2|]. cbn. by rewrite Eo. }
      split; [by eapply st_safe, H2; lia|]. apply keeps_ret; [by eapply st_safe, H2; lia|]. cbn [fst snd].
      by rewrite (proj2 (Z.leb_le _ _) Hle).
    + assert (H2 : st 0 [dup_fd_ s] L (Entry e (os h1 _ e) :: h1)).
      { apply st_quiet; [|done]. split_and!; [|done..]. cbn. unfold if_ok. by rewrite (proj2 (Z.leb_gt _ _) Hlt). }
      split; [by eapply st_safe, H2; lia|]. apply keeps_ret; [by eapply st_safe, H2; lia|]. cbn [fst snd].
      rewrite (proj2 (Z.leb_gt _ _) Hlt). split; [by apply He|done].
  - done.
  - intros [st0|[c []]] h1 _; cbn [waited].
    + intros [[_ Hok] H1]. apply keeps_ret; [by eapply st_safe, H1; lia|]. exists 0%nat. split_and!; [done|lia|done].
    + intros [_ H1]. apply keeps_bind. eapply keeps_mono; [by apply HandleConnection_keeps|].
      intros status h2 _ (k & [H2 _] & Hk & Hun & Hok). apply keeps_bind. eapply close_call; [exact Hk|exact H2|].
      intros _ h3 H3. assert (Hsafe : safe h3) by (by eapply st_safe, H3).
      destruct (Z.eqb_spec (code status) kUnauthenticated) as [E|E]; [apply keeps_ret; [done|]; by rewrite (Hun E) in H3|].
      destruct (Z.eqb_spec (code status) kOk) as [E'|E']; cbn [andb]; [|apply keeps_ret; [done|]; by exists k].
      rewrite Hfor. destruct forever eqn:Ef; apply keeps_ret; try done.
      * by eapply st_forever, H3.
      * exists k. split_and!; [done|done|]. intros _. split; [done|by apply Hok].
Qed.

Lemma Serve_keeps s L h :
  nonce_ s = nonce -> serve_forever_ s = forever -> st 0 [dup_fd_ s] L h ->
  keeps (Serve ErrnoToStatusCode s) (served s L) h.
Proof.
  intros Hn Hf Hs. unfold Serve. destruct (sock_fd_ s =? -1).
  - apply keeps_ret; [by eapply st_safe, Hs; lia|]. exists 0%nat. split_and!; [done|lia|done].
  - apply (keeps_iter os safe (fun _ => st 0 [dup_fd_ s] L)); [|done]. intros _ h1 H1. by apply serve_round_keeps.
Qed.

(** ** Construction and destruction *)

Definition valid (fd : Z) : option Z := if fd =? -1 then None else Some fd.

Definition live s : list Z := omap valid [sock_fd_ s; dup_fd_ s; ep_fd_ s].

Lemma close_if_keeps k d L fd h : (k <= 1)%nat ->
  st k d (omap valid [fd] ++ L) h -> keeps (close_if fd) (fun _ => st k d L) h.
Proof.
  intros Hk Hs. unfold close_if. cbn in Hs. unfold valid in Hs. destruct (Z.eqb_spec fd (-1)) as [->|Hne].
  - apply keeps_ret; [by eapply st_safe, Hs|done].
  - apply keeps_bind. eapply close_call; [done|exact Hs|]. intros _ h1 H1. by apply keeps_ret; [eapply st_safe, H1|].
Qed.

Lemma Destroy_keeps k d s h : (k <= 1)%nat -> st k d (live s) h -> keeps (Destroy s) (fun _ => st k d []) h.
Proof.
  intros Hk Hs. assert (E : live s = omap valid [sock_fd_ s] ++ omap valid [dup_fd_ s] ++ omap valid [ep_fd_ s] ++ [])
    by (unfold live; rewrite app_nil_r, <- !omap_app; done).
  rewrite E in Hs. unfold Destroy. apply keeps_bind. eapply keeps_mono; [by apply close_if_keeps|]. intros [] h1 _ H1.
  apply keeps_bind. eapply keeps_mono; [by apply close_if_keeps|]. intros [] h2 _ H2. by apply close_if_keeps.
Qed.

(** A call of [Init]. *)
Lemma init_call {X} (e : osE X) d L (P : X -> hist -> Prop) h :
  (forall a, closed (Entry e a) = None /\ share (Entry e a) = None) -> st 0 d L h ->
  (forall a h', -1 <= ret (result (Entry e a)) -> (ret (result (Entry e a)) < 0 -> errno (result (Entry e a)) <> 0) ->
     st 0 (omap dupped [Entry e a] ++ d) (omap opened [Entry e a] ++ L) h' -> P a h') ->
  keeps (syscall e) P h.
Proof.
  intros Hq Hs HP. destruct (Hq (os h _ e)) as [Hc Hsh]. pose proof (st_opens _ _ _ _ _ Hc Hsh Hs) as Hs'.
  apply keeps_call; [by eapply st_safe, Hs; lia|]. split; [by eapply st_safe, Hs'; lia|].
  apply HP; [apply posix_ret|apply posix_errno|done].
Qed.

(** The server after [Init], and what is open then. *)
Definition initialized (s0 : FdServer) (i : FdServer * (Status + string)) h : Prop :=
  let '(s, path) := i in
  nonce_ s = nonce_ s0 /\ serve_forever_ s = serve_forever_ s0 /\
  exists d, st 0 d (live s) h /\ match path with inl st => code st <> kOk | inr _ => d = [dup_fd_ s] end.

Lemma init_fails s0 s status d h :
  nonce_ s = nonce_ s0 -> serve_forever_ s = serve_forever_ s0 -> code status <> kOk -> st 0 d (live s) h ->
  keeps (Ret (s, inl status)) (initialized s0) h.
Proof.
  intros H1 H2 H3 Hs. apply keeps_ret; [by eapply st_safe, Hs; lia|]. split_and!; [done|done|]. by exists d.
Qed.

Lemma errno_not_ok e m : e <> 0 -> code (absl_Status (ErrnoToStatusCode e) m) <> kOk.
Proof. intros He. rewrite absl_Status_code. by intros ?%errno_ok. Qed.

Lemma if_ok_valid r : -1 <= ret r -> if_ok r = valid (ret r).
Proof. unfold if_ok, valid. intros H. destruct (Z.leb_spec 0 (ret r)), (Z.eqb_spec (ret r) (-1)); done || lia. Qed.

Lemma omap_none {A B} (f : A -> option B) a : f a = None -> omap f [a] = [].
Proof. intros E. cbn. by rewrite E. Qed.

(** A call after which [Init] goes on unless it failed. *)
Lemma init_step {X} (e : osE X) (s0 s : FdServer) m d (k : X -> itree osE (FdServer * (Status + string))) h :
  nonce_ s = nonce_ s0 -> serve_forever_ s = serve_forever_ s0 -> (forall a, quiet (Entry e a)) -> st 0 d (live s) h ->
  (forall a h, 0 <= ret (result (Entry e a)) -> st 0 d (live s) h -> keeps (k a) (initialized s0) h) ->
  keeps (a <- syscall e ;; if ret (result (Entry e a)) <? 0 then Ret (s, failed ErrnoToStatusCode m (result (Entry e a))) else k a)
    (initialized s0) h.
Proof.
  intros Hn Hf Hq Hs Hk. apply keeps_bind, (init_call e d (live s)); [intros a; split; apply Hq|done|].
  intros a h1 Hge He Hs1. destruct (Hq a) as (H1 & _ & H2 & _). rewrite (omap_none _ _ H1), (omap_none _ _ H2) in Hs1.
  destruct (Z.ltb_spec (ret (result (Entry e a))) 0).
  - by eapply init_fails; [..|apply errno_not_ok, He|].
  - by apply Hk.
Qed.

Lemma Init_keeps s0 h : sock_fd_ s0 = -1 -> dup_fd_ s0 = -1 -> ep_fd_ s0 = -1 -> st 0 [] [] h ->
  keeps (Init ErrnoToStatusCode s0) (initialized s0) h.
Proof.
  intros E1 E2 E3 Hs. unfold Init. destruct (String.length (nonce_ s0) =? 0)%nat.
  { apply (init_fails s0 s0 _ []); try done. unfold live. by rewrite E1, E2, E3. }
  rewrite E1. cbn [negb Z.eqb].
  apply keeps_bind, (init_call (Dup _) [] []); [done|done|]. clear h Hs. intros r h Hge He Hs. cbn in Hge, He, Hs.
  rewrite (if_ok_valid r Hge) in Hs. set (s1 := set_dup_fd (ret r) s0).
  assert (L1 : st 0 (omap valid [ret r]) (live s1) h).
  { eapply st_perm; [|by rewrite !app_nil_r in Hs]. unfold live. cbn. by rewrite E1, E3. }
  destruct (Z.ltb_spec (ret r) 0) as [Hr|Hr]; [by eapply init_fails; [..|apply errno_not_ok, He|]|].
  assert (Ed : omap valid [ret r] = [dup_fd_ s1]) by (cbn; unfold valid; by rewrite (proj2 (Z.eqb_neq (ret r) (-1)) ltac:(lia))).
  rewrite Ed in L1.
  apply keeps_bind, (init_call Socket [dup_fd_ s1] (live s1)); [done|done|]. clear h Hs L1. intros r2 h Hge2 He2 Hs. cbn in Hge2, He2, Hs.
  rewrite (if_ok_valid r2 Hge2) in Hs. set (s2 := set_sock_fd (ret r2) s1).
  assert (L2 : st 0 [dup_fd_ s1] (live s2) h).
  { eapply st_perm; [|exact Hs]. unfold live. cbn. rewrite E1, E3. cbn. by destruct (valid (ret r2)), (valid (ret r)). }
  destruct (Z.ltb_spec (ret r2) 0) as [Hr2|Hr2]; [by eapply init_fails; [..|apply errno_not_ok, He2|]|].
  apply (init_step (GetFl _) s0 s2 _ [dup_fd_ s1]); [done..|]. clear h L2 Hs. intros fl h _ L2.
  apply (init_step (SetFl _ _) s0 s2 _ [dup_fd_ s1]); [done..|]. clear h L2. intros _ h _ L2.
  apply (init_step (Bind _) s0 s2 _ [dup_fd_ s1]); [done..|]. clear h L2. intros _ h _ L2.
  apply (init_step (Listen _) s0 s2 _ [dup_fd_ s1]); [done..|]. clear h L2. intros _ h _ L2.
  apply (init_step (GetSockName _) s0 s2 _ [dup_fd_ s1]); [done..|]. clear h L2. intros [n [sz path]] h _ L2. cbn [snd].
  destruct (_ <? sz); [by eapply init_fails|].
  apply keeps_bind, (init_call EpollCreate1 [dup_fd_ s1] (live s2)); [done|done|]. clear h L2. intros r3 h Hge3 He3 Hs. cbn in Hge3, He3, Hs.
  rewrite (if_ok_valid r3 Hge3) in Hs. set (s3 := set_ep_fd (ret r3) s2).
  assert (L3 : st 0 [dup_fd_ s3] (live s3) h).
  { eapply st_perm; [|exact Hs]. unfold live. cbn. rewrite E3. cbn. destruct (valid (ret r3)), (valid (ret r2)), (valid (ret r)); solve_Permutation. }
  destruct (Z.ltb_spec (ret r3) 0) as [Hr3|Hr3]; [by eapply init_fails; [..|apply errno_not_ok, He3|]|].
  apply keeps_ret; [by eapply st_safe, L3; lia|]. split_and!; [done|done|]. by exists [dup_fd_ s3].
Qed.
End Props.

(** C18: the server of descriptors, whatever its clients and the kernel do.  At every
    moment of its life every descriptor it has sent was the copy of the one to share, and
    went to the connection accepted last, from which the nonce had been read; unless it
    serves for ever it sends at most one.  When it has run to its end, every descriptor
    it opened (the copy, the socket, the poll set, each connection) is closed exactly
    once, also when [Init] failed half-way; and a server that ends with OK has sent one
    descriptor. *)
Theorem fd_server_authenticates os ErrnoToStatusCode fd nonce timeout forever n :
  PosixLaws os -> ErrnoLaws ErrnoToStatusCode ->
  let '(h, o) := exec os n [] (InitServeDestroy ErrnoToStatusCode (FdServer_new fd nonce timeout forever)) in
  authentic nonce h /\ (forever = false -> (length (omap share h) <= 1)%nat) /\
  match o with
  | None => True
  | Some (r, _) =>
      omap opened h ≡ₚ omap closed h /\
      match r with
      | inl status => code status <> kOk /\ (forever = false -> omap share h = [])
      | inr status => code status = kOk -> forever = false /\ length (omap share h) = 1%nat
      end
  end.
Proof.
  intros Hos Her. set (s0 := FdServer_new fd nonce timeout forever).
  assert (Hk : keeps os (safe nonce forever) (InitServeDestroy ErrnoToStatusCode s0) (fun r h =>
    omap opened h ≡ₚ omap closed h /\
    match r with
    | inl status => code status <> kOk /\ (forever = false -> omap share h = [])
    | inr status => code status = kOk -> forever = false /\ length (omap share h) = 1%nat
    end) []).
  { unfold InitServeDestroy. apply keeps_bind. eapply keeps_mono; [apply (Init_keeps os ErrnoToStatusCode nonce forever); done|].
    intros [s path] h _ (Hn & Hf & d & Hs & Hp). cbn in Hn, Hf. apply keeps_bind. destruct path as [status|path].
    - apply keeps_ret; [by eapply st_safe, Hs; lia|]. apply keeps_bind. eapply keeps_mono; [eapply Destroy_keeps; [|exact Hs]; lia|].
      intros [] h1 Hi H1. apply keeps_ret; [done|]. split; [by rewrite (st_open _ _ _ _ _ _ H1)|]. split; [done|].
      intros Hff. by apply nil_length_inv, (st_shares _ _ _ _ _ _ H1).
    - subst d. apply keeps_bind. eapply keeps_mono; [by apply Serve_keeps|]. intros status h1 Hi (k & H1 & Hk & Hok).
      apply keeps_ret; [done|]. apply keeps_bind. eapply keeps_mono; [by eapply Destroy_keeps; [|exact H1]|].
      intros [] h2 Hi2 H2. apply keeps_ret; [done|]. split; [by rewrite (st_open _ _ _ _ _ _ H2)|].
      intros [Hff ->]%Hok. split; [done|]. by apply (st_shares _ _ _ _ _ _ H2). }
  specialize (Hk n). destruct (exec os n [] _) as [h [[r m]|]]; unfold safe in Hk; naive_solver.
Qed.
(** ** A client with the nonce is served *)

(** A command that is not ready, and that can be tried again. *)
Definition retry (r : res) : Prop := ret r < 0 /\ (errno r = EINTR \/ errno r = EAGAIN).

(** The kernel and the clients keep the server busy with other things only finitely
    often, by some measure of what happened: signals, calls that would block, and
    clients with another nonce. *)
Class Patient (os : answers osE) (nonce : string) (mu : hist -> nat) : Prop := {
  patient_mono h X (e : osE X) : (mu (Entry e (os h X e) :: h) <= mu h)%nat;
  patient_add h ep fd : ret (os h _ (EpollCtlAdd ep fd)) = 0;
  patient_wait h ep t : let r := os h _ (EpollWait ep t) in 0 < ret r \/ ret r < 0 /\ errno r = EINTR;
  patient_accept h fd : let r := os h _ (Accept4 fd) in
    0 <= ret r \/ retry r /\ (mu (Entry (Accept4 fd) r :: h) < mu h)%nat;
  patient_recv h c : let m := os h _ (RecvMsg c) in
    received (Entry (RecvMsg c) m) = Some (c, nonce) \/
    (0 <= ret (fst m) \/ retry (fst m)) /\ (mu (Entry (RecvMsg c) m :: h) < mu h)%nat;
  patient_send h c fd : ret (os h _ (SendMsg c good (Some fd))) = Z.of_nat (String.length good) }.

Section Serves.
Context (os : answers osE) (mu : hist -> nat) (nonce : string) `{!Patient os nonce mu}.
Context (ErrnoToStatusCode : Z -> Z).
Notation reaches := (reaches os).

(** A call whose answer does not matter. *)
Lemma any_call {X} (e : osE X) n k (P : X -> hist -> Prop) h :
  (mu h <= n)%nat -> length (omap share h) = k -> (forall a, share (Entry e a) = None) ->
  (forall a h', (mu h' <= n)%nat -> length (omap share h') = k -> P a h') -> reaches (syscall e) P h.
Proof.
  intros Hn Hk Hsh HP. apply reaches_call, HP; [pose proof (patient_mono h _ e); lia|].
  change (omap share (?x :: h)) with (match share x with Some y => y :: omap share h | None => omap share h end). by rewrite Hsh.
Qed.

Section Wait.
Context {A : Type} (s : FdServer) (fd : Z) (cmd : itree osE (res * A)) (n k : nat) (Q : Z -> A -> hist -> Prop).
Hypothesis Q_del : forall m a ep fd r h, Q m a h -> (mu (Entry (EpollCtlDel ep fd) r :: h) <= mu h)%nat -> Q m a (Entry (EpollCtlDel ep fd) r :: h).
Hypothesis cmd_reaches : forall h, (mu h <= n)%nat -> length (omap share h) = k ->
  reaches cmd (fun c h' => if 0 <=? ret (fst c) then Q (ret (fst c)) (snd c) h'
                           else retry (fst c) /\ (mu h' < mu h)%nat /\ length (omap share h') = k) h.

Lemma wait_round_reaches h : (mu h <= n)%nat -> length (omap share h) = k ->
  reaches (wait_round ErrnoToStatusCode s cmd) (fun lr h' =>
    match lr with
    | inl _ => ((mu h' <= n)%nat /\ length (omap share h') = k) /\ (mu h' < mu h)%nat
    | inr o => exists m a, o = inr (m, a) /\ Q m a h'
    end) h.
Proof.
  intros Hn Hk. unfold wait_round. apply reaches_bind. eapply reaches_mono; [by apply cmd_reaches|].
  intros [r a] h1. cbn [fst snd]. destruct (Z.leb_spec 0 (ret r)); [intros Hq; apply reaches_ret; eauto|].
  intros ([_ Hr] & Hlt & Hk1). destruct (Z.eqb_spec (errno r) EINTR) as [|Hne]; [apply reaches_ret; split_and!; lia|].
  destruct Hr as [?|E]; [done|]. rewrite (proj2 (Z.eqb_eq _ _) E). cbn [negb]. apply reaches_bind, reaches_call.
  set (e := EpollWait _ _). pose proof (patient_wait h1 (ep_fd_ s) (s32 (EpollTimeout s))) as Hw. fold e in Hw. cbn zeta in Hw.
  pose proof (patient_mono h1 _ e) as Hm. destruct (os h1 _ e) as [w err]. cbn [ret errno] in Hw |- *.
  rewrite (proj2 (Z.eqb_neq w 0)) by lia. destruct (Z.ltb_spec w 0).
  - destruct Hw as [?|[_ ->]]; [lia|]. cbn. apply reaches_ret. cbn in *. split_and!; lia.
  - apply reaches_ret. cbn in *. split_and!; lia.
Qed.

Lemma WaitForFdCmd_reaches h : (mu h <= n)%nat -> length (omap share h) = k ->
  reaches (WaitForFdCmd ErrnoToStatusCode s fd cmd) (fun o h' => exists m a, o = inr (m, a) /\ Q m a h') h.
Proof.
  intros Hn Hk. unfold WaitForFdCmd. apply reaches_bind, reaches_call. rewrite patient_add. cbn [Z.eqb negb].
  set (h1 := _ :: h). pose proof (patient_mono h _ (EpollCtlAdd (ep_fd_ s) fd)) as Hm. fold h1 in Hm. apply reaches_bind.
  eapply reaches_mono.
  - apply (reaches_iter os (fun _ h => (mu h <= n)%nat /\ length (omap share h) = k) (fun _ => mu)); [|split; [lia|done]].
    intros _ h2 [H2 Hk2]. by apply wait_round_reaches.
  - intros o h2 (m & a & -> & Hq). apply reaches_bind, reaches_call, reaches_ret. exists m, a. split; [done|].
    apply Q_del; [done|apply patient_mono].
Qed.
End Wait.

(** A round either serves the client or leaves less to wait for. *)
Lemma serve_round_reaches s h : nonce_ s = nonce -> serve_forever_ s = false ->
  reaches (serve_round ErrnoToStatusCode s) (fun lr h' =>
    match lr with
    | inl _ => length (omap share h') = length (omap share h) /\ (mu h' < mu h)%nat
    | inr status => status = OkStatus /\ length (omap share h') = S (length (omap share h))
    end) h.
Proof.
  intros Hn Hf. set (n := mu h). set (k := length (omap share h)). unfold serve_round. apply reaches_bind.
  eapply reaches_mono.
  { apply (WaitForFdCmd_reaches s (sock_fd_ s) _ n k (fun c _ h => (mu h <= n)%nat /\ length (omap share h) = k)); [| |lia|done].
    - intros m a ep fd r h1 [H1 H2] H3. split; [lia|done].
    - intros h1 H1 H2. set (e := Accept4 (sock_fd_ s)). apply reaches_bind, reaches_call, reaches_ret. cbn [fst snd].
      pose proof (patient_accept h1 (sock_fd_ s)) as Ha. fold e in Ha. cbn zeta in Ha. pose proof (patient_mono h1 _ e) as Hm.
      destruct Ha as [Ha|[[Hr Her] Ha]]; [rewrite (proj2 (Z.leb_le _ _) Ha); split; [lia|done]|].
      rewrite (proj2 (Z.leb_gt _ _) Hr). split_and!; done. }
  intros o h1 (c & [] & -> & H1 & H2). apply reaches_bind. unfold HandleConnection. apply reaches_bind. eapply reaches_mono.
  { apply (WaitForFdCmd_reaches s c (syscall (RecvMsg c)) n k (fun m a h =>
      length (omap share h) = k /\ (mu h <= n)%nat /\ (String.substring 0 (Z.to_nat m) (fst a) = nonce \/ (mu h < n)%nat))); [| |done|done].
    - intros m a ep fd r h2 (Ha & Hb & Hc) Hd. split_and!; [done|lia|]. destruct Hc; [by left|right; lia].
    - intros h2 H3 H4. set (e := RecvMsg c). apply reaches_call. pose proof (patient_recv h2 c) as Hr. fold e in Hr. cbn zeta in Hr.
      pose proof (patient_mono h2 _ e) as Hm. destruct (os h2 _ e) as [[r err] [buf ctl]]. cbn in Hr, Hm |- *.
      destruct (Z.leb_spec 0 r) as [Hle|Hlt].
      + split_and!; [done|lia|]. destruct Hr as [[= ->]|[_ ?]]; [by left|right; lia].
      + destruct Hr as [?|[[?|Hr] ?]]; [done|lia|]. split_and!; done. }
  intros o2 h2 (m & [buf ctl] & -> & H3 & H4 & H5). cbn [fst] in H5. rewrite Hn.
  destruct (String.eqb_spec (String.substring 0 (Z.to_nat m) buf) nonce) as [Eq|Eq]; cbn [negb].
  - apply reaches_bind, reaches_call. rewrite patient_send, Z.eqb_refl. cbn [negb]. apply reaches_ret, reaches_bind, reaches_call.
    rewrite Hf. cbn. apply reaches_ret. split; [done|]. cbn. by rewrite H3.
  - destruct H5 as [?|H5]; [done|]. apply reaches_bind, (any_call _ (mu h2) k); [lia|done|done|]. intros _ h3 H6 H7.
    apply reaches_ret, reaches_bind, (any_call _ (mu h2) k); [lia|done|done|]. intros _ h4 H8 H9. cbn.
    apply reaches_ret. split; [done|lia].
Qed.

End Serves.

(** C32: a client with the nonce is served.  If signals, calls that would block and
    clients with another nonce come only finitely often, and no call fails otherwise, then
    a server that was set up and serves once returns OK: it has sent the descriptor once,
    however many clients without the nonce came before. *)
Theorem fd_server_serves os mu ErrnoToStatusCode s h :
  Patient os (nonce_ s) mu -> serve_forever_ s = false -> sock_fd_ s <> -1 ->
  exists n h' m, exec os n h (Serve ErrnoToStatusCode s) = (h', Some (OkStatus, m)) /\
    length (omap share h') = S (length (omap share h)).
Proof.
  intros Hp Hf Hsock. assert (Hr : reaches os (Serve ErrnoToStatusCode s)
    (fun status h' => status = OkStatus /\ length (omap share h') = S (length (omap share h))) h).
  { unfold Serve. rewrite (proj2 (Z.eqb_neq _ _) Hsock).
    apply (reaches_iter os (fun _ h' => length (omap share h') = length (omap share h)) (fun _ => mu)); [|done].
    intros _ h1 H1. rewrite <- H1. by apply (serve_round_reaches os mu (nonce_ s)). }
  destruct Hr as (n & h' & r & m & Hx & -> & Hl). eauto.
Qed.

(** ** A kernel with one client that has to wait and one without the nonce *)

Definition is_accept x : bool := match x with Entry e _ => match e with Accept4 _ => true | _ => false end end.
Definition is_recv x : bool := match x with Entry e _ => match e with RecvMsg _ => true | _ => false end end.
Definition count (f : entry osE -> bool) h : nat := length (filter (fun x => f x = true) h).

Definition demo_os : answers osE := fun h X e =>
  match e with
  | Dup _ => mk_res 10 0
  | Socket => mk_res 11 0
  | EpollCreate1 => mk_res 12 0
  | GetSockName _ => (mk_res 0 0, (8, (nul ++ "abcde")%string))
  | EpollWait _ _ => mk_res 1 0
  | Accept4 _ => if (count is_accept h =? 0)%nat then mk_res (-1) EAGAIN else mk_res (20 + Z.of_nat (count is_accept h)) 0
  | RecvMsg _ => if (count is_recv h =? 0)%nat then (mk_res 5 0, ("wrong"%string, None)) else (mk_res 6 0, ("secret"%string, None))
  | SendMsg _ data _ => mk_res (Z.of_nat (String.length data)) 0
  | _ => mk_res 0 0
  end.

Definition demo_mu h : nat := (1 - count is_accept h) + (1 - count is_recv h).

#[local] Arguments demo_mu h : simpl never.
#[local] Arguments count f h : simpl never.

Definition demo_errno (e : Z) : Z := if e =? 0 then kOk else 2.

#[export] Instance demo_errno_laws : ErrnoLaws demo_errno.
Proof. split; intros e; unfold demo_errno; destruct (Z.eqb_spec e 0); done. Qed.

#[export] Instance demo_posix_laws : PosixLaws demo_os.
Proof.
  split; [intros h X []..|done]; cbn; repeat case_match; cbn; lia || done.
Qed.

Lemma count_cons f x h : count f (x :: h) = ((if f x then 1 else 0) + count f h)%nat.
Proof. unfold count. rewrite filter_cons. by destruct (f x). Qed.

#[export] Instance demo_patient : Patient demo_os "secret" demo_mu.
Proof.
  split; cbn zeta.
  - intros h X e. unfold demo_mu. rewrite !count_cons. lia.
  - done.
  - intros. left. done.
  - intros h fd. cbn. destruct (Nat.eqb_spec (count is_accept h) 0) as [E|E]; [right|left; cbn; lia].
    split; [by split; [|right]|]. unfold demo_mu. rewrite !count_cons. cbn. lia.
  - intros h c. cbn. destruct (Nat.eqb_spec (count is_recv h) 0) as [E|E]; [right|by left].
    split; [by left|]. unfold demo_mu. rewrite !count_cons. cbn. lia.
  - done.
Qed.

Definition demo_server : FdServer := FdServer_new 3 "secret" (Some 1000000000) false.

Lemma fd_server_authenticates_witness :
  exists h, exec demo_os 100 [] (InitServeDestroy demo_errno demo_server) = (h, Some (inr OkStatus, 69%nat)) /\
    authentic "secret" h /\ omap opened h ≡ₚ omap closed h /\ omap share h = [(22, 10)].
Proof.
  pose proof (fd_server_authenticates demo_os demo_errno 3 "secret" (Some 1000000000) false 100 _ _) as H.
  fold demo_server in H. destruct (exec demo_os 100 [] (InitServeDestroy demo_errno demo_server)) as [h o] eqn:E.
  assert (Hc : o = Some (inr OkStatus, 69%nat) /\ omap share h = [(22, 10)]).
  { clear H. vm_compute in E. injection E as <- <-. split; reflexivity. }
  destruct Hc as [-> Hc]. destruct H as (H1 & _ & H2 & _). exists h. auto.
Defined.

Lemma fd_server_serves_witness :
  exists n h' m, exec demo_os n [] (Serve demo_errno (set_sock_fd 11 demo_server)) = (h', Some (OkStatus, m)) /\
    length (omap share h') = 1%nat.
Proof.
  apply (fd_server_serves demo_os demo_mu demo_errno (set_sock_fd 11 demo_server) []); [apply demo_patient|reflexivity|discriminate].
Defined.
End FdProps.

(** ** The client closes its socket *)

Module ClientProps.
Import Fd FdProps.

Section Client.
Context (os : answers osE) (ErrnoToStatusCode : Z -> Z).
Notation keeps := (keeps os (fun _ => True)).

(** The descriptor came with a control message. *)
Definition came (fd : Z) (h : history osE) : Prop :=
  exists c r buf ctl, Entry (RecvMsg c) (r, (buf, Some ctl)) ∈ h /\ cmsg_fd ctl = fd /\
    cmsg_level ctl = SOL_SOCKET /\ cmsg_type ctl = SCM_RIGHTS /\ cmsg_len ctl = CMSG_LEN_int.

Lemma exchange_keeps fd path nonce L h : omap opened h = L ++ omap closed h ->
  keeps (exchange ErrnoToStatusCode fd path nonce) (fun r h' =>
    omap opened h' = L ++ omap closed h' /\ match r with inr fd => came fd h' | inl _ => True end) h.
Proof.
  intros Hh. unfold exchange.
  assert (Hcall : forall {X} (e : osE X) (P : X -> history osE -> Prop) h, (forall a, opened (Entry e a) = None /\ closed (Entry e a) = None) ->
    omap opened h = L ++ omap closed h -> (forall a h', Entry e a ∈ h' -> omap opened h' = L ++ omap closed h' -> P a h') ->
    keeps (syscall e) P h).
  { intros X e P h1 He H1 HP. apply keeps_call; [done|]. split; [done|]. destruct (He (os h1 _ e)) as [Ho Hc]. apply HP; [left|].
    set (x := Entry e (os h1 _ e)) in *. clearbody x. cbn. by rewrite Ho, Hc. }
  apply keeps_bind, Hcall; [done|done|]. clear h Hh. intros r h _ Hh. case_match; [by apply keeps_ret|].
  apply keeps_bind, Hcall; [done|done|]. clear h Hh. intros r1 h _ Hh. do 3 (case_match; [by apply keeps_ret|]).
  apply keeps_bind, Hcall; [done|done|]. clear h Hh. intros [r2 [buf ctl]] h Hin Hh. do 2 (case_match; [by apply keeps_ret|]).
  apply keeps_ret; [done|]. split; [done|]. cbn. destruct ctl as [ctl|]; [|done]. cbn.
  destruct (Z.eqb_spec (cmsg_level ctl) SOL_SOCKET), (Z.eqb_spec (cmsg_type ctl) SCM_RIGHTS), (Z.eqb_spec (cmsg_len ctl) CMSG_LEN_int);
    cbn; try done. by exists fd, r2, buf, ctl.
Qed.

(** Whatever happens the client closes what it opened, and a descriptor it returns is
    the one that came with the reply. *)
Lemma get_shared_fd_closes path nonce n :
  let '(h, o) := exec os n [] (GetSharedFd ErrnoToStatusCode path nonce) in
  match o with
  | Some (r, _) => omap opened h = omap closed h /\ match r with inr fd => came fd h | inl _ => True end
  | None => True
  end.
Proof.
  assert (Hk : keeps (GetSharedFd ErrnoToStatusCode path nonce) (fun r h =>
    omap opened h = omap closed h /\ match r with inr fd => came fd h | inl _ => True end) []).
  { unfold GetSharedFd. case_match; [by apply keeps_ret|]. apply keeps_bind, keeps_call; [done|]. split; [done|].
    set (r := os [] _ Socket). destruct (Z.ltb_spec (ret r) 0) as [Hr|Hr].
    - apply keeps_ret; [done|]. cbn. fold r. unfold if_ok. by rewrite (proj2 (Z.leb_gt _ _) Hr).
    - apply keeps_bind. eapply keeps_mono; [apply (exchange_keeps _ _ _ [ret r])|].
      + cbn. fold r. unfold if_ok. by rewrite (proj2 (Z.leb_le _ _) Hr).
      + intros o h _ [Ho Hc]. apply keeps_bind, keeps_call; [done|]. split; [done|]. apply keeps_ret; [done|]. split.
        * cbn. by rewrite Ho.
        * destruct o as [|fd]; [done|]. destruct Hc as (c & r1 & buf & ctl & Hin & Hrest). exists c, r1, buf, ctl. split; [by right|done]. }
  specialize (Hk n). destruct (exec os n [] _) as [h [[r m]|]]; [apply Hk|done].
Qed.
End Client.

(** The timeout passed to [epoll_wait] never polls, below 2^31 milliseconds; at 2^32
    milliseconds it does. *)
Lemma epoll_timeout_never_polls s ns : timeout_ s = Some ns -> 0 <= ns < 2 ^ 31 * 1000000 ->
  s32 (EpollTimeout s) = (if ns =? 0 then -1 else Z.max 1 (ns / 1000000)).
Proof.
  intros E Hns. unfold EpollTimeout. rewrite E. destruct (Z.eqb_spec ns 0); [done|].
  rewrite Z.quot_div_nonneg by lia. pose proof (Z.div_pos ns 1000000 ltac:(lia) ltac:(lia)).
  assert (ns / 1000000 < 2 ^ 31) by (apply Z.div_lt_upper_bound; lia).
  destruct (Z.eqb_spec (ns / 1000000) 0) as [->|]; [done|]. rewrite s32_id by lia. lia.
Qed.

Lemma epoll_timeout_may_poll fd nonce forever : s32 (EpollTimeout (FdServer_new fd nonce (Some (2 ^ 32 * 1000000)) forever)) = 0.
Proof. reflexivity. Qed.
End ClientProps.

(** ** The limit on the threads *)

Module AsyncProps.
Import Async.
Implicit Type a : async.

#[global] Instance caller_eq_dec : EqDecision caller.
Proof. solve_decision. Defined.

(** The calls that have passed the test. *)
Definition below (cs : gmap nat caller) : nat := size (filter (fun p => snd p = BelowLimit) cs).

Lemma below_size cs : (below cs <= size cs)%nat.
Proof. apply map_subseteq_size, map_filter_subseteq. Qed.

Lemma below_insert c p cs : cs !! c = None -> below (<[c := p]> cs) = ((if decide (p = BelowLimit) then 1 else 0) + below cs)%nat.
Proof.
  intros E. unfold below. destruct (decide (p = BelowLimit)) as [->|Hne].
  - rewrite map_filter_insert_True by done. rewrite map_size_insert_None; [done|]. rewrite map_lookup_filter_None. by left.
  - rewrite map_filter_insert_False by done. by rewrite delete_id.
Qed.

Lemma below_delete c p cs : cs !! c = Some p -> below cs = ((if decide (p = BelowLimit) then 1 else 0) + below (delete c cs))%nat.
Proof.
  intros E. rewrite <- (insert_delete_id cs c p E) at 1. apply below_insert. apply lookup_delete_eq.
Qed.

(** With at most [N] calls at a time. *)
Record ok (N : nat) a : Prop := {
  ok_threads : nr_threads_ a = Z.of_nat (threads a);
  ok_limit : Z.of_nat (threads a + below (callers a)) <= kMaxNrThreads + Z.of_nat N - 1 }.

Lemma async_step_ok N ev a a' : (0 < N)%nat -> (size (callers a') <= N)%nat -> ok N a -> async_step ev a = Some a' -> ok N a'.
Proof.
  intros HN Hsz [H1 H2] E. destruct ev as [c|c|c|]; cbn in E.
  - destruct (callers a !! c) eqn:Ec; [done|]. injection E as <-. split; cbn; [done|]. by rewrite below_insert.
  - destruct (callers a !! c) as [[]|] eqn:Ec; try done. rewrite (below_delete _ _ _ Ec) in H2. cbn in H2.
    destruct (Z.leb_spec kMaxNrThreads (nr_threads_ a)); injection E as <-; split; cbn in *; try done.
    pose proof (below_size (<[c := BelowLimit]> (callers a))). unfold kMaxNrThreads in *. lia.
  - destruct (callers a !! c) as [[]|] eqn:Ec; try done. injection E as <-. rewrite (below_delete _ _ _ Ec) in H2. rewrite decide_True in H2 by done.
    split; cbn in *; lia.
  - destruct (threads a) as [|n] eqn:En; [done|]. injection E as <-. split; cbn; lia.
Qed.

(** Every state on the way has at most [N] calls in progress. *)
Fixpoint at_most (N : nat) (evs : list event) a : Prop :=
  (size (callers a) <= N)%nat /\
  match evs with [] => True | ev :: evs => match async_step ev a with Some a => at_most N evs a | None => True end end.

(** The counter is the number of threads, and the limit of [kMaxNrThreads] holds when
    calls do not overlap; [N] calls at a time can exceed it by [N - 1], because the test
    and the increment are separate. *)
Lemma async_limit N evs a : (0 < N)%nat -> at_most N evs new_async -> async_run evs new_async = Some a ->
  nr_threads_ a = Z.of_nat (threads a) /\ nr_threads_ a <= kMaxNrThreads + Z.of_nat N - 1.
Proof.
  intros HN Hm Hr. assert (H0 : ok N new_async) by (split; [done|]; change (threads new_async + below (callers new_async))%nat with 0%nat; unfold kMaxNrThreads; lia).
  assert (Hok : ok N a).
  { revert Hm Hr H0. generalize new_async. induction evs as [|ev evs IH]; intros a0 [Hs Hm]; cbn; [by intros [= ->]|].
    destruct (async_step ev a0) as [a1|] eqn:E; [|done]. intros Hr H0. apply (IH a1 Hm Hr).
    eapply async_step_ok; [exact HN| |exact H0|exact E]. by destruct evs; destruct Hm. }
  destruct Hok as [H1 H2]. split; [done|]. lia.
Qed.

Fixpoint serve_in_turn (n : nat) : list event :=
  match n with O => [] | S n => serve_in_turn n ++ [Call n; Load n; Start n] end.

Lemma async_limit_exceeded :
  threads <$> async_run (serve_in_turn 41 ++ [Call 41; Call 42; Load 41; Load 42; Start 41; Start 42]) new_async = Some 43%nat.
Proof. vm_compute. reflexivity. Qed.
End AsyncProps.
