(* ===== verification/Gtid.v ===== *)
(** * Thread identifiers

    [Gtid] of [src/lib/base.h], [src/lib/base.cc]: the encoding of a thread in 64 bits, the
    process a thread belongs to, read from [/proc], and the names of threads. *)

From stdpp Require Import strings pretty.
From S2P Require Import Prelude.
From ITree Require Import ITree.
From S2P Require Import Interaction.
#[local] Open Scope Z_scope.

(** ** The encoding *)

Module Gtid.

(** [__builtin_clz] *)
Definition clz (x : Z) : Z := 31 - Z.log2 x.

(** [ghost_tid_seqnum_bits]: [None] when there is no such file; the result is [None] for a
    failed [CHECK]. *)
Definition ghost_tid_seqnum_bits (pid_max_max_file : option Z) : option Z :=
  let pid_max_max := default 4194304 pid_max_max_file in
  if pid_max_max <? 2 then None
  else
    let xx := 32 - clz (pid_max_max - 1) in
    Some (63 - xx).

(** [Gtid::tid] for this number of bits of the sequence number; [pid_t] has 32 bits. *)
Definition tid (seqnum_bits gtid : Z) : Z := s32 (Z.shiftr gtid seqnum_bits).

(** ** The process of a thread *)

(** What a stream says of the thread: the words of the lines of [status], and the number
    in [ghost/gtid]. *)
Variant procE : Type -> Type :=
  | Open (pid : Z) : procE Z
  | OpenAt (dir : Z) (name : string) : procE Z
  | FdOpen (fd : Z) : procE (option Z)
  | ReadStatus (stream : Z) : procE (list (list string))
  | ReadGtid (stream : Z) : procE (option Z)
  | FClose (stream : Z) : procE unit
  | Close (fd : Z) : procE unit.

#[local] Open Scope itree_scope.
#[local] Open Scope Z_scope.

(** [operator>>] to an integer, on the word that follows, if any: digits after a sign. *)
Fixpoint digits (s : string) (acc : Z) : Z :=
  match s with
  | EmptyString => acc
  | String c s =>
      let d := Z.of_nat (Ascii.nat_of_ascii c) - 48 in
      if (0 <=? d) && (d <=? 9) then digits s (10 * acc + d) else acc
  end.

Definition read_int (word : option string) : Z :=
  match word with
  | None => 0
  | Some s =>
      match s with
      | String c s' =>
          if Ascii.eqb c (Ascii.ascii_of_nat 45) then Z.max (- 2 ^ 63) (- digits s' 0)
          else Z.min (2 ^ 63 - 1) (digits s 0)
      | EmptyString => 0
      end
  end.

(** The first line whose first word is the field. *)
Fixpoint GetTgidFromFile (lines : list (list string)) : Z :=
  match lines with
  | [] => -1
  | [] :: lines => GetTgidFromFile lines
  | (field :: words) :: lines =>
      if String.eqb field "Tgid:" then read_int (head words) else GetTgidFromFile lines
  end.

Definition GetGtidFromFile (n : option Z) : Z := default (-1) n.

(** The variables of [Gtid::tgid] at [done:]; a stream is [None] when null. *)
Record vars := mk_vars { v_tgid : Z; dirfd : Z; statusfd : Z; gtidfd : Z; status_stream : option Z; gtid_stream : option Z }.

Definition close_if (fd : Z) : itree procE unit := if 0 <=? fd then syscall (Close fd) else Ret tt.

(** A stream is closed; its descriptor must have been handed over ([None]: a [CHECK]
    failed). *)
Definition fclose_stream (stream : option Z) (fd : Z) (k : itree procE (option Z)) : itree procE (option Z) :=
  match stream with
  | None => k
  | Some st => if 0 <=? fd then Ret None else syscall (FClose st) ;;; k
  end.

(** From [done:] on. *)
Definition finish (v : vars) : itree procE (option Z) :=
  fclose_stream (gtid_stream v) (gtidfd v)
    (fclose_stream (status_stream v) (statusfd v)
       (close_if (gtidfd v) ;;; close_if (statusfd v) ;;; close_if (dirfd v) ;;; Ret (Some (s32 (v_tgid v))))).

(** [Gtid::tgid]; -1 if the thread is gone, or another has its number now. *)
Definition tgid (seqnum_bits id : Z) : itree procE (option Z) :=
  d <- syscall (Open (tid seqnum_bits id)) ;;
  if d <? 0 then finish (mk_vars (-1) d (-1) (-1) None None) else
  s <- syscall (OpenAt d "status") ;;
  if s <? 0 then finish (mk_vars (-1) d s (-1) None None) else
  g <- syscall (OpenAt d "ghost/gtid") ;;
  if g <? 0 then finish (mk_vars (-1) d s g None None) else
  ss <- syscall (FdOpen s) ;;
  match ss with
  | None => finish (mk_vars (-1) d s g None None)
  | Some ss =>
      gs <- syscall (FdOpen g) ;;
      match gs with
      | None => finish (mk_vars (-1) d (-1) g (Some ss) None)
      | Some gs =>
          lines <- syscall (ReadStatus ss) ;;
          n <- syscall (ReadGtid gs) ;;
          let tgid := GetTgidFromFile lines in
          let gtid := GetGtidFromFile n in
          finish (mk_vars (if negb (gtid =? id) then -1 else tgid) d (-1) (-1) (Some ss) (Some gs))
      end
  end.

(** ** Names *)

(** [get_gtid_name_map] *)
Notation names := (gmap Z string).

(** The format "%c%d/%d/%lld". *)
Definition auto_name (seqnum_bits : Z) (idx : nat) (gtid : Z) : string :=
  (String (Ascii.ascii_of_nat (65 + idx mod 26)) (pretty (idx / 26)%nat) ++ "/" ++ pretty (tid seqnum_bits gtid) ++ "/" ++ pretty gtid)%string.

Definition get_gtid_name (seqnum_bits gtid : Z) (m : names) : string * names :=
  let m := match m !! gtid with
           | None => <[gtid := auto_name seqnum_bits (size m) gtid]> m
           | Some _ => m
           end in
  (default ""%string (m !! gtid), m).

(** [None]: the [CHECK] against uninitialized identifiers failed. *)
Definition assign_name (id : Z) (name : string) (m : names) : option names :=
  if id =? 0 then None else Some (<[id := name]> m).

Definition describe (seqnum_bits id : Z) (m : names) : string * names :=
  if id <=? 0 then
    (match id with
     | 0 => "<null>" | -1 => "<agent>" | -2 => "<idle>"
     | -3 => "<gtid-3>" | -4 => "<gtid-4>" | -5 => "<gtid-5>"
     | _ => "<unknown>"
     end%string, m)
  else get_gtid_name seqnum_bits id m.

(** [gtid] and [Gtid::FromTid], given what [/proc] has for the thread: no file, or the
    number in it if there is one. *)
Definition FromTid (file : option (option Z)) : option Z :=
  match file with
  | None => None
  | Some n => let gtid := GetGtidFromFile n in if gtid <? 0 then None else Some gtid
  end.
End Gtid.
