(* ===== verification/GtidProps.v ===== *)
(** * Thread identifiers: encoding, processes and names *)

From stdpp Require Import strings pretty.
From S2P Require Import Prelude.
From ITree Require Import ITree.
From S2P Require Import Interaction Gtid.
#[local] Open Scope Z_scope.

Module GtidProps.
Import Gtid.

(** ** The encoding *)

(** The kernel's encoding of thread [pid] and a sequence number. *)
Definition encode (bits pid seqnum : Z) : Z := Z.shiftl pid bits + seqnum.

Lemma seqnum_bits_spec file bits : ghost_tid_seqnum_bits file = Some bits -> default 4194304 file < 2 ^ 31 ->
  32 <= bits <= 62 /\ default 4194304 file <= 2 ^ (63 - bits).
Proof.
  unfold ghost_tid_seqnum_bits, clz. destruct (Z.ltb_spec (default 4194304 file) 2) as [|Hp]; [done|]. set (p := default 4194304 file) in *.
  intros [= <-] Hlt. assert (H0 : 0 <= Z.log2 (p - 1)) by apply Z.log2_nonneg.
  assert (H1 : Z.log2 (p - 1) < 31) by (apply Z.log2_lt_pow2; lia).
  replace (63 - (63 - (32 - (31 - Z.log2 (p - 1))))) with (Z.succ (Z.log2 (p - 1))) by lia.
  pose proof (Z.log2_spec (p - 1) ltac:(lia)). lia.
Qed.

(** Identifiers keep the thread.  For every maximal number of processes a kernel
    may report (2 at least), the identifier of a thread with any sequence number that has
    the bits left is a positive 64-bit number, and [tid] recovers the thread from it. *)
Theorem gtid_roundtrip file bits pid seqnum :
  ghost_tid_seqnum_bits file = Some bits -> default 4194304 file < 2 ^ 31 ->
  0 <= pid < default 4194304 file -> 0 <= seqnum < 2 ^ bits ->
  0 <= encode bits pid seqnum < 2 ^ 63 /\ tid bits (encode bits pid seqnum) = pid.
Proof.
  intros Hb Hp Hpid Hseq. destruct (seqnum_bits_spec file bits Hb Hp) as [Hbits Hmax]. unfold encode, tid.
  rewrite Z.shiftl_mul_pow2, Z.shiftr_div_pow2 by lia. assert (H2 : 0 < 2 ^ bits) by lia. split.
  - replace (2 ^ 63) with (2 ^ (63 - bits) * 2 ^ bits) by (rewrite <- Z.pow_add_r by lia; f_equal; lia). nia.
  - rewrite Z.add_comm, Z.div_add, Z.div_small by lia. apply s32_id. lia.
Qed.

(** ** Processes *)

(** A descriptor or a stream; [fdopen] makes a stream of a descriptor. *)
Inductive handle := Fd (fd : Z) | Stream (st : Z).

(** The descriptor, if it is one. *)
Definition fdh (fd : Z) : list handle := if 0 <=? fd then [Fd fd] else [].
#[local] Arguments fdh fd : simpl never.

Definition acquired (x : entry procE) : list handle :=
  match x with
  | Entry e a =>
      match e in procE X return X -> list handle with
      | Open _ | OpenAt _ _ => fdh
      | FdOpen _ => fun st => match st with Some st => [Stream st] | None => [] end
      | _ => fun _ => []
      end a
  end.

Definition released (x : entry procE) : list handle :=
  match x with
  | Entry e a =>
      match e in procE X return X -> list handle with
      | FdOpen fd => fun st => match st with Some _ => [Fd fd] | None => [] end
      | FClose st => fun _ => [Stream st]
      | Close fd => fun _ => [Fd fd]
      | _ => fun _ => []
      end a
  end.

Section Tgid.
Context (os : answers procE) (bits id : Z).
Implicit Type h : history procE.

Notation holds := (holds acquired released).

(** What was read of the thread. *)
Definition checked (r : Z) h : Prop :=
  r <> -1 -> exists d s g ss gs lines n,
    Entry (Open (tid bits id)) d ∈ h /\ Entry (OpenAt d "status") s ∈ h /\ Entry (OpenAt d "ghost/gtid") g ∈ h /\
    Entry (FdOpen s) (Some ss) ∈ h /\ Entry (FdOpen g) (Some gs) ∈ h /\
    Entry (ReadStatus ss) lines ∈ h /\ Entry (ReadGtid gs) n ∈ h /\
    default (-1) n = id /\ r = s32 (GetTgidFromFile lines).

Lemma close_if_reaches fd L L' (P : unit -> history procE -> Prop) h :
  holds L h -> L ≡ₚ fdh fd ++ L' ->
  (forall h', holds L' h' -> (forall x, x ∈ h -> x ∈ h') -> P tt h') -> reaches os (close_if fd) P h.
Proof.
  intros Hh HL HP. unfold close_if, fdh in *. destruct (0 <=? fd).
  - apply reaches_call. destruct (os h _ (Close fd)). apply HP; [|intros x Hx; by right].
    eapply holds_cons; [exact Hh|]. cbn. rewrite HL. cbn. apply Permutation_cons_append.
  - apply reaches_ret, HP; [|done]. unfold holds in *. by rewrite Hh, HL.
Qed.

Definition sth (st : option Z) : list handle := match st with Some st => [Stream st] | None => [] end.

(** What the variables hold. *)
Definition held (v : vars) : list handle :=
  sth (gtid_stream v) ++ sth (status_stream v) ++ fdh (gtidfd v) ++ fdh (statusfd v) ++ fdh (dirfd v).

Lemma fclose_reaches st fd k L (P : option Z -> history procE -> Prop) h :
  holds (sth st ++ L) h -> (is_Some st -> fd < 0) ->
  (forall h', holds L h' -> h ⊆ h' -> reaches os k P h') -> reaches os (fclose_stream st fd k) P h.
Proof.
  intros Hh Hfd HP. destruct st as [st|]; cbn; [|by apply HP]. rewrite (proj2 (Z.leb_gt 0 fd)) by (by apply Hfd).
  apply reaches_bind, reaches_call, HP; [|set_solver]. eapply holds_cons; [exact Hh|]. cbn. apply Permutation_cons_append.
Qed.

Lemma finish_reaches v h : holds (held v) h ->
  (is_Some (gtid_stream v) -> gtidfd v < 0) -> (is_Some (status_stream v) -> statusfd v < 0) ->
  reaches os (finish v) (fun r h' => r = Some (s32 (v_tgid v)) /\ holds [] h' /\ h ⊆ h') h.
Proof.
  intros Hh H1 H2. unfold finish. eapply fclose_reaches; [exact Hh|done|]. intros h1 Hh1 S1.
  eapply fclose_reaches; [exact Hh1|done|]. intros h2 Hh2 S2.
  apply reaches_bind. eapply close_if_reaches; [exact Hh2|reflexivity|]. intros h3 Hh3 S3.
  apply reaches_bind. eapply close_if_reaches; [exact Hh3|reflexivity|]. intros h4 Hh4 S4.
  apply reaches_bind. eapply (close_if_reaches _ _ []); [exact Hh4|by rewrite app_nil_r|]. intros h5 Hh5 S5.
  apply reaches_ret. split_and!; [done|done|set_solver].
Qed.

Lemma call_reaches {X S} (e : procE X) (k : X -> itree procE S) (P : S -> history procE -> Prop) L h :
  holds L h ->
  (forall a h', h ⊆ h' -> Entry e a ∈ h' ->
     (forall L', acquired (Entry e a) ++ L ≡ₚ L' ++ released (Entry e a) -> holds L' h') -> reaches os (k a) P h') ->
  reaches os (ITree.bind (syscall e) k) P h.
Proof.
  intros Hh HP. apply reaches_bind, reaches_call, HP; [set_solver|by left|]. intros L' HL. by eapply holds_cons.
Qed.

(** An exit before anything was read. *)
Lemma early_exit v h : holds (held v) h -> (is_Some (gtid_stream v) -> gtidfd v < 0) ->
  (is_Some (status_stream v) -> statusfd v < 0) -> v_tgid v = -1 ->
  reaches os (finish v) (fun r h => exists z, r = Some z /\ holds [] h /\ checked z h) h.
Proof.
  intros Hh H1 H2 Ht. eapply reaches_mono; [by apply finish_reaches|]. intros r h' (-> & H3 & _). rewrite Ht.
  eexists. split_and!; [done|done|]. by intros ?.
Qed.

Lemma fdh_open fd : 0 <= fd -> fdh fd = [Fd fd].
Proof. intros H. unfold fdh. by rewrite (proj2 (Z.leb_le 0 fd) H). Qed.

Lemma tgid_reaches : reaches os (tgid bits id) (fun r h => exists z, r = Some z /\ holds [] h /\ checked z h) [].
Proof.
  unfold tgid. apply (call_reaches _ _ _ []); [constructor|]. intros d h1 _ E1 H1.
  destruct (Z.ltb_spec d 0) as [Hd|Hd]; [apply early_exit; try (by intros []); [|done]; apply H1; cbn; by rewrite !app_nil_r|].
  apply (call_reaches _ _ _ [Fd d]); [apply H1; cbn; by rewrite (fdh_open d Hd)|]. clear H1. intros s h2 S2 E2 H2.
  destruct (Z.ltb_spec s 0) as [Hs|Hs].
  { apply early_exit; try (by intros []); [|done]. apply H2. unfold held. cbn. by rewrite (fdh_open d Hd), app_nil_r. }
  apply (call_reaches _ _ _ [Fd s; Fd d]); [apply H2; cbn; by rewrite (fdh_open s Hs)|]. clear H2. intros g h3 S3 E3 H3.
  destruct (Z.ltb_spec g 0) as [Hg|Hg].
  { apply early_exit; try (by intros []); [|done]. apply H3. unfold held. cbn. by rewrite (fdh_open d Hd), (fdh_open s Hs), app_nil_r. }
  apply (call_reaches _ _ _ [Fd g; Fd s; Fd d]); [apply H3; cbn; by rewrite (fdh_open g Hg)|]. clear H3. intros [ss|] h4 S4 E4 H4.
  2: { apply early_exit; try (by intros []); [|done]. apply H4. unfold held. cbn.
       by rewrite (fdh_open d Hd), (fdh_open s Hs), (fdh_open g Hg). }
  apply (call_reaches _ _ _ [Stream ss; Fd g; Fd d]); [apply H4; cbn; solve_Permutation|]. clear H4. intros [gs|] h5 S5 E5 H5.
  2: { apply early_exit; try (by intros []); [|done]. apply H5. unfold held. cbn. by rewrite (fdh_open d Hd), (fdh_open g Hg). }
  assert (H6 : holds [Stream gs; Stream ss; Fd d] h5) by (apply H5; cbn; solve_Permutation). clear H5.
  apply (call_reaches _ _ _ [Stream gs; Stream ss; Fd d]); [done|]. intros lines h6 S6 E6 H7.
  apply (call_reaches _ _ _ [Stream gs; Stream ss; Fd d]); [by apply H7|]. clear H6 H7. intros n h7 S7 E7 H7.
  eapply reaches_mono; [apply finish_reaches; [|done..]|].
  { apply H7. unfold held. cbn. by rewrite (fdh_open d Hd), app_nil_r. }
  intros r h8 (-> & H8 & S8). eexists. split_and!; [done|done|]. cbn. unfold GetGtidFromFile.
  destruct (Z.eqb_spec (default (-1) n) id) as [Eid|Eid]; cbn; [|by intros ?]. intros _. exists d, s, g, ss, gs, lines, n.
  split_and!; try done; set_solver.
Qed.
End Tgid.

(** C31: [Gtid::tgid] on any thread and whatever [/proc] says: it returns, no [CHECK]
    fails, and every descriptor and stream it opened is closed once, on all of its
    paths.  A process other than -1 is the one in the [status] of the thread's directory,
    where the identifier read from the same directory after it is the one asked for:
    a thread that has got the number of an old one is not taken for it. *)
Theorem tgid_guards_against_reuse os bits id :
  exists n h z m, exec os n [] (tgid bits id) = (h, Some (Some z, m)) /\
    mjoin (acquired <$> h) ≡ₚ mjoin (released <$> h) /\ checked bits id z h.
Proof.
  destruct (tgid_reaches os bits id) as (n & h & r & m & Hx & z & -> & Hh & Hc). exists n, h, z, m. done.
Qed.

(** ** Names *)

Definition slash : Ascii.ascii := Ascii.ascii_of_nat 47.

Fixpoint no_slash (s : string) : Prop := match s with EmptyString => True | String c s => c <> slash /\ no_slash s end.

(** What follows the last slash. *)
Fixpoint last_field (acc s : string) : string :=
  match s with
  | EmptyString => acc
  | String c s => if Ascii.eqb c slash then last_field s s else last_field acc s
  end.

Lemma last_field_no_slash acc s : no_slash s -> last_field acc s = acc.
Proof. induction s as [|c s IH]; cbn; [done|]. intros [Hc Hs]. destruct (Ascii.eqb_spec c slash); [done|by apply IH]. Qed.

Lemma last_field_app acc a b : no_slash b -> last_field acc (a ++ String slash b) = b.
Proof.
  intros Hb. revert acc. induction a as [|c a IH]; intros acc.
  - change (last_field acc (String slash b) = b). cbn. by apply last_field_no_slash.
  - change (last_field acc (String c (a ++ String slash b)) = b). cbn [last_field]. destruct (Ascii.eqb c slash); apply IH.
Qed.

Lemma pretty_N_go_no_slash x s : no_slash s -> no_slash (pretty_N_go x s).
Proof.
  revert s. induction (N.lt_wf_0 x) as [x _ IH]; intros s Hs. destruct (decide (0 < x)%N) as [Hx|Hx].
  - rewrite pretty_N_go_step by done. apply IH; [by apply N.div_lt|]. split; [|done].
    unfold pretty_N_char. by repeat case_match.
  - by assert (x = 0%N) as -> by lia.
Qed.

Lemma pretty_Z_no_slash (z : Z) : no_slash (pretty z).
Proof.
  assert (HN : forall n : N, no_slash (pretty n)).
  { intros n. unfold pretty, pretty_N. case_decide; [done|]. by apply pretty_N_go_no_slash. }
  unfold pretty, pretty_Z. destruct z as [|p|p]; [done|apply (HN (Npos p))|].
  change (no_slash (String (Ascii.ascii_of_nat 45) (pretty (Npos p)))). split; [done|apply HN].
Qed.

Lemma string_app_assoc (a b c : string) : (a ++ b ++ c)%string = ((a ++ b) ++ c)%string.
Proof.
  induction a as [|x a IH]; [done|]. change (String x (a ++ (b ++ c)) = String x ((a ++ b) ++ c))%string. by rewrite IH.
Qed.

Lemma auto_name_field bits i g : last_field "" (auto_name bits i g) = pretty g.
Proof.
  assert (E : auto_name bits i g =
    ((String (Ascii.ascii_of_nat (65 + i mod 26)) (pretty (i / 26)%nat) ++ "/" ++ pretty (tid bits g)) ++ String slash (pretty g))%string).
  { unfold auto_name. change (String slash (pretty g)) with ("/" ++ pretty g)%string. by rewrite !string_app_assoc. }
  rewrite E. apply last_field_app, pretty_Z_no_slash.
Qed.

Lemma auto_name_unique bits i j g g' : auto_name bits i g = auto_name bits j g' -> g = g'.
Proof. intros E%(f_equal (last_field "")). rewrite !auto_name_field in E. by apply (inj pretty) in E. Qed.

Inductive name_op := Assign (id : Z) (name : string) | Describe (id : Z).

(** Any use of the names; [None] is a failed [CHECK]. *)
Fixpoint names_run (bits : Z) (ops : list name_op) (m : names) : option names :=
  match ops with
  | [] => Some m
  | Assign id name :: ops => match assign_name id name m with Some m => names_run bits ops m | None => None end
  | Describe id :: ops => names_run bits ops (describe bits id m).2
  end.

(** The name given to [g] last. *)
Fixpoint assigned (g : Z) (ops : list name_op) : option string :=
  match ops with
  | [] => None
  | Assign id name :: ops => match assigned g ops with Some n => Some n | None => if id =? g then Some name else None end
  | Describe _ :: ops => assigned g ops
  end.

Lemma describe_name bits g g' m s : m !! g = Some s -> (describe bits g' m).2 !! g = Some s.
Proof.
  intros Hm. unfold describe. destruct (g' <=? 0); [done|]. unfold get_gtid_name. cbn.
  destruct (m !! g') eqn:E; [done|]. rewrite lookup_insert_ne; [done|]. intros ->. congruence.
Qed.

Lemma names_run_keeps bits ops m m' g s : m !! g = Some s -> names_run bits ops m = Some m' ->
  m' !! g = Some (default s (assigned g ops)).
Proof.
  revert m s. induction ops as [|[id name|id] ops IH]; intros m s Hm; cbn; [by intros [= <-]|..].
  - unfold assign_name. destruct (id =? 0); [done|]. destruct (Z.eqb_spec id g) as [->|Hne].
    + intros Hr. rewrite (IH _ name (lookup_insert_eq _ _ _) Hr). by destruct (assigned g ops).
    + intros Hr. rewrite (IH _ s) with (2 := Hr) by (by rewrite lookup_insert_ne). by destruct (assigned g ops).
  - intros Hr. by apply (IH _ s (describe_name _ _ _ _ _ Hm) Hr).
Qed.

(** Names of threads are stable and tell threads apart.  The name [describe] gives
    to a thread (one with a positive identifier) is what it gives ever after, until
    [assign_name] gives it another, which it gives then; what is done to other threads
    does not matter.  Two threads that get their names from [describe] never get the
    same, whenever they are described. *)
Theorem gtid_names bits g m ops m' :
  0 < g -> names_run bits ops (describe bits g m).2 = Some m' ->
  (describe bits g m').1 = default (describe bits g m).1 (assigned g ops) /\
  (forall g' m2, 0 < g' -> m !! g = None -> m2 !! g' = None -> g <> g' -> (describe bits g m).1 <> (describe bits g' m2).1).
Proof.
  intros Hg Hr. assert (Hd : forall g m, 0 < g -> describe bits g m = get_gtid_name bits g m)
    by (intros g0 m0 H0; unfold describe; by rewrite (proj2 (Z.leb_gt g0 0))).
  assert (Hn : (describe bits g m).2 !! g = Some (describe bits g m).1).
  { rewrite Hd by done. unfold get_gtid_name. cbn. destruct (m !! g) eqn:E; [by rewrite E|]. by rewrite lookup_insert_eq. }
  split.
  - pose proof (names_run_keeps _ _ _ _ _ _ Hn Hr) as Hm. rewrite (Hd g m' Hg). unfold get_gtid_name. cbn. by rewrite Hm, Hm.
  - intros g' m2 Hg' E E' Hne. rewrite !Hd by done. unfold get_gtid_name. cbn. rewrite E, E', !lookup_insert_eq. cbn.
    intros Heq%auto_name_unique. done.
Qed.

Lemma gtid_roundtrip_witness :
  0 <= encode 41 1234 5 < 2 ^ 63 /\ tid 41 (encode 41 1234 5) = 1234.
Proof. apply (gtid_roundtrip None 41 1234 5); [reflexivity|cbn; lia|cbn; lia|lia]. Defined.

Lemma gtid_names_witness :
  (describe 41 7 (default ∅ (names_run 41 [Describe 8; Assign 7 "agent"; Describe 9] (describe 41 7 ∅).2))).1 = "agent"%string /\
  (describe 41 7 ∅).1 <> (describe 41 9 ∅).1.
Proof.
  destruct (gtid_names 41 7 ∅ [Describe 8; Assign 7 "agent"; Describe 9]
    (default ∅ (names_run 41 [Describe 8; Assign 7 "agent"; Describe 9] (describe 41 7 ∅).2))) as [H1 H2]; [lia|reflexivity|].
  split; [exact H1|]. apply H2; [lia|reflexivity|reflexivity|lia].
Defined.
End GtidProps.
