(* ===== verification/Shmem.v ===== *)
(** * Named shared memory

    [src/shared/shmem.h], [src/shared/shmem.cc]: regions that a process hosts under a
    name and that other processes find through its descriptors in [/proc].  The world is
    the regions and what each process has open. *)

From stdpp Require Import strings pretty.
From S2P Require Import Prelude.
#[local] Open Scope Z_scope.

Definition kHugepageSize : Z := 2 * 1024 * 1024.
Definition kMemFdPrefix : string := "ghost-shmem-".
Definition kHeaderVersion : Z := 1.
Definition kHeaderReservedBytes : Z := 4096.
Definition UINT32_MAX : Z := 2 ^ 32 - 1.

(** The longest name [memfd_create] takes. *)
Definition MFD_NAME_MAX : nat := 249.

(** [roundup2] of [lib/base.h] on [size_t]. *)
Definition roundup2_size (x y : Z) : Z := Z.land (u64 (x + (y - 1))) (u64 (Z.lnot (y - 1))).

Record InternalHeader := mk_header {
  header_version : Z; mapping_size : Z; header_size : Z; client_size : Z;
  ready : bool; finished : bool; owning_pid : Z; client_version : Z }.

(** New memory is zero. *)
Definition zero_header : InternalHeader := mk_header 0 0 0 0 false false 0 0.

(** An open file: the target of its link in [/proc], and the region if it is one. *)
Record file := mk_file { link : string; region_of : option nat }.

(** The files of a process by descriptor. *)
Notation table := (list (option file)).

(** Regions with their sizes; the counter of [GetShmemBlob] of each process. *)
Record world := mk_world {
  regions : list (InternalHeader * Z);
  tables : gmap Z table;
  unique : gmap Z nat }.

(** [shmem_] and [hdr_] are the region. *)
Record GhostShmem := mk_shmem { shmem_ : option nat; map_size_ : Z; memfd_ : Z }.

Definition GhostShmem_new : GhostShmem := mk_shmem None 0 (-1).

Module Shmem.
Section Shmem.
(** Which links can be read and which files opened, and how much memory locked. *)
Context (readable openable : file -> bool) (mlock : Z -> bool).
Notation W := (M world).

(** ** Descriptors *)

(** The lowest descriptor that is free. *)
Fixpoint open_lowest (f : file) (t : table) : Z * table :=
  match t with
  | [] => (0, [Some f])
  | None :: t => (0, Some f :: t)
  | Some g :: t => let '(i, t) := open_lowest f t in (i + 1, Some g :: t)
  end.

Definition open_file (pid : Z) (f : file) : W Z := fun w =>
  let '(fd, t) := open_lowest f (default [] (tables w !! pid)) in
  Some (fd, mk_world (regions w) (<[pid := t]> (tables w)) (unique w)).

Definition close (pid fd : Z) : W unit := mmod (fun w =>
  mk_world (regions w) (alter (fun t => <[Z.to_nat fd := None]> t) pid (tables w)) (unique w)).

Definition starts_with (needle s : string) : bool := String.prefix needle s.

(** The first file whose link starts with the needle and that can be opened. *)
Fixpoint find_file (needle : string) (t : table) : option file :=
  match t with
  | [] => None
  | None :: t => find_file needle t
  | Some f :: t =>
      if negb (readable f) then find_file needle t
      else if starts_with needle (link f) then
        if openable f then Some f else find_file needle t
      else find_file needle t
  end.

(** Called by process [me]. *)
Definition OpenGhostShmemFd (me : Z) (suffix : string) (pid : Z) : W Z :=
  let needle := ("/memfd:" ++ kMemFdPrefix ++ suffix)%string in
  w <- mget ;;
  match tables w !! pid with
  | None => mret (-1)
  | Some t => match find_file needle t with None => mret (-1) | Some f => open_file me f end
  end.

(** ** Regions *)

Definition header (r : nat) : W InternalHeader := w <- mget ;; deref (fst <$> regions w !! r).

Definition set_header (r : nat) (f : InternalHeader -> InternalHeader) : W unit :=
  mmod (fun w => mk_world (alter (fun p => (f (fst p), snd p)) r (regions w)) (tables w) (unique w)).

(** [memfd_create] and [ftruncate]: a region of zeros, and its descriptor. *)
Definition memfd_create (me : Z) (name : string) (size : Z) : W (nat * Z) :=
  CHECK (String.length name <=? MFD_NAME_MAX)%nat ;;;
  w <- mget ;;
  let r := length (regions w) in
  mmod (fun w => mk_world (regions w ++ [(zero_header, size)]) (tables w) (unique w)) ;;;
  fd <- open_file me (mk_file ("/memfd:" ++ name ++ " (deleted)") (Some r)) ;;
  mret (r, fd).

(** The header the creator writes: what it does not write stays zero. *)
Definition created (map_size me : Z) (h : InternalHeader) : InternalHeader :=
  mk_header kHeaderVersion map_size kHeaderReservedBytes (u64 (map_size - kHeaderReservedBytes))
    (ready h) (finished h) me (client_version h).

(** [mmap] fails for a length of zero. *)
Definition CreateShmem (me version : Z) (suffix : string) (size : Z) : W GhostShmem :=
  fd <- OpenGhostShmemFd me suffix me ;;
  CHECK (fd =? -1) ;;;
  let map_size := roundup2_size (u64 (size + kHeaderReservedBytes)) kHugepageSize in
  rfd <- memfd_create me (kMemFdPrefix ++ suffix) map_size ;;
  let '(r, fd) := rfd in
  CHECK (map_size <=? UINT32_MAX) ;;;
  CHECK (negb (map_size =? 0)) ;;;
  set_header r (created map_size me) ;;;
  mret (mk_shmem (Some r) map_size fd).

Definition MarkReady (s : GhostShmem) : W unit :=
  r <- deref (shmem_ s) ;;
  set_header r (fun h => mk_header (header_version h) (mapping_size h) (header_size h) (client_size h)
                           true (finished h) (owning_pid h) (client_version h)).

(** [ConnectShmem] up to the wait. *)
Definition ConnectBegin (me : Z) (suffix : string) (pid : Z) : W (option GhostShmem) :=
  fd <- OpenGhostShmemFd me suffix pid ;;
  if fd <? 0 then mret None
  else
    w <- mget ;;
    t <- deref (tables w !! me) ;;
    f <- deref (mjoin (t !! Z.to_nat fd)) ;;
    r <- deref (region_of f) ;;
    p <- deref (regions w !! r) ;;
    let map_size := snd p in
    CHECK (negb (map_size =? 0)) ;;;
    CHECK (mlock map_size) ;;;
    mret (Some (mk_shmem (Some r) map_size fd)).

(** One poll of [WaitForReady], and once ready the checks that follow; [false]: not
    ready yet. *)
Definition ConnectEnd (s : GhostShmem) (version pid : Z) : W bool :=
  r <- deref (shmem_ s) ;;
  h <- header r ;;
  if negb (ready h) then mret false
  else
    CHECK (header_version h =? kHeaderVersion) ;;;
    CHECK (client_version h =? version) ;;;
    CHECK (mapping_size h =? map_size_ s) ;;;
    CHECK (header_size h =? kHeaderReservedBytes) ;;;
    CHECK (owning_pid h =? pid) ;;;
    mret true.

Definition size (s : GhostShmem) : W Z := r <- deref (shmem_ s) ;; h <- header r ;; mret (client_size h).

Definition Owner (s : GhostShmem) : W Z :=
  match shmem_ s with None => mret 0 | Some r => h <- header r ;; mret (owning_pid h) end.

(** [~GhostShmem] *)
Definition Destroy (me : Z) (s : GhostShmem) : W unit :=
  (match shmem_ s with
   | None => mret tt
   | Some r =>
       set_header r (fun h => mk_header (header_version h) (mapping_size h) (header_size h) (client_size h)
                                (ready h) true (owning_pid h) (client_version h))
   end) ;;;
  when (0 <=? memfd_ s) (close me (memfd_ s)).

Definition GetShmemBlob (me size : Z) : W GhostShmem :=
  w <- mget ;;
  let n := default 0%nat (unique w !! me) in
  mmod (fun w => mk_world (regions w) (tables w) (<[me := S n]> (unique w))) ;;;
  s <- CreateShmem me 0 ("blob-" ++ pretty n) size ;;
  MarkReady s ;;;
  mret s.
End Shmem.
End Shmem.
