(* ===== verification/ShmemProps.v ===== *)
(** * Shared memory is found by its name

    The region a process attaches to is the one created under the name, of the size
    asked for; and what the code does not guard against. *)

From stdpp Require Import strings pretty.
From S2P Require Import Prelude Shmem.
#[local] Open Scope Z_scope.

Module ShmemProps.
Import Shmem.

(** ** Sizes *)

Lemma lnot_huge : u64 (Z.lnot (kHugepageSize - 1)) = Z.shiftl (2 ^ 43 - 1) 21.
Proof. reflexivity. Qed.

(** A multiple of a huge page. *)
Lemma roundup2_huge x : 0 <= x -> x + (kHugepageSize - 1) < 2 ^ 64 ->
  roundup2_size x kHugepageSize = (x + (kHugepageSize - 1)) / kHugepageSize * kHugepageSize.
Proof.
  intros Hx Hlt. unfold roundup2_size. rewrite u64_id, lnot_huge by (unfold kHugepageSize in *; lia).
  set (y := x + (kHugepageSize - 1)). assert (Hy : 0 <= y < 2 ^ 64) by (unfold y, kHugepageSize in *; lia).
  change kHugepageSize with (2 ^ 21). rewrite <- Z.shiftr_div_pow2, <- Z.shiftl_mul_pow2 by lia.
  apply Z.bits_inj'. intros i Hi. rewrite Z.land_spec, !Z.shiftl_spec by lia.
  change (2 ^ 43 - 1) with (Z.ones 43). destruct (Z.ltb_spec i 21).
  - rewrite !(Z.testbit_neg_r _ (i - 21)) by lia. apply andb_false_r.
  - rewrite Z.shiftr_spec by lia. replace (i - 21 + 21) with i by lia. destruct (Z.ltb_spec i 64).
    + rewrite Z.ones_spec_low by lia. apply andb_true_r.
    + rewrite (testbit_high y 64 i) by lia. done.
Qed.

(** The whole mapping, or 0 where the sum wraps. *)
Definition mapping (size : Z) : Z := roundup2_size (u64 (size + kHeaderReservedBytes)) kHugepageSize.

Lemma mapping_spec size : 0 <= size < 2 ^ 64 - kHeaderReservedBytes ->
  mapping size = 0 \/
  (size + kHeaderReservedBytes <= mapping size < size + kHeaderReservedBytes + kHugepageSize /\ (kHugepageSize | mapping size)).
Proof.
  intros Hs. unfold mapping. unfold kHeaderReservedBytes in *. rewrite u64_id by lia.
  destruct (Z.ltb_spec (size + 4096 + (kHugepageSize - 1)) (2 ^ 64)) as [Hlt|Hge].
  - right. rewrite roundup2_huge by lia. unfold kHugepageSize in *.
    pose proof (Z.div_mod (size + 4096 + (2 * 1024 * 1024 - 1)) (2 * 1024 * 1024) ltac:(lia)).
    pose proof (Z.mod_pos_bound (size + 4096 + (2 * 1024 * 1024 - 1)) (2 * 1024 * 1024) ltac:(lia)).
    split; [lia|]. by exists ((size + 4096 + (2 * 1024 * 1024 - 1)) / (2 * 1024 * 1024)).
  - left. unfold roundup2_size. assert (E : u64 (size + 4096 + (kHugepageSize - 1)) = size + 4096 + (kHugepageSize - 1) - 2 ^ 64).
    { unfold u64. symmetry. apply (Z.mod_unique _ _ 1); unfold kHugepageSize in *; lia. }
    rewrite E, lnot_huge. set (y := size + 4096 + (kHugepageSize - 1) - 2 ^ 64).
    assert (Hy : 0 <= y < 2 ^ 21) by (unfold y, kHugepageSize in *; lia).
    apply Z.bits_inj'. intros i Hi. rewrite Z.land_spec, Z.bits_0, Z.shiftl_spec by lia. destruct (Z.ltb_spec i 21).
    + rewrite (Z.testbit_neg_r _ (i - 21)) by lia. apply andb_false_r.
    + by rewrite (testbit_high y 21 i) by lia.
Qed.

Lemma mapping_wraps size : 2 ^ 64 - kHeaderReservedBytes <= size < 2 ^ 64 ->
  mapping size = if size =? 2 ^ 64 - kHeaderReservedBytes then 0 else kHugepageSize.
Proof.
  unfold kHeaderReservedBytes. intros Hs. unfold mapping, kHeaderReservedBytes.
  assert (E : u64 (size + 4096) = size + 4096 - 2 ^ 64) by (unfold u64; symmetry; apply (Z.mod_unique _ _ 1); lia).
  rewrite E, roundup2_huge by (unfold kHugepageSize; lia). unfold kHugepageSize. destruct (Z.eqb_spec size (2 ^ 64 - 4096)) as [->|Hne]; [done|].
  rewrite <- (Zdiv_unique (size + 4096 - 2 ^ 64 + (2 * 1024 * 1024 - 1)) (2 * 1024 * 1024) 1 (size + 4096 - 2 ^ 64 - 1)) by lia. lia.
Qed.

(** ** Descriptors *)

Section Props.
Context (readable openable : file -> bool) (mlock : Z -> bool).
Notation find_file := (find_file readable openable).
Notation CreateShmem := (CreateShmem readable openable).
Notation ConnectBegin := (ConnectBegin readable openable mlock).

Lemma open_lowest_at f t : let '(i, t') := open_lowest f t in 0 <= i /\ t' !! Z.to_nat i = Some (Some f).
Proof.
  induction t as [|[g|] t IH]; cbn; [done| |done]. destruct (open_lowest f t) as [i t']. destruct IH as [Hi IH].
  split; [lia|]. replace (Z.to_nat (i + 1)) with (S (Z.to_nat i)) by lia. done.
Qed.

(** The file found is the new one if there was none. *)
Lemma find_file_opened needle f t :
  find_file needle t = None -> readable f = true -> openable f = true -> starts_with needle (link f) = true ->
  find_file needle (open_lowest f t).2 = Some f.
Proof.
  intros Hn Hr Ho Hs. induction t as [|[g|] t IH]; cbn in *; [by rewrite Hr, Hs, Ho| |by rewrite Hr, Hs, Ho].
  destruct (open_lowest f t) as [i t']. cbn in *.
  destruct (readable g); cbn in *; [|by apply IH]. destruct (starts_with needle (link g)); [|by apply IH].
  destruct (openable g); [done|by apply IH].
Qed.

Definition memfd_file (suffix : string) (r : nat) : file :=
  mk_file ("/memfd:" ++ (kMemFdPrefix ++ suffix) ++ " (deleted)") (Some r).

Definition needle_of (suffix : string) : string := ("/memfd:" ++ kMemFdPrefix ++ suffix)%string.

Lemma needle_prefix suffix r : starts_with (needle_of suffix) (link (memfd_file suffix r)) = true.
Proof.
  assert (H : forall a b, String.prefix a (a ++ b) = true).
  { intros a b. induction a as [|c a IH]; [by destruct b|].
    change (String c a ++ b)%string with (String c (a ++ b)%string). cbn. by destruct (Ascii.ascii_dec c c). }
  exact (H (needle_of suffix) " (deleted)"%string).
Qed.

(** ** Creation *)

Lemma list_alter_app_r' {A} (f : A -> A) l x n : n = length l -> alter f n (l ++ [x]) = l ++ [f x].
Proof. intros ->. rewrite alter_app_r_alt by done. by rewrite Nat.sub_diag. Qed.

Lemma create_inv me v suffix size w s w1 :
  CreateShmem me v suffix size w = Some (s, w1) ->
  let r := length (regions w) in
  let t := default [] (tables w !! me) in
  let '(fd, t') := open_lowest (memfd_file suffix r) t in
  find_file (needle_of suffix) t = None /\ mapping size <> 0 /\ mapping size <= UINT32_MAX /\
  s = mk_shmem (Some r) (mapping size) fd /\
  w1 = mk_world (regions w ++ [(created (mapping size) me zero_header, mapping size)]) (<[me := t']> (tables w)) (unique w).
Proof.
  intros E. cbn zeta. unfold Shmem.CreateShmem, Shmem.OpenGhostShmemFd, mbind in E. cbn [mget] in E. fold (needle_of suffix) in E.
  assert (Hf : find_file (needle_of suffix) (default [] (tables w !! me)) = None /\
    (match tables w !! me with
     | Some t => match find_file (needle_of suffix) t with Some f => open_file me f | None => mret (-1) end
     | None => mret (-1)
     end) w = Some (-1, w)).
  { destruct (tables w !! me) as [t|]; cbn in *; [|done]. destruct (find_file (needle_of suffix) t) as [f|]; [|done].
    unfold open_file in E. pose proof (open_lowest_at f (default [] (tables w !! me))) as Ho.
    destruct (open_lowest f _) as [i t']. destruct Ho as [Hi _]. unfold CHECK in E.
    destruct (Z.eqb_spec i (-1)); [lia|done]. }
  destruct Hf as [Hn Hf]. unfold mget in E. rewrite Hf in E. change (CHECK (-1 =? -1) w) with (Some (tt, w)) in E. cbn beta zeta iota in E. unfold memfd_create, mbind, mget, CHECK, mmod in E.
  fold (mapping size) in E. destruct (_ <=? MFD_NAME_MAX)%nat; [|done]. unfold open_file in E. cbn [tables regions unique] in E.
  fold (memfd_file suffix (length (regions w))) in E.
  destruct (open_lowest (memfd_file suffix (length (regions w))) _) as [fd t']. unfold mret in E.
  destruct (Z.leb_spec (mapping size) UINT32_MAX); [|done]. destruct (Z.eqb_spec (mapping size) 0); [done|]. cbn in E.
  injection E as <- <-. split_and!; try done. f_equal.
  rewrite list_alter_app_r' by done. done.
Qed.

(** ** Attachment *)

Lemma begin_spec q me suffix w t r h size :
  tables w !! me = Some t -> find_file (needle_of suffix) t = Some (memfd_file suffix r) -> regions w !! r = Some (h, size) ->
  size <> 0 -> mlock size = true ->
  exists fd w', ConnectBegin q suffix me w = Some (Some (mk_shmem (Some r) size fd), w') /\ regions w' = regions w.
Proof.
  intros Ht Hf Hr Hs Hm. unfold Shmem.ConnectBegin, Shmem.OpenGhostShmemFd, mbind, mget. rewrite Ht. fold (needle_of suffix). rewrite Hf.
  unfold open_file. pose proof (open_lowest_at (memfd_file suffix r) (default [] (tables w !! q))) as Ho.
  destruct (open_lowest _ _) as [fd t']. destruct Ho as [Hfd Ho]. rewrite (proj2 (Z.ltb_ge fd 0) Hfd).
  unfold deref. cbn [tables regions]. rewrite lookup_insert_eq, Ho. cbn [mjoin option_join region_of memfd_file]. rewrite Hr. cbn [snd].
  unfold CHECK. rewrite (proj2 (Z.eqb_neq size 0) Hs), Hm. cbn. eexists fd, _. done.
Qed.

Lemma header_at r w h size : regions w !! r = Some (h, size) -> header r w = Some (h, w).
Proof. intros Hr. unfold header, mbind, mget, deref. by rewrite Hr. Qed.

Lemma end_spec r size fd v pid w h :
  regions w !! r = Some (h, size) ->
  ConnectEnd (mk_shmem (Some r) size fd) v pid w =
    if negb (ready h) then Some (false, w)
    else if (header_version h =? kHeaderVersion) && (client_version h =? v) && (mapping_size h =? size) &&
            (header_size h =? kHeaderReservedBytes) && (owning_pid h =? pid) then Some (true, w) else None.
Proof.
  intros Hh%header_at.
  unfold ConnectEnd, mbind, deref at 1. cbn [shmem_]. rewrite Hh. unfold CHECK, mret. cbn [map_size_].
  destruct (ready h); [|done]. cbn [negb]. by do 5 (destruct (_ =? _); [|done]).
Qed.
End Props.


(** ** Names that start alike *)

(** A process with a region under a longer name cannot create another, and who
    attaches to the shorter name gets the longer one. *)
Definition yes {A} (_ : A) : bool := true.
Definition empty_world : world := mk_world [] ∅ ∅.

Definition two_names : option (option GhostShmem * world) :=
  match CreateShmem yes yes 7 0 "priotable" 100 empty_world with
  | Some (s, w) =>
      match MarkReady s w with
      | Some (_, w) => ConnectBegin yes yes yes 8 "prio" 7 w
      | None => None
      end
  | None => None
  end.

Lemma name_prefix_clashes :
  (exists w s w', CreateShmem yes yes 7 0 "priotable" 100 empty_world = Some (s, w) /\
     CreateShmem yes yes 7 0 "prio" 100 w = None /\ two_names = Some (Some (mk_shmem (Some 0%nat) kHugepageSize 0), w')).
Proof. eexists _, _, _. split; [vm_compute; reflexivity|]. split; vm_compute; reflexivity. Qed.

End ShmemProps.
