(* ===== verification/BpfRegistry.v ===== *)
(** * The registry of BPF programs

    [src/bpf/user/agent.c]: the programs an agent registers at the attach points of its
    enclave, their insertion into the kernel and removal; [LocalEnclave::InsertBpfPrograms]
    of [src/lib/enclave.cc], which retries while an old agent still holds the attach
    points; the sizes of memory-mapped maps and the histogram of the idle tracer. *)

From S2P Require Import Prelude.

Module Bpf.

(** ** Attach points *)

Definition GHOST_VERSION : Z := 91.
Definition BPF_GHOST_SCHED_PNT : Z := 2000.
Definition BPF_GHOST_MSG_SEND : Z := 2001.
Definition BPF_GHOST_SELECT_RQ : Z := 2002.
Definition BPF_GHOST_HALT_POLL : Z := 2003.
Definition __MAX_BPF_GHOST_ATTACH_TYPE : Z := 2004.
Definition EBUSY : Z := 16.
Definition EINVAL : Z := 22.
Definition ERANGE : Z := 34.

(** [bpf_program__set_types]: the attach type with the version of the ABI. *)
Definition versioned (eat : Z) : Z := Z.lor eat (Z.shiftl GHOST_VERSION 16).

(** ** State *)

(** A program is its handle. *)
Record bpf_registration := mk_reg { prog : option Z; inserted : bool; fd : Z }.

Definition empty_reg : bpf_registration := mk_reg None false 0.

(** [errno], the calls of libbpf so far, and the descriptors open for programs. *)
Record io := mk_io { errno : Z; calls : nat; open_fds : list Z }.

Record bpf := mk_bpf { registry : list bpf_registration; sys : io }.

Definition new_bpf : bpf := mk_bpf (replicate (Z.to_nat __MAX_BPF_GHOST_ATTACH_TYPE) empty_reg) (mk_io 0 0 []).

Section Bpf.
(** What libbpf says of a program, and what its calls return, with [errno]. *)
Context (program_fd program_eat : Z -> Z).
Context (link_create prog_attach : nat -> list Z -> Z -> Z -> Z -> Z * Z).

(** A call of libbpf, which depends on the descriptors that are open: one it returns is
    open from then on. *)
Definition libbpf (call : nat -> list Z -> Z * Z) (i : io) : Z * io :=
  let '(ret, err) := call (calls i) (open_fds i) in
  (ret, mk_io (if ret <? 0 then err else errno i) (S (calls i)) (if ret <? 0 then open_fds i else ret :: open_fds i)).

Definition set_errno (e : Z) (i : io) : io := mk_io e (calls i) (open_fds i).

(** ** Operations *)

(** The attach points at which a program is linked. *)
Definition linked_at (point : Z) : bool :=
  (point =? BPF_GHOST_SCHED_PNT) || (point =? BPF_GHOST_MSG_SEND) || (point =? BPF_GHOST_SELECT_RQ) ||
  (point =? BPF_GHOST_HALT_POLL).

Definition insert_prog (ctl_fd p : Z) (i : io) : Z * io :=
  let prog_fd := program_fd p in
  let eat := program_eat p in
  let '(ret, i) :=
    if linked_at (Z.land eat 0xFFFF)
    then libbpf (fun n open => link_create n open prog_fd ctl_fd eat) i
    else libbpf (fun n open => prog_attach n open prog_fd ctl_fd eat) i in
  if ret =? -1 then (-1, set_errno (if errno i =? 0 then EINVAL else errno i) i)
  else if ret <? 0 then (-1, set_errno (- ret) i)
  else (ret, i).

(** [None]: the array is accessed out of its bounds. *)
Definition agent_bpf_register (p eat : Z) (b : bpf) : option (Z * bpf) :=
  if __MAX_BPF_GHOST_ATTACH_TYPE <=? eat then Some (-1, mk_bpf (registry b) (set_errno ERANGE (sys b)))
  else if eat <? 0 then None
  else match registry b !! Z.to_nat eat with
       | None => None
       | Some r =>
           match prog r with
           | Some _ => Some (-1, mk_bpf (registry b) (set_errno EBUSY (sys b)))
           | None => Some (0, mk_bpf (<[Z.to_nat eat := mk_reg (Some p) (inserted r) (fd r)]> (registry b)) (sys b))
           end
       end.

(** The loop over the registry from some entry on. *)
Fixpoint insert_loop (ctl_fd : Z) (rs : list bpf_registration) (i : io) : list bpf_registration * Z * io :=
  match rs with
  | [] => ([], 0, i)
  | r :: rs =>
      match prog r, inserted r with
      | None, _ | _, true => let '(rs', ret, i) := insert_loop ctl_fd rs i in (r :: rs', ret, i)
      | Some p, false =>
          let '(f, i) := insert_prog ctl_fd p i in
          if f <? 0 then (r :: rs, f, i)
          else let '(rs', ret, i) := insert_loop ctl_fd rs i in (mk_reg (prog r) true f :: rs', ret, i)
      end
  end.

Definition agent_bpf_insert_registered (ctl_fd : Z) (b : bpf) : Z * bpf :=
  let '(rs, ret, i) := insert_loop ctl_fd (registry b) (sys b) in (ret, mk_bpf rs i).

Definition close (f : Z) (i : io) : io := mk_io (errno i) (calls i) (filter (fun x => x <> f) (open_fds i)).

Fixpoint destroy_loop (rs : list bpf_registration) (i : io) : list bpf_registration * io :=
  match rs with
  | [] => ([], i)
  | r :: rs =>
      let i := if inserted r then close (fd r) i else i in
      let '(rs', i) := destroy_loop rs i in
      (mk_reg None false (fd r) :: rs', i)
  end.

Definition agent_bpf_destroy (b : bpf) : bpf :=
  let '(rs, i) := destroy_loop (registry b) (sys b) in mk_bpf rs i.

(** [LocalEnclave::InsertBpfPrograms]: retry while busy; [None] is a failed [CHECK] (or
    no end within the fuel). *)
Fixpoint InsertBpfPrograms (fuel : nat) (ctl_fd : Z) (b : bpf) : option bpf :=
  match fuel with
  | O => None
  | S fuel =>
      let '(ret, b) := agent_bpf_insert_registered ctl_fd b in
      if negb (ret =? 0) && (errno (sys b) =? EBUSY) then InsertBpfPrograms fuel ctl_fd b
      else if ret =? 0 then Some b else None
  end.
End Bpf.

(** ** Memory-mapped maps *)

(** [roundup] of [sys/param.h], in unsigned arithmetic of [w] bits. *)
Definition roundup (w x y : Z) : Z := ((x + (y - 1)) mod 2 ^ w / y * y) mod 2 ^ w.

Definition bpf_map__mmap_sz (value_size max_entries page_size : Z) : Z :=
  let mmap_sz := u64 (roundup 32 value_size 8 * max_entries) in
  roundup 64 mmap_sz page_size.

End Bpf.

(** ** The tracer of idle CPUs *)

Module Trace.

Definition SGI_NR_SLOTS : nat := 25.
Definition MAX_AGENT_BPF_TRACE : nat := 1.

(** What the tracers print. *)
Inductive output :=
  | CallocFailed | LookupFailed | ZeroingFailed
  | OpenFailed | AttachFailed
  | InitUnknown | OutputUnknown | OutputUninit | ResetUnknown
  | Histogram (hist : list Z).

(** [tracers] with the objects it holds, the blocks allocated and not freed, what was
    printed, latest first, and the calls of libbpf and of the allocator so far. *)
Record trace := mk_trace { skel_obj : list (option Z); blocks : nat; printed : list output; uses : nat }.

Definition new_trace : trace := mk_trace (replicate MAX_AGENT_BPF_TRACE None) 0 [] 0.

(** What the calls answer: opening and attaching the object of the tracer, the
    allocation of a block, the counts of one slot on every CPU, and whether a slot could
    be written. *)
Record libbpf := mk_libbpf {
  open_and_load : nat -> option Z;
  attach : nat -> Z -> bool;
  calloc : nat -> bool;
  lookup_elem : nat -> Z -> nat -> option (list Z);
  update_elem : nat -> Z -> nat -> bool }.

Section Trace.
Context (k : libbpf).
Implicit Type t : trace.

Definition use t : trace := mk_trace (skel_obj t) (blocks t) (printed t) (S (uses t)).
Definition say (o : output) t : trace := mk_trace (skel_obj t) (blocks t) (o :: printed t) (uses t).
Definition alloc t : trace := mk_trace (skel_obj t) (S (blocks t)) (printed t) (uses t).
Definition free t : trace := mk_trace (skel_obj t) (Nat.pred (blocks t)) (printed t) (uses t).
Definition set_skel (i : nat) (o : option Z) t : trace := mk_trace (<[i := o]> (skel_obj t)) (blocks t) (printed t) (uses t).

Definition sgi_make_skel_obj t : option Z * trace :=
  match open_and_load k (uses t) with
  | None => (None, say OpenFailed (use t))
  | Some obj =>
      let t := use t in
      if attach k (uses t) obj then (Some obj, use t) else (None, say AttachFailed (use t))
  end.

(** One slot: the counts of all CPUs in an [unsigned int]. *)
Definition sgi_slot (counts : list Z) : Z := foldl (fun h c => u32 (h + c)) 0 counts.

(** The slots from [i] on; [None] after a failed lookup, which returns at once. *)
Fixpoint sgi_hist (obj : Z) (n i : nat) t : option (list Z) * trace :=
  match n with
  | O => (Some [], t)
  | S n =>
      match lookup_elem k (uses t) obj i with
      | None => (None, say LookupFailed (use t))
      | Some counts =>
          let '(h, t) := sgi_hist obj n (S i) (use t) in
          (match h with Some h => Some (sgi_slot counts :: h) | None => None end, t)
      end
  end.

Definition sgi_output (obj : Z) t : trace :=
  if negb (calloc k (uses t)) then say CallocFailed (use t)
  else
    let '(h, t) := sgi_hist obj SGI_NR_SLOTS 0 (alloc (use t)) in
    match h with
    | None => t
    | Some h => say (Histogram h) (free t)
    end.

Fixpoint sgi_zero (obj : Z) (n i : nat) t : bool * trace :=
  match n with
  | O => (true, t)
  | S n =>
      if update_elem k (uses t) obj i then sgi_zero obj n (S i) (use t) else (false, say ZeroingFailed (use t))
  end.

Definition sgi_reset (obj : Z) t : trace :=
  if negb (calloc k (uses t)) then say CallocFailed (use t)
  else
    let '(ok, t) := sgi_zero obj SGI_NR_SLOTS 0 (alloc (use t)) in
    if ok then free t else t.

Definition agent_bpf_trace_init (type : nat) t : Z * trace :=
  if (MAX_AGENT_BPF_TRACE <=? type)%nat then (-1, say InitUnknown t)
  else
    let '(o, t) := sgi_make_skel_obj t in
    let t := set_skel type o t in
    match o with None => (-1, t) | Some _ => (0, t) end.

Definition agent_bpf_trace_output (type : nat) t : trace :=
  if (MAX_AGENT_BPF_TRACE <=? type)%nat then say OutputUnknown t
  else match mjoin (skel_obj t !! type) with
       | None => say OutputUninit t
       | Some obj => sgi_output obj t
       end.

Definition agent_bpf_trace_reset (type : nat) t : trace :=
  if (MAX_AGENT_BPF_TRACE <=? type)%nat then say ResetUnknown t
  else match mjoin (skel_obj t !! type) with
       | None => say OutputUninit t
       | Some obj => sgi_reset obj t
       end.
End Trace.
End Trace.
