(* ===== verification/BpfRegistryProps.v ===== *)
(** * BPF programs are inserted once and removed

    For any use of the registry: which programs are in the kernel, and that no
    descriptor is lost or closed twice. *)

From S2P Require Import Prelude BpfRegistry.

Module BpfProps.
Import Bpf.

(** What the kernel promises of the calls: a descriptor it returns was not open, and a
    call that fails says why. *)
Class LinkLaws (link : nat -> list Z -> Z -> Z -> Z -> Z * Z) : Prop := {
  link_fresh n open p c e : 0 <= fst (link n open p c e) -> fst (link n open p c e) ∉ open }.

Section Props.
Context (program_fd program_eat : Z -> Z).
Context (link_create prog_attach : nat -> list Z -> Z -> Z -> Z -> Z * Z).
Context `{!LinkLaws link_create} `{!LinkLaws prog_attach}.
Notation insert_prog := (insert_prog program_fd program_eat link_create prog_attach).
Notation insert_loop := (insert_loop program_fd program_eat link_create prog_attach).
Notation agent_bpf_insert_registered := (agent_bpf_insert_registered program_fd program_eat link_create prog_attach).
Notation InsertBpfPrograms := (InsertBpfPrograms program_fd program_eat link_create prog_attach).
Implicit Types (b : bpf) (i : io) (r : bpf_registration) (rs : list bpf_registration).

(** ** The descriptors of a registry *)

Definition fds rs : list Z := fd <$> filter (fun r => inserted r = true) rs.
#[local] Arguments fds rs : simpl never.

(** A program is in the kernel only if registered; the descriptors open are those of
    the programs in the kernel, each once. *)
Record wf b : Prop := {
  wf_length : length (registry b) = Z.to_nat __MAX_BPF_GHOST_ATTACH_TYPE;
  wf_inserted : Forall (fun r => inserted r = true -> is_Some (prog r)) (registry b);
  wf_fds : open_fds (sys b) ≡ₚ fds (registry b);
  wf_nodup : NoDup (open_fds (sys b)) }.

Lemma fds_cons r rs : fds (r :: rs) = (if inserted r then [fd r] else []) ++ fds rs.
Proof. unfold fds. rewrite filter_cons. by destruct (inserted r). Qed.

Lemma fds_app rs rs' : fds (rs ++ rs') = fds rs ++ fds rs'.
Proof. unfold fds. by rewrite filter_app, fmap_app. Qed.

(** Both kinds of call are treated alike. *)
Lemma insert_prog_call ctl p i : exists link, (link = link_create \/ link = prog_attach) /\
  insert_prog ctl p i =
    let '(ret, err) := link (calls i) (open_fds i) (program_fd p) ctl (program_eat p) in
    if ret =? -1 then (-1, mk_io (if err =? 0 then EINVAL else err) (S (calls i)) (open_fds i))
    else if ret <? 0 then (-1, mk_io (- ret) (S (calls i)) (open_fds i))
    else (ret, mk_io (errno i) (S (calls i)) (ret :: open_fds i)).
Proof.
  exists (if linked_at (Z.land (program_eat p) 0xFFFF) then link_create else prog_attach). split; [case_match; auto|].
  unfold Bpf.insert_prog, libbpf. destruct (linked_at _);
    [destruct (link_create _ _ _ _ _) as [ret err]|destruct (prog_attach _ _ _ _ _) as [ret err]];
    (destruct (Z.eqb_spec ret (-1)) as [-> | Hne]; [|destruct (Z.ltb_spec ret 0)]); done.
Qed.

(** A call makes one descriptor open or fails with a reason. *)
Lemma insert_prog_spec ctl p i :
  let '(ret, i') := insert_prog ctl p i in
  calls i' = S (calls i) /\
  ((0 <= ret /\ open_fds i' = ret :: open_fds i /\ ret ∉ open_fds i) \/
   (ret = -1 /\ open_fds i' = open_fds i /\ errno i' <> 0)).
Proof.
  destruct (insert_prog_call ctl p i) as (link & Hl & ->).
  assert (Hfresh : forall n open p c e, 0 <= fst (link n open p c e) -> fst (link n open p c e) ∉ open)
    by (destruct Hl as [-> | ->]; apply link_fresh).
  specialize (Hfresh (calls i) (open_fds i) (program_fd p) ctl (program_eat p)).
  destruct (link _ _ _ _ _) as [ret err]. cbn [fst] in Hfresh.
  destruct (Z.eqb_spec ret (-1)) as [->|Hne]; [|destruct (Z.ltb_spec ret 0)]; (split; [done|]).
  - right. split_and!; try done. cbn. by destruct (Z.eqb_spec err 0).
  - right. split_and!; try done. cbn. lia.
  - left. split_and!; try done. by apply Hfresh.
Qed.

(** An entry of the registry after an insertion. *)
Definition progressed r r' : Prop :=
  prog r' = prog r /\ (inserted r = true -> r' = r) /\ (inserted r' = true -> inserted r = true \/ is_Some (prog r)).

Lemma progressed_refl r : progressed r r.
Proof. split_and!; auto. Qed.

Lemma progressed_progs rs rs' : Forall2 progressed rs rs' -> prog <$> rs' = prog <$> rs.
Proof. induction 1 as [|r r' rs rs' [E _] _ IH]; [done|]. cbn. by rewrite E, IH. Qed.

(** What the loop over the entries [rs] does, and what its result says. *)
Definition insert_post rs i (res : list bpf_registration * Z * io) : Prop :=
  let '(rs', ret, i') := res in
  Forall2 progressed rs rs' /\
  (exists new, open_fds i' ≡ₚ new ++ open_fds i /\ fds rs' ≡ₚ new ++ fds rs /\
    (NoDup (open_fds i) -> NoDup (open_fds i')) /\
    calls i' = (calls i + length new + (if (ret =? 0)%Z then 0 else 1))%nat) /\
  (ret = 0 /\ Forall (fun r => is_Some (prog r) -> inserted r = true) rs' \/ ret = -1 /\ errno i' <> 0).

Lemma insert_loop_spec ctl rs i : insert_post rs i (insert_loop ctl rs i).
Proof.
  revert i. induction rs as [|r rs IH]; intros i; cbn [Bpf.insert_loop].
  { split; [done|]. split; [|by left]. exists []. split_and!; try done. cbn. lia. }
  assert (Hskip : prog r = None \/ inserted r = true ->
    insert_post (r :: rs) i (let '(rs', ret, i') := insert_loop ctl rs i in (r :: rs', ret, i'))).
  { intros Hr. specialize (IH i). destruct (insert_loop ctl rs i) as [[rs' ret] i'].
    destruct IH as (H1 & (new & H2 & H3 & H4 & H5) & H6). split; [constructor; [apply progressed_refl|done]|]. split.
    - exists new. split_and!; try done. rewrite !fds_cons, H3. by rewrite Permutation_app_swap_app.
    - destruct H6 as [[-> H6]|H6]; [left|by right]. split; [done|]. constructor; [|done].
      destruct Hr as [-> | ->]; [by intros [? ?]|done]. }
  destruct (prog r) as [p|] eqn:Ep; [|by apply Hskip; left]. destruct (inserted r) eqn:Ei; [by apply Hskip; right|]. clear Hskip.
  pose proof (insert_prog_spec ctl p i) as Hp. destruct (insert_prog ctl p i) as [f i1]. destruct Hp as [Hc Hp].
  destruct (Z.ltb_spec f 0) as [Hf|Hf].
  - destruct Hp as [[? _]|(-> & Ho & He)]; [lia|]. split; [apply Forall_Forall2_diag, Forall_true, progressed_refl|].
    split; [|by right]. exists []. rewrite Ho. split_and!; try done. cbn. lia.
  - destruct Hp as [(_ & Ho & Hfr)|[? _]]; [|lia]. specialize (IH i1). destruct (insert_loop ctl rs i1) as [[rs' ret] i'].
    destruct IH as (H1 & (new & H2 & H3 & H4 & H5) & H6). split.
    { constructor; [|done]. split_and!; [done|by rewrite Ei|]. intros _. right. by rewrite Ep. }
    split.
    + exists (new ++ [f]). rewrite !fds_cons, Ei, <- !app_assoc. cbn [inserted fd app]. split_and!.
      * by rewrite H2, Ho.
      * rewrite H3. apply Permutation_middle.
      * intros Hnd. apply H4. rewrite Ho. by constructor.
      * rewrite H5, Hc, length_app. cbn. lia.
    + destruct H6 as [[-> H6]|H6]; [left|by right]. split; [done|]. by constructor.
Qed.

(** ** Every operation keeps the registry in order *)

Lemma insert_wf ctl b : wf b -> wf (agent_bpf_insert_registered ctl b).2.
Proof.
  intros [H1 H2 H3 H4]. unfold Bpf.agent_bpf_insert_registered. pose proof (insert_loop_spec ctl (registry b) (sys b)) as Hp.
  destruct (insert_loop ctl (registry b) (sys b)) as [[rs' ret] i']. destruct Hp as (Hf & (new & Ho & Hn & Hnd & _) & _).
  split; cbn.
  - by rewrite <- (Forall2_length _ _ _ Hf).
  - apply Forall_forall. intros r' [j Hj]%list_elem_of_lookup. destruct (Forall2_lookup_r _ _ _ _ _ Hf Hj) as (r & Hr & E & _ & Hi).
    rewrite Forall_forall in H2. intros Hr1. destruct (Hi Hr1) as [Hr2|?]; rewrite E; [|done]. apply H2; [by eapply list_elem_of_lookup_2|done].
  - by rewrite Ho, Hn, H3.
  - by apply Hnd.
Qed.

Lemma register_wf p eat b ret b' : wf b -> agent_bpf_register p eat b = Some (ret, b') -> wf b'.
Proof.
  intros [H1 H2 H3 H4] E. unfold agent_bpf_register in E. repeat case_match; simplify_eq; try by split.
  match goal with Hr : registry b !! _ = Some ?r |- _ => rename r into r0; rename Hr into Hlook end.
  assert (Hni : inserted r0 = false).
  { destruct (inserted r0) eqn:Ei; [|done]. rewrite Forall_forall in H2.
    destruct (H2 r0 (list_elem_of_lookup_2 _ _ _ Hlook) Ei) as [? ?]. congruence. }
  split; cbn [registry sys]; [by rewrite length_insert|..|done].
  - apply Forall_insert; [done|]. cbn. by rewrite Hni.
  - rewrite H3. apply take_drop_middle in Hlook as Hm. rewrite <- Hm at 1.
    rewrite insert_take_drop by (by eapply lookup_lt_Some). rewrite !fds_app, !fds_cons. cbn [inserted]. by rewrite Hni.
Qed.

(** Removal closes the descriptors of the programs in the kernel, and no other. *)
Lemma destroy_loop_spec rs i :
  destroy_loop rs i =
    ((fun r => mk_reg None false (fd r)) <$> rs, mk_io (errno i) (calls i) (filter (fun x => x ∉ fds rs) (open_fds i))).
Proof.
  revert i. induction rs as [|r rs IH]; intros [e n o]; cbn [destroy_loop].
  - cbn. f_equal. f_equal. symmetry. induction o as [|x o IHo]; [done|]. rewrite filter_cons_True by (apply not_elem_of_nil). by f_equal.
  - destruct (inserted r) eqn:Er; rewrite IH; cbn; [|by rewrite fds_cons, Er].
    do 2 f_equal. rewrite list_filter_filter, fds_cons, Er. apply list_filter_iff. intros x. cbn. set_solver.
Qed.

Definition removed rs : list bpf_registration := (fun r => mk_reg None false (fd r)) <$> rs.

Lemma destroy_spec b : wf b ->
  agent_bpf_destroy b = mk_bpf (removed (registry b)) (mk_io (errno (sys b)) (calls (sys b)) []).
Proof.
  intros [_ _ H3 _]. unfold agent_bpf_destroy. rewrite destroy_loop_spec. do 2 f_equal.
  assert (Hall : forall l, (forall x, x ∈ l -> x ∈ fds (registry b)) -> filter (fun x => x ∉ fds (registry b)) l = []).
  { intros l. induction l as [|x l IH]; intros H; [done|]. rewrite filter_cons_False; [apply IH; set_solver|]. set_solver. }
  apply Hall. intros x. by rewrite H3.
Qed.

Lemma fds_removed rs : fds (removed rs) = [].
Proof. induction rs as [|r rs IH]; [done|]. cbn. by rewrite fds_cons. Qed.

Lemma destroy_wf b : wf b -> wf (agent_bpf_destroy b).
Proof.
  intros Hw. rewrite (destroy_spec b Hw). split; cbn; [|..|by rewrite fds_removed|constructor].
  - unfold removed. rewrite length_fmap. apply Hw.
  - unfold removed. apply Forall_fmap, Forall_true. done.
Qed.

Lemma new_bpf_wf : wf new_bpf.
Proof.
  split; cbn [registry sys new_bpf open_fds].
  - apply length_replicate.
  - apply Forall_replicate. done.
  - assert (H : forall n, fds (replicate n empty_reg) = []) by (intros n; induction n as [|n IH]; [done|]; cbn; by rewrite fds_cons).
    by rewrite H.
  - constructor.
Qed.

(** ** Claims *)

Inductive op := Register (p eat : Z) | Insert (ctl_fd : Z) | Destroy.

(** Any use of the registry; [None] is an access out of its bounds. *)
Fixpoint run (ops : list op) (b : bpf) : option bpf :=
  match ops with
  | [] => Some b
  | Register p eat :: ops => match agent_bpf_register p eat b with Some (_, b) => run ops b | None => None end
  | Insert ctl :: ops => run ops (agent_bpf_insert_registered ctl b).2
  | Destroy :: ops => run ops (agent_bpf_destroy b)
  end.

Lemma run_wf ops b b' : wf b -> run ops b = Some b' -> wf b'.
Proof.
  revert b. induction ops as [|[p eat|ctl|] ops IH]; intros b Hw; cbn; [by intros [= <-]|..].
  - destruct (agent_bpf_register p eat b) as [[ret b1]|] eqn:E; [|done]. apply IH. by eapply register_wf.
  - by apply IH, insert_wf.
  - by apply IH, destroy_wf.
Qed.


(** ** Insertion while an old agent leaves *)

Lemma insert_loop_calls ctl rs i T :
  (forall n open p c e, (T <= n)%nat -> 0 <= fst (link_create n open p c e) /\ 0 <= fst (prog_attach n open p c e)) ->
  (T <= calls i)%nat -> (insert_loop ctl rs i).1.2 = 0.
Proof.
  intros HT. revert i. induction rs as [|r rs IH]; intros i Hi; cbn [Bpf.insert_loop]; [done|].
  assert (Hskip : forall i1 r1, (T <= calls i1)%nat -> (let '(rs', ret, i') := insert_loop ctl rs i1 in (r1 :: rs', ret, i')).1.2 = 0).
  { intros i1 r1 H1. specialize (IH i1 H1). by destruct (insert_loop ctl rs i1) as [[? ?] ?]. }
  destruct (prog r) as [p|]; [|by apply Hskip]. destruct (inserted r); [by apply Hskip|].
  destruct (insert_prog_call ctl p i) as (link & Hl & ->).
  assert (Hret : 0 <= fst (link (calls i) (open_fds i) (program_fd p) ctl (program_eat p)))
    by (destruct Hl as [-> | ->]; by apply HT).
  destruct (link _ _ _ _ _) as [ret err]. cbn [fst] in Hret.
  rewrite (proj2 (Z.eqb_neq ret (-1))), (proj2 (Z.ltb_ge ret 0)) by lia. cbn beta iota.
  rewrite (proj2 (Z.ltb_ge ret 0)) by lia. apply Hskip. cbn. lia.
Qed.

(** When the calls fail only because of an old agent, so does a round. *)
Lemma insert_prog_busy ctl p i :
  (forall n open p c e link, link = link_create \/ link = prog_attach -> fst (link n open p c e) < 0 ->
    link n open p c e = (-1, EBUSY) \/ fst (link n open p c e) = - EBUSY) ->
  (insert_prog ctl p i).1 < 0 -> errno (insert_prog ctl p i).2 = EBUSY.
Proof.
  intros Hb. destruct (insert_prog_call ctl p i) as (link & Hl & ->).
  specialize (Hb (calls i) (open_fds i) (program_fd p) ctl (program_eat p) link Hl).
  destruct (link _ _ _ _ _) as [ret err]. cbn [fst] in Hb.
  destruct (Z.eqb_spec ret (-1)) as [->|Hne]; [|destruct (Z.ltb_spec ret 0)]; cbn; intros Hr; [..|lia].
  - destruct Hb as [[= ->] | ?]; [lia|done|done].
  - destruct Hb as [[= ? ?] | ->]; [lia|done|done].
Qed.

Lemma insert_loop_busy ctl rs i :
  (forall n open p c e link, link = link_create \/ link = prog_attach -> fst (link n open p c e) < 0 ->
    link n open p c e = (-1, EBUSY) \/ fst (link n open p c e) = - EBUSY) ->
  (insert_loop ctl rs i).1.2 <> 0 -> errno (insert_loop ctl rs i).2 = EBUSY.
Proof.
  intros Hb. revert i. induction rs as [|r rs IH]; intros i; cbn [Bpf.insert_loop]; [done|].
  assert (Hskip : forall i1 r1, let res := (let '(rs', ret, i') := insert_loop ctl rs i1 in (r1 :: rs', ret, i')) in
    res.1.2 <> 0 -> errno res.2 = EBUSY).
  { intros i1 r1. specialize (IH i1). by destruct (insert_loop ctl rs i1) as [[? ?] ?]. }
  destruct (prog r) as [p|]; [|by apply Hskip]. destruct (inserted r); [by apply Hskip|].
  pose proof (insert_prog_busy ctl p i Hb) as Hp. destruct (insert_prog ctl p i) as [f i1].
  destruct (Z.ltb_spec f 0); [|by apply Hskip]. intros _. by apply Hp.
Qed.

(** What a round leaves. *)
Lemma insert_result ctl b : wf b ->
  let '(ret, b') := agent_bpf_insert_registered ctl b in
  wf b' /\ prog <$> registry b' = prog <$> registry b /\ (ret <> 0 -> (calls (sys b) < calls (sys b'))%nat) /\
  (ret = 0 -> Forall (fun r => is_Some (prog r) -> inserted r = true) (registry b')).
Proof.
  intros Hw. pose proof (insert_wf ctl b Hw) as Hw'. unfold Bpf.agent_bpf_insert_registered in *.
  pose proof (insert_loop_spec ctl (registry b) (sys b)) as Hp. destruct (insert_loop ctl (registry b) (sys b)) as [[rs' ret] i'].
  destruct Hp as (Hf & (new & _ & _ & _ & Hc) & He). split_and!; [done|by apply progressed_progs|..]; cbn.
  - intros Hne. rewrite Hc, (proj2 (Z.eqb_neq _ _) Hne). lia.
  - intros ->. by destruct He as [[_ ?]|[? _]].
Qed.

(** [InsertBpfPrograms] waits for an old agent to leave.  If the calls fail only
    because the attach points are still busy, and none fails any more after the first
    [T], then the loop ends within [T + 1] rounds, with every registered program in the
    kernel. *)
Theorem insert_bpf_programs_terminates ctl T b :
  wf b ->
  (forall n open p c e, (T <= n)%nat -> 0 <= fst (link_create n open p c e) /\ 0 <= fst (prog_attach n open p c e)) ->
  (forall n open p c e link, link = link_create \/ link = prog_attach -> fst (link n open p c e) < 0 ->
    link n open p c e = (-1, EBUSY) \/ fst (link n open p c e) = - EBUSY) ->
  exists b', InsertBpfPrograms (S T) ctl b = Some b' /\ wf b' /\ prog <$> registry b' = prog <$> registry b /\
    Forall (fun r => is_Some (prog r) -> inserted r = true) (registry b').
Proof.
  intros Hw HT Hb. assert (Hk : (T - calls (sys b) <= T)%nat) by lia. revert Hk.
  generalize T at 2 3 as k. intros k. revert b Hw. induction k as [|k IH]; intros b Hw Hk; cbn [Bpf.InsertBpfPrograms].
  - pose proof (insert_result ctl b Hw) as Hp. pose proof (insert_loop_calls ctl (registry b) (sys b) T HT ltac:(lia)) as E.
    unfold Bpf.agent_bpf_insert_registered in *. destruct (insert_loop ctl (registry b) (sys b)) as [[rs' ret] i'].
    cbn [fst snd] in E. subst ret. destruct Hp as (Hw' & Hpr & _ & Hall). cbn. eauto 6.
  - pose proof (insert_result ctl b Hw) as Hp. pose proof (insert_loop_busy ctl (registry b) (sys b) Hb) as E.
    unfold Bpf.agent_bpf_insert_registered in *. destruct (insert_loop ctl (registry b) (sys b)) as [[rs' ret] i'].
    cbn [fst snd] in E. destruct Hp as (Hw' & Hpr & Hc & Hall). destruct (Z.eqb_spec ret 0) as [->|Hne]; cbn; [by eauto 6|].
    rewrite E by done. cbn. destruct (IH (mk_bpf rs' i') Hw') as (b' & E' & H1 & H2 & H3); [cbn in Hc |- *; lia|].
    exists b'. split_and!; try done. by rewrite H2.
Qed.
End Props.

(** ** Versions, sizes and histograms *)

(** [insert_prog] takes the attach point back out of a versioned attach type. *)
Lemma versioned_attach_point eat : 0 <= eat < __MAX_BPF_GHOST_ATTACH_TYPE -> Z.land (versioned eat) 0xFFFF = eat.
Proof.
  intros H. unfold versioned. change 0xFFFF with (Z.ones 16).
  rewrite Z.land_lor_distr_l, !Z.land_ones, <- Z.land_ones, Z.land_ones, Z.shiftl_mul_pow2, Z_mod_mult, Z.lor_0_r by done.
  apply Z.mod_small. unfold __MAX_BPF_GHOST_ATTACH_TYPE in H. lia.
Qed.

(** [roundup] gives the first multiple of [y] that is not below [x]. *)
Lemma roundup_spec w x y : 0 < y -> 0 <= w -> 0 <= x -> x + y - 1 < 2 ^ w ->
  x <= roundup w x y < x + y /\ (y | roundup w x y).
Proof.
  intros Hy Hw Hx Hlt. unfold roundup. rewrite (Z.mod_small (x + (y - 1))) by lia.
  pose proof (Z.div_mod (x + (y - 1)) y ltac:(lia)) as E. pose proof (Z.mod_pos_bound (x + (y - 1)) y Hy) as B.
  rewrite Z.mod_small by nia. split; [nia|]. by exists ((x + (y - 1)) / y).
Qed.

(** The mapping of a BPF map holds all its entries, each at a multiple of 8 bytes, in
    whole pages; and a value size within 7 bytes of the limit of its type gives an
    empty mapping. *)
Lemma mmap_sz_holds vs n page : 0 < page -> 0 <= vs -> vs + 7 < 2 ^ 32 -> 0 <= n -> (vs + 7) * n + page - 1 < 2 ^ 64 ->
  vs * n <= bpf_map__mmap_sz vs n page /\ (page | bpf_map__mmap_sz vs n page).
Proof.
  intros Hp Hv Hv' Hn Hlt. unfold bpf_map__mmap_sz.
  destruct (roundup_spec 32 vs 8 ltac:(lia) ltac:(lia) Hv ltac:(lia)) as [[H1 H2] _].
  rewrite (u64_id (roundup 32 vs 8 * n)) by nia.
  destruct (roundup_spec 64 (roundup 32 vs 8 * n) page Hp ltac:(lia) ltac:(nia) ltac:(nia)) as [[H3 _] H4]. split; [nia|done].
Qed.

Lemma mmap_sz_wraps vs n page : 0 < page -> page < 2 ^ 64 -> 2 ^ 32 - 7 <= vs < 2 ^ 32 -> bpf_map__mmap_sz vs n page = 0.
Proof.
  intros Hp Hp' Hv. unfold bpf_map__mmap_sz.
  assert (roundup 32 vs 8 = 0) as ->.
  { unfold roundup. replace (vs + (8 - 1)) with (vs - (2 ^ 32 - 7) + 1 * 2 ^ 32) by lia.
    rewrite Z.mod_add, (Z.mod_small (vs - _)), (Z.div_small (vs - _)) by lia. done. }
  unfold roundup. cbn [Z.mul Z.add]. change (u64 0) with 0. rewrite (Z.mod_small (0 + (page - 1))), Z.div_small by lia. done.
Qed.

(** ** An old agent that holds the attach points for two calls *)

Definition demo_link (n : nat) (open : list Z) (p c e : Z) : Z * Z :=
  if (n <? 2)%nat then (-1, EBUSY) else (foldr Z.max 0 open + 1, 0).

Lemma foldr_max_ge x l : x ∈ l -> x <= foldr Z.max 0 l.
Proof. induction 1; cbn; lia. Qed.

#[export] Instance demo_link_laws : LinkLaws demo_link.
Proof.
  split. intros n open p c e. unfold demo_link. case_match; cbn; [lia|].
  intros _ Hin%foldr_max_ge. lia.
Qed.

Definition demo_ops : list op :=
  [Register 11 BPF_GHOST_SCHED_PNT; Register 12 BPF_GHOST_SCHED_PNT; Register 13 BPF_GHOST_MSG_SEND].

Notation demo_run := (run (fun p => p + 100) (fun _ => versioned BPF_GHOST_SCHED_PNT) demo_link demo_link).


Lemma insert_bpf_programs_terminates_witness :
  exists b b', demo_run demo_ops new_bpf = Some b /\
    InsertBpfPrograms (fun p => p + 100) (fun _ => versioned BPF_GHOST_SCHED_PNT) demo_link demo_link 3 5 b = Some b' /\
    Forall (fun r => is_Some (prog r) -> inserted r = true) (registry b').
Proof.
  destruct (demo_run demo_ops new_bpf) as [b|] eqn:E; [|vm_compute in E; discriminate E]. exists b.
  destruct (insert_bpf_programs_terminates (fun p => p + 100) (fun _ => versioned BPF_GHOST_SCHED_PNT) demo_link demo_link 5 2 b)
    as (b' & H1 & _ & _ & H2).
  - exact (run_wf _ _ _ _ _ _ _ new_bpf_wf E).
  - intros n open p c e Hn. unfold demo_link. rewrite (proj2 (Nat.ltb_ge n 2) Hn). cbn.
    assert (H : 0 <= foldr Z.max 0 open) by (induction open; cbn; lia). lia.
  - intros n open p c e link Hl. assert (link = demo_link) as -> by (destruct Hl; assumption). unfold demo_link.
    case_match; cbn; [auto|]. assert (H0 : 0 <= foldr Z.max 0 open) by (clear; induction open; cbn; lia). lia.
  - exists b'. auto.
Defined.
End BpfProps.

(** ** The tracer of idle CPUs *)

Module TraceProps.
Import Trace.

Section Props.
Context (k : libbpf).
Implicit Type t : trace.

(** The first slot from [i] on whose lookup (or update) fails, [u] calls after the
    start; the loops make one call per slot. *)
Definition all_slots (f : nat -> nat -> bool) (u n i : nat) : bool :=
  forallb (fun j => f (u + j)%nat (i + j)%nat) (seq 0 n).

Lemma all_slots_S f u n i : all_slots f u (S n) i = f u i && all_slots f (S u) n (S i).
Proof.
  unfold all_slots. cbn [seq forallb]. rewrite !Nat.add_0_r, <- seq_shift. f_equal. induction (seq 0 n) as [|j l IH]; [done|].
  cbn. by rewrite IH, !Nat.add_succ_r.
Qed.

Definition found (obj : Z) (u i : nat) : bool := bool_decide (is_Some (lookup_elem k u obj i)).

(** The slots of a histogram, the loop having started [u] calls into the run. *)
Definition slots (obj : Z) (u n i : nat) : list Z :=
  (fun j => sgi_slot (default [] (lookup_elem k (u + j) obj (i + j)))) <$> seq 0 n.

Lemma slots_S obj u n i :
  slots obj u (S n) i = sgi_slot (default [] (lookup_elem k u obj i)) :: slots obj (S u) n (S i).
Proof.
  unfold slots. cbn [seq fmap list_fmap]. rewrite !Nat.add_0_r. f_equal. rewrite <- seq_shift.
  induction (seq 0 n) as [|j l IH]; [done|]. cbn. by rewrite IH, !Nat.add_succ_r.
Qed.

Lemma sgi_hist_spec obj n i t : let '(h, t') := sgi_hist k obj n i t in
  skel_obj t' = skel_obj t /\ blocks t' = blocks t /\
  if all_slots (found obj) (uses t) n i
  then h = Some (slots obj (uses t) n i) /\ printed t' = printed t
  else h = None /\ printed t' = LookupFailed :: printed t.
Proof.
  revert i t. induction n as [|n IH]; intros i t; cbn [sgi_hist]; [done|]. rewrite all_slots_S, slots_S. unfold found at 1.
  destruct (lookup_elem k (uses t) obj i) as [counts|]; cbn; [|done]. specialize (IH (S i) (use t)).
  destruct (sgi_hist k obj n (S i) (use t)) as [h t']. destruct IH as (H1 & H2 & H3). split_and!; [done..|].
  cbn in H3. destruct (all_slots _ _ _ _); by destruct H3 as [-> ?].
Qed.

Lemma sgi_zero_spec obj n i t : let '(ok, t') := sgi_zero k obj n i t in
  skel_obj t' = skel_obj t /\ blocks t' = blocks t /\ ok = all_slots (fun u i => update_elem k u obj i) (uses t) n i.
Proof.
  revert i t. induction n as [|n IH]; intros i t; cbn [sgi_zero]; [done|]. rewrite all_slots_S.
  destruct (update_elem k (uses t) obj i) eqn:E; cbn; [|done]. specialize (IH (S i) (use t)).
  by destruct (sgi_zero k obj n (S i) (use t)) as [ok t'].
Qed.

(** The tracer prints the histogram of all slots, or why it cannot; it keeps the block
    it allocated (which nothing frees any more) exactly when a lookup fails. *)
Lemma sgi_output_leaks obj t :
  let t' := sgi_output k obj t in
  skel_obj t' = skel_obj t /\
  if negb (calloc k (uses t)) then blocks t' = blocks t /\ printed t' = CallocFailed :: printed t
  else if all_slots (found obj) (S (uses t)) SGI_NR_SLOTS 0
  then blocks t' = blocks t /\ printed t' = Histogram (slots obj (S (uses t)) SGI_NR_SLOTS 0) :: printed t
  else blocks t' = S (blocks t) /\ printed t' = LookupFailed :: printed t.
Proof.
  cbn zeta. unfold sgi_output. destruct (calloc k (uses t)); cbn [negb]; [|done].
  pose proof (sgi_hist_spec obj SGI_NR_SLOTS 0 (alloc (use t))) as H. destruct (sgi_hist k obj SGI_NR_SLOTS 0 (alloc (use t))) as [h t'].
  destruct H as (H1 & H2 & H3). cbn [alloc use uses blocks skel_obj printed] in *.
  destruct (all_slots _ _ _ _); destruct H3 as [-> H3]; cbn; by rewrite H1, H2, H3.
Qed.

Lemma sgi_reset_leaks obj t :
  blocks (sgi_reset k obj t) =
    (blocks t + if calloc k (uses t) && negb (all_slots (fun u i => update_elem k u obj i) (S (uses t)) SGI_NR_SLOTS 0) then 1 else 0)%nat.
Proof.
  unfold sgi_reset. destruct (calloc k (uses t)); cbn [negb andb]; [|cbn; lia].
  pose proof (sgi_zero_spec obj SGI_NR_SLOTS 0 (alloc (use t))) as H. destruct (sgi_zero k obj SGI_NR_SLOTS 0 (alloc (use t))) as [ok t'].
  destruct H as (_ & H2 & ->). cbn [alloc use uses blocks] in *. destruct (all_slots _ _ _ _); cbn [negb free blocks]; rewrite H2; cbn; lia.
Qed.

Inductive trace_op := TraceInit (type : nat) | TraceOutput (type : nat) | TraceReset (type : nat).

Definition trace_run1 (o : trace_op) t : trace :=
  match o with
  | TraceInit n => (agent_bpf_trace_init k n t).2
  | TraceOutput n => agent_bpf_trace_output k n t
  | TraceReset n => agent_bpf_trace_reset k n t
  end.

(** The tracers never lose or gain an entry, and a tracer that could not be set up is
    never asked for output: its answer is the complaint, and nothing is called. *)
Lemma trace_guarded o t : length (skel_obj t) = MAX_AGENT_BPF_TRACE ->
  length (skel_obj (trace_run1 o t)) = MAX_AGENT_BPF_TRACE /\
  (match o with
   | TraceOutput n | TraceReset n => mjoin (skel_obj t !! n) = None -> uses (trace_run1 o t) = uses t /\ blocks (trace_run1 o t) = blocks t
   | TraceInit n => mjoin (skel_obj (trace_run1 o t) !! n) = None <-> (agent_bpf_trace_init k n t).1 = -1
   end).
Proof.
  intros Hl. destruct o as [n|n|n]; cbn [trace_run1].
  - unfold agent_bpf_trace_init. destruct (Nat.leb_spec MAX_AGENT_BPF_TRACE n).
    + cbn. rewrite lookup_ge_None_2 by (rewrite Hl; done). done.
    + assert (Hs : skel_obj (sgi_make_skel_obj k t).2 = skel_obj t) by (unfold sgi_make_skel_obj; by repeat case_match).
      destruct (sgi_make_skel_obj k t) as [o t']. cbn in Hs. split; [by destruct o; cbn; rewrite length_insert, Hs|].
      destruct o; cbn; rewrite list_lookup_insert_eq by (by rewrite Hs, Hl); done.
  - unfold agent_bpf_trace_output. destruct (Nat.leb_spec MAX_AGENT_BPF_TRACE n); [done|].
    destruct (mjoin (skel_obj t !! n)) as [obj|]; [|done]. split; [|done]. by destruct (sgi_output_leaks obj t) as [-> _].
  - unfold agent_bpf_trace_reset. destruct (Nat.leb_spec MAX_AGENT_BPF_TRACE n); [done|].
    destruct (mjoin (skel_obj t !! n)) as [obj|]; [|done]. split; [|done].
    unfold sgi_reset. destruct (calloc k (uses t)); cbn [negb]; [|done].
    pose proof (sgi_zero_spec obj SGI_NR_SLOTS 0 (alloc (use t))) as H0. destruct (sgi_zero k obj SGI_NR_SLOTS 0 (alloc (use t))) as [ok t'].
    destruct H0 as (E & _). destruct ok; cbn; by rewrite E.
Qed.
End Props.
End TraceProps.
