(* ===== verification/AgentProcess.v ===== *)
(** * The life of an agent process

    [AgentProcess] of [src/lib/agent.h] from its constructor to its destructor, with the
    fork of [src/lib/base.cc]: the creating process (which calls into the agent and is told
    of the child's end by SIGCHLD) and the child (which makes the agent, serves the calls
    and is asked to stop), as interleaved steps over the memory they share.  The calls are
    those of [RpcCalls], the news of the child those of [Process]. *)

From S2P Require Import Prelude AgentRpc RpcCalls Process.

Module AgentProc.

(** ** State *)

(** The points of the creating thread. *)
Inductive ppc :=
  | PBlob                       (* make the shared memory *)
  | PFork                       (* [fork] *)
  | PSignal                     (* install the handler of SIGCHLD *)
  | PLock | PInsert | PUnlock   (* enter the child into [GetAllChildren], under [mu_] *)
  | PWaitReady                  (* wait for [agent_ready_]; then the constructor returns *)
  | PRunning                    (* the object is in use *)
  | PKill                       (* the destructor: notify [kill_agent_] *)
  | PReap                       (* [waitpid] *)
  | PHandle (st : wait_status)  (* [HandleIfAbnormalExit] *)
  | PHandlers (st : wait_status) (* its handlers, under [mu_] *)
  | PFree                       (* the shared memory is given back *)
  | PErase | PErased            (* [~ForkedProcess], under [mu_] *)
  | PDone
  | PHung                       (* waits for [mu_], which it holds itself *)
  | PFailed.                    (* a failed [CHECK] *)

(** The points of the child's main thread. *)
Inductive kpc :=
  | KNotYet
  | KPdeath       (* ask to be killed when the parent dies *)
  | KPpid         (* is the parent still there? *)
  | KConstruct    (* make the agent *)
  | KSpawn        (* start the thread that serves the calls *)
  | KReady        (* notify [agent_ready_] *)
  | KWaitKill     (* wait for [kill_agent_] *)
  | KDestroy      (* destroy the agent *)
  | KExit         (* [_exit(0)] *)
  | KGone
  | KFailed.      (* a failed [CHECK], or a call served without an agent *)

#[global] Instance wait_status_eq_dec : EqDecision wait_status.
Proof. solve_decision. Defined.
#[global] Instance ppc_eq_dec : EqDecision ppc.
Proof. solve_decision. Defined.
#[global] Instance kpc_eq_dec : EqDecision kpc.
Proof. solve_decision. Defined.

Definition kpc_alive (k : kpc) : bool := match k with KNotYet | KGone | KFailed => false | _ => true end.

(** Whether the serving thread has been started. *)
Definition kpc_serving (k : kpc) : bool := match k with KReady | KWaitKill | KDestroy | KExit => true | _ => false end.

(** Whether the child will be killed with its parent. *)
Definition kpc_bound (k : kpc) : bool :=
  match k with KPpid | KConstruct | KSpawn | KReady | KWaitKill | KDestroy | KExit => true | _ => false end.

(** Points of the handler thread that use the agent. *)
Definition uses_agent (h : Rpc.hpc) : bool := match h with Rpc.HOnline | Rpc.HCall => true | _ => false end.

Definition finished (p : Rpc.cpc) : bool := match p with Rpc.CDone _ _ => true | _ => false end.

Section Process.
Context {Agent : Type}.
Context (RpcHandler : Z -> Rpc.AgentRpcArgs -> Rpc.AgentRpcResponse -> Agent -> Rpc.AgentRpcResponse * Agent).
(** The child's identifier. *)
Context (child_ : Z).

Record proc := mk_proc {
  par : ppc;
  forked : Fork.parent;         (* children, news of them, end of the creating process *)
  installed : bool;             (* the handler of SIGCHLD *)
  mu_ : bool;                   (* held *)
  killed : bool;                (* the creating process was killed *)
  agent_ready_ : bool;
  kill_agent_ : bool;
  chd : kpc;
  full_agent_ : bool;           (* the agent exists *)
  ended : option wait_status;   (* how the child ended *)
  calls : @Rpc.sys Agent }.

Implicit Type s : proc.

Definition set_par (x : ppc) s : proc :=
  mk_proc x (forked s) (installed s) (mu_ s) (killed s) (agent_ready_ s) (kill_agent_ s) (chd s) (full_agent_ s) (ended s) (calls s).
Definition set_forked (x : Fork.parent) s : proc :=
  mk_proc (par s) x (installed s) (mu_ s) (killed s) (agent_ready_ s) (kill_agent_ s) (chd s) (full_agent_ s) (ended s) (calls s).
Definition set_mu (x : bool) s : proc :=
  mk_proc (par s) (forked s) (installed s) x (killed s) (agent_ready_ s) (kill_agent_ s) (chd s) (full_agent_ s) (ended s) (calls s).
Definition set_chd (x : kpc) s : proc :=
  mk_proc (par s) (forked s) (installed s) (mu_ s) (killed s) (agent_ready_ s) (kill_agent_ s) x (full_agent_ s) (ended s) (calls s).
Definition set_calls (x : @Rpc.sys Agent) s : proc :=
  mk_proc (par s) (forked s) (installed s) (mu_ s) (killed s) (agent_ready_ s) (kill_agent_ s) (chd s) (full_agent_ s) (ended s) x.
Definition install s : proc :=
  mk_proc (par s) (forked s) true (mu_ s) (killed s) (agent_ready_ s) (kill_agent_ s) (chd s) (full_agent_ s) (ended s) (calls s).
Definition kill_parent s : proc :=
  mk_proc (par s) (forked s) (installed s) (mu_ s) true (agent_ready_ s) (kill_agent_ s) (chd s) (full_agent_ s) (ended s) (calls s).
Definition notify_ready s : proc :=
  mk_proc (par s) (forked s) (installed s) (mu_ s) (killed s) true (kill_agent_ s) (chd s) (full_agent_ s) (ended s) (calls s).
Definition notify_kill s : proc :=
  mk_proc (par s) (forked s) (installed s) (mu_ s) (killed s) (agent_ready_ s) true (chd s) (full_agent_ s) (ended s) (calls s).
Definition set_agent (x : bool) s : proc :=
  mk_proc (par s) (forked s) (installed s) (mu_ s) (killed s) (agent_ready_ s) (kill_agent_ s) (chd s) x (ended s) (calls s).
Definition set_ended (st : wait_status) s : proc :=
  mk_proc (par s) (forked s) (installed s) (mu_ s) (killed s) (agent_ready_ s) (kill_agent_ s) KGone (full_agent_ s) (Some st) (calls s).

(** The creating process has ended. *)
Definition parent_gone s : bool := killed s || bool_decide (Fork.exited (forked s) <> None).

(** ** Steps *)

(** The child ends: the kernel keeps the news, and raises a signal if anybody has asked
    for it ([SIGCHLD] is discarded by default). *)
Definition child_ends (st : wait_status) s : proc :=
  set_ended st (set_forked (if installed s then Fork.step (Fork.ChildEnds child_ st) (forked s)
                            else Fork.set_zombies (Fork.zombies (forked s) ++ [(child_, st)]) (forked s)) s).

(** [AgentProcess::AgentProcess], [ForkedProcess::ForkedProcess] in the parent, and
    [~AgentProcess]. *)
Definition parent_step s : option proc :=
  if parent_gone s then None
  else match par s with
  | PBlob => Some (set_par PFork s)
  | PFork => Some (set_par PSignal (set_chd KPdeath s))
  | PSignal => Some (set_par PLock (install s))
  | PLock => Some (set_par PInsert (set_mu true s))
  | PInsert => Some (set_par PUnlock (set_forked (Fork.ForkedProcess child_ (forked s)) s))
  | PUnlock => Some (set_par PWaitReady (set_mu false s))
  | PWaitReady => if agent_ready_ s then Some (set_par PRunning s) else None
  | PRunning => None
  | PKill => Some (if kill_agent_ s then set_par PFailed s else set_par PReap (notify_kill s))
  | PReap =>
      match Fork.take_zombie child_ (Fork.zombies (forked s)) with
      | Some (st, z) => Some (set_par (PHandle st) (set_forked (Fork.set_zombies z (forked s)) s))
      | None => if kpc_alive (chd s) then None else Some (set_par PFree s)
      end
  | PHandle st =>
      Some (if Fork.exit_status st =? 0 then set_par PFree s else set_par (PHandlers st) (set_mu true s))
  | PHandlers st =>
      Some (set_par PFree (set_mu false (set_forked (Fork.HandleIfAbnormalExit child_ st (forked s)) s)))
  | PFree => Some (set_par PErase (set_mu true s))
  | PErase => Some (set_par PErased (set_forked (Fork.Destroy child_ (forked s)) s))
  | PErased => Some (set_par PDone (set_mu false s))
  | PDone | PHung | PFailed => None
  end.

(** The child, in [ForkedProcess::ForkedProcess] and [AgentProcess::AgentProcess]. *)
Definition child_step s : option proc :=
  match chd s with
  | KPdeath => Some (set_chd KPpid s)
  | KPpid => Some (if parent_gone s then child_ends (Exited 1) s else set_chd KConstruct s)
  | KConstruct => Some (set_chd KSpawn (set_agent true s))
  | KSpawn => Some (set_chd KReady s)
  | KReady => Some (if agent_ready_ s then set_chd KFailed s else set_chd KWaitKill (notify_ready s))
  | KWaitKill => if kill_agent_ s then Some (set_chd KDestroy s) else None
  | KDestroy => Some (set_chd KExit (set_agent false s))
  | KExit => Some (child_ends (Exited 0) s)
  | KNotYet | KGone | KFailed => None
  end.

(** [HandleSigchild] on the creating thread, for a pending signal.  When it finds a child
    that ended abnormally it takes [mu_].  (On another thread it would wait for [mu_],
    which is the signal coming later.) *)
Definition signal_step s : option proc :=
  if parent_gone s || negb (Fork.sigchld (forked s)) then None
  else match par s with
  | PHung | PFailed => None
  | _ =>
      match Fork.zombies (forked s) with
      | (_, st) :: _ =>
          if negb (Fork.exit_status st =? 0) && mu_ s then Some (set_par PHung s)
          else Some (set_forked (Fork.step Fork.Deliver (forked s)) s)
      | [] => Some (set_forked (Fork.step Fork.Deliver (forked s)) s)
      end
  end.

(** Calls, while the object is in use. *)
Definition in_use s : bool := match par s with PRunning => negb (parent_gone s) | _ => false end.

Definition rpc_step (x : Rpc.action) s : option proc := c ← Rpc.act RpcHandler (calls s) x; Some (set_calls c s).

Definition calls_finished s : bool := bool_decide (map_Forall (fun _ p => finished p = true) (Rpc.callers (calls s))).

Inductive action :=
  | Parent | Child | Signal
  | Call (t : Z) (c : Rpc.call) | Caller (t : Z) | Handler (online : bool)
  | AddExitHandler (h : handler)
  | Destruct                     (* the destructor is called; no call may be in progress *)
  | Crash (st : wait_status)     (* the child fails or is killed *)
  | KillParent | Orphaned.       (* the creating process is killed; the child with it *)

Definition act s (x : action) : option proc :=
  match x with
  | Parent => parent_step s
  | Child => child_step s
  | Signal => signal_step s
  | Call t c => if in_use s then rpc_step (Rpc.Call t c) s else None
  | Caller t => if in_use s then rpc_step (Rpc.Caller t) s else None
  | Handler online =>
      if kpc_serving (chd s)
      then if uses_agent (Rpc.handler (calls s)) && negb (full_agent_ s) then Some (set_chd KFailed s)
           else rpc_step (Rpc.Handler online) s
      else None
  | AddExitHandler h => if in_use s then Some (set_forked (Fork.AddExitHandler child_ h (forked s)) s) else None
  | Destruct => if in_use s && calls_finished s then Some (set_par PKill s) else None
  | Crash st => if kpc_alive (chd s) && negb (Fork.exit_status st =? 0) then Some (child_ends st s) else None
  | KillParent => if parent_gone s then None else Some (kill_parent s)
  | Orphaned => if parent_gone s && kpc_bound (chd s) then Some (child_ends (Signaled 9) s) else None
  end.

(** Before the constructor; [b] and [g] are what the shared memory and the agent start
    with. *)
Definition init_proc (b : Rpc.SharedBlob) (g : Agent) : proc :=
  mk_proc PBlob Fork.new_parent false false false false false KNotYet false None (Rpc.init_sys b g).

Inductive run : proc -> list action -> proc -> Prop :=
  | run_nil s : run s [] s
  | run_snoc s xs s1 x s2 : run s xs s1 -> act s1 x = Some s2 -> run s (xs ++ [x]) s2.
End Process.

Arguments proc : clear implicits.
End AgentProc.
