(* ===== verification/AgentProcessProps.v ===== *)
(** * An agent process lives and dies with its creator

    Safety and progress of [AgentProcess] for any interleaving of the creating process,
    the child, the calls between them, crashes and signals. *)

From S2P Require Import Prelude AgentRpc RpcCalls RpcCallsProps Process AgentProcess.

Module ProcProps.
Import AgentProc.

(** ** What the points say *)

Definition p_early (p : ppc) : bool := match p with PBlob | PFork => true | _ => false end.
Definition p_installed (p : ppc) : bool := match p with PBlob | PFork | PSignal => false | _ => true end.
Definition p_mu (p : ppc) : bool :=
  match p with PInsert | PUnlock | PHandlers _ | PErase | PErased | PHung => true | _ => false end.
Definition p_reaped (p : ppc) : bool :=
  match p with PHandle _ | PHandlers _ | PFree | PErase | PErased | PDone => true | _ => false end.
Definition p_killed (p : ppc) : bool := match p with PReap => true | _ => p_reaped p end.
Definition p_passed (p : ppc) : bool := match p with PRunning | PKill => true | _ => p_killed p end.
Definition p_handling (p : ppc) : bool := match p with PHandle _ | PHandlers _ => true | _ => false end.

(** Whether [agent_ready_] is notified, and whether the agent exists; nothing is known of
    a child that is gone. *)
Definition k_ready (k : kpc) : option bool :=
  match k with KWaitKill | KDestroy | KExit => Some true | KGone => None | _ => Some false end.
Definition k_agent (k : kpc) : option bool :=
  match k with KSpawn | KReady | KWaitKill | KDestroy => Some true | KGone => None | _ => Some false end.
Definition k_stopping (k : kpc) : bool := match k with KDestroy | KExit => true | _ => false end.

(** The handlers an action adds. *)
Definition added (x : action) : list handler := match x with AddExitHandler h => [h] | _ => [] end.

Lemma added_elem h xs : h ∈ xs ≫= added -> AddExitHandler h ∈ xs.
Proof. intros (x & Hx & Hin)%list_elem_of_bind. destruct x; cbn in Hx; set_solver. Qed.

Section Process.
Context {Agent : Type}.
Context (RpcHandler : Z -> Rpc.AgentRpcArgs -> Rpc.AgentRpcResponse -> Agent -> Rpc.AgentRpcResponse * Agent).
Context (child_ : Z) (b0 : Rpc.SharedBlob) (g0 : Agent).
Notation proc := (AgentProc.proc Agent).
Notation act := (AgentProc.act RpcHandler child_).
Implicit Types (s : proc) (hs : list handler).

Definition quiet (c : @Rpc.sys Agent) : Prop := RpcProps.idle c /\ forall t p, Rpc.callers c !! t = Some p -> finished p = true.

(** A handler took care of the end of the child. *)
Definition taken_care hs (st : wait_status) : Prop := exists h, h ∈ hs /\ h child_ st = true.

(** ** The invariant *)

Record inv hs s : Prop := {
  i_calls : RpcProps.inv RpcHandler b0 g0 (calls s);
  i_quiet : par s <> PRunning -> quiet (calls s);
  i_par : installed s = p_installed (par s) /\ mu_ s = p_mu (par s) /\ kill_agent_ s = p_killed (par s);
  i_notyet : chd s = KNotYet <-> p_early (par s) = true;
  i_ready : forall b, k_ready (chd s) = Some b -> agent_ready_ s = b;
  i_agent : forall b, k_agent (chd s) = Some b -> full_agent_ s = b;
  i_passed : p_passed (par s) = true -> agent_ready_ s = true;
  i_stopping : k_stopping (chd s) = true -> p_killed (par s) = true;
  i_ok : par s <> PFailed /\ chd s <> KFailed;
  i_ended : match ended s with
            | None => chd s <> KGone
            | Some st => chd s = KGone /\ (Fork.exit_status st = 0 -> st = Exited 0 /\ p_killed (par s) = true /\ full_agent_ s = false)
            end;
  i_zombies : Fork.zombies (forked s) = [] \/
              exists st, Fork.zombies (forked s) = [(child_, st)] /\ ended s = Some st /\ p_reaped (par s) = false;
  i_reaped : p_reaped (par s) = true -> chd s = KGone;
  i_handling : forall st, par s = PHandle st \/ par s = PHandlers st -> ended s = Some st;
  i_sigchld : Fork.sigchld (forked s) = true -> chd s = KGone;
  i_children : forall l, Fork.children (forked s) !! child_ = Some l -> forall h, h ∈ l -> h ∈ hs;
  i_erased : par s = PErased \/ par s = PDone -> Fork.children (forked s) !! child_ = None;
  i_told : forall st, Fork.zombies (forked s) = [] -> Fork.exited (forked s) = None -> ended s = Some st ->
           p_handling (par s) = false -> Fork.exit_status st = 0 \/ taken_care hs st;
  i_before : p_passed (par s) = false -> hs = [] }.

Lemma proc_init_inv : inv [] (init_proc b0 g0).
Proof.
  split; cbn; try done; try naive_solver. apply RpcProps.init_inv.
Qed.

(** ** Every step keeps it *)

(** What the news of the child does to the creating process. *)
Lemma told_cases hs st (p : Fork.parent) :
  (forall l, Fork.children p !! child_ = Some l -> forall h, h ∈ l -> h ∈ hs) ->
  let p' := Fork.HandleIfAbnormalExit child_ st p in
  Fork.zombies p' = Fork.zombies p /\ Fork.sigchld p' = Fork.sigchld p /\ Fork.children p' = Fork.children p /\
  (Fork.exited p' = None -> Fork.exited p = None /\ (Fork.exit_status st = 0 \/ taken_care hs st)).
Proof.
  intros Hc p'. unfold p'. rewrite ForkProps.handle_spec. unfold ForkProps.told.
  destruct (Z.eqb_spec (Fork.exit_status st) 0); [naive_solver|].
  destruct (Fork.children p !! child_) as [l|] eqn:El; [|by cbn].
  destruct (existsb (fun h => h child_ st) l) eqn:Ee; [|by cbn]. split_and!; try done. intros Hx. split; [done|]. right.
  apply existsb_exists in Ee as (h & Hin & Hh). exists h. split; [|done]. eapply Hc; [done|]. by apply list_elem_of_In.
Qed.

(** A child that is alive ends. *)
Lemma inv_child_ends hs s st : inv hs s -> kpc_alive (chd s) = true ->
  (Fork.exit_status st = 0 -> st = Exited 0 /\ chd s = KExit) -> inv hs (child_ends child_ st s).
Proof.
  intros [] Hk Hst. assert (Hne : chd s <> KGone) by (by intros E; rewrite E in Hk).
  assert (Hn : chd s <> KNotYet) by (by intros E; rewrite E in Hk).
  assert (Hr : p_reaped (par s) = false) by (destruct (p_reaped (par s)); naive_solver).
  assert (He : ended s = None) by (destruct (ended s); naive_solver).
  assert (Hz : Fork.zombies (forked s) = []) by naive_solver.
  assert (Hp : p_handling (par s) = false) by (by destruct (par s)).
  unfold child_ends. set (f := if installed s then _ else _).
  assert (Hf : (Fork.zombies f = [] /\ Fork.exited f <> None \/ Fork.zombies f = [(child_, st)]) /\
    Fork.children f = Fork.children (forked s)).
  { unfold f. destruct (installed s); cbn; rewrite ?Hz; [|by auto].
    unfold Fork.step. destruct (Fork.exited (forked s)) eqn:Ex; cbn; rewrite Hz; split; auto. left. by rewrite Ex. }
  destruct Hf as [Hf Hch]. split; cbn; try done.
  - split; [done|]. intros E. by apply i_notyet0 in E.
  - split; [|done]. by apply i_ok0.
  - split; [done|]. intros E. destruct (Hst E) as [Hx Ek]. split; [done|]. split; [apply i_stopping0; by rewrite Ek|].
    apply i_agent0. by rewrite Ek.
  - destruct Hf as [[? _]|?]; [by left|right]. by exists st.
  - intros st' [E|E]; by rewrite E in Hr.
  - by rewrite Hch.
  - intros [E|E]; by rewrite E in Hr.
  - intros st' E1 E2. exfalso. destruct Hf as [[_ ?]|?]; [done|]. by rewrite E1 in *.
Qed.

(** The child moves on. *)
Lemma inv_child_moves hs s k ready agent : inv hs s -> kpc_alive (chd s) = true -> kpc_alive k = true ->
  k_ready k = Some ready -> k_agent k = Some agent -> (agent_ready_ s = true -> ready = true) ->
  (k_stopping k = true -> p_killed (par s) = true) ->
  inv hs (mk_proc (par s) (forked s) (installed s) (mu_ s) (killed s) ready (kill_agent_ s) k agent (ended s) (calls s)).
Proof.
  intros [] Hk Hk' Hr Ha Hready Hstop. assert (Hne : chd s <> KGone) by (by intros E; rewrite E in Hk).
  assert (Hn : chd s <> KNotYet) by (by intros E; rewrite E in Hk).
  assert (Hg : k <> KGone /\ k <> KNotYet /\ k <> KFailed) by (by destruct k). destruct Hg as (Hg1 & Hg2 & Hg3).
  split; cbn; try done.
  - split; [done|]. intros E. by apply i_notyet0 in E.
  - intros b E. congruence.
  - intros b E. congruence.
  - auto.
  - split; [by apply i_ok0|done].
  - destruct (ended s); [by destruct i_ended0|done].
  - intros E. by apply i_reaped0 in E.
  - intros E. by apply i_sigchld0 in E.
Qed.

Lemma inv_child hs s s' : inv hs s -> child_step child_ s = Some s' -> inv hs s'.
Proof.
  intros Hi Hs. assert (Hm := fun k ready agent => inv_child_moves hs s k ready agent Hi). unfold child_step in Hs.
  pose proof (i_ready _ _ Hi) as Hready. pose proof (i_agent _ _ Hi) as Hagent. pose proof (i_stopping _ _ Hi) as Hstop.
  destruct (chd s) eqn:Ek; try done; cbn in Hready, Hagent, Hstop;
    specialize (Hready _ eq_refl); specialize (Hagent _ eq_refl).
  all: try (injection Hs as <-; apply Hm; cbn; solve [done | congruence | auto]).
  - injection Hs as <-. destruct (parent_gone s); [apply inv_child_ends; [done|by rewrite Ek|done]|].
    apply Hm; cbn; solve [done | congruence].
  - rewrite Hready in Hs. injection Hs as <-. apply Hm; cbn; solve [done | congruence].
  - assert (E : kill_agent_ s = true) by (by destruct (kill_agent_ s)). rewrite E in Hs. injection Hs as <-. apply Hm; cbn; try solve [done | congruence].
    intros _. by destruct (i_par _ _ Hi) as (_ & _ & <-).
  - injection Hs as <-. apply inv_child_ends; [done|by rewrite Ek|done].
Qed.

(** The creating thread moves on. *)
Lemma inv_parent_moves hs s p f : inv hs s -> par s <> PRunning -> p <> PFailed ->
  (p_early p = p_early (par s)) -> (p_passed p = true -> agent_ready_ s = true) ->
  (p_killed (par s) = true -> p_killed p = true) ->
  (Fork.zombies f = [] \/ Fork.zombies f = Fork.zombies (forked s) /\ p_reaped p = false) ->
  (p_reaped p = true -> chd s = KGone) -> (forall st, p = PHandle st \/ p = PHandlers st -> ended s = Some st) ->
  Fork.sigchld f = Fork.sigchld (forked s) ->
  (forall l, Fork.children f !! child_ = Some l -> forall h, h ∈ l -> h ∈ hs) ->
  (p = PErased \/ p = PDone -> Fork.children f !! child_ = None) ->
  (forall st, Fork.zombies f = [] -> Fork.exited f = None -> ended s = Some st -> p_handling p = false ->
     Fork.exit_status st = 0 \/ taken_care hs st) ->
  (p_passed p = false -> p_passed (par s) = false) ->
  inv hs (mk_proc p f (p_installed p) (p_mu p) (killed s) (agent_ready_ s) (p_killed p) (chd s) (full_agent_ s) (ended s) (calls s)).
Proof.
  intros [] Hr Hf He Hp Hk Hz Hre Hh Hs Hc Her Ht Hb. split; cbn; try done.
  - intros _. by apply i_quiet0.
  - by rewrite He.
  - auto.
  - split; [done|by apply i_ok0].
  - destruct (ended s); [|done]. destruct i_ended0 as [? H]. split; [done|]. intros E. destruct (H E) as (? & ? & ?). auto.
  - destruct Hz as [?|[E ?]]; [by left|]. rewrite E. destruct i_zombies0 as [?|(st & ? & ? & _)]; [by left|right]. by exists st.
  - by rewrite Hs.
  - auto.
Qed.

(** The creating thread has the news of the child when it gets past [waitpid]. *)
Lemma reaped_child hs s : inv hs s -> par s = PReap -> kpc_alive (chd s) = false -> chd s = KGone.
Proof.
  intros [] E Hk. destruct (chd s) eqn:Ek; try done; [|naive_solver]. exfalso. rewrite E in i_notyet0. naive_solver.
Qed.

(** Once reaped, nothing is left of the child. *)
Lemma reaped_zombies hs s : inv hs s -> p_reaped (par s) = true -> Fork.zombies (forked s) = [].
Proof. intros [] Hr. destruct i_zombies0 as [|(? & _ & _ & E)]; [done|]. by rewrite Hr in E. Qed.

(** The child is made. *)
Lemma inv_fork hs s : inv hs s -> par s = PFork -> inv hs (set_par PSignal (set_chd KPdeath s)).
Proof.
  intros [] E. rewrite E in *. destruct i_notyet0 as [_ Ek]. specialize (Ek eq_refl). rewrite Ek in *. cbn in *.
  assert (Hen : ended s = None) by (destruct (ended s); naive_solver).
  split; cbn; try done; rewrite ?Hen in *; try (by intros ? [|]); try (by intros [|]).
  - intros _. by apply i_quiet0.
  - done.
  - intros Hs. by specialize (i_sigchld0 Hs).
Qed.

Lemma inv_parent hs s s' : inv hs s -> parent_step child_ s = Some s' -> inv hs s'.
Proof.
  intros Hi Hs. unfold parent_step in Hs. destruct (parent_gone s) eqn:Hg; [done|].
  pose proof (inv_parent_moves hs s) as Hm. pose proof (reaped_child hs s Hi) as Hreap.
  pose proof (reaped_zombies hs s Hi) as Hz. pose proof (inv_fork hs s Hi) as Hfork.
  pose proof (fun st => told_cases hs st (forked s) (i_children _ _ Hi)) as Htold. pose proof Hi as [].
  destruct s as [p f ins m kd rdy kl k ag en cs]; cbn in *. destruct i_par0 as (-> & -> & ->).
  destruct p; try done; cbn in *.
  all: try (injection Hs as <-; match goal with |- inv _ ?s' => apply (Hm (par s') (forked s')) end; cbn; try done;
    try (by right); try (by intros ? [?|?]); try (by intros [?|?]); try (by left; apply Hz)).
  - injection Hs as <-. by apply Hfork.
  - intros l. rewrite lookup_insert_eq. intros [= <-] h. set_solver.
  - assert (rdy = true) as -> by (by destruct rdy). injection Hs as <-. apply (Hm PRunning f); cbn; try done; try (by right);
      [by intros ? [?|?]|by intros [?|?]].
  - destruct i_zombies0 as [E|(st & E & He & _)]; rewrite E in Hs; cbn in Hs.
    + destruct (kpc_alive k) eqn:Ek; [done|]. specialize (Hreap eq_refl eq_refl). injection Hs as <-.
      apply (Hm PFree f); cbn; try done; [by left|by intros ? [?|?]|by intros [?|?]].
    + rewrite Z.eqb_refl in Hs. injection Hs as <-. apply (Hm (PHandle st) (Fork.set_zombies [] f)); cbn; try done.
      * by left.
      * intros _. rewrite He in i_ended0. apply i_ended0.
      * by intros ? [[= <-]|?].
      * by intros [?|?].
  - specialize (i_handling0 st (or_introl eq_refl)). destruct (Z.eqb_spec (Fork.exit_status st) 0) as [E|E]; injection Hs as <-.
    + apply (Hm PFree f); cbn; try done; [left; by apply Hz|by intros ? [?|?]|by intros [?|?]|].
      intros st' _ _ ? _. left. congruence.
    + apply (Hm (PHandlers st) f); cbn; try done; [left; by apply Hz|by intros ? [?|[= <-]]|by intros [?|?]].
  - left. destruct (Htold st) as (-> & _). by apply Hz.
  - apply Htold.
  - destruct (Htold st) as (_ & _ & -> & _). done.
  - intros st' _ Hx He _. destruct (Htold st) as (_ & _ & _ & H). destruct (H Hx) as [_ H'].
    specialize (i_handling0 st (or_intror eq_refl)). congruence.
  - intros l. by rewrite lookup_delete_eq.
  - intros _. apply lookup_delete_eq.
  - intros _. apply i_erased0. by left.
Qed.

(** Only the news of the child changes, or the creating thread hangs in its constructor. *)
Lemma inv_signal hs s s' : inv hs s -> signal_step s = Some s' -> inv hs s'.
Proof.
  intros Hi Hs. unfold signal_step in Hs. destruct (parent_gone s) eqn:Hg; [done|]. cbn in Hs.
  destruct (Fork.sigchld (forked s)) eqn:Hsig; [|done]. cbn in Hs.
  assert (Hx : Fork.exited (forked s) = None).
  { unfold parent_gone in Hg. apply orb_false_elim in Hg as [_ Hg]. apply bool_decide_eq_false in Hg. destruct (Fork.exited (forked s)); [by destruct Hg|done]. }
  assert (Hdel : inv hs (set_forked (Fork.step Fork.Deliver (forked s)) s)).
  { unfold Fork.step. rewrite Hx, Hsig. unfold Fork.HandleSigchild. pose proof Hi as [].
    destruct i_zombies0 as [E|(st & E & He & Hr)]; cbn; rewrite E.
    - split; cbn; try done. by left.
    - set (f := Fork.set_zombies [] (Fork.set_sigchld false (forked s))).
      destruct (told_cases hs st f i_children0) as (H1 & H2 & H3 & H4). cbn in H1, H2, H3, H4.
      split; cbn; rewrite ?H1, ?H2, ?H3; try done; [by left|]. intros st' _ Hx' He' _. destruct (H4 Hx') as [_ H5]. congruence. }
  destruct (par s) eqn:Ep; try done.
  all: destruct (Fork.zombies (forked s)) as [|[c0 st0] z] eqn:Ez; [by injection Hs as <-|].
  all: destruct (negb _ && mu_ s) eqn:Em; injection Hs as <-; [|done].
  all: apply andb_true_iff in Em as [Em Hmu]; pose proof (reaped_zombies hs s Hi) as Hz; rewrite Ep in Hz; cbn in Hz;
    try (by rewrite Hz in Ez); pose proof (i_par _ _ Hi) as (_ & Hmu' & _); rewrite Hmu, Ep in Hmu'; try done.
  all: pose proof Hi as []; rewrite Ep in *; split; cbn; try done; try (by intros ? [|]); try (by intros [|]).
  all: try (by rewrite Ez in * ); try (split; [done|by apply i_ok0]). all: intros _; by apply i_quiet0.
Qed.

Lemma inv_calls hs s c : inv hs s -> RpcProps.inv RpcHandler b0 g0 c -> (par s <> PRunning -> quiet c) -> inv hs (set_calls c s).
Proof. intros [] Hc Hq. by split. Qed.

Lemma inv_in_use s : in_use s = true -> par s = PRunning.
Proof. unfold in_use. by destruct (par s). Qed.

(** A call is served only while there is an agent. *)
Lemma proc_inv_handler hs s s' online : inv hs s -> act s (Handler online) = Some s' -> inv hs s'.
Proof.
  intros Hi Hs. cbn [AgentProc.act] in Hs. destruct (kpc_serving (chd s)) eqn:Ek; [|done]. unfold rpc_step in Hs.
  destruct (decide (par s = PRunning)) as [Ep|Ep].
  - pose proof Hi as []. assert (Hag : full_agent_ s = true).
    { rewrite Ep in i_stopping0. destruct (chd s); try done; try (by specialize (i_stopping0 eq_refl)); by apply i_agent0. }
    rewrite Hag, andb_false_r in Hs. destruct (Rpc.act RpcHandler (calls s) (Rpc.Handler online)) as [c|] eqn:E; [|done].
    injection Hs as <-. apply inv_calls; [done| |done]. by eapply RpcProps.calls_inv_act.
  - destruct (i_quiet _ _ Hi Ep) as [Hidle _]. assert (Hh : uses_agent (Rpc.handler (calls s)) = false) by (by destruct Hidle as [-> _]).
    rewrite Hh in Hs. cbn [andb Rpc.act] in Hs. by rewrite RpcProps.idle_asleep in Hs.
Qed.

Lemma inv_weaken hs hs' s : hs ⊆ hs' -> p_passed (par s) = true -> inv hs s -> inv hs' s.
Proof.
  intros Hsub Hp []. split; try done.
  - intros l Hl h Hh. apply Hsub. by eapply i_children0.
  - intros st H1 H2 H3 H4. destruct (i_told0 st H1 H2 H3 H4) as [?|(h & Hh & ?)]; [by left|right]. exists h. auto.
  - by rewrite Hp.
Qed.

Lemma inv_add hs s h : inv hs s -> par s = PRunning ->
  inv (hs ++ [h]) (set_forked (Fork.AddExitHandler child_ h (forked s)) s).
Proof.
  intros Hi Ep. apply (inv_weaken hs (hs ++ [h])) in Hi; [|set_solver|by rewrite Ep]. pose proof Hi as []. split; cbn; try done.
  - intros l. rewrite lookup_alter_eq. destruct (Fork.children (forked s) !! child_) as [l0|] eqn:El; cbn; [|done].
    intros [= <-] h' [Hh|Hh]%elem_of_app; [by eapply i_children0|set_solver].
  - rewrite Ep. by intros [|].
Qed.

(** The destructor may be called when every call has returned. *)
Lemma finished_quiet s : RpcProps.inv RpcHandler b0 g0 (calls s) -> calls_finished s = true -> quiet (calls s).
Proof.
  unfold calls_finished. intros [st [_ _ Hm]] Hf. apply bool_decide_eq_true in Hf. split; [|done].
  destruct (Rpc.mutex (calls s)); [|by destruct Hm]. destruct Hm as (p & Hp & Hh). specialize (Hf _ _ Hp). by destruct p.
Qed.

Lemma inv_destruct hs s : inv hs s -> par s = PRunning -> calls_finished s = true -> inv hs (set_par PKill s).
Proof.
  intros Hi Ep Hf. pose proof Hi as []. rewrite Ep in *. split; cbn; try done; try (by intros ? [|]); try (by intros [|]).
  - intros _. by apply finished_quiet.
  - split; [done|by apply i_ok0].
Qed.

Lemma proc_inv_act hs s x s' : inv hs s -> act s x = Some s' -> inv (hs ++ added x) s'.
Proof.
  intros Hi Hs. destruct x; cbn [added]; rewrite ?app_nil_r.
  - by eapply inv_parent.
  - by eapply inv_child.
  - by eapply inv_signal.
  - cbn [AgentProc.act] in Hs. destruct (in_use s) eqn:Eu; [|done]. apply inv_in_use in Eu. unfold rpc_step in Hs.
    destruct (Rpc.act RpcHandler (calls s) (Rpc.Call t c)) as [c'|] eqn:E; [|done]. injection Hs as <-.
    apply inv_calls; [done| |done]. eapply RpcProps.calls_inv_act; [apply Hi|done].
  - cbn [AgentProc.act] in Hs. destruct (in_use s) eqn:Eu; [|done]. apply inv_in_use in Eu. unfold rpc_step in Hs.
    destruct (Rpc.act RpcHandler (calls s) (Rpc.Caller t)) as [c'|] eqn:E; [|done]. injection Hs as <-.
    apply inv_calls; [done| |done]. eapply RpcProps.calls_inv_act; [apply Hi|done].
  - by eapply proc_inv_handler.
  - cbn [AgentProc.act] in Hs. destruct (in_use s) eqn:Eu; [|done]. apply inv_in_use in Eu. injection Hs as <-. by apply inv_add.
  - cbn in Hs. destruct (in_use s && calls_finished s) eqn:Eu; [|done]. apply andb_true_iff in Eu as [Eu Hf]. apply inv_in_use in Eu.
    injection Hs as <-. by apply inv_destruct.
  - cbn in Hs. destruct (kpc_alive (chd s) && _) eqn:E; [|done]. apply andb_true_iff in E as [Ek Est].
    injection Hs as <-. apply inv_child_ends; [done|done|]. destruct (Z.eqb_spec (Fork.exit_status st) 0); done.
  - cbn in Hs. destruct (parent_gone s); [done|]. injection Hs as <-. pose proof Hi as []. by split.
  - cbn in Hs. destruct (parent_gone s && _) eqn:E; [|done]. apply andb_true_iff in E as [_ Ek].
    injection Hs as <-. apply inv_child_ends; [done| |done]. by destruct (chd s).
Qed.

Lemma inv_proc_run xs s : AgentProc.run RpcHandler child_ (init_proc b0 g0) xs s -> inv (xs ≫= added) s.
Proof.
  intros Hr. remember (init_proc b0 g0) as s0 eqn:E0. induction Hr as [|s xs s1 x s2 Hr IH Hx]; subst; [apply proc_init_inv|].
  rewrite bind_app. cbn. rewrite app_nil_r. eapply proc_inv_act; [by apply IH|done].
Qed.

(** ** Progress *)

Definition prank (p : ppc) : nat :=
  match p with
  | PBlob => 17 | PFork => 16 | PSignal => 15 | PLock => 14 | PInsert => 13 | PUnlock => 12 | PWaitReady => 11 | PRunning => 10
  | PKill => 9 | PReap => 8 | PHandle _ => 7 | PHandlers _ => 6 | PFree => 5 | PErase => 4 | PErased => 3
  | PDone | PHung | PFailed => 0
  end.
Definition krank (k : kpc) : nat :=
  match k with
  | KNotYet => 11 | KPdeath => 10 | KPpid => 9 | KConstruct => 8 | KSpawn => 7 | KReady => 6 | KWaitKill => 5 | KDestroy => 4
  | KExit => 3 | KGone | KFailed => 0
  end.

(** Steps left in the life of the two processes, apart from calls. *)
Definition stages s : nat :=
  prank (par s) + krank (chd s) + Nat.b2n (Fork.sigchld (forked s)) + Nat.b2n (negb (killed s)).

Definition in_life (x : action) : bool :=
  match x with Call _ _ | Caller _ | Handler _ | AddExitHandler _ => false | _ => true end.

(** The kernel has news of the child and will not tell. *)
Definition news_lost s : Prop := installed s = true /\ Fork.zombies (forked s) <> [] /\ Fork.sigchld (forked s) = false.

Lemma handle_sigchld (st : wait_status) (f : Fork.parent) :
  Fork.sigchld (Fork.HandleIfAbnormalExit child_ st f) = Fork.sigchld f.
Proof. rewrite ForkProps.handle_spec. unfold ForkProps.told. by repeat case_match. Qed.

Lemma child_ends_stages st s : kpc_alive (chd s) = true -> (stages (child_ends child_ st s) < stages s)%nat.
Proof.
  intros Hk. assert (3 <= krank (chd s))%nat by (destruct (chd s); cbn; done || lia). unfold stages. cbn.
  destruct (Fork.sigchld _); cbn; lia.
Qed.

Lemma parent_gone_exited s : parent_gone s = false -> killed s = false /\ Fork.exited (forked s) = None.
Proof.
  unfold parent_gone. intros [Hk Hx]%orb_false_elim. apply bool_decide_eq_false in Hx. split; [done|].
  destruct (Fork.exited (forked s)); [by destruct Hx|done].
Qed.

Lemma parent_stages s s' : (chd s = KNotYet <-> p_early (par s) = true) -> parent_step child_ s = Some s' -> (stages s' < stages s)%nat.
Proof.
  intros Hn Hs. unfold parent_step in Hs. destruct (parent_gone s); [done|]. unfold stages.
  destruct (par s) eqn:Ep; try done; cbn in *.
  all: repeat case_match; simplify_eq; cbn; rewrite ?Ep, ?handle_sigchld; cbn; try lia.
  destruct Hn as [_ ->]; [|done]. cbn. lia.
Qed.

Lemma child_stages s s' : child_step child_ s = Some s' -> (stages s' < stages s)%nat.
Proof.
  intros Hs. unfold child_step in Hs.
  destruct (chd s) eqn:Ek; try done; repeat case_match; simplify_eq;
    try (apply child_ends_stages; by rewrite Ek); unfold stages; cbn; rewrite Ek; cbn; lia.
Qed.

Lemma deliver_sigchld (f : Fork.parent) : Fork.exited f = None -> Fork.zombies f = [] \/ (exists st, Fork.zombies f = [(child_, st)]) ->
  Fork.sigchld (Fork.step Fork.Deliver f) = false.
Proof.
  intros Hx Hz. unfold Fork.step. rewrite Hx. destruct (Fork.sigchld f) eqn:E; [|done]. unfold Fork.HandleSigchild.
  destruct Hz as [Hz|[st Hz]]; cbn; rewrite Hz; [done|]. by rewrite handle_sigchld.
Qed.

Lemma signal_stages hs s s' : inv hs s -> signal_step s = Some s' -> (stages s' < stages s)%nat.
Proof.
  intros Hi Hs. unfold signal_step in Hs. destruct (parent_gone s) eqn:Hg; [done|]. cbn in Hs.
  apply parent_gone_exited in Hg as [_ Hx]. destruct (Fork.sigchld (forked s)) eqn:Hsig; [|done]. cbn in Hs.
  assert (Hd : (stages (set_forked (Fork.step Fork.Deliver (forked s)) s) < stages s)%nat).
  { unfold stages. cbn. rewrite deliver_sigchld, Hsig; [cbn; lia|done|]. destruct (i_zombies _ _ Hi) as [?|(st & ? & _)]; eauto. }
  destruct (i_par _ _ Hi) as (_ & Hmu & _).
  destruct (par s) eqn:Ep; try done; (destruct (Fork.zombies (forked s)) as [|[c0 st0] z]; [by simplify_eq|]);
    (destruct (negb _ && mu_ s) eqn:Em; injection Hs as <-; [|done]); rewrite Hmu in Em; cbn in Em;
    rewrite ?andb_false_r in Em; try done; unfold stages; cbn; rewrite Ep; cbn; lia.
Qed.

Lemma step_stages hs s x s' : inv hs s -> act s x = Some s' ->
  if in_life x then (stages s' < stages s)%nat else stages s' = stages s.
Proof.
  intros Hi Hs. destruct x; cbn [in_life].
  - eapply parent_stages; [apply Hi|done].
  - by eapply child_stages.
  - by eapply signal_stages.
  - cbn [AgentProc.act] in Hs. unfold rpc_step in Hs. destruct (in_use s); [|done]. destruct (Rpc.act _ _ _); cbn in Hs; by simplify_eq.
  - cbn [AgentProc.act] in Hs. unfold rpc_step in Hs. destruct (in_use s); [|done]. destruct (Rpc.act _ _ _); cbn in Hs; by simplify_eq.
  - pose proof (proc_inv_handler _ _ _ _ Hi Hs) as Hi'. cbn [AgentProc.act] in Hs. unfold rpc_step in Hs.
    destruct (kpc_serving (chd s)); [|done]. destruct (uses_agent _ && _).
    + injection Hs as <-. by destruct (i_ok _ _ Hi') as [_ []].
    + destruct (Rpc.act _ _ _); cbn in Hs; by simplify_eq.
  - cbn in Hs. destruct (in_use s); by simplify_eq.
  - cbn in Hs. destruct (in_use s) eqn:Eu; [|done]. apply inv_in_use in Eu. destruct (calls_finished s); [|done]. injection Hs as <-.
    unfold stages. cbn. rewrite Eu. cbn. lia.
  - cbn in Hs. destruct (kpc_alive (chd s)) eqn:E; [|done]. cbn in Hs. destruct (negb _); [|done]. injection Hs as <-. by apply child_ends_stages.
  - cbn in Hs. destruct (parent_gone s) eqn:Hg; [done|]. apply parent_gone_exited in Hg as [Hk _]. injection Hs as <-.
    unfold stages. cbn. rewrite Hk. cbn. lia.
  - cbn in Hs. destruct (parent_gone s); [|done]. cbn in Hs. destruct (kpc_bound (chd s)) eqn:E; [|done]. injection Hs as <-.
    apply child_ends_stages. by destruct (chd s).
Qed.

(** A child that can still do something, once asked to stop or before it is ready. *)
Lemma child_enabled hs s : inv hs s -> kpc_alive (chd s) = true -> kill_agent_ s = true \/ agent_ready_ s = false -> act s Child <> None.
Proof.
  intros Hi Hk Hw. cbn. unfold child_step. pose proof (i_ready _ _ Hi) as Hr. destruct (chd s); try done.
  destruct (kill_agent_ s); [done|]. specialize (Hr true eq_refl). destruct Hw; congruence.
Qed.

(** A pending signal is handled. *)
Lemma signal_enabled hs s : inv hs s -> parent_gone s = false -> Fork.sigchld (forked s) = true -> par s <> PHung -> act s Signal <> None.
Proof.
  intros Hi Hg Hsig Hh. cbn. unfold signal_step. rewrite Hg, Hsig. cbn. destruct (i_ok _ _ Hi) as [Hf _].
  destruct (par s); try done; repeat case_match; done.
Qed.

(** The child is gone and nobody is told, or somebody was told and took care. *)
Lemma gone_cases hs s : inv hs s -> parent_gone s = false -> chd s = KGone -> par s = PWaitReady \/ par s = PRunning ->
  act s Signal <> None \/ news_lost s \/ (exists st, ended s = Some st /\ taken_care hs st).
Proof.
  intros Hi Hg Hk Hp. pose proof (signal_enabled hs s Hi Hg) as Hsig. pose proof (parent_gone_exited s Hg) as [_ Hx].
  pose proof Hi as []. destruct (ended s) as [st|]; [|done]. destruct i_ended0 as [_ Hst], i_par0 as (Hin & _).
  assert (Hp' : p_installed (par s) = true /\ p_killed (par s) = false /\ p_handling (par s) = false /\ par s <> PHung)
    by (by destruct Hp as [-> | ->]). destruct Hp' as (H1 & H2 & H3 & H4). rewrite H1 in Hin.
  assert (Hne : Fork.exit_status st <> 0) by (intros E; destruct (Hst E) as (_ & E' & _); congruence).
  destruct i_zombies0 as [Hz|(st' & Hz & _)].
  - right; right. exists st. split; [done|]. by destruct (i_told0 st Hz Hx eq_refl H3).
  - destruct (Fork.sigchld (forked s)) eqn:Es; [left; auto|]. right; left. unfold news_lost. by rewrite Hz.
Qed.

Lemma waiting_progress hs s : inv hs s -> parent_gone s = false -> par s <> PRunning -> par s <> PDone -> par s <> PHung ->
  act s Parent <> None \/ act s Child <> None \/ act s Signal <> None \/ par s = PWaitReady /\ news_lost s.
Proof.
  intros Hi Hg H1 H2 H3. pose proof (i_ok _ _ Hi) as [H4 H5]. cbn [AgentProc.act]. unfold parent_step. rewrite Hg.
  destruct (par s) eqn:Ep; try (by left).
  - destruct (agent_ready_ s) eqn:Er; [by left|]. right. destruct (kpc_alive (chd s)) eqn:Ek.
    { left. apply (child_enabled hs); auto. }
    destruct (chd s) eqn:Ec; try done; [by destruct (i_notyet _ _ Hi) as [H _]; specialize (H Ec); rewrite Ep in H|].
    destruct (gone_cases hs s Hi Hg Ec (or_introl Ep)) as [?|[?|(st & _ & h & Hh & _)]]; [auto..|].
    rewrite (i_before _ _ Hi) in Hh by (by rewrite Ep). by apply not_elem_of_nil in Hh.
  - destruct (Fork.take_zombie _ _) as [[st z]|]; [by left|]. destruct (kpc_alive (chd s)) eqn:Ek; [|by left].
    right; left. apply (child_enabled hs); [done..|]. left. destruct (i_par _ _ Hi) as (_ & _ & ->). by rewrite Ep.
Qed.

(** A call in progress. *)
Lemma call_progress hs s t : inv hs s -> in_use s = true -> Rpc.mutex (calls s) = Some t ->
  act s (Caller t) <> None \/ act s Signal <> None \/ (forall online, act s (Handler online) <> None) \/
  news_lost s \/ (exists st, ended s = Some st /\ taken_care hs st).
Proof.
  intros Hi Hu Hm. pose proof (inv_in_use s Hu) as Ep. assert (Hg : parent_gone s = false)
    by (unfold in_use in Hu; rewrite Ep in Hu; by destruct (parent_gone s)).
  destruct (RpcProps.held_enabled RpcHandler b0 g0 (calls s) t) as [Hc|Hh]; [apply Hi|done|..].
  - left. cbn [AgentProc.act]. rewrite Hu. unfold rpc_step. destruct (Rpc.act _ _ _); done.
  - right. destruct (kpc_serving (chd s)) eqn:Ek.
    + right; left. intros online. cbn [AgentProc.act]. rewrite Ek. unfold rpc_step. destruct (_ && _); [done|].
      specialize (Hh online). by destruct (Rpc.act _ _ _).
    + assert (Hk : chd s = KGone).
      { pose proof Hi as []. rewrite Ep in *. specialize (i_passed0 eq_refl).
        destruct (chd s); try done; by specialize (i_ready0 false eq_refl); rewrite i_ready0 in i_passed0. }
      destruct (gone_cases hs s Hi Hg Hk (or_intror Ep)) as [?|[?|?]]; auto.
Qed.

(** How the two dead ends are entered. *)
Lemma child_ends_lost st s : news_lost (child_ends child_ st s) -> news_lost s.
Proof.
  unfold news_lost. cbn. intros (Hin & Hz & Hsig). rewrite Hin in *. unfold Fork.step in *. by destruct (Fork.exited (forked s)).
Qed.

Lemma handle_zombies (st : wait_status) (f : Fork.parent) :
  Fork.zombies (Fork.HandleIfAbnormalExit child_ st f) = Fork.zombies f.
Proof. rewrite ForkProps.handle_spec. unfold ForkProps.told. by repeat case_match. Qed.

Lemma parent_lost hs s s' : inv hs s -> parent_step child_ s = Some s' -> news_lost s' ->
  news_lost s \/ par s = PSignal /\ chd s = KGone.
Proof.
  intros Hi Hs. unfold parent_step in Hs. destruct (parent_gone s); [done|]. unfold news_lost.
  destruct (par s) eqn:Ep; try done; cbn in *.
  all: repeat case_match; simplify_eq; cbn; rewrite ?handle_zombies, ?handle_sigchld; try (by left).
  - intros (_ & Hz & _). right. split; [done|]. destruct (i_zombies _ _ Hi) as [?|(st & _ & He & _)]; [done|].
    pose proof (i_ended _ _ Hi) as H. rewrite He in H. apply H.
  - intros (Hin & Hz & Hsig). left. split_and!; try done. intros E. rewrite E in *. done.
Qed.

Lemma signal_dead_ends hs s s' : inv hs s -> signal_step s = Some s' ->
  (news_lost s' -> news_lost s) /\ (par s' = PHung -> par s = PInsert \/ par s = PUnlock).
Proof.
  intros Hi Hs. unfold signal_step in Hs. destruct (parent_gone s) eqn:Hg; [done|]. cbn in Hs.
  apply parent_gone_exited in Hg as [_ Hx]. destruct (Fork.sigchld (forked s)) eqn:Hsig; [|done]. cbn in Hs.
  assert (Hd : ~ news_lost (set_forked (Fork.step Fork.Deliver (forked s)) s)).
  { intros (_ & Hz & _). cbn in Hz. apply Hz. unfold Fork.step. rewrite Hx, Hsig. unfold Fork.HandleSigchild. cbn.
    destruct (i_zombies _ _ Hi) as [E|(st & E & _)]; rewrite E; [done|]. by rewrite handle_zombies. }
  pose proof (reaped_zombies hs s Hi) as Hz. destruct (i_par _ _ Hi) as (_ & Hmu & _).
  destruct (par s) eqn:Ep; try done; (destruct (Fork.zombies (forked s)) as [|[c0 st0] z]; [injection Hs as <-; cbn; rewrite Ep; naive_solver|]);
    cbn in Hz; try (by specialize (Hz eq_refl));
    (destruct (negb _ && mu_ s) eqn:Em; injection Hs as <-; [|cbn; rewrite Ep; naive_solver]); rewrite Hmu in Em; cbn in Em;
    rewrite ?andb_false_r in Em; try done; (split; [|auto]); intros (H1 & H2 & H3); by cbn in H3; rewrite Hsig in H3.
Qed.

Lemma dead_ends hs s x s' : inv hs s -> act s x = Some s' ->
  (news_lost s' -> news_lost s \/ x = Parent /\ par s = PSignal /\ chd s = KGone) /\
  (par s' = PHung -> par s = PHung \/ x = Signal /\ (par s = PInsert \/ par s = PUnlock)).
Proof.
  intros Hi Hs. destruct x; cbn [AgentProc.act] in Hs.
  - split; [intros Hl; destruct (parent_lost hs s s' Hi Hs Hl); auto|].
    unfold parent_step in Hs. destruct (parent_gone s); [done|]. destruct (par s); repeat case_match; by simplify_eq.
  - unfold child_step in Hs. destruct (chd s); repeat case_match; simplify_eq; (split; [|by left]); try (by left);
      intros; left; by eapply child_ends_lost.
  - destruct (signal_dead_ends hs s s' Hi Hs). naive_solver.
  - unfold rpc_step in Hs. destruct (in_use s); [|done]. destruct (Rpc.act _ _ _); cbn in Hs; simplify_eq. split; by left.
  - unfold rpc_step in Hs. destruct (in_use s); [|done]. destruct (Rpc.act _ _ _); cbn in Hs; simplify_eq. split; by left.
  - unfold rpc_step in Hs. destruct (kpc_serving _); [|done]. destruct (_ && _); [simplify_eq; split; by left|].
    destruct (Rpc.act _ _ _); cbn in Hs; simplify_eq. split; by left.
  - destruct (in_use s); simplify_eq. split; by left.
  - destruct (in_use s && _); simplify_eq. split; by left.
  - destruct (_ && _); simplify_eq. split; [|by left]. intros. left. by eapply child_ends_lost.
  - destruct (parent_gone s); simplify_eq. split; by left.
  - destruct (_ && _); simplify_eq. split; [|by left]. intros. left. by eapply child_ends_lost.
Qed.
End Process.

(** ** The agent process *)

(** C23: An agent process is safe, whatever the interleaving, crashes and signals.  No
    [CHECK] of a notification fails on either side, and no call is served without an agent
    (by a child whose agent is not made yet or already destroyed).  The constructor
    returns only once the agent is made and calls are served; while the child lives it
    stays so until the destructor is called.  The answers to the calls are those of serving
    them in turn.  When the destructor has returned, the child is gone, nothing is left of
    it, and it had either destroyed its agent and exited normally, or one of the handlers
    that were added took care of its failure; without such a handler the creating process
    has exited instead of going on. *)
Theorem agent_process_safe {Agent} (RpcHandler : Z -> Rpc.AgentRpcArgs -> Rpc.AgentRpcResponse -> Agent -> Rpc.AgentRpcResponse * Agent)
    (child_ : Z) (b0 : Rpc.SharedBlob) (g0 : Agent) xs s :
  AgentProc.run RpcHandler child_ (init_proc b0 g0) xs s ->
  par s <> PFailed /\ chd s <> KFailed /\ Rpc.handler (calls s) <> Rpc.HFailed /\
  (forall t, Rpc.callers (calls s) !! t <> Some Rpc.CFailed) /\
  (kpc_alive (chd s) = true -> uses_agent (Rpc.handler (calls s)) = true -> full_agent_ s = true) /\
  (par s = PRunning -> kpc_alive (chd s) = true -> chd s = KWaitKill /\ full_agent_ s = true) /\
  (exists st, Rpc.sequential RpcHandler (Rpc.rpc_res b0, g0) (Rpc.returned (calls s)) st) /\
  (par s = PDone -> Fork.exited (forked s) = None ->
    chd s = KGone /\ Fork.zombies (forked s) = [] /\ Fork.children (forked s) !! child_ = None /\
    exists st, ended s = Some st /\
      (st = Exited 0 /\ full_agent_ s = false \/ exists h, AddExitHandler h ∈ xs /\ h child_ st = true)).
Proof.
  intros Hr. pose proof (inv_proc_run _ _ _ _ _ _ Hr) as Hi. pose proof Hi as [].
  assert (Hrun : par s = PRunning -> kpc_alive (chd s) = true -> chd s = KWaitKill /\ full_agent_ s = true).
  { intros Ep Hk. rewrite Ep in *. specialize (i_passed0 eq_refl).
    destruct (chd s); try done; try (by specialize (i_ready0 false eq_refl); rewrite i_ready0 in i_passed0);
      try (by specialize (i_stopping0 eq_refl)). split; [done|]. by apply i_agent0. }
  split_and!; try done; [by apply i_ok0|by apply i_ok0|by eapply RpcProps.inv_handler_ok| | |destruct i_calls0 as [st [? _ _]]; by exists st|].
  - intros t Ht. destruct i_calls0 as [st [_ H2 _]]. by destruct (H2 _ _ Ht) as [_ []].
  - intros Hk Hu. destruct (decide (par s = PRunning)) as [Ep|Ep]; [by apply Hrun|].
    destruct (i_quiet0 Ep) as [[Eh _] _]. by rewrite Eh in Hu.
  - intros Ep Hx. rewrite Ep in *. specialize (i_reaped0 eq_refl). destruct i_zombies0 as [Hz|(? & _ & _ & ?)]; [|done].
    split_and!; [done..|by apply i_erased0; right|]. destruct (ended s) as [st|] eqn:He; [|done]. exists st. split; [done|].
    destruct (i_told0 st Hz Hx eq_refl eq_refl) as [E|(h & Hh & Ht)].
    + left. destruct i_ended0 as [_ H]. destruct (H E) as (? & _ & ?). done.
    + right. exists h. split; [|done]. by apply added_elem.
Qed.

(** C24: The constructor and the destructor of an agent process end, and neither process
    outlives the other unnoticed.  The steps of the life of the two processes are bounded
    (29), calls and handlers added do not prolong it.  While the creating process is in its
    constructor or destructor, it, the child or the signal can step, with two exceptions:
    the news of the child was lost, which needs the child to end before the creating process
    had installed its handler of SIGCHLD; or the handler of the signal waits for [mu_],
    which needs the child to fail while the creating process enters it into the children
    under that lock.  A call in progress can go on, unless the child is gone and its news
    were lost or a handler that was added chose to go on without it.  Once the creating
    process has ended, the child has ended or will. *)
Theorem agent_process_progress {Agent} (RpcHandler : Z -> Rpc.AgentRpcArgs -> Rpc.AgentRpcResponse -> Agent -> Rpc.AgentRpcResponse * Agent)
    (child_ : Z) (b0 : Rpc.SharedBlob) (g0 : Agent) xs s :
  AgentProc.run RpcHandler child_ (init_proc b0 g0) xs s ->
  (stages s <= 29)%nat /\
  (forall x s', AgentProc.act RpcHandler child_ s x = Some s' ->
    (if in_life x then (stages s' < stages s)%nat else stages s' = stages s) /\
    (news_lost s' -> news_lost s \/ x = Parent /\ par s = PSignal /\ chd s = KGone) /\
    (par s' = PHung -> par s = PHung \/ x = Signal /\ (par s = PInsert \/ par s = PUnlock))) /\
  (parent_gone s = false -> par s <> PRunning -> par s <> PDone -> par s <> PHung ->
    AgentProc.act RpcHandler child_ s Parent <> None \/ AgentProc.act RpcHandler child_ s Child <> None \/
    AgentProc.act RpcHandler child_ s Signal <> None \/ par s = PWaitReady /\ news_lost s) /\
  (forall t, in_use s = true -> Rpc.mutex (calls s) = Some t ->
    AgentProc.act RpcHandler child_ s (Caller t) <> None \/ AgentProc.act RpcHandler child_ s Signal <> None \/
    (forall online, AgentProc.act RpcHandler child_ s (Handler online) <> None) \/
    news_lost s \/ exists st h, ended s = Some st /\ AddExitHandler h ∈ xs /\ h child_ st = true) /\
  (parent_gone s = true -> chd s = KNotYet \/ chd s = KGone \/
    AgentProc.act RpcHandler child_ s Child <> None \/ AgentProc.act RpcHandler child_ s Orphaned <> None).
Proof.
  intros Hr. pose proof (inv_proc_run _ _ _ _ _ _ Hr) as Hi. split_and!.
  - unfold stages. destruct (i_notyet _ _ _ _ _ _ Hi) as [H1 H2]. pose proof (i_sigchld _ _ _ _ _ _ Hi) as H3.
    assert (Hk : (krank (chd s) + Nat.b2n (Fork.sigchld (forked s)) <= 11)%nat)
      by (destruct (Fork.sigchld (forked s)); [rewrite H3 by done; cbn; lia|destruct (chd s); cbn; lia]).
    assert (prank (par s) <= 17)%nat by (destruct (par s); cbn; lia). destruct (killed s); cbn; lia.
  - intros x s' Hx. split; [by eapply step_stages|by eapply dead_ends].
  - intros. by eapply waiting_progress.
  - intros t Hu Hm. destruct (call_progress _ _ _ _ _ _ _ Hi Hu Hm) as [?|[?|[?|[?|(st & He & h & Hh & Ht)]]]]; auto.
    do 4 right. exists st, h. split_and!; try done. by apply added_elem.
  - intros Hg. destruct (i_ok _ _ _ _ _ _ Hi) as [_ Hf]. destruct (kpc_bound (chd s)) eqn:Eb.
    + do 3 right. cbn. by rewrite Hg, Eb.
    + destruct (chd s) eqn:Ec; try done; auto. do 2 right. left. cbn. unfold child_step. by rewrite Ec.
Qed.

(** ** Runs *)

(** The state after a list of actions. *)
Fixpoint exec {Agent} RpcHandler child_ (xs : list action) (s : proc Agent) : option (proc Agent) :=
  match xs with [] => Some s | x :: xs => s ← AgentProc.act RpcHandler child_ s x; exec RpcHandler child_ xs s end.

Lemma exec_run {Agent} RpcHandler child_ xs (s s1 s2 : proc Agent) ys :
  AgentProc.run RpcHandler child_ s ys s1 -> exec RpcHandler child_ xs s1 = Some s2 -> AgentProc.run RpcHandler child_ s (ys ++ xs) s2.
Proof.
  revert s1 ys. induction xs as [|x xs IH]; intros s1 ys Hr; cbn; [intros [= <-]; by rewrite app_nil_r|].
  destruct (AgentProc.act RpcHandler child_ s1 x) as [s1'|] eqn:E; [|done]. cbn. intros He.
  replace (ys ++ x :: xs) with ((ys ++ [x]) ++ xs) by (by rewrite <- app_assoc). apply (IH s1'); [|done]. by econstructor.
Qed.

Lemma exec_result {Agent A} (f : proc Agent -> A) RpcHandler child_ xs s a :
  f <$> exec RpcHandler child_ xs s = Some a -> exists s', AgentProc.run RpcHandler child_ s xs s' /\ f s' = a.
Proof.
  destruct (exec RpcHandler child_ xs s) as [s'|] eqn:E; cbn; [|done]. intros [= <-]. exists s'. split; [|done].
  exact (exec_run _ _ _ _ _ _ [] (run_nil _ _ _) E).
Qed.

Definition echo (r : Z) (a : Rpc.AgentRpcArgs) (res : Rpc.AgentRpcResponse) (n : Z) : Rpc.AgentRpcResponse * Z :=
  (Rpc.mk_response (Rpc.arg0 a + r) (Rpc.res_buffer res), n + 1).
Definition args0 : Rpc.AgentRpcArgs := Rpc.mk_args 0 0 (Buffer.new_buffer 8).
Definition blob0 : Rpc.SharedBlob := Rpc.mk_blob 0 args0 Rpc.new_response false false.

Definition construct : list action := replicate 6 Parent ++ replicate 5 Child ++ [Parent].
Definition one_call : list action :=
  [Call 1 (Rpc.mk_call 7 args0 false)] ++ replicate 4 (Caller 1) ++ replicate 6 (Handler true) ++ replicate 4 (Caller 1).
Definition destruct_ : list action := [Destruct; Parent] ++ replicate 3 Child ++ [Signal] ++ replicate 4 Parent.

(** What is seen of a state. *)
Definition seen {Agent} (s : proc Agent) := (par s, chd s, full_agent_ s, Rpc.returned (calls s), Fork.exited (forked s)).

Lemma agent_process_safe_witness :
  exists s, AgentProc.run echo 42 (init_proc blob0 0) (construct ++ one_call ++ destruct_) s /\
    par s = PDone /\ Rpc.returned (calls s) = [(1, Rpc.mk_call 7 args0 false, Rpc.Code 7)] /\ chd s = KGone /\ full_agent_ s = false.
Proof.
  destruct (exec_result seen echo 42 (construct ++ one_call ++ destruct_) (init_proc blob0 0)
    (PDone, KGone, false, [(1, Rpc.mk_call 7 args0 false, Rpc.Code 7)], None)) as (s & Hr & Es); [vm_compute; reflexivity|].
  exists s. split; [exact Hr|]. pose proof (agent_process_safe _ _ _ _ _ _ Hr) as (_ & _ & _ & _ & _ & _ & _ & Hd).
  injection Es as E1 E2 E3 E4 E5. split; [exact E1|]. split; [exact E4|]. split; [|exact E3]. apply (Hd E1 E5).
Defined.

Lemma agent_process_progress_witness :
  exists s, AgentProc.run echo 42 (init_proc blob0 0) construct s /\ (stages s <= 29)%nat.
Proof.
  destruct (exec_result stages echo 42 construct (init_proc blob0 0) 16%nat) as (s & Hr & _); [vm_compute; reflexivity|].
  exists s. split; [exact Hr|]. apply (agent_process_progress _ _ _ _ _ _ Hr).
Defined.

(** Nothing but the creating process being killed can happen. *)
Definition stuck {Agent} (s : proc Agent) : bool :=
  forallb (fun x => match AgentProc.act (fun _ _ r g => (r, g)) 42 s x with None => true | Some _ => false end) [Parent; Child; Signal; Handler true].

(** The news that the first child of a process failed is lost when it comes before the
    handler is installed: the constructor waits for ever. *)
Example agent_process_news_lost :
  (fun s => (par s, chd s, Fork.sigchld (forked s), stuck s)) <$>
    exec echo 42 (replicate 2 Parent ++ [Crash (Signaled 6)] ++ replicate 4 Parent) (init_proc blob0 0) =
  Some (PWaitReady, KGone, false, true).
Proof. vm_compute. reflexivity. Qed.

(** The handler of SIGCHLD waits for the lock that the interrupted constructor holds. *)
Example agent_process_self_deadlock :
  (fun s => (par s, mu_ s, stuck s)) <$>
    exec echo 42 (replicate 4 Parent ++ [Crash (Signaled 6); Signal]) (init_proc blob0 0) = Some (PHung, true, true).
Proof. vm_compute. reflexivity. Qed.

(** A handler that takes care of the child's failure leaves a call waiting for ever, with
    [rpc_mutex_] held. *)
Example agent_process_handled_hangs_call :
  (fun s => (par s, Rpc.mutex (calls s), stuck s,
     match AgentProc.act echo 42 s (Caller 1) with None => true | Some _ => false end)) <$>
    exec echo 42 (construct ++ [AddExitHandler (fun _ _ => true); Call 1 (Rpc.mk_call 7 args0 false)] ++
      replicate 4 (Caller 1) ++ [Crash (Signaled 11); Signal]) (init_proc blob0 0) = Some (PRunning, Some 1, true, true).
Proof. vm_compute. reflexivity. Qed.
End ProcProps.
