(* ===== verification/KernelCalls.v ===== *)
(** * Requests to the kernel, channels and the set-up of a scheduler

    The ioctls of [Ghost] ([src/lib/ghost.h]) with their arguments
    ([src/abi/latest/kernel/ghost.h]), the construction of [LocalChannel]
    ([src/lib/channel.cc]), yields and pings of [LocalEnclave] ([src/lib/enclave.cc]), and what
    a per-CPU scheduler does with them when it is made, when its enclave is ready and when it
    is destroyed ([src/schedulers/o1], [src/schedulers/fifo/per_cpu]). *)

From S2P Require Import Prelude CpuMap.
From ITree Require Import ITree.
From S2P Require Import Interaction.
#[local] Open Scope itree_scope.
#[local] Open Scope Z_scope.

(** ** Arguments of the ioctls *)

Inductive ghost_type := GHOST_AGENT | GHOST_TASK.

Record ghost_msg_src := mk_src { src_type : ghost_type; src_arg : Z }.
Record ghost_agent_wakeup := mk_wakeup { w_cpu : Z; w_prio : Z }.
Record ghost_ioc_run := mk_run { run_gtid : Z; run_agent_barrier : Z; run_task_barrier : Z; run_cpu : Z; run_flags : Z }.
Record ghost_ioc_commit_txn := mk_commit { mask_ptr : gset Z; mask_len : Z; commit_flags : Z }.
Record ghost_ioc_create_queue := mk_create { cq_elems : Z; cq_node : Z; cq_flags : Z }.
Record ghost_ioc_assoc_queue := mk_assoc { aq_fd : Z; aq_src : ghost_msg_src; aq_barrier : Z; aq_flags : Z }.
Record ghost_ioc_config_queue_wakeup := mk_config { wq_fd : Z; wq_w : list ghost_agent_wakeup; wq_ninfo : Z; wq_flags : Z }.
Record timerfd_ghost := mk_timerfd { t_cpu : Z; t_flags : Z; t_type : Z; t_cookie : Z }.
Record ghost_ioc_timerfd_settime := mk_settime { st_timerfd : Z; st_flags : Z; st_in_tmr : Z * Z; st_ghost : timerfd_ghost }.

Definition TIMERFD_GHOST_ENABLED : Z := 1.
Definition GHOST_MAX_QUEUE_ELEMS : Z := 65536.
Definition GHOST_AGENT_GTID : Z := -1.
Definition CPU_SETSIZE : Z := 1024.
Definition sizeof_cpuset : Z := 128.
Definition ESTALE : Z := 116.
Definition ENODEV : Z := 19.
Definition NullBarrierToken : Z := 0.

(** Calls, with the result and [errno], or what the kernel fills in. *)
Variant kernE : Type -> Type :=
  | GHOST_IOC_RUN (ctl : Z) (d : ghost_ioc_run) : kernE (Z * Z)
  | GHOST_IOC_COMMIT_TXN (ctl : Z) (d : ghost_ioc_commit_txn) : kernE Z
  | GHOST_IOC_SYNC_GROUP_TXN (ctl : Z) (d : ghost_ioc_commit_txn) : kernE Z
  | GHOST_IOC_CREATE_QUEUE (ctl : Z) (d : ghost_ioc_create_queue) : kernE (Z * Z)      (* descriptor, size *)
  | GHOST_IOC_ASSOC_QUEUE (ctl : Z) (d : ghost_ioc_assoc_queue) : kernE (Z * Z)
  | GHOST_IOC_SET_DEFAULT_QUEUE (ctl fd : Z) : kernE Z
  | GHOST_IOC_CONFIG_QUEUE_WAKEUP (ctl : Z) (d : ghost_ioc_config_queue_wakeup) : kernE Z
  | GHOST_IOC_SW_GET_INFO (ctl : Z) (request : ghost_msg_src) : kernE (Z * (Z * Z))      (* id and index *)
  | GHOST_IOC_GET_CPU_TIME (ctl gtid : Z) : kernE (Z * Z)                               (* run time *)
  | GHOST_IOC_TIMERFD_SETTIME (ctl : Z) (d : ghost_ioc_timerfd_settime) : kernE Z
  | MmapQueue (fd size : Z) : kernE (option (Z * Z))                                    (* address, nelems *)
  | Munmap (addr size : Z) : kernE Z
  | Close (fd : Z) : kernE Z
  | AgentBarrier (gtid : Z) : kernE Z                                                   (* its status word *)
  | DeliverTicks (enabled : bool) : kernE unit.                                         (* the tunable *)

Notation prog A := (may_abort kernE A).

Module Kernel.
Section Kernel.
Context (gbl_ctl_fd_ : Z).

(** ** [Ghost] *)

(** [cpu]: [None] is not valid. *)
Definition Run (gtid agent_barrier task_barrier : Z) (cpu : option Z) (flags : Z) : prog (Z * Z) :=
  get (GHOST_IOC_RUN gbl_ctl_fd_ (mk_run gtid agent_barrier task_barrier (default (-1) cpu) flags)).

Definition SyncCommit (cpuset : gset Z) : prog Z :=
  get (GHOST_IOC_SYNC_GROUP_TXN gbl_ctl_fd_ (mk_commit cpuset sizeof_cpuset 0)).

Definition Commit (cpuset : gset Z) : prog Z :=
  get (GHOST_IOC_COMMIT_TXN gbl_ctl_fd_ (mk_commit cpuset sizeof_cpuset 0)).

Definition Commit_cpu (cpu : Z) : prog Z :=
  CHECK_ (0 <=? cpu) ;;!
  CHECK_ (cpu <? CPU_SETSIZE) ;;!
  Commit {[ cpu ]}.

Definition CreateQueue (elems node flags : Z) : prog (Z * Z) :=
  get (GHOST_IOC_CREATE_QUEUE gbl_ctl_fd_ (mk_create elems node flags)).

Definition ConfigQueueWakeup (queue_fd : Z) (cpulist : list Z) (flags : Z) : prog Z :=
  let wakeup := (fun cpu => mk_wakeup cpu 0) <$> cpulist in
  get (GHOST_IOC_CONFIG_QUEUE_WAKEUP gbl_ctl_fd_ (mk_config queue_fd wakeup (s32 (Z.of_nat (length wakeup))) flags)).

Definition RemoveQueueWakeup (queue_fd : Z) : prog Z := ConfigQueueWakeup queue_fd [] 0.

Definition AssociateQueue (queue_fd : Z) (type : ghost_type) (arg barrier flags : Z) : prog (Z * Z) :=
  get (GHOST_IOC_ASSOC_QUEUE gbl_ctl_fd_ (mk_assoc queue_fd (mk_src type arg) barrier flags)).

Definition SetDefaultQueue (queue_fd : Z) : prog Z := get (GHOST_IOC_SET_DEFAULT_QUEUE gbl_ctl_fd_ queue_fd).

(** The error, and [info], which is left as it was on errors. *)
Definition GetStatusWordInfo (type : ghost_type) (arg : Z) (info : Z * Z) : prog (Z * (Z * Z)) :=
  r <! get (GHOST_IOC_SW_GET_INFO gbl_ctl_fd_ (mk_src type arg)) ;;
  let '(err, response) := r in done (if err =? 0 then (0, response) else (err, info)).

Definition GetTaskRuntime (gtid cpu_time : Z) : prog (Z * Z) :=
  r <! get (GHOST_IOC_GET_CPU_TIME gbl_ctl_fd_ gtid) ;;
  let '(ret, runtime) := r in done (ret, if ret =? 0 then runtime else cpu_time).

Definition TimerFdSettime (fd flags : Z) (itimerspec : Z * Z) (cpu : option Z) (type cookie : Z) : prog Z :=
  let timerfd := mk_timerfd (default (-1) cpu) (if cpu then TIMERFD_GHOST_ENABLED else 0) type cookie in
  get (GHOST_IOC_TIMERFD_SETTIME gbl_ctl_fd_ (mk_settime fd flags itimerspec timerfd)).

(** ** [LocalChannel] *)

Record channel := mk_channel { fd_ : Z; map_size_ : Z; header_ : Z; elems_ : Z }.

Definition LocalChannel (elems node : Z) (cpulist : list Z) : prog channel :=
  r <! CreateQueue elems node 0 ;;
  let '(fd, map_size) := r in
  CHECK_ (0 <? fd) ;;!
  header <! get (MmapQueue fd map_size) ;;
  match header with
  | None => abort
  | Some (addr, nelems) =>
      (match cpulist with
       | [] => done tt
       | _ => rc <! ConfigQueueWakeup fd cpulist 0 ;; CHECK_ (rc =? 0)
       end) ;;!
      done (mk_channel fd map_size addr nelems)
  end.

Definition DestroyChannel (c : channel) : prog unit :=
  get (Munmap (header_ c) (map_size_ c)) ;;!
  get (Close (fd_ c)) ;;!
  done tt.

(** Whether it succeeded, with [errno].  The barrier is passed as an [int]. *)
Definition AssociateTask (c : channel) (gtid barrier : Z) : prog (bool * Z) :=
  r <! AssociateQueue (fd_ c) GHOST_TASK gtid (u32 (s32 barrier)) 0 ;;
  let '(ret, errno) := r in done (0 <=? ret, errno).

Definition SetEnclaveDefault (c : channel) : prog bool :=
  ret <! SetDefaultQueue (fd_ c) ;; done (ret =? 0).

(** ** [LocalEnclave] *)

Definition LocalYieldRunRequest (cpu agent_barrier flags : Z) : prog unit :=
  r <! Run 0 agent_barrier NullBarrierToken (Some cpu) flags ;;
  let '(error, errno) := r in
  if negb (error =? 0) then CHECK_ ((errno =? ESTALE) || (errno =? ENODEV)) else done tt.

Definition PingRunRequest (cpu : Z) : prog bool :=
  r <! Run GHOST_AGENT_GTID NullBarrierToken NullBarrierToken (Some cpu) 0 ;;
  done (fst r =? 0).

(** ** A scheduler with a channel per CPU *)

Record sched_channels := mk_sched { cpu_channel : gmap Z channel; default_channel_ : option channel }.

(** [O1Scheduler::O1Scheduler], [FifoScheduler::FifoScheduler] *)
Fixpoint make_channels (cpus : list Z) (s : sched_channels) : prog sched_channels :=
  match cpus with
  | [] => done s
  | cpu :: cpus =>
      c <! LocalChannel GHOST_MAX_QUEUE_ELEMS 0 [cpu] ;;
      (match cpu_channel s !! cpu with Some old => DestroyChannel old | None => done tt end) ;;!
      make_channels cpus (mk_sched (<[cpu := c]> (cpu_channel s))
        (match default_channel_ s with None => Some c | Some d => Some d end))
  end.

Definition NewScheduler (cpus : list Z) : prog sched_channels := make_channels cpus (mk_sched ∅ None).

(** One round of the loop around [AssociateTask]. *)
Definition associate_round (c : channel) (gtid : Z) (_ : unit) : itree kernE (unit + option unit) :=
  ITree.bind (syscall (AgentBarrier gtid)) (fun barrier =>
  ITree.bind (AssociateTask c gtid barrier) (fun o =>
    match o with
    | Some (true, _) => Ret (inr (Some tt))
    | Some (false, errno) => if errno =? ESTALE then Ret (inl tt) else Ret (inr None)
    | None => Ret (inr None)
    end)).

Section Ready.
(** The agents of the CPUs. *)
Context (agent_gtid : Z -> Z).

Fixpoint associate_agents (cpus : list Z) (s : sched_channels) : prog unit :=
  match cpus with
  | [] => done tt
  | cpu :: cpus =>
      match cpu_channel s !! cpu with
      | None => abort
      | Some c => ITree.iter (associate_round c (agent_gtid cpu)) tt ;;! associate_agents cpus s
      end
  end.

(** [FifoScheduler::EnclaveReady] *)
Definition fifo_EnclaveReady (cpus : list Z) (s : sched_channels) : prog unit := associate_agents cpus s.

(** [O1Scheduler::EnclaveReady] *)
Definition o1_EnclaveReady (cpus : list Z) (s : sched_channels) : prog unit :=
  associate_agents cpus s ;;!
  get (DeliverTicks true) ;;!
  done tt.
End Ready.

(** The destructor: [cpu_states_] from its last entry to its first. *)
Fixpoint destroy_channels (ids : list Z) (s : sched_channels) : prog unit :=
  match ids with
  | [] => done tt
  | id :: ids =>
      (match cpu_channel s !! id with Some c => DestroyChannel c | None => done tt end) ;;!
      destroy_channels ids s
  end.

Definition cpu_ids : list Z := Z.of_nat <$> reverse (seq 0 (Z.to_nat MAX_CPUS)).

Definition DestroyScheduler (s : sched_channels) : prog unit := destroy_channels cpu_ids s.
End Kernel.
End Kernel.
