(* ===== verification/KernelCallsProps.v ===== *)
(** * Every CPU has its channel, and every channel is given back

    What the set-up of a per-CPU scheduler asks of the kernel, from its construction to its
    destruction, for any answers of a kernel that keeps to the interface below. *)

From S2P Require Import Prelude CpuMap.
From ITree Require Import ITree.
From S2P Require Import Interaction KernelCalls.
#[local] Open Scope itree_scope.
#[local] Open Scope Z_scope.

Module KernelProps.
Import Kernel.

(** ** What the calls did, read off their history *)

Inductive handle := Fd (fd : Z) | Map (addr : Z).

Definition acquired (x : entry kernE) : list handle :=
  match x with
  | Entry e a =>
      match e in kernE X return X -> list handle with
      | GHOST_IOC_CREATE_QUEUE _ _ => fun r => if 0 <? fst r then [Fd (fst r)] else []
      | MmapQueue _ _ => fun m => match m with Some (addr, _) => [Map addr] | None => [] end
      | _ => fun _ => []
      end a
  end.

Definition released (x : entry kernE) : list handle :=
  match x with
  | Entry e a =>
      match e in kernE X return X -> list handle with
      | Close fd => fun _ => [Fd fd]
      | Munmap addr _ => fun _ => [Map addr]
      | _ => fun _ => []
      end a
  end.

Notation holds := (holds acquired released).

(** The CPUs that a queue wakes; none when it is new. *)
Definition wake_of (fd : Z) (x : entry kernE) : option (option (list Z)) :=
  match x with
  | Entry e a =>
      match e in kernE X return X -> option (option (list Z)) with
      | GHOST_IOC_CREATE_QUEUE _ _ => fun r => if fst r =? fd then Some None else None
      | GHOST_IOC_CONFIG_QUEUE_WAKEUP _ d => fun r => if (wq_fd d =? fd) && (r =? 0) then Some (Some (w_cpu <$> wq_w d)) else None
      | _ => fun _ => None
      end a
  end.

Fixpoint wakeups (h : history kernE) (fd : Z) : option (list Z) :=
  match h with
  | [] => None
  | x :: h => match wake_of fd x with Some r => r | None => wakeups h fd end
  end.

(** The queue a thread's messages go to. *)
Definition assoc_of (gtid : Z) (x : entry kernE) : option Z :=
  match x with
  | Entry e a =>
      match e in kernE X return X -> option Z with
      | GHOST_IOC_ASSOC_QUEUE _ d => fun r => if (src_arg (aq_src d) =? gtid) && (0 <=? fst r) then Some (aq_fd d) else None
      | _ => fun _ => None
      end a
  end.

Fixpoint queue_of (h : history kernE) (gtid : Z) : option Z :=
  match h with
  | [] => None
  | x :: h => match assoc_of gtid x with Some fd => Some fd | None => queue_of h gtid end
  end.

(** How the delivery of ticks was set, latest first. *)
Definition tick_of (x : entry kernE) : list bool :=
  match x with Entry e _ => match e with DeliverTicks b => [b] | _ => [] end end.
Definition ticks (h : history kernE) : list bool := h ≫= tick_of.

(** ** The kernel's side *)

(** A new queue has a descriptor that is not in use; an association fails for a stale
    barrier only as long as the agent's barrier moves. *)
Class QueueKernel (os : answers kernE) (stale : history kernE -> Z -> nat) : Prop := {
  queue_fresh : forall h ctl d L, holds L h -> Fd (fst (os h _ (GHOST_IOC_CREATE_QUEUE ctl d))) ∉ L;
  stale_assoc : forall h ctl d, let r := os h _ (GHOST_IOC_ASSOC_QUEUE ctl d) in
    fst r < 0 -> snd r = ESTALE ->
    (stale (Entry (GHOST_IOC_ASSOC_QUEUE ctl d) r :: h) (src_arg (aq_src d)) < stale h (src_arg (aq_src d)))%nat;
  stale_other : forall h x g, (stale (x :: h) g <= stale h g)%nat }.

Definition channel_handles (c : channel) : list handle := [Map (header_ c); Fd (fd_ c)].

Section Setup.
Context (os : answers kernE) (stale : history kernE -> Z -> nat) `{Hos : !QueueKernel os stale} (ctl : Z).
Implicit Type h : history kernE.

(** A call that acquires and releases nothing. *)
Lemma get_quiet {X} (e : kernE X) (Q : X -> history kernE -> Prop) L h :
  holds L h -> (forall a, acquired (Entry e a) = [] /\ released (Entry e a) = []) ->
  (let h' := Entry e (os h _ e) :: h in holds L h' -> Q (os h _ e) h') -> ok os (get e) Q h.
Proof.
  intros Hh He HQ. apply ok_get, HQ. eapply holds_cons; [exact Hh|]. destruct (He (os h _ e)) as [-> ->]. by rewrite app_nil_r.
Qed.

(** ** Channels *)

Lemma local_channel_ok cpu L h : holds L h ->
  ok os (LocalChannel ctl GHOST_MAX_QUEUE_ELEMS 0 [cpu]) (fun c h' =>
    holds (channel_handles c ++ L) h' /\ Fd (fd_ c) ∉ L /\ wakeups h' (fd_ c) = Some [cpu] /\
    (forall fd, fd <> fd_ c -> wakeups h' fd = wakeups h fd) /\ queue_of h' = queue_of h /\ ticks h' = ticks h) h.
Proof.
  intros Hh. unfold LocalChannel, CreateQueue. apply ok_bind, ok_get.
  set (d := mk_create _ _ _). pose proof (queue_fresh h ctl d L Hh) as Hf. destruct (os h _ (GHOST_IOC_CREATE_QUEUE ctl d)) as [fd sz].
  cbn in Hf. apply ok_bind, ok_check. intros Hfd. set (x1 := Entry _ _). assert (H1 : holds (Fd fd :: L) (x1 :: h)).
  { eapply holds_cons; [exact Hh|]. cbn. rewrite Hfd. by rewrite app_nil_r. }
  apply ok_bind, ok_get. set (x2 := Entry _ _). destruct (os (x1 :: h) _ (MmapQueue fd sz)) as [[addr n]|] eqn:Em; [|apply ok_abort].
  assert (H2 : holds (Map addr :: Fd fd :: L) (x2 :: x1 :: h)).
  { eapply holds_cons; [exact H1|]. unfold x2. cbn. by rewrite app_nil_r. }
  apply ok_bind, ok_bind. unfold ConfigQueueWakeup. apply (get_quiet _ _ _ _ H2); [done|]. set (rc := os _ _ _). cbn zeta. intros H3.
  apply ok_check. intros Hrc%Z.eqb_eq. apply ok_done. cbn [fd_ channel_handles header_]. split_and!.
  - exact H3.
  - exact Hf.
  - cbn. by rewrite Z.eqb_refl, Hrc.
  - intros fd' Hne. cbn. rewrite (proj2 (Z.eqb_neq fd fd')) by congruence. done.
  - done.
  - done.
Qed.

Lemma destroy_channel_ok c L h : holds (channel_handles c ++ L) h -> ok os (DestroyChannel c) (fun _ => holds L) h.
Proof.
  intros Hh. unfold DestroyChannel. apply ok_bind, ok_get. apply ok_bind, ok_get. apply ok_done.
  eapply holds_cons with (L := Fd (fd_ c) :: L); [|cbn; apply Permutation_cons_append].
  eapply holds_cons; [exact Hh|]. cbn. apply (Permutation_cons_append (Fd (fd_ c) :: L)).
Qed.

(** ** The scheduler's channels *)

Definition all_handles (m : gmap Z channel) : list handle := mjoin (channel_handles <$> (map_to_list m).*2).

Lemma all_handles_insert m cpu c : m !! cpu = None -> all_handles (<[cpu := c]> m) ≡ₚ channel_handles c ++ all_handles m.
Proof. intros Hm. unfold all_handles. rewrite map_to_list_insert by done. done. Qed.

Lemma all_handles_fd m cpu c : m !! cpu = Some c -> Fd (fd_ c) ∈ all_handles m.
Proof.
  intros Hm. unfold all_handles. apply list_elem_of_join. exists (channel_handles c). split; [unfold channel_handles; set_solver|].
  apply list_elem_of_fmap_2, list_elem_of_fmap. exists (cpu, c). split; [done|]. by apply elem_of_map_to_list.
Qed.

(** The channels are held, and each wakes its own CPU. *)
Definition channels_ok L (s : sched_channels) h : Prop :=
  holds (all_handles (cpu_channel s) ++ L) h /\
  forall cpu c, cpu_channel s !! cpu = Some c -> wakeups h (fd_ c) = Some [cpu].

Lemma make_channels_ok L cpus s h : channels_ok L s h -> NoDup cpus -> (forall cpu, cpu ∈ cpus -> cpu_channel s !! cpu = None) ->
  ok os (make_channels ctl cpus s) (fun s' h' =>
    channels_ok L s' h' /\ cpu_channel s ⊆ cpu_channel s' /\ dom (cpu_channel s') = dom (cpu_channel s) ∪ list_to_set cpus /\
    default_channel_ s' = match default_channel_ s with Some d => Some d | None => head cpus ≫= (fun cpu => cpu_channel s' !! cpu) end /\
    queue_of h' = queue_of h /\ ticks h' = ticks h) h.
Proof.
  revert s h. induction cpus as [|cpu cpus IH]; intros s h [Hh Hw] Hn Hnew; cbn [make_channels].
  { apply ok_done. split_and!; try done; [set_solver|by destruct (default_channel_ s)]. }
  apply NoDup_cons in Hn as [Hcpu Hn]. pose proof (Hnew cpu ltac:(set_solver)) as Hnone.
  apply ok_bind. eapply ok_mono; [exact (local_channel_ok cpu _ h Hh)|]. cbn. intros c h1 (Hh1 & Hfd & Hwc & Hwo & Hq & Ht).
  rewrite Hnone. apply ok_bind, ok_done. eapply ok_mono; [apply IH|].
  - split; cbn.
    + eapply holds_perm; [|exact Hh1]. rewrite all_handles_insert by done. by rewrite <- app_assoc.
    + intros cpu' c'. rewrite lookup_insert_Some. intros [[<- <-]|[Hne Hc']]; [done|]. rewrite Hwo; [by apply Hw|].
      intros E. apply Hfd. rewrite <- E. apply elem_of_app. left. by eapply all_handles_fd.
  - done.
  - cbn. intros cpu' Hin. rewrite lookup_insert_ne by set_solver. apply Hnew. set_solver.
  - cbn. intros s' h' (Hok & Hsub & Hdom & Hd & Hq' & Ht'). split_and!; try done; try congruence.
    + etrans; [|exact Hsub]. by apply insert_subseteq.
    + rewrite Hdom, dom_insert_L. set_solver.
    + rewrite Hd. destruct (default_channel_ s); [done|]. symmetry. eapply lookup_weaken; [|exact Hsub]. apply lookup_insert_eq.
Qed.

(** ** Associations *)

Lemma associate_ok c g K h : holds K h ->
  ok os (ITree.iter (associate_round ctl c g) tt) (fun _ h' =>
    holds K h' /\ wakeups h' = wakeups h /\ ticks h' = ticks h /\ queue_of h' g = Some (fd_ c) /\
    forall g', g' <> g -> queue_of h' g' = queue_of h g') h.
Proof.
  intros Hh. set (frame h' := holds K h' /\ wakeups h' = wakeups h /\ ticks h' = ticks h /\ forall g', g' <> g -> queue_of h' g' = queue_of h g').
  apply (reaches_iter os (fun _ => frame) (fun _ h => stale h g)); [|by split_and!]. clear Hh. intros [] h1 (Hh & Hw & Ht & Hq).
  unfold associate_round. apply reaches_bind, reaches_call. set (b := os _ _ _). set (x1 := Entry _ _).
  apply reaches_bind. unfold AssociateTask, AssociateQueue. apply reaches_get. set (d := mk_assoc _ _ _ _).
  pose proof (stale_assoc (x1 :: h1) ctl d) as Hs. pose proof (stale_other h1 x1 g) as Ho.
  destruct (os (x1 :: h1) _ (GHOST_IOC_ASSOC_QUEUE ctl d)) as [ret errno] eqn:Er. cbn zeta in Hs. cbn [fst snd] in Hs.
  set (x2 := Entry (GHOST_IOC_ASSOC_QUEUE ctl d) (ret, errno)) in *.
  assert (Hf : frame (x2 :: x1 :: h1)).
  { split_and!; try done. intros g' Hne. cbn. rewrite (proj2 (Z.eqb_neq g g')) by congruence. by apply Hq. }
  apply reaches_ret. destruct (Z.leb_spec 0 ret) as [Hr|Hr].
  - apply reaches_ret. destruct Hf as (H1 & H2 & H3 & H4). split_and!; try done. cbn. rewrite Z.eqb_refl, (proj2 (Z.leb_le 0 ret)) by done. done.
  - destruct (Z.eqb_spec errno ESTALE) as [He|He]; apply reaches_ret; [|done]. split; [done|]. specialize (Hs Hr He). cbn in Hs. lia.
Qed.

Lemma associate_agents_ok agent_gtid cpus s K h : holds K h -> NoDup (agent_gtid <$> cpus) ->
  ok os (associate_agents ctl agent_gtid cpus s) (fun _ h' =>
    holds K h' /\ wakeups h' = wakeups h /\ ticks h' = ticks h /\
    (forall cpu, cpu ∈ cpus -> exists c, cpu_channel s !! cpu = Some c /\ queue_of h' (agent_gtid cpu) = Some (fd_ c)) /\
    forall g, g ∉ agent_gtid <$> cpus -> queue_of h' g = queue_of h g) h.
Proof.
  revert h. induction cpus as [|cpu cpus IH]; intros h Hh Hn; cbn [associate_agents].
  { apply ok_done. split_and!; try done. intros cpu Hc. set_solver. }
  cbn in Hn. apply NoDup_cons in Hn as [Hg Hn]. destruct (cpu_channel s !! cpu) as [c|] eqn:Ec; [|apply ok_abort].
  apply ok_bind. eapply ok_mono; [exact (associate_ok c (agent_gtid cpu) K h Hh)|]. cbn. intros _ h1 (Hh1 & Hw & Ht & Hq & Hqo).
  eapply ok_mono; [by apply IH|]. cbn. intros _ h2 (Hh2 & Hw2 & Ht2 & Hq2 & Hqo2). split_and!; try done; try congruence.
  - intros cpu' [->|Hin]%elem_of_cons; [|by apply Hq2]. exists c. split; [done|]. by rewrite Hqo2.
  - intros g Hng. rewrite Hqo2 by set_solver. apply Hqo. set_solver.
Qed.

(** ** Destruction *)

Definition in_order (m : gmap Z channel) (ids : list Z) : list channel := omap (fun id => m !! id) ids.

Lemma destroy_channels_ok ids s L h : holds (mjoin (channel_handles <$> in_order (cpu_channel s) ids) ++ L) h ->
  ok os (destroy_channels ids s) (fun _ => holds L) h.
Proof.
  revert h. induction ids as [|id ids IH]; intros h Hh; cbn [destroy_channels]; [by apply ok_done|].
  unfold in_order in Hh. cbn in Hh. apply ok_bind. destruct (cpu_channel s !! id) as [c|] eqn:Ec; [|by apply ok_done, IH].
  eapply ok_mono; [apply (destroy_channel_ok c (mjoin (channel_handles <$> in_order (cpu_channel s) ids) ++ L))|].
  - cbn in Hh. exact Hh.
  - intros ? h'. apply IH.
Qed.

Lemma in_order_ext m m' ids : (forall i, i ∈ ids -> m !! i = m' !! i) -> in_order m ids = in_order m' ids.
Proof.
  unfold in_order. induction ids as [|i ids IH]; intros H; [done|]. cbn. rewrite (H i) by set_solver. rewrite IH by set_solver. done.
Qed.

Lemma in_order_insert m id c ids : m !! id = None -> id ∈ ids -> NoDup ids ->
  in_order (<[id := c]> m) ids ≡ₚ c :: in_order m ids.
Proof.
  intros Hm. induction ids as [|i ids IH]; intros Hin Hn; [set_solver|]. apply NoDup_cons in Hn as [Hi Hn].
  unfold in_order. cbn. fold (in_order (<[id := c]> m) ids) (in_order m ids). destruct (decide (i = id)) as [->|Hne].
  - rewrite lookup_insert_eq, Hm. f_equiv. erewrite in_order_ext; [done|]. intros i Hi'. apply lookup_insert_ne. set_solver.
  - rewrite lookup_insert_ne by congruence. specialize (IH ltac:(set_solver) Hn).
    destruct (m !! i) as [x|]; [|exact IH]. rewrite IH. apply Permutation_swap.
Qed.

Lemma in_order_empty ids : in_order ∅ ids = [].
Proof. unfold in_order. induction ids as [|i ids IH]; [done|]. cbn. rewrite lookup_empty. exact IH. Qed.

Lemma in_order_all m ids : NoDup ids -> dom m ⊆ list_to_set ids -> in_order m ids ≡ₚ (map_to_list m).*2.
Proof.
  intros Hn. induction m as [|id c m Hm IH] using map_ind; intros Hd.
  - by rewrite map_to_list_empty, in_order_empty.
  - rewrite dom_insert in Hd. rewrite in_order_insert, map_to_list_insert, IH; [done|set_solver..].
Qed.

Lemma cpu_ids_all : NoDup cpu_ids /\ forall cpu, cpu ∈ cpu_ids <-> 0 <= cpu < MAX_CPUS.
Proof.
  unfold cpu_ids. split.
  - apply NoDup_fmap; [intros x y; lia|]. rewrite reverse_Permutation. apply NoDup_seq.
  - intros cpu. rewrite list_elem_of_fmap. split.
    + intros (n & -> & Hn). rewrite elem_of_reverse, elem_of_seq in Hn. unfold MAX_CPUS in *. lia.
    + intros Hc. exists (Z.to_nat cpu). split; [lia|]. rewrite elem_of_reverse, elem_of_seq. unfold MAX_CPUS in *. lia.
Qed.

Lemma destroy_scheduler_ok s L h : holds (all_handles (cpu_channel s) ++ L) h -> (forall cpu, cpu ∈ dom (cpu_channel s) -> 0 <= cpu < MAX_CPUS) ->
  ok os (DestroyScheduler s) (fun _ => holds L) h.
Proof.
  intros Hh Hd. destruct cpu_ids_all as [Hn Hall]. apply destroy_channels_ok. eapply holds_perm; [|exact Hh].
  apply Permutation_app_tail. unfold all_handles. rewrite in_order_all; [done|done|]. intros cpu Hc. rewrite elem_of_list_to_set, Hall. by apply Hd.
Qed.
End Setup.

(** ** A scheduler's channels *)

(** C16: From its construction to its destruction a per-CPU scheduler keeps one channel for
    each of its CPUs.  The constructor ends; if no [CHECK] of a call to the kernel fails,
    each CPU has a channel of its own, whose queue wakes that CPU and no other, and the
    default channel is that of the first CPU.  [EnclaveReady] ends (the loop around stale
    barriers does), with the messages of each CPU's agent going to the channel of its CPU;
    ticks are switched on once, and only when that holds for all agents.  The destructor
    gives back every queue and mapping, and nothing else. *)
Theorem scheduler_channels os stale `{!QueueKernel os stale} ctl agent_gtid cpus L h :
  holds L h -> NoDup cpus -> NoDup (agent_gtid <$> cpus) -> (forall cpu, cpu ∈ cpus -> 0 <= cpu < MAX_CPUS) ->
  ok os (NewScheduler ctl cpus) (fun s h1 =>
    dom (cpu_channel s) = list_to_set cpus /\
    (forall cpu c, cpu_channel s !! cpu = Some c -> wakeups h1 (fd_ c) = Some [cpu]) /\
    (forall cpu cpu' c c', cpu_channel s !! cpu = Some c -> cpu_channel s !! cpu' = Some c' -> fd_ c = fd_ c' -> cpu = cpu') /\
    default_channel_ s = head cpus ≫= (fun cpu => cpu_channel s !! cpu) /\
    ok os (o1_EnclaveReady ctl agent_gtid cpus s) (fun _ h2 =>
      (exists h', h2 = Entry (DeliverTicks true) tt :: h' /\ ticks h' = ticks h /\
        forall cpu, cpu ∈ cpus -> exists c, cpu_channel s !! cpu = Some c /\ queue_of h' (agent_gtid cpu) = Some (fd_ c)) /\
      ok os (DestroyScheduler s) (fun _ h3 => holds L h3) h2) h1) h.
Proof.
  intros Hh Hn Hng Hr. unfold NewScheduler. eapply ok_mono.
  { apply (make_channels_ok os stale ctl L cpus (mk_sched ∅ None) h); [|done|intros cpu _; apply lookup_empty].
    split; [|intros cpu c; cbn; by rewrite lookup_empty]. exact Hh. }
  cbn. intros s h1 ((Hh1 & Hw) & _ & Hdom & Hd & _ & Ht). rewrite dom_empty_L, union_empty_l_L in Hdom. split_and!; try done.
  { intros cpu cpu' c c' H1 H2 E. pose proof (Hw _ _ H1) as E1. pose proof (Hw _ _ H2) as E2. rewrite E, E2 in E1. congruence. }
  unfold o1_EnclaveReady. apply ok_bind. eapply ok_mono; [by eapply (associate_agents_ok os stale ctl agent_gtid cpus s)|].
  cbn. intros _ h2 (Hh2 & _ & Ht2 & Hq & _). apply ok_bind, ok_get. apply ok_done. destruct (os h2 _ (DeliverTicks true)). split.
  - exists h2. split_and!; [done|congruence|done].
  - apply (destroy_scheduler_ok os stale); [|intros cpu Hc; apply Hr; rewrite Hdom in Hc; set_solver]. exact Hh2.
Qed.

(** A kernel that numbers its queues upwards, and for which an agent's barrier is stale at
    the first attempt. *)
Definition top_fd (hs : list handle) : Z := foldr (fun x n => match x with Fd fd => Z.max fd n | Map _ => n end) 2 hs.
Definition tried (h : history kernE) (g : Z) : bool :=
  existsb (fun x => match x with Entry e _ => match e with GHOST_IOC_ASSOC_QUEUE _ d => src_arg (aq_src d) =? g | _ => false end end) h.

Definition kernel : answers kernE := fun h X e =>
  match e with
  | GHOST_IOC_RUN _ _ => (0, 0)
  | GHOST_IOC_CREATE_QUEUE _ _ => (top_fd (mjoin (acquired <$> h)) + 1, 4096)
  | GHOST_IOC_ASSOC_QUEUE _ d => if tried h (src_arg (aq_src d)) then (0, 0) else (-1, ESTALE)
  | GHOST_IOC_SW_GET_INFO _ _ => (0, (0, 0))
  | GHOST_IOC_GET_CPU_TIME _ _ => (0, 0)
  | MmapQueue _ _ => Some (Z.of_nat (length h), 65536)
  | GHOST_IOC_COMMIT_TXN _ _ | GHOST_IOC_SYNC_GROUP_TXN _ _ => 0
  | GHOST_IOC_SET_DEFAULT_QUEUE _ _ | GHOST_IOC_CONFIG_QUEUE_WAKEUP _ _ | GHOST_IOC_TIMERFD_SETTIME _ _ => 0
  | Munmap _ _ | Close _ => 0
  | AgentBarrier _ => 1
  | DeliverTicks _ => tt
  end.

Lemma top_fd_elem fd hs : Fd fd ∈ hs -> fd <= top_fd hs.
Proof. unfold top_fd. induction hs as [|x hs IH]; [set_solver|]. intros [<-|H]%elem_of_cons; cbn in *; [lia|]. specialize (IH H). destruct x; lia. Qed.

#[local] Instance kernel_queues : QueueKernel kernel (fun h g => if tried h g then 0%nat else 1%nat).
Proof.
  split.
  - intros h ctl d L Hh Hin. cbn in Hin. set (fd := top_fd _ + 1) in Hin. assert (Ha : Fd fd ∈ mjoin (acquired <$> h))
      by (rewrite Hh; set_solver). apply top_fd_elem in Ha. lia.
  - intros h ctl d. cbn. destruct (tried h (src_arg (aq_src d))); cbn; [lia|]. intros _ _. rewrite Z.eqb_refl. cbn. lia.
  - intros h x g. cbn. fold (tried h g). destruct (tried h g); [|destruct (_ || _); lia]. by rewrite orb_true_r.
Qed.

Lemma scheduler_channels_witness :
  ok kernel (NewScheduler 9 [2; 5]) (fun s h1 =>
    dom (cpu_channel s) = {[ 2; 5 ]} /\ ok kernel (o1_EnclaveReady 9 (fun cpu => 100 + cpu) [2; 5] s) (fun _ h2 =>
      ok kernel (DestroyScheduler s) (fun _ h3 => holds [] h3) h2) h1) [].
Proof.
  eapply ok_mono; [apply (scheduler_channels kernel _ 9 (fun cpu => 100 + cpu) [2; 5] [] [])|].
  - unfold Interaction.holds. reflexivity.
  - apply (bool_decide_unpack _). vm_compute. exact I.
  - apply (bool_decide_unpack _). vm_compute. exact I.
  - intros cpu Hc. unfold MAX_CPUS. assert (cpu = 2 \/ cpu = 5) by set_solver. lia.
  - cbv beta. intros s h1 (Hd & _ & _ & _ & He). split; [rewrite Hd; set_solver|]. eapply ok_mono; [exact He|]. cbv beta. intros a h2 [_ H]. exact H.
Defined.

(** Nothing aborts in that session, and every agent has its queue. *)
Example scheduler_channels_session :
  let session := (s <! NewScheduler 9 [2; 5] ;; o1_EnclaveReady 9 (fun cpu => 100 + cpu) [2; 5] s ;;! done s) in
  match exec kernel 200 [] session with
  | (h, Some (Some s, _)) => (queue_of h 102, queue_of h 105, wakeups h 3, wakeups h 4, ticks h, fd_ <$> default_channel_ s)
  | _ => (None, None, None, None, [], None)
  end = (Some 3, Some 4, Some [2], Some [5], [true], Some 3).
Proof. vm_compute. reflexivity. Qed.

(** Barriers survive the trip through an [int]. *)
Lemma barrier_roundtrip b : 0 <= b < 2 ^ 32 -> u32 (s32 b) = b.
Proof.
  intros Hb. unfold u32, s32. rewrite Zminus_mod_idemp_l. replace (b + 2 ^ 31 - 2 ^ 31) with b by lia. by apply Z.mod_small.
Qed.

(** A yield aborts exactly when it failed for another reason than a stale barrier or a CPU
    that has left the enclave. *)
Lemma local_yield_decides (os : answers kernE) ctl cpu barrier flags (h : history kernE) :
  let r := os h _ (GHOST_IOC_RUN ctl (mk_run 0 barrier NullBarrierToken cpu flags)) in
  reaches os (LocalYieldRunRequest ctl cpu barrier flags)
    (fun o _ => o = if (fst r =? 0) || (snd r =? ESTALE) || (snd r =? ENODEV) then Some tt else None) h.
Proof.
  cbn zeta. unfold LocalYieldRunRequest, Run. apply reaches_get. cbn [default]. destruct (os h _ _) as [error errno]. cbn [fst snd].
  destruct (error =? 0); cbn; [by apply reaches_ret|]. unfold CHECK_. destruct (_ || _); by apply reaches_ret.
Qed.
End KernelProps.
