(* ===== verification/O1Agent.v ===== *)
(** * The agent of the O(1) scheduler

    [O1Agent::AgentThread] with its periodic debug output ([DumpState], [DumpAllTasks]) and
    [FullO1Agent::RpcHandler] ([src/schedulers/o1]).  Output is kept as data; its format is
    not. *)

From S2P Require Import Prelude GhostAbi Dispatch PrioArray O1Sched.
#[local] Open Scope Z_scope.

Module O1Agent.
Import O1.

Definition kDebugRunqueue : Z := 1.
Definition kCountAllTasks : Z := 2.
Definition kDumpStateEmptyRQ : Z := 1.
Definition kDumpAllTasks : Z := 2.

(** What is printed of a task, and of a CPU. *)
Inductive line :=
  | TaskLine (gtid : Z) (state : O1TaskState) (cpu : Z) (preempted prio_boost : bool)
  | CpuLine (cpu : Z) (current : option Z) (size : Z).

Definition task_line (gtid : Z) (t : O1Task) : line :=
  TaskLine gtid (run_state t) (O1Sched.cpu t) (preempted t) (prio_boost t).

Section Agent.
Context (env : Env).

Definition DumpAllTasks : M O1State (list line) := ForEachTask (fun gtid t out => (true, out ++ [task_line gtid t])) [].

Definition DumpState (c flags : Z) : M O1State (list line) :=
  all <- (if negb (Z.land flags kDumpAllTasks =? 0) then DumpAllTasks else mret []) ;;
  cs <- cpu_state c ;;
  if (Z.land flags kDumpStateEmptyRQ =? 0) && negb (bool_decide (current cs <> None)) && Empty (run_queue cs)
  then mret all
  else mret (all ++ [CpuLine c (current cs) (Size (run_queue cs))]).

(** What an iteration of the loop gets to see; [edge] says whether a second has passed since
    the last output. *)
Record round := mk_round { finished : bool; barrier : Z; boosted : bool; messages : list Message.ghost_msg; edge : bool }.

(** The output of one round, and [debug_runqueue_]. *)
Definition debug_out (verbose c : Z) (edge : bool) (debug_runqueue_ : bool) : M O1State (list line * bool) :=
  if negb (verbose =? 0) && edge then
    let flags := if 1 <? verbose then kDumpStateEmptyRQ else 0 in
    if debug_runqueue_ then out <- DumpState c kDumpAllTasks ;; mret (out, false)
    else out <- DumpState c flags ;; mret (out, debug_runqueue_)
  else mret ([], debug_runqueue_).

(** The loop over the rounds it gets to see: whether it has left the loop, the output and
    [debug_runqueue_]. *)
Fixpoint AgentThread (verbose c : Z) (rounds : list round) (debug_runqueue_ : bool) : M O1State (bool * list line * bool) :=
  match rounds with
  | [] => mret (false, [], debug_runqueue_)
  | r :: rounds =>
      empty <- sched_Empty c ;;
      if negb (finished r) || negb empty then
        Schedule env c (barrier r) (boosted r) (messages r) ;;;
        o <- debug_out verbose c (edge r) debug_runqueue_ ;;
        rest <- AgentThread verbose c rounds (snd o) ;;
        mret (fst (fst rest), fst o ++ snd (fst rest), snd rest)
      else mret (true, [], debug_runqueue_)
  end.

(** The response code, and [debug_runqueue_]. *)
Definition RpcHandler (req : Z) (debug_runqueue_ : bool) : M O1State (Z * bool) :=
  if req =? kDebugRunqueue then mret (0, true)
  else if req =? kCountAllTasks then n <- CountAllTasks ;; mret (n, debug_runqueue_)
  else mret (-1, debug_runqueue_).
End Agent.

(** ** What they do *)

Lemma o1_visit_lines (l : list (Z * O1Task)) out :
  visit (fun gtid t out => (true, out ++ [task_line gtid t])) l out = out ++ ((fun '(gtid, t) => task_line gtid t) <$> l).
Proof. revert out. induction l as [|[g t] l IH]; intros out; cbn; [by rewrite app_nil_r|]. rewrite IH, <- app_assoc. done. Qed.

(** Output looks at the state only, and never fails: all tasks, each once, when asked for; a
    CPU unless it has nothing. *)
Lemma o1_dump_state_prints c flags s :
  let cs := cpu_states_ s !!! c in
  let shown := negb (Z.land flags kDumpStateEmptyRQ =? 0) || bool_decide (current cs <> None) || negb (Empty (run_queue cs)) in
  DumpState c flags s =
    Some ((if Z.land flags kDumpAllTasks =? 0 then [] else (fun '(gtid, t) => task_line gtid t) <$> map_to_list (tasks s)) ++
          (if shown then [CpuLine c (current cs) (Size (run_queue cs))] else []), s).
Proof.
  cbn zeta. unfold DumpState, DumpAllTasks, ForEachTask, cpu_state, mbind, mget, mret.
  destruct (Z.land flags kDumpAllTasks =? 0); cbn [negb]; cbv beta iota; rewrite ?o1_visit_lines;
    destruct (Z.land flags kDumpStateEmptyRQ =? 0), (bool_decide _), (Empty _); cbn; by rewrite ?app_nil_r.
Qed.

Lemma debug_out_reads verbose c edge dbg s : exists out dbg', debug_out verbose c edge dbg s = Some ((out, dbg'), s).
Proof.
  unfold debug_out. destruct (_ && _); [|by exists [], dbg]. destruct dbg; unfold mbind.
  all: rewrite o1_dump_state_prints; by eexists _, false.
Qed.

(** Whether the loop is left, and the scheduler's state. *)
Definition decided (o : option ((bool * list line * bool) * O1State)) : option (bool * O1State) :=
  match o with Some ((gone, _, _), s) => Some (gone, s) | None => None end.

(** Verbosity does not change what the agent does. *)
Lemma agent_thread_transparent env verbose c rounds dbg dbg' s :
  decided (AgentThread env verbose c rounds dbg s) = decided (AgentThread env 0 c rounds dbg' s).
Proof.
  revert dbg dbg' s. induction rounds as [|r rounds IH]; intros dbg dbg' s; cbn [AgentThread]; [done|].
  unfold mbind. destruct (sched_Empty c s) as [[empty s0]|]; [|done]. destruct (_ || _); [|done].
  destruct (Schedule _ _ _ _ _ s0) as [[[] s1]|]; [|done].
  destruct (debug_out_reads verbose c (edge r) dbg s1) as (out & d1 & ->).
  destruct (debug_out_reads 0 c (edge r) dbg' s1) as (out' & d1' & ->). cbn [snd fst]. specialize (IH d1 d1' s1).
  destruct (AgentThread env verbose c rounds d1 s1) as [[[[l1 o1] e1] s2]|], (AgentThread env 0 c rounds d1' s1) as [[[[l2 o2] e2] s2']|]; done.
Qed.

(** The agent leaves its loop only after it was told to finish, with an empty run queue. *)
Lemma o1_agent_exit env verbose c rounds dbg s out dbg' s' :
  AgentThread env verbose c rounds dbg s = Some ((true, out, dbg'), s') ->
  Empty (run_queue (cpu_states_ s' !!! c)) = true /\ exists r, r ∈ rounds /\ finished r = true.
Proof.
  revert dbg s out. induction rounds as [|r rounds IH]; intros dbg s out; cbn [AgentThread]; [done|].
  unfold mbind. change (sched_Empty c s) with (Some (Empty (run_queue (cpu_states_ s !!! c)), s)). cbv iota beta.
  destruct (_ || _) eqn:E.
  - destruct (Schedule _ _ _ _ _ s) as [[[] s1]|]; [|done]. destruct (debug_out_reads verbose c (edge r) dbg s1) as (o & d1 & ->).
    cbn [snd fst]. destruct (AgentThread env verbose c rounds d1 s1) as [[[[l1 o1] e1] s2]|] eqn:Er; [|done]. cbn.
    intros [= -> <- -> ->]. destruct (IH d1 s1 _ Er) as [? (r' & ? & ?)]. split; [done|]. exists r'. split; [by right|done].
  - intros [= <- <- <-]. apply orb_false_iff in E as [E1%negb_false_iff E2%negb_false_iff]. split; [done|]. exists r. split; [by left|done].
Qed.

(** The number of tasks, as reported over RPC. *)
Lemma o1_rpc_count dbg s : RpcHandler kCountAllTasks dbg s = Some ((Z.of_nat (size (tasks s)), dbg), s).
Proof.
  unfold RpcHandler, CountAllTasks, ForEachTask, mbind, mget, mret. cbn. rewrite visit_count. cbn. by rewrite length_map_to_list.
Qed.
End O1Agent.
