(* ===== verification/FifoAgent.v ===== *)
(** * Debug output of the FIFO scheduler

    [DumpAllTasks] and [DumpState] of [src/schedulers/fifo/per_cpu], with the output as data;
    the agent's loop, which prints it, is in [FifoSched]. *)

From S2P Require Import Prelude GhostAbi Dispatch FifoSched.
#[local] Open Scope Z_scope.

Module FifoAgent.
Import Fifo.

Definition kDumpStateEmptyRQ : Z := 1.
Definition kDumpAllTasks : Z := 2.

Inductive line :=
  | TaskLine (gtid : Z) (state : FifoTaskState) (cpu : Z) (preempted prio_boost : bool)
  | CpuLine (cpu : Z) (current : option Z) (size : Z).

Definition task_line (gtid : Z) (t : FifoTask) : line :=
  TaskLine gtid (run_state t) (cpu t) (preempted t) (prio_boost t).

Definition DumpAllTasks : M FifoState (list line) := ForEachTask (fun gtid t out => (true, out ++ [task_line gtid t])) [].

Definition DumpState (c flags : Z) : M FifoState (list line) :=
  all <- (if negb (Z.land flags kDumpAllTasks =? 0) then DumpAllTasks else mret []) ;;
  s <- mget ;;
  let cs := cpu_states_ s !!! c in
  if (Z.land flags kDumpStateEmptyRQ =? 0) && negb (bool_decide (current cs <> None)) && rq_Empty cs
  then mret all
  else mret (all ++ [CpuLine c (current cs) (Size cs)]).

Lemma fifo_visit_lines (l : list (Z * FifoTask)) out :
  visit (fun gtid t out => (true, out ++ [task_line gtid t])) l out = out ++ ((fun '(gtid, t) => task_line gtid t) <$> l).
Proof. revert out. induction l as [|[g t] l IH]; intros out; cbn; [by rewrite app_nil_r|]. rewrite IH, <- app_assoc. done. Qed.

(** All tasks are printed, each once, when asked for; a CPU unless it has nothing. *)
Lemma fifo_dump_state_prints c flags s :
  let cs := cpu_states_ s !!! c in
  let shown := negb (Z.land flags kDumpStateEmptyRQ =? 0) || bool_decide (current cs <> None) || negb (rq_Empty cs) in
  DumpState c flags s =
    Some ((if Z.land flags kDumpAllTasks =? 0 then [] else (fun '(gtid, t) => task_line gtid t) <$> map_to_list (tasks s)) ++
          (if shown then [CpuLine c (current cs) (Size cs)] else []), s).
Proof.
  cbn zeta. unfold DumpState, DumpAllTasks, ForEachTask, mbind, mget, mret.
  destruct (Z.land flags kDumpAllTasks =? 0); cbn [negb]; cbv beta iota; rewrite ?fifo_visit_lines;
    destruct (Z.land flags kDumpStateEmptyRQ =? 0), (bool_decide _), (rq_Empty _); cbn; by rewrite ?app_nil_r.
Qed.
End FifoAgent.
