(* ===== verification/AgentPrograms.v ===== *)
(** * The agent programs and the tool that takes tasks away from them

    The mains of [src/schedulers/o1/o1_agent.cc] and [src/schedulers/fifo/per_cpu/fifo_agent.cc]
    (which differ in the scheduler only) with the signals they are controlled by;
    [src/util/pushtosched.cc]; the conditions of the macros of [src/lib/logging.h]. *)

From Stdlib Require Import Ascii.
From S2P Require Import Prelude CpuMap Topology.
From ITree Require Import ITree.
From S2P Require Import Interaction.
#[local] Open Scope Z_scope.

(** ** Agents *)

Module AgentMain.

(** *** The configuration *)

Section Config.
Context (SimpleAtoi : list ascii -> option Z).
(** [open(path, O_PATH)] *)
Context (open : list ascii -> Z).

(** The CPUs and the directory of an enclave to attach to; [None]: a failed [CHECK]. *)
Definition ParseAgentConfig (num_cpus : Z) (ghost_cpus enclave : list ascii) : option (bitmap * option Z) :=
  cpus ← ParseCpuStr SimpleAtoi num_cpus ghost_cpus;
  if CpuMap.Empty num_cpus cpus then None
  else match enclave with
  | [] => Some (cpus, None)
  | _ => let fd := open enclave in if 0 <=? fd then Some (cpus, Some fd) else None
  end.
End Config.

(** *** [main] and its signals *)

(** The points of [main]. *)
Inductive mpc := MNew | MInitCore | MAddInt | MAddUsr1 | MWait | MDelete | MReturn.

Inductive agent_process := NotYet | Alive | Dying | Deleted.

Inductive signal := SIGINT | SIGTERM | SIGUSR1 | SIGABRT.

Record main_state := mk_main {
  pc : mpc;
  uap : agent_process;
  init : bool;            (* [GhostSignals::Init] has been called *)
  on_int : bool;          (* the handler of SIGINT is added *)
  on_usr1 : bool;
  first : bool;           (* the static variable of the handler *)
  exit_ : bool;           (* the notification *)
  rpcs : nat;             (* calls made for SIGUSR1 *)
  misused : bool;         (* a call on an object whose destructor has begun, or a second [Notify] *)
  status : option Z }.    (* of the process; negative: killed by a signal *)

Definition main_init : main_state := mk_main MNew NotYet false false false true false 0 false None.

Definition set_pc (p : mpc) (s : main_state) : main_state :=
  mk_main p (uap s) (init s) (on_int s) (on_usr1 s) (first s) (exit_ s) (rpcs s) (misused s) (status s).
Definition set_uap (u : agent_process) (s : main_state) : main_state :=
  mk_main (pc s) u (init s) (on_int s) (on_usr1 s) (first s) (exit_ s) (rpcs s) (misused s) (status s).
Definition set_status (z : Z) (s : main_state) : main_state :=
  mk_main (pc s) (uap s) (init s) (on_int s) (on_usr1 s) (first s) (exit_ s) (rpcs s) (misused s) (Some z).

Definition main_step (s : main_state) : option main_state :=
  match status s with
  | Some _ => None
  | None =>
      match pc s with
      | MNew => Some (set_pc MInitCore (set_uap Alive s))
      | MInitCore => Some (mk_main MAddInt (uap s) true (on_int s) (on_usr1 s) (first s) (exit_ s) (rpcs s) (misused s) None)
      | MAddInt => Some (mk_main MAddUsr1 (uap s) (init s) true (on_usr1 s) (first s) (exit_ s) (rpcs s) (misused s) None)
      | MAddUsr1 => Some (mk_main MWait (uap s) (init s) (on_int s) true (first s) (exit_ s) (rpcs s) (misused s) None)
      | MWait => if exit_ s then Some (set_pc MDelete (set_uap Dying s)) else None
      | MDelete => Some (set_pc MReturn (set_uap Deleted s))
      | MReturn => Some (set_status 0 s)
      end
  end.

Definition signum (sig : signal) : Z := match sig with SIGINT => 2 | SIGABRT => 6 | SIGUSR1 => 10 | SIGTERM => 15 end.

(** The handler of SIGINT: whether it is fatal. *)
Definition int_handler (s : main_state) : bool * main_state :=
  if first s then
    (false, mk_main (pc s) (uap s) (init s) (on_int s) (on_usr1 s) false true (rpcs s) (misused s || exit_ s) (status s))
  else (true, s).

Definition usr1_handler (s : main_state) : bool * main_state :=
  (false, mk_main (pc s) (uap s) (init s) (on_int s) (on_usr1 s) (first s) (exit_ s) (S (rpcs s))
            (misused s || match uap s with Alive => false | _ => true end) (status s)).

(** A signal without handlers is fatal. *)
Definition handlers (sig : signal) (s : main_state) : bool * main_state :=
  match sig with
  | SIGINT => if on_int s then int_handler s else (true, s)
  | SIGUSR1 => if on_usr1 s then usr1_handler s else (true, s)
  | SIGTERM | SIGABRT => (true, s)
  end.

Definition deliver (sig : signal) (s : main_state) : option main_state :=
  match status s with
  | Some _ => None
  | None =>
      if init s then let '(fatal, s) := handlers sig s in Some (if fatal then set_status 1 s else s)
      else Some (set_status (- signum sig) s)
  end.

Inductive event := Step | Signal (sig : signal).
Definition main_event (s : main_state) (e : event) : option main_state :=
  match e with Step => main_step s | Signal sig => deliver sig s end.

Inductive main_run : list event -> main_state -> Prop :=
  | main_nil : main_run [] main_init
  | main_snoc es s e s' : main_run es s -> main_event s e = Some s' -> main_run (es ++ [e]) s'.
End AgentMain.

(** ** [pushtosched] *)

Definition SCHED_OTHER : Z := 0.

(** [fscanf]: the end of the input, no number, or a number. *)
Variant scanned := Eof | NoNumber | Number (pid : Z).

Variant pushE : Type -> Type :=
  | Fscanf : pushE scanned
  | SchedGetscheduler (pid : Z) : pushE Z
  | SchedSetOther (pid : Z) : pushE Z
  | Complain (pid : Z) : pushE unit.

Module Push.

(** One round with the number in [pid], which is left as it was if there is none in the
    input; the status on return. *)
Definition round (pid : Z) : itree pushE (Z + Z) :=
  ITree.bind (syscall Fscanf) (fun sc =>
  match sc with
  | Eof => Ret (inr 0)
  | _ =>
      let pid := match sc with Number p => p | _ => pid end in
      ITree.bind (syscall (SchedGetscheduler pid)) (fun class =>
      if class =? SCHED_OTHER then Ret (inl pid)
      else
        ITree.bind (syscall (SchedSetOther pid)) (fun rc =>
        ITree.bind (if negb (rc =? 0) then syscall (Complain pid) else Ret tt) (fun _ =>
        ITree.bind (syscall (SchedGetscheduler pid)) (fun actual =>
        if actual <? 0 then Ret (inr 1)
        else if negb (actual =? SCHED_OTHER) then ITree.bind (syscall (Complain pid)) (fun _ => Ret (inl pid))
        else Ret (inl pid)))))
  end).

(** [pid0] is what the uninitialised variable holds. *)
Definition main (argc pid0 : Z) : itree pushE Z := if negb (argc =? 1) then Ret 1 else ITree.iter round pid0.
End Push.

(** ** Logging *)

Module Log.
(** Whether the macros print, given [verbose()]. *)
Definition GHOST_DPRINT (verbose level : Z) : bool := negb (verbose <? level).
Definition VLOG (verbose level : Z) : bool := verbose <? level.
End Log.
