(* ===== verification/AgentProgramsProps.v ===== *)
(** * How agents are stopped, and which input [pushtosched] gets through *)

From S2P Require Import Prelude.
From ITree Require Import ITree.
From S2P Require Import Interaction AgentPrograms.
#[local] Open Scope Z_scope.

Module ProgramProps.
Import AgentMain.

(** ** Stopping an agent *)

(** What the points of [main] say. *)
Definition past_int (p : mpc) : bool := match p with MNew | MInitCore | MAddInt => false | _ => true end.
Definition past_usr1 (p : mpc) : bool := match p with MWait | MDelete | MReturn => true | _ => false end.
Definition pc_init (p : mpc) : bool := match p with MNew | MInitCore => false | _ => true end.
Definition pc_uap (p : mpc) : agent_process := match p with MNew => NotYet | MDelete => Dying | MReturn => Deleted | _ => Alive end.
Definition leaving (p : mpc) : bool := match p with MDelete | MReturn => true | _ => false end.

(** Signals that came while the object was being destroyed or was gone. *)
Definition late (es : list event) : Prop := Signal SIGUSR1 ∈ es /\ Signal SIGINT ∈ es.

Record main_inv (es : list event) (s : main_state) : Prop := {
  mi_init : init s = pc_init (pc s);
  mi_int : on_int s = past_int (pc s);
  mi_usr : on_usr1 s = past_usr1 (pc s);
  mi_uap : uap s = pc_uap (pc s);
  mi_first : first s = negb (exit_ s);
  mi_leaving : leaving (pc s) = true -> exit_ s = true;
  mi_exit : exit_ s = true -> Signal SIGINT ∈ es /\ past_int (pc s) = true;
  mi_misused : misused s = true -> late es;
  mi_status : status s = Some 0 -> pc s = MReturn }.

Lemma main_init_inv : main_inv [] main_init.
Proof. by split. Qed.

Lemma main_inv_snoc es e s : main_inv es s -> main_inv (es ++ [e]) s.
Proof.
  intros []. split; try done.
  - intros E. destruct (mi_exit0 E). split; [set_solver|done].
  - intros E. destruct (mi_misused0 E). split; set_solver.
Qed.

Lemma main_step_inv es s s' : main_inv es s -> main_step s = Some s' -> main_inv es s'.
Proof.
  intros [] Hs. unfold main_step in Hs. destruct s as [p u i oi ou f e r m st]. cbn in *. subst. destruct st; [done|].
  destruct p; cbn in Hs; try (destruct e; [|done]); injection Hs as <-; split; cbn; try done; auto.
  all: intros E; destruct (mi_exit0 E) as [? ?]; by split.
Qed.

Lemma deliver_inv es sig s s' : main_inv es s -> deliver sig s = Some s' -> main_inv (es ++ [Signal sig]) s'.
Proof.
  intros Hi Hs. pose proof (main_inv_snoc _ (Signal sig) _ Hi) as Hi'. unfold deliver in Hs. destruct (status s) eqn:Es; [done|].
  assert (Hst : forall z, z <> 0 -> main_inv (es ++ [Signal sig]) (set_status z s)).
  { intros z Hz. destruct Hi'. split; cbn; try done. congruence. }
  destruct (init s) eqn:Ei; [|injection Hs as <-; apply Hst; by destruct sig].
  destruct sig; cbn in Hs; try (injection Hs as <-; by apply Hst).
  - destruct (on_int s) eqn:Eo; [|injection Hs as <-; by apply Hst]. unfold int_handler in Hs.
    destruct (first s) eqn:Ef; injection Hs as <-; [|by apply Hst]. destruct Hi, Hi'. split; cbn; try done.
    + intros _. split; [set_solver|congruence].
    + assert (Hex : exit_ s = false) by (rewrite Ef in mi_first0; by destruct (exit_ s)). rewrite Hex, orb_false_r. done.
  - destruct (on_usr1 s) eqn:Eo; [|injection Hs as <-; by apply Hst]. injection Hs as <-. destruct Hi, Hi'. split; cbn; try done.
    destruct (misused s) eqn:Em; [by auto|]. cbn. intros Hu. split; [set_solver|].
    rewrite mi_uap0 in Hu. rewrite Eo in mi_usr0. apply mi_exit1, mi_leaving0. by destruct (pc s).
Qed.

Lemma main_run_inv es s : main_run es s -> main_inv es s.
Proof.
  induction 1 as [|es s [|sig] s' _ IH Hs]; [apply main_init_inv|apply main_inv_snoc; by eapply main_step_inv|by eapply deliver_inv].
Qed.

(** Steps left after the notification. *)
Definition steps_left (p : mpc) : nat :=
  match p with MNew => 7 | MInitCore => 6 | MAddInt => 5 | MAddUsr1 => 4 | MWait => 3 | MDelete => 2 | MReturn => 1 end.

(** How an agent program ends.  It returns 0 only with its agent process destroyed; a
    SIGINT once the handler is added makes it get there, by at most four steps of its own
    that nothing can hold up; every other signal without a handler, and the second SIGINT,
    end it with status 1 (by the signal itself before signals are set up).  The agent
    process is called only while it is there, unless SIGUSR1 comes when a SIGINT has. *)
Theorem agent_main_ends es s : main_run es s ->
  (status s = Some 0 -> uap s = Deleted) /\
  (misused s = true -> late es) /\
  (status s = None -> exit_ s = true -> (steps_left (pc s) <= 4)%nat /\
    exists s', main_step s = Some s' /\ exit_ s' = true /\
      match pc s with MReturn => status s' = Some 0 | _ => status s' = None /\ (steps_left (pc s') < steps_left (pc s))%nat end) /\
  (status s = None -> exit_ s = false -> main_step s <> None \/ pc s = MWait) /\
  forall sig s', deliver sig s = Some s' ->
    match sig with
    | SIGINT => if on_int s && first s then status s' = None /\ exit_ s' = true else exists z, status s' = Some z /\ z <> 0
    | SIGUSR1 => if on_usr1 s then status s' = None /\ exit_ s' = exit_ s else exists z, status s' = Some z /\ z <> 0
    | SIGTERM | SIGABRT => exists z, status s' = Some z /\ z <> 0
    end.
Proof.
  intros Hr. pose proof (main_run_inv es s Hr) as []. split_and!; try done.
  - intros E. rewrite mi_uap0, (mi_status0 E). done.
  - intros Es Ex. destruct (mi_exit0 Ex) as [_ Hp]. split; [by destruct (pc s); cbn; try lia|].
    unfold main_step. rewrite Es. destruct (pc s) eqn:Ep; try done; rewrite ?Ex; eexists; (split; [done|]); cbn; rewrite ?Ep; cbn;
      repeat split; auto.
  - intros Es Ex. unfold main_step. rewrite Es, Ex. destruct (pc s); auto.
  - intros sig s' Hs. unfold deliver in Hs. destruct (status s) eqn:Es; [done|].
    assert (Hpre : init s = false -> on_int s = false /\ on_usr1 s = false)
      by (rewrite mi_init0, mi_int0, mi_usr0; by destruct (pc s)).
    destruct (init s) eqn:Ei.
    + destruct sig; cbn in Hs; try (injection Hs as <-; by exists 1).
      * unfold int_handler in Hs. destruct (on_int s), (first s); cbn in *; injection Hs as <-; eauto; by exists 1.
      * destruct (on_usr1 s); cbn in Hs; injection Hs as <-; [by rewrite <- Es|by exists 1].
    + destruct (Hpre eq_refl) as [-> ->]. injection Hs as <-. destruct sig; cbn; eauto.
Qed.

(** ** [pushtosched] *)

Section Push.
Context (os : answers pushE).
Implicit Type h : history pushE.

(** The input is not consumed when there is no number: the program reads it for ever. *)
Lemma push_hangs pid0 h : (forall h, os h _ Fscanf = NoNumber) -> (forall h pid, 0 <= os h _ (SchedGetscheduler pid)) ->
  keeps os (fun _ => True) (Push.main 1 pid0) (fun _ _ => False) h.
Proof.
  intros Hn Hg. apply (keeps_iter os (fun _ => True) (fun _ _ => True)); [|done]. clear pid0 h. intros pid h _. unfold Push.round.
  apply keeps_bind, keeps_call; [done|]. split; [done|]. rewrite Hn.
  apply keeps_bind, keeps_call; [done|]. split; [done|]. destruct (_ =? SCHED_OTHER); [by apply keeps_ret|].
  apply keeps_bind, keeps_call; [done|]. split; [done|]. apply keeps_bind.
  assert (Hrest : forall h, keeps os (fun _ => True) (ITree.bind (syscall (SchedGetscheduler pid)) (fun actual =>
    if actual <? 0 then Ret (inr 1)
    else if negb (actual =? SCHED_OTHER) then ITree.bind (syscall (Complain pid)) (fun _ => Ret (inl pid)) else Ret (inl pid)))
    (fun lr (_ : history pushE) => match lr with inl _ => True | inr _ => False end) h).
  { intros h'. apply keeps_bind, keeps_call; [done|]. split; [done|]. rewrite (proj2 (Z.ltb_ge _ 0)) by apply Hg.
    destruct (negb _); [|by apply keeps_ret]. apply keeps_bind, keeps_call; [done|]. split; [done|]. by apply keeps_ret. }
  destruct (negb _); [apply keeps_call; [done|]; split; [done|]|apply keeps_ret; [done|]]; apply Hrest.
Qed.

(** What was done about a process. *)
Definition cared_for (pid : Z) (x : entry pushE) : bool :=
  match x with
  | Entry e a =>
      match e in pushE X return X -> bool with
      | SchedGetscheduler p => fun a => (p =? pid) && (a =? SCHED_OTHER)
      | Complain p => fun _ => p =? pid
      | _ => fun _ => false
      end a
  end.

(** The processes read. *)
Definition read_pid (x : entry pushE) : list Z :=
  match x with
  | Entry e a => match e in pushE X return X -> list Z with Fscanf => fun sc => match sc with Number p => [p] | _ => [] end | _ => fun _ => [] end a
  end.

Definition all_cared h : Prop := forall pid, pid ∈ h ≫= read_pid -> existsb (cared_for pid) h = true.

Lemma all_cared_other x h : read_pid x = [] -> all_cared h -> all_cared (x :: h).
Proof. intros Hx Hh pid. cbn. rewrite Hx. cbn. intros Hin. rewrite (Hh pid Hin). apply orb_true_r. Qed.

(** All but the number just read. *)
Definition cared_but (pid : Z) h : Prop := forall p, p ∈ h ≫= read_pid -> p = pid \/ existsb (cared_for p) h = true.

Lemma cared_but_other pid x h : read_pid x = [] -> cared_but pid h -> cared_but pid (x :: h).
Proof. intros Hx Hh p. cbn. rewrite Hx. cbn. intros Hin. destruct (Hh p Hin) as [?|E]; [by left|right]. rewrite E. apply orb_true_r. Qed.

Lemma cared_but_all pid x h : cared_for pid x = true -> cared_but pid h -> read_pid x = [] -> all_cared (x :: h).
Proof.
  intros Hc Hh Hx p. cbn. rewrite Hx. cbn. intros Hin. destruct (Hh p Hin) as [->|E]; [by rewrite Hc|]. rewrite E. apply orb_true_r.
Qed.

(** With numbers only, as many as there are, the program ends; with status 0 every process
    that was named is in [SCHED_OTHER], or there was a complaint about it. *)
Lemma push_ends left pid0 : (forall h, os h _ Fscanf <> NoNumber) ->
  (forall h p, os h _ Fscanf = Number p -> (left (Entry Fscanf (os h _ Fscanf) :: h) < left h)%nat) ->
  (forall h x, (left (x :: h) <= left h)%nat) ->
  reaches os (Push.main 1 pid0) (fun st h => st = 0 /\ all_cared h \/ st = 1) [].
Proof.
  intros Hn Hnum Hmono. apply (reaches_iter os (fun _ h => all_cared h) (fun _ h => left h)); [|intros p; cbn; set_solver].
  intros pid0' h Hc. unfold Push.round. apply reaches_bind, reaches_call. destruct (os h _ Fscanf) as [| |pid] eqn:Esc; [|by destruct (Hn h)|].
  { apply reaches_ret. left. split; [done|]. by apply all_cared_other. }
  specialize (Hnum h pid Esc). rewrite Esc in Hnum. set (h1 := _ :: h) in *. assert (H1 : cared_but pid h1).
  { intros p. unfold h1. cbn. intros [->|Hin]%elem_of_cons; [by left|right]. by apply Hc. }
  apply reaches_bind, reaches_call. set (h2 := _ :: h1). pose proof (Hmono h1 (Entry (SchedGetscheduler pid) (os h1 _ (SchedGetscheduler pid)))) as M2.
  destruct (Z.eqb_spec (os h1 _ (SchedGetscheduler pid)) SCHED_OTHER) as [E|E].
  { apply reaches_ret. split; [|unfold h2; lia]. apply (cared_but_all pid); [|done|done]. cbn. by rewrite E, Z.eqb_refl. }
  assert (H2 : cared_but pid h2) by (by apply cared_but_other).
  assert (Hrest : forall h3, cared_but pid h3 -> (left h3 < left h)%nat ->
    reaches os (ITree.bind (syscall (SchedGetscheduler pid)) (fun actual =>
      if actual <? 0 then Ret (inr 1)
      else if negb (actual =? SCHED_OTHER) then ITree.bind (syscall (Complain pid)) (fun _ => Ret (inl pid)) else Ret (inl pid)))
      (fun lr h' => match lr with inl _ => all_cared h' /\ (left h' < left h)%nat | inr r => r = 0 /\ all_cared h' \/ r = 1 end) h3).
  { intros h3 H3 M3. apply reaches_bind, reaches_call. set (a := os h3 _ (SchedGetscheduler pid)). set (h4 := _ :: h3).
    assert (M4 : (left h4 <= left h3)%nat) by apply Hmono. destruct (a <? 0); [apply reaches_ret; by right|].
    destruct (Z.eqb_spec a SCHED_OTHER) as [Ea|Ea]; cbn [negb].
    - apply reaches_ret. split; [|lia]. apply (cared_but_all pid); [|done|done]. cbn. fold a. by rewrite Ea, Z.eqb_refl.
    - apply reaches_bind, reaches_call, reaches_ret. set (h5 := _ :: h4). assert (M5 : (left h5 <= left h4)%nat) by apply Hmono.
      split; [|lia]. apply (cared_but_all pid); [cbn; apply Z.eqb_refl|by apply cared_but_other|done]. }
  apply reaches_bind, reaches_call. set (h3 := _ :: h2). assert (M3 : (left h3 <= left h2)%nat) by apply Hmono. unfold h2 in *.
  apply reaches_bind. destruct (negb _).
  - apply reaches_call. match goal with |- reaches _ _ _ (?x :: h3) => pose proof (Hmono h3 x) as M4 end.
    apply Hrest; [apply cared_but_other; [done|]; by apply cared_but_other|lia].
  - apply reaches_ret, Hrest; [by apply cared_but_other|lia].
Qed.
End Push.

(** [VLOG] prints exactly when [GHOST_DPRINT] does not. *)
Lemma vlog_inverted verbose level : Log.VLOG verbose level = negb (Log.GHOST_DPRINT verbose level).
Proof. unfold Log.VLOG, Log.GHOST_DPRINT. by rewrite negb_involutive. Qed.
End ProgramProps.
