(* ===== verification/PrioTableShmem.v ===== *)
(** * The priority table in shared memory

    The constructor of [PrioTable] and [PrioTable::Attach] ([src/shared/prio_table.cc]) over the
    named shared memory of [src/shared/shmem.cc]: an application makes the table, the agent
    attaches to it. *)

From stdpp Require Import strings.
From S2P Require Import Prelude PrioTable PrioTableProps Shmem ShmemProps.
#[local] Open Scope Z_scope.

Module SharedTable.
Import Layout.

Definition kPrioTableShmemName : string := "priotable".
Definition kPrioTableVersion : Z := 0.

Section Table.
(** As for shared memory: which links can be read and files opened, how much locked. *)
Context (readable openable : file -> bool) (mlock : Z -> bool).

(** The regions, and the table header that each holds. *)
Record memory := mk_memory { shm : world; tables_ : gmap nat ghost_shmem_hdr }.

Notation W := (M memory).

(** An operation on the regions. *)
Definition lift {A} (m : M world A) : W A := fun s =>
  match m (shm s) with Some (a, w) => Some (a, mk_memory w (tables_ s)) | None => None end.

Definition write_hdr (r : nat) (h : ghost_shmem_hdr) : W unit :=
  mmod (fun s => mk_memory (shm s) (<[r := h]> (tables_ s))).

(** What a process has of a table: [shmem_] and [hdr_]. *)
Record table_ref := mk_ref { shmem_of : GhostShmem; hdr_ : nat }.

(** The constructor, up to [MarkReady]. *)
Definition MakeTable (me num_items num_classes capacity : Z) : W table_ref :=
  size <- deref (shmem_size num_items num_classes capacity) ;;
  s <- lift (Shmem.CreateShmem readable openable me kPrioTableVersion kPrioTableShmemName size) ;;
  r <- deref (shmem_ s) ;;
  h <- deref (Layout.PrioTable num_items num_classes capacity) ;;
  write_hdr r h ;;;
  mret (mk_ref s r).

Definition Ready (t : table_ref) : W unit := lift (Shmem.MarkReady (shmem_of t)).

(** [Attach] by process [me] until it waits, and one poll of the wait with what follows it;
    [None] as an answer: not ready yet. *)
Definition AttachBegin (me remote : Z) : W (option GhostShmem) :=
  lift (Shmem.ConnectBegin readable openable mlock me kPrioTableShmemName remote).

Definition AttachEnd (s : GhostShmem) (remote : Z) : W (option table_ref) :=
  ready <- lift (Shmem.ConnectEnd s kPrioTableVersion remote) ;;
  if negb ready then mret None
  else
    r <- deref (shmem_ s) ;;
    m <- mget ;;
    h <- deref (tables_ m !! r) ;;
    size <- lift (Shmem.size s) ;;
    CHECK (maplen h <=? size) ;;;
    mret (Some (mk_ref s r)).
End Table.

(** ** What the two sides see *)

Section Facts.
Context (readable openable : file -> bool) (mlock : Z -> bool).
Import ShmemProps.

(** The world after a region has been created. *)
Lemma created_facts me v suffix size w s w1 : Shmem.CreateShmem readable openable me v suffix size w = Some (s, w1) ->
  let r := length (regions w) in
  readable (memfd_file suffix r) = true -> openable (memfd_file suffix r) = true ->
  shmem_ s = Some r /\ map_size_ s = mapping size /\ mapping size <> 0 /\ mapping size <= UINT32_MAX /\
  regions w1 = regions w ++ [(Shmem.created (mapping size) me zero_header, mapping size)] /\
  exists t, tables w1 !! me = Some t /\ Shmem.find_file readable openable (needle_of suffix) t = Some (memfd_file suffix r).
Proof.
  intros Hc r Hr Ho. apply create_inv in Hc. cbn zeta in Hc. fold r in Hc. set (t0 := default [] (tables w !! me)) in *.
  pose proof (find_file_opened readable openable (needle_of suffix) (memfd_file suffix r) t0) as Hf.
  destruct (Shmem.open_lowest (memfd_file suffix r) t0) as [fd t]. destruct Hc as (Hn & Hm0 & Hm1 & -> & ->).
  split_and!; try done. exists t. split; [apply lookup_insert_eq|]. by apply Hf; [..|apply needle_prefix].
Qed.

(** The sizes of a table do not wrap. *)
Lemma shmem_size_total ni nc cap : 0 <= ni < 2 ^ 32 -> 0 <= nc < 2 ^ 32 -> 0 <= cap < 2 ^ 32 ->
  shmem_size ni nc cap = Some (LayoutProps.total ni nc cap).
Proof.
  intros. unfold shmem_size, LayoutProps.total, sizeof_hdr, sizeof_sched_item, sizeof_work_class, sizeof_stream, sizeof_entry, ABSL_CACHELINE_SIZE.
  rewrite (u64_id (0 + 64)), (u64_id (64 * ni)), (u64_id (64 * nc)), (u64_id (0 + 64 + 64 * ni)), (u64_id (0 + 64 + 64 * ni + 64 * nc)) by lia.
  replace (0 + 64 + 64 * ni + 64 * nc) with ((1 + ni + nc) * 64) by lia. rewrite Z_mod_mult. cbn [Z.eqb negb]. rewrite u64_id by lia. f_equal. lia.
Qed.

(** A table that could be made fits 32-bit offsets. *)
Lemma mapping_total ni nc cap : 0 <= ni < 2 ^ 32 -> 0 <= nc < 2 ^ 32 -> 0 <= cap < 2 ^ 32 ->
  let sz := LayoutProps.total ni nc cap in mapping sz <> 0 -> mapping sz <= UINT32_MAX ->
  sz + kHeaderReservedBytes <= mapping sz /\ sz < 2 ^ 32.
Proof.
  intros Hi Hc Hcap sz H0 H1. assert (Hsz : 0 <= sz < 2 ^ 64 - kHeaderReservedBytes) by (unfold sz, LayoutProps.total, kHeaderReservedBytes; lia).
  destruct (mapping_spec sz Hsz) as [?|[[H2 _] _]]; [done|]. unfold UINT32_MAX, kHeaderReservedBytes in *. lia.
Qed.

Lemma make_table_inv me ni nc cap m t m1 : MakeTable readable openable me ni nc cap m = Some (t, m1) ->
  exists size s w1 r h, shmem_size ni nc cap = Some size /\
    Shmem.CreateShmem readable openable me kPrioTableVersion kPrioTableShmemName size (shm m) = Some (s, w1) /\
    shmem_ s = Some r /\ Layout.PrioTable ni nc cap = Some h /\ t = mk_ref s r /\ m1 = mk_memory w1 (<[r := h]> (tables_ m)).
Proof.
  unfold MakeTable, mbind, deref, lift, write_hdr, mmod, mret. destruct (shmem_size ni nc cap) as [size|]; [|done].
  destruct (Shmem.CreateShmem _ _ _ _ _ _ _) as [[s w1]|] eqn:Ec; [|done]. destruct (shmem_ s) as [r|] eqn:Er; [|done].
  destruct (Layout.PrioTable ni nc cap) as [h|]; [|done]. intros [= <- <-]. exists size, s, w1, r, h. done.
Qed.

(** Attaching to a region that holds a table. *)
Lemma attach_end_spec me w tb r hd sz fd h : regions w !! r = Some (hd, sz) -> tb !! r = Some h -> maplen h <= client_size hd ->
  header_version hd = kHeaderVersion -> client_version hd = kPrioTableVersion -> mapping_size hd = sz ->
  header_size hd = kHeaderReservedBytes -> owning_pid hd = me ->
  let s := mk_shmem (Some r) sz fd in let m := mk_memory w tb in
  AttachEnd s me m = Some (if ready hd then Some (mk_ref s r) else None, m) /\ lift (Shmem.size s) m = Some (client_size hd, m).
Proof.
  intros Hr Ht Hl H1 H2 H3 H4 H5 s m.
  assert (Hsz : lift (Shmem.size s) m = Some (client_size hd, m)).
  { unfold lift, Shmem.size, mbind, deref at 1. cbn [shmem_ s shm m]. by rewrite (header_at _ _ _ _ Hr). }
  split; [|done]. unfold AttachEnd, mbind. unfold lift at 1. cbn [shm m]. unfold s at 1. rewrite (end_spec _ _ _ _ _ _ hd) by done.
  rewrite H1, H2, H3, H4, H5, !Z.eqb_refl. destruct (ready hd); [|done]. cbn [negb andb tables_]. unfold deref, mget. cbn [shmem_ s tables_].
  change (tables_ m !! r) with (tb !! r). rewrite Ht. change (mk_memory w (tables_ m)) with m. rewrite Hsz. unfold CHECK. by rewrite (proj2 (Z.leb_le _ _)) by done.
Qed.
End Facts.



(** More items than 32-bit offsets can address are refused: no table with wrapped offsets
    is ever made. *)
Example prio_table_too_large :
  MakeTable (fun _ => true) (fun _ => true) 7 (2 ^ 26) 1 11 (mk_memory (mk_world [] ∅ ∅) ∅) = None.
Proof. vm_compute. reflexivity. Qed.
End SharedTable.
