(* ===== verification/BpfTools.v ===== *)
(** * The tracing tools

    What the tools of [src/bpf/user] compute of the counters their BPF programs gathered:
    [schedfair.c] (fairness), [schedclasstop.c] (time per scheduling class),
    [schedlat.c], [schedrun.c], [schedghostidle.c] (histograms), and how their [main]
    functions end.  The texts around the numbers and the conversion of floating-point
    numbers are left out. *)

From stdpp Require Import strings.
From S2P Require Import Prelude BpfRegistry.
#[local] Open Scope Z_scope.

(** Sums and maxima of counters, as the loops compute them. *)
Definition sum64 (l : list Z) : Z := foldl (fun t v => u64 (t + v)) 0 l.
Definition sum32 (l : list Z) : Z := foldl (fun t v => u32 (t + v)) 0 l.
Definition max_of (l : list Z) : Z := foldl (fun m v => Z.max v m) 0 l.

(** ** Fairness *)

Module Fair.

Definition NR_PRIO : nat := 40.
Definition NR_BINS : nat := 20.

Definition scale99 (val max : Z) : Z :=
  let scale := u64 (val * 100) / max in
  let scale := if negb (val =? 0) && (scale =? 0) then 1 else scale in
  Z.min scale 99.

(** A line of the table; the density is a percentage of two totals. *)
Record row := mk_row { r_prio : nat; r_cells : list Z; r_density : Z * Z; r_max : Z; r_total : Z }.

Definition row_data (p_data : list Z) (prio : nat) : list Z := take NR_BINS (drop (prio * NR_BINS) p_data).

Definition print_row (p_data : list Z) (table_total : Z) (prio : nat) : option row :=
  let p := row_data p_data prio in
  let row_max := max_of p in
  let row_total := sum64 p in
  if row_max =? 0 then None
  else Some (mk_row prio ((fun v => scale99 v row_max) <$> p) (row_total, table_total) row_max row_total).

Definition print_percentiles (p_data : list Z) : list row :=
  let table_total := sum64 (take (NR_PRIO * NR_BINS) p_data) in
  omap (print_row p_data table_total) (seq 0 NR_PRIO).

(** What is used of a task's data. *)
Record task_info := mk_ti { user_prio : Z; total_cpu_runtime : Z; total_cpu_share : Z }.

Definition fairness (ti : task_info) : Z := Z.min 19 (u64 (10 * total_cpu_runtime ti) / total_cpu_share ti).

(** [None]: an access outside of the table. *)
Definition account (ti : task_info) (p_data : list Z) : option (list Z) :=
  if (total_cpu_runtime ti =? 0) || (total_cpu_share ti =? 0) then Some p_data
  else
    let i := user_prio ti * 20 + fairness ti in
    if (0 <=? i) && (i <? Z.of_nat (length p_data))
    then Some (alter (fun n => u64 (n + 1)) (Z.to_nat i) p_data)
    else None.

(** The map of the tasks: its keys in the order of the iteration, and look-ups, which
    may fail as tasks go away. *)
Section Tasks.
Context (keys : list Z) (lookup_elem : Z -> option task_info).

Fixpoint key_after (k : Z) (l : list Z) : option (option Z) :=
  match l with
  | [] => None
  | x :: l => if x =? k then Some (head l) else key_after k l
  end.

(** [bpf_map_get_next_key]: the first key after one that is not there. *)
Definition get_next_key (k : Z) : option Z :=
  match key_after k keys with Some r => r | None => head keys end.

(** [None] too without fuel. *)
Fixpoint trace_loop (fuel : nat) (lookup_key : Z) (p_data : list Z) : option (list Z) :=
  match fuel with
  | O => None
  | S fuel =>
      match get_next_key lookup_key with
      | None => Some p_data
      | Some pid =>
          match lookup_elem pid with
          | None => trace_loop fuel pid p_data
          | Some ti =>
              match account ti p_data with
              | None => None
              | Some p_data => trace_loop fuel pid p_data
              end
          end
      end
  end.

Definition print_full_trace_fairness : option (list row) :=
  print_percentiles <$> trace_loop (S (length keys)) 0 (replicate (NR_PRIO * NR_BINS) 0).
End Tasks.

Definition map_mmap_sz (value_size max_entries page_size : Z) : Z := Bpf.bpf_map__mmap_sz value_size max_entries page_size.
End Fair.

(** ** Time per scheduling class *)

Module ClassTop.

Definition MAX_SCHED_CLASS : nat := 20.

(** [times] has a list of times per CPU for each class. *)
Definition cpu_times (times : list (list Z)) (c : nat) : list Z := (fun t => t !!! c) <$> times.
Definition class_total (times : list (list Z)) (nr_cpus : nat) (i : nat) : Z := sum64 (take nr_cpus (times !!! i)).
Definition cpu_total (times : list (list Z)) (c : nat) : Z := sum64 (cpu_times times c).
Definition max_time (times : list (list Z)) (nr_cpus : nat) : Z := max_of (cpu_total times <$> seq 0 nr_cpus).

(** 72 columns at most, 6 of them before the bar. *)
Definition width (columns : Z) : Z := u32 (Z.min 72 columns - 6).

(** [None]: a division by zero. *)
Definition ns_per_char (max_time width : Z) : option Z :=
  if width =? 0 then None else Some (u32 (Z.max (max_time / width) 1)).

(** How often each class has its symbol in the bar of a CPU. *)
Definition bar (times : list (list Z)) (per_char : Z) (c : nat) : list Z :=
  (fun t => u32 (t / per_char)) <$> cpu_times times c.

Record report := mk_report { bars : list (list Z); class_totals : list Z }.

Definition print_class_times (times : list (list Z)) (nr_cpus : nat) (columns : Z) : option report :=
  match ns_per_char (max_time times nr_cpus) (width columns) with
  | None => None
  | Some n =>
      if n =? 0 then None
      else Some (mk_report (bar times n <$> seq 0 nr_cpus) (class_total times nr_cpus <$> seq 0 MAX_SCHED_CLASS))
  end.
End ClassTop.

(** ** Histograms *)

Module Hist.

Definition MAX_NR_HIST_SLOTS : nat := 25.
Definition NR_HISTS : nat := 3.

(** A slot over all CPUs. *)
Definition total (hist : list (list Z)) (s : nat) : Z := sum32 ((fun h => h !!! s) <$> hist).

(** The histograms printed, given by CPU; a look-up that fails ends the tool. *)
Section Lookup.
Context (lookup_elem : nat -> option (list (list Z))).

Fixpoint hists (keys : list nat) : list (list Z) * bool :=
  match keys with
  | [] => ([], true)
  | i :: keys =>
      match lookup_elem i with
      | None => ([], false)
      | Some hist => let '(out, ok) := hists keys in ((total hist <$> seq 0 MAX_NR_HIST_SLOTS) :: out, ok)
      end
  end.

Definition print_hists : list (list Z) * bool := hists (seq 0 NR_HISTS).
End Lookup.

(** [print_hist] of [schedghostidle.c]: one look-up per slot, with the 64-bit counters of
    the CPUs; the histogram is 32 bits wide, the total 64. *)
Fixpoint idle_slots (lookups : list (option (list Z))) (tot : Z) : option (list Z * Z) :=
  match lookups with
  | [] => Some ([], tot)
  | None :: _ => None
  | Some counts :: lookups =>
      '(hist, tot) ← idle_slots lookups (foldl (fun t v => u64 (t + v)) tot counts);
      Some (sum32 counts :: hist, tot)
  end.

Definition print_hist (lookups : list (option (list Z))) : option (list Z * Z) := idle_slots lookups 0.
End Hist.

(** ** The programs *)

Module Tools.

(** The calls of a tool that matter for how it ends. *)
Inductive call := BumpRlimit | OpenObject | LoadObject | MapTable | AttachPrograms | PrintReport | DestroyObject.

(** A status, and the calls made. *)
Notation outcome := (Z * list call)%type.

Section Main.
(** Whether a call succeeds. *)
Context (succeeds : call -> bool).

(** [schedfair.c] *)
Definition schedfair_main : outcome :=
  if negb (succeeds BumpRlimit) then (-1, [BumpRlimit])
  else if negb (succeeds OpenObject) then (-1, [BumpRlimit; OpenObject])
  else if negb (succeeds LoadObject) then (-1, [BumpRlimit; OpenObject; LoadObject])
  else if negb (succeeds MapTable) then (0, [BumpRlimit; OpenObject; LoadObject; MapTable; DestroyObject])
  else if negb (succeeds AttachPrograms) then
    (0, [BumpRlimit; OpenObject; LoadObject; MapTable; AttachPrograms; DestroyObject])
  else (0, [BumpRlimit; OpenObject; LoadObject; MapTable; AttachPrograms; PrintReport; DestroyObject]).

(** [schedclasstop.c], [schedlat.c], [schedghostidle.c]: the object is opened and loaded
    in one. *)
Definition simple_main : outcome :=
  if negb (succeeds BumpRlimit) then (-1, [BumpRlimit])
  else if negb (succeeds OpenObject) then (-1, [BumpRlimit; OpenObject])
  else if negb (succeeds AttachPrograms) then (0, [BumpRlimit; OpenObject; AttachPrograms; DestroyObject])
  else (0, [BumpRlimit; OpenObject; AttachPrograms; PrintReport; DestroyObject]).

(** *** [schedrun.c] *)

(** The options as [getopt] gives them. *)
Inductive opt := OptGhost | OptPid (optarg : string) | OptOther.

(** [strtol]; [None] is an error. *)
Context (strtol : string -> option Z).

(** A status to return, or [ghost_only] and [pid]. *)
Fixpoint parse_options (opts : list opt) (ghost_only : bool) (pid : Z) : Z + bool * Z :=
  match opts with
  | [] => inr (ghost_only, pid)
  | OptGhost :: opts => parse_options opts true pid
  | OptPid optarg :: opts =>
      match strtol optarg with
      | None => inl 1
      | Some v => let pid := s32 v in if pid <=? 0 then inl 1 else parse_options opts ghost_only pid
      end
  | OptOther :: _ => inl 1
  end.

(** [attach_err] is what a failed attachment gives. *)
Definition schedrun_main (attach_err : Z) (opts : list opt) : outcome :=
  match parse_options opts false 0 with
  | inl status => (status, [])
  | inr (ghost_only, pid) =>
      if ghost_only && negb (pid =? 0) then (1, [])
      else if negb (succeeds BumpRlimit) then (1, [BumpRlimit])
      else if negb (succeeds OpenObject) then (1, [BumpRlimit; OpenObject])
      else if negb (succeeds LoadObject) then (1, [BumpRlimit; OpenObject; LoadObject])
      else if negb (succeeds AttachPrograms) then
        (- attach_err, [BumpRlimit; OpenObject; LoadObject; AttachPrograms; DestroyObject])
      else (0, [BumpRlimit; OpenObject; LoadObject; AttachPrograms; PrintReport; DestroyObject])
  end.
End Main.
End Tools.
