(* ===== verification/BpfToolsProps.v ===== *)
(** * What the tables of the tracing tools say *)

From stdpp Require Import strings.
From S2P Require Import Prelude BpfRegistry BpfTools.
#[local] Open Scope Z_scope.

Module ToolsProps.

(** ** Sums and maxima *)

Definition sumZ (l : list Z) : Z := foldr Z.add 0 l.

Lemma sumZ_app l l' : sumZ (l ++ l') = sumZ l + sumZ l'.
Proof. unfold sumZ. induction l as [|x l IH]; cbn; lia. Qed.

Lemma sumZ_nonneg l : Forall (Z.le 0) l -> 0 <= sumZ l.
Proof. unfold sumZ. induction 1; cbn; lia. Qed.

(** A sum that is reduced at every step is reduced at the end. *)
Lemma sum_mod w l t : 0 < w -> foldl (fun t v => (t + v) mod w) (t mod w) l = (t + sumZ l) mod w.
Proof.
  intros Hw. unfold sumZ. revert t. induction l as [|x l IH]; intros t; cbn; [f_equal; lia|].
  rewrite Zplus_mod_idemp_l, IH. f_equal. lia.
Qed.

Lemma sum64_mod l : sum64 l = u64 (sumZ l).
Proof. unfold sum64, u64. pose proof (sum_mod (2 ^ 64) l 0 ltac:(lia)) as H. rewrite Z.mod_0_l in H by lia. exact H. Qed.

Lemma sum32_mod l : sum32 l = u32 (sumZ l).
Proof. unfold sum32, u32. pose proof (sum_mod (2 ^ 32) l 0 ltac:(lia)) as H. rewrite Z.mod_0_l in H by lia. exact H. Qed.

Lemma max_of_spec l m : foldl (fun m v => Z.max v m) m l = Z.max m (foldr Z.max 0 l) \/ m < 0.
Proof.
  destruct (Z.lt_ge_cases m 0); [by right|left]. revert m H. induction l as [|x l IH]; intros m Hm; cbn; [lia|].
  rewrite IH by lia. lia.
Qed.

Lemma max_of_foldr l : max_of l = foldr Z.max 0 l.
Proof. unfold max_of. destruct (max_of_spec l 0) as [->|]; [|lia]. assert (0 <= foldr Z.max 0 l) by (induction l; cbn; lia). lia. Qed.

Lemma max_of_le l x : x ∈ l -> x <= max_of l.
Proof. rewrite max_of_foldr. induction 1; cbn; lia. Qed.

Lemma max_of_in l : max_of l <> 0 -> max_of l ∈ l.
Proof.
  rewrite max_of_foldr. induction l as [|x l IH]; cbn; [done|]. intros H.
  destruct (Z.max_spec x (foldr Z.max 0 l)) as [[? E]|[? E]]; rewrite E in *; [right; auto|left].
Qed.

Lemma max_of_nonneg l : 0 <= max_of l.
Proof. rewrite max_of_foldr. induction l; cbn; lia. Qed.

(** ** Rows *)

Import Fair.

Lemma scale99_spec v m : 0 <= v <= m -> 0 < m -> m * 100 < 2 ^ 64 ->
  0 <= scale99 v m <= 99 /\ (scale99 v m = 0 <-> v = 0) /\ (v = m -> scale99 v m = 99).
Proof.
  intros Hv Hm Hw. unfold scale99. rewrite u64_id by lia.
  assert (H1 : 0 <= v * 100 / m) by (apply Z.div_pos; lia).
  assert (H2 : v = m -> v * 100 / m = 100) by (intros ->; rewrite Z.mul_comm; apply Z.div_mul; lia).
  assert (H3 : v = 0 -> v * 100 / m = 0) by (intros ->; done).
  destruct (Z.eqb_spec v 0), (Z.eqb_spec (v * 100 / m) 0); cbn [negb andb]; lia.
Qed.

(** A printed row: its cells are in the range of two digits, blank exactly where there is
    nothing, and the largest is full. *)
Lemma print_row_spec p_data t prio r : Forall (fun v => 0 <= v /\ v * 100 < 2 ^ 64) p_data ->
  print_row p_data t prio = Some r ->
  let p := row_data p_data prio in
  r_prio r = prio /\ r_density r = (r_total r, t) /\ r_max r = max_of p /\ r_total r = u64 (sumZ p) /\
  Forall2 (fun v c => 0 <= c <= 99 /\ (c = 0 <-> v = 0) /\ (v = r_max r -> c = 99)) p (r_cells r) /\ 99 ∈ r_cells r.
Proof.
  intros Hp Hr p. unfold print_row in Hr. fold p in Hr. destruct (Z.eqb_spec (max_of p) 0) as [|Hm]; [done|].
  injection Hr as <-. cbn. rewrite <- sum64_mod.
  assert (Hpv : Forall (fun v => 0 <= v /\ v * 100 < 2 ^ 64) p) by (by apply Forall_take, Forall_drop).
  rewrite Forall_forall in Hpv. pose proof (max_of_nonneg p). pose proof (max_of_in p Hm) as Hin.
  assert (Hscale : forall v, v ∈ p -> 0 <= scale99 v (max_of p) <= 99 /\ (scale99 v (max_of p) = 0 <-> v = 0) /\
    (v = max_of p -> scale99 v (max_of p) = 99)).
  { intros v Hv. apply scale99_spec; [split; [by apply Hpv|by apply max_of_le]|lia|by apply Hpv]. }
  split_and!; try done; [apply Forall2_fmap_r, Forall_Forall2_diag, Forall_forall; exact Hscale|].
  apply list_elem_of_fmap. exists (max_of p). split; [symmetry; by apply Hscale|done].
Qed.

(** ** The table of the full trace *)

(** The bin of a task, if it has run and had a share. *)
Definition bin (ti : task_info) : option nat :=
  if (total_cpu_runtime ti =? 0) || (total_cpu_share ti =? 0) then None
  else Some (Z.to_nat (user_prio ti * 20 + fairness ti)).

Definition task_ok (ti : task_info) : Prop := 0 <= user_prio ti < 40 /\ 0 <= total_cpu_runtime ti /\ 0 <= total_cpu_share ti.

(** The bins are those announced: tenths of the fair share, the last for all above. *)
Lemma fairness_bin ti b : 0 <= total_cpu_runtime ti -> 0 < total_cpu_share ti -> 10 * total_cpu_runtime ti < 2 ^ 64 -> 0 <= b < 19 ->
  fairness ti = b <-> b * total_cpu_share ti <= 10 * total_cpu_runtime ti < (b + 1) * total_cpu_share ti.
Proof.
  intros Hr Hs Hw Hb. unfold fairness. rewrite u64_id by lia. set (q := _ / _).
  assert (Hq : total_cpu_share ti * q <= 10 * total_cpu_runtime ti < total_cpu_share ti * Z.succ q)
    by (split; [by apply Z.mul_div_le|by apply Z.mul_succ_div_gt]).
  split; [intros E; assert (q = b) by lia; nia|intros H; assert (q = b) by nia; lia].
Qed.

Lemma fairness_range ti : task_ok ti -> 0 <= fairness ti <= 19.
Proof.
  intros (_ & Hr & Hs). unfold fairness. pose proof (u64_range (10 * total_cpu_runtime ti)).
  assert (0 <= u64 (10 * total_cpu_runtime ti) / total_cpu_share ti)
    by (destruct (Z.eq_dec (total_cpu_share ti) 0) as [->|]; [by rewrite Zdiv_0_r|apply Z.div_pos; lia]). lia.
Qed.

Section Trace.
Context (keys : list Z) (lookup_elem : Z -> option task_info).

(** How many of the tasks are in a bin. *)
Definition in_bin (i : nat) (pid : Z) : Prop := lookup_elem pid ≫= bin = Some i.
#[local] Instance in_bin_dec i pid : Decision (in_bin i pid). Proof. unfold in_bin. apply _. Defined.
Definition tasks_in (i : nat) (l : list Z) : Z := Z.of_nat (length (filter (in_bin i) l)).

(** The reference: every task once. *)
Definition account_all (l : list Z) (p_data : list Z) : option (list Z) :=
  foldl (fun acc pid => p ← acc; match lookup_elem pid with None => Some p | Some ti => account ti p end) (Some p_data) l.

Lemma account_all_none l : foldl (fun acc pid => p ← acc; match lookup_elem pid with None => Some p | Some ti => account ti p end) None l = None.
Proof. by induction l. Qed.

Lemma key_after_split k l1 l2 : NoDup (l1 ++ k :: l2) -> key_after k (l1 ++ k :: l2) = Some (head l2).
Proof.
  induction l1 as [|x l1 IH]; cbn; [by rewrite Z.eqb_refl|]. intros [Hx Hn]%NoDup_cons.
  rewrite (proj2 (Z.eqb_neq x k)) by set_solver. by apply IH.
Qed.

Lemma key_after_none k l : k ∉ l -> key_after k l = None.
Proof. induction l as [|x l IH]; cbn; [done|]. intros Hk. rewrite (proj2 (Z.eqb_neq x k)) by set_solver. apply IH. set_solver. Qed.

(** What is left of the iteration after a key; all if it is no key. *)
Definition rest_after (k : Z) (l : list Z) : Prop := (exists l1, keys = l1 ++ k :: l) \/ keys = l /\ k ∉ keys.

Lemma next_key k l : rest_after k l -> NoDup keys -> get_next_key keys k = head l.
Proof.
  intros [[l1 ->]|[-> Hk]] Hn; unfold get_next_key; [by rewrite key_after_split|by rewrite key_after_none].
Qed.

Lemma rest_after_next k x l : rest_after k (x :: l) -> rest_after x l.
Proof. intros [[l1 ->]|[-> _]]; left; [exists (l1 ++ [k]); by rewrite <- app_assoc|by exists []]. Qed.

Lemma trace_loop_rest fuel l k p_data : rest_after k l -> NoDup keys -> (length l < fuel)%nat ->
  trace_loop keys lookup_elem fuel k p_data = account_all l p_data.
Proof.
  revert fuel k p_data. induction l as [|x l IH]; intros [|fuel] k p_data Hk Hn Hf; cbn in Hf; try lia;
    cbn [trace_loop]; rewrite (next_key k _ Hk Hn); cbn [head]; [done|].
  apply rest_after_next in Hk. unfold account_all. cbn. destruct (lookup_elem x) as [ti|]; [|apply IH; [done|done|lia]].
  destruct (account ti p_data) as [p'|]; [apply IH; [done|done|lia]|by rewrite account_all_none].
Qed.

(** The table after the tasks [l]. *)
Definition counted (l p_data : list Z) : Prop :=
  length p_data = (NR_PRIO * NR_BINS)%nat /\ forall i, (i < NR_PRIO * NR_BINS)%nat -> p_data !! i = Some (tasks_in i l).

Lemma tasks_in_snoc i l pid : tasks_in i (l ++ [pid]) = tasks_in i l + (if decide (in_bin i pid) then 1 else 0).
Proof. unfold tasks_in. rewrite filter_app, length_app, filter_cons. cbn. destruct (decide _); cbn; lia. Qed.

Lemma tasks_in_le i l : 0 <= tasks_in i l <= Z.of_nat (length l).
Proof. unfold tasks_in. pose proof (length_filter (in_bin i) l). lia. Qed.

Lemma account_counted l pid ti p_data : lookup_elem pid = Some ti -> task_ok ti -> Z.of_nat (length l) < 2 ^ 64 - 1 ->
  counted l p_data -> exists p', account ti p_data = Some p' /\ counted (l ++ [pid]) p'.
Proof.
  intros Hl Hok Hn [Hlen Hc]. pose proof (fairness_range ti Hok) as Hf. unfold account.
  assert (Hbin : forall i, in_bin i pid <-> bin ti = Some i) by (intros i; unfold in_bin; by rewrite Hl).
  unfold bin in Hbin. destruct (_ || _).
  - exists p_data. split; [done|]. split; [done|]. intros i Hi. rewrite tasks_in_snoc, Hc by done.
    rewrite decide_False by (rewrite Hbin; done). f_equal. lia.
  - destruct Hok as (Hp & _). set (z := user_prio ti * 20 + fairness ti) in *. assert (Hz : 0 <= z < 800) by lia.
    rewrite Hlen. cbn. rewrite (proj2 (Z.leb_le 0 z)), (proj2 (Z.ltb_lt z _)) by (cbn; lia). cbn.
    eexists. split; [done|]. split; [by rewrite length_alter|]. intros i Hi. rewrite tasks_in_snoc. pose proof (tasks_in_le i l).
    destruct (decide (in_bin i pid)) as [Hb|Hb]; rewrite Hbin in Hb.
    + injection Hb as Hb. rewrite Hb, list_lookup_alter_eq, Hc by done. cbn. f_equal. apply u64_id. lia.
    + rewrite list_lookup_alter_ne by congruence. rewrite Hc by done. f_equal. lia.
Qed.

Lemma account_all_counted l : (forall pid ti, pid ∈ l -> lookup_elem pid = Some ti -> task_ok ti) -> Z.of_nat (length l) < 2 ^ 64 ->
  exists p_data, account_all l (replicate (NR_PRIO * NR_BINS) 0) = Some p_data /\ counted l p_data.
Proof.
  intros Hok Hn. induction l as [|pid l IH] using rev_ind.
  - eexists. split; [done|]. split; [by rewrite length_replicate|]. intros i Hi. by rewrite lookup_replicate_2.
  - rewrite length_app in Hn. cbn in Hn. destruct IH as (p_data & Ha & Hc); [intros x ti Hx; apply Hok; set_solver|lia|].
    unfold account_all in *. rewrite foldl_snoc, Ha. cbn. destruct (lookup_elem pid) as [ti|] eqn:Hl.
    + apply (account_counted l); [done|apply (Hok pid); [set_solver|done]|lia|done].
    + exists p_data. split; [done|]. destruct Hc as [Hlen Hc]. split; [done|]. intros i Hi. rewrite tasks_in_snoc, Hc by done.
      rewrite decide_False by (unfold in_bin; by rewrite Hl). f_equal. lia.
Qed.

(** How many tasks of a priority have run and had a share. *)
Definition of_prio (prio : nat) (pid : Z) : Prop :=
  match lookup_elem pid with Some ti => bin ti <> None /\ user_prio ti = Z.of_nat prio | None => False end.
#[local] Instance of_prio_dec prio pid : Decision (of_prio prio pid).
Proof. unfold of_prio. destruct (lookup_elem pid); apply _. Defined.
Definition tasks_of (prio : nat) (l : list Z) : Z := Z.of_nat (length (filter (of_prio prio) l)).

Lemma tasks_of_snoc prio l pid : tasks_of prio (l ++ [pid]) = tasks_of prio l + (if decide (of_prio prio pid) then 1 else 0).
Proof. unfold tasks_of. rewrite filter_app, length_app, filter_cons. cbn. destruct (decide _); cbn; lia. Qed.

Lemma sum_indicator {A} (f g : A -> Z) l : sumZ ((fun b => f b + g b) <$> l) = sumZ (f <$> l) + sumZ (g <$> l).
Proof. unfold sumZ. induction l as [|x l IH]; cbn in *; lia. Qed.

(** One bin at most is hit. *)
Lemma sum_one_bin (o : option nat) c n :
  sumZ ((fun b => if decide (o = Some (c + b)%nat) then 1 else 0) <$> seq 0 n) =
  match o with Some k => if decide (c <= k < c + n)%nat then 1 else 0 | None => 0 end.
Proof.
  induction n as [|n IH]; [destruct o as [k|]; [rewrite decide_False by lia|]; done|].
  rewrite seq_S, fmap_app, sumZ_app, IH. cbn. destruct o as [k|]; [|done].
  destruct (decide (Some k = Some (c + n)%nat)) as [[= ->]|Hne].
  - rewrite decide_False, decide_True by lia. done.
  - assert (k <> c + n)%nat by congruence. destruct (decide (c <= k < c + n)%nat); [rewrite decide_True by lia|rewrite decide_False by lia]; done.
Qed.

(** The bins of a row add up to its tasks. *)
Lemma row_adds_up prio l : (forall pid ti, pid ∈ l -> lookup_elem pid = Some ti -> task_ok ti) ->
  sumZ ((fun b => tasks_in (prio * NR_BINS + b) l) <$> seq 0 NR_BINS) = tasks_of prio l.
Proof.
  intros Hok. induction l as [|pid l IH] using rev_ind; [done|]. rewrite tasks_of_snoc, <- IH by (intros x ti Hx; apply Hok; set_solver).
  rewrite (list_fmap_ext _ (fun b => tasks_in (prio * NR_BINS + b) l + (if decide (lookup_elem pid ≫= bin = Some (prio * NR_BINS + b)%nat) then 1 else 0)))
    by (intros; by rewrite tasks_in_snoc).
  rewrite sum_indicator, sum_one_bin. f_equal. destruct (decide (of_prio prio pid)) as [H|H]; unfold of_prio in H;
    (destruct (lookup_elem pid) as [ti|] eqn:El; [|done]); cbn;
    (assert (Ht : task_ok ti) by (apply (Hok pid); [set_solver|done])); pose proof (fairness_range ti Ht) as Hf; destruct Ht as (Hp & _);
    unfold bin in *; (destruct (_ || _); [naive_solver|]); unfold NR_BINS.
  - destruct H as [_ H]. rewrite decide_True by lia. done.
  - rewrite decide_False; [done|]. intros Hk. apply H. split; [done|]. lia.
Qed.

Lemma counted_row p_data prio : counted keys p_data -> (prio < NR_PRIO)%nat ->
  row_data p_data prio = (fun b => tasks_in (prio * NR_BINS + b) keys) <$> seq 0 NR_BINS.
Proof.
  intros [Hlen Hc] Hp. unfold row_data, NR_PRIO, NR_BINS in *. apply list_eq. intros i. destruct (decide (i < 20)%nat) as [Hi|Hi].
  - rewrite lookup_take_lt, lookup_drop, Hc by lia. rewrite list_lookup_fmap, lookup_seq_lt by lia. done.
  - rewrite lookup_take_ge by lia. rewrite list_lookup_fmap, lookup_seq_ge by lia. done.
Qed.

Lemma take_rows (l : list Z) n : take (n * NR_BINS) l = mjoin (row_data l <$> seq 0 n).
Proof.
  induction n as [|n IH]; [done|]. rewrite seq_S, fmap_app, join_app, <- IH. cbn. rewrite app_nil_r. unfold row_data.
  rewrite take_take_drop. f_equal. unfold NR_BINS. lia.
Qed.

Lemma sumZ_mjoin (ls : list (list Z)) : sumZ (mjoin ls) = sumZ (sumZ <$> ls).
Proof. induction ls as [|l ls IH]; [done|]. change (mjoin (l :: ls)) with (l ++ mjoin ls). rewrite sumZ_app, IH. done. Qed.

Lemma max_sum_zero l : Forall (Z.le 0) l -> max_of l = 0 <-> sumZ l = 0.
Proof.
  intros Hl. rewrite max_of_foldr. unfold sumZ. induction Hl as [|x l Hx Hl IH]; cbn; [done|].
  assert (0 <= foldr Z.max 0 l) by (clear; induction l; cbn; lia). pose proof (sumZ_nonneg l Hl). unfold sumZ in *. lia.
Qed.

(** Rows without tasks add nothing. *)
Lemma omap_rows (f : nat -> option row) (g : nat -> Z) l :
  (forall x, x ∈ l -> match f x with Some r => r_prio r = x /\ r_total r = g x /\ g x <> 0 | None => g x = 0 end) ->
  r_prio <$> omap f l = filter (fun x => g x <> 0) l /\ sumZ (r_total <$> omap f l) = sumZ (g <$> l).
Proof.
  induction l as [|x l IH]; intros H; [done|]. destruct IH as [IH1 IH2]; [intros; apply H; set_solver|].
  specialize (H x ltac:(set_solver)). unfold sumZ in *. cbn. destruct (f x) as [r|]; cbn.
  - destruct H as (H1 & H2 & H3). rewrite decide_True by done. rewrite IH1, IH2, H1, H2. done.
  - rewrite decide_False by naive_solver. rewrite IH1, IH2, H. done.
Qed.

Lemma tasks_of_le prio l : 0 <= tasks_of prio l <= Z.of_nat (length l).
Proof. unfold tasks_of. pose proof (length_filter (of_prio prio) l). lia. Qed.

Lemma sumZ_le {A} (f : A -> Z) n l : (forall x, f x <= n) -> sumZ (f <$> l) <= Z.of_nat (length l) * n.
Proof. intros H. unfold sumZ. induction l as [|x l IH]; cbn in *; [lia|]. specialize (H x). lia. Qed.

Section Counted.
Context (p_data : list Z) (Hc : counted keys p_data) (Hlen : Z.of_nat (length keys) <= 102400).
Context (Hok : forall pid ti, pid ∈ keys -> lookup_elem pid = Some ti -> task_ok ti).

Lemma counted_small : Forall (fun v => 0 <= v /\ v * 100 < 2 ^ 64) p_data.
Proof.
  apply Forall_lookup. intros i v Hv. destruct Hc as [Hl Hi]. pose proof (lookup_lt_Some _ _ _ Hv). rewrite Hi in Hv by lia.
  injection Hv as <-. pose proof (tasks_in_le i keys). lia.
Qed.

Lemma counted_total : sum64 (take (NR_PRIO * NR_BINS) p_data) = sumZ ((fun prio => tasks_of prio keys) <$> seq 0 NR_PRIO).
Proof.
  rewrite sum64_mod, take_rows, sumZ_mjoin, <- list_fmap_compose. rewrite (list_fmap_ext _ (fun prio => tasks_of prio keys)).
  2:{ intros i x [-> Hi]%lookup_seq. unfold compose. rewrite Nat.add_0_l, (counted_row p_data) by done. by apply row_adds_up. }
  apply u64_id. split; [apply sumZ_nonneg, Forall_fmap, Forall_forall; intros x _; apply tasks_of_le|].
  pose proof (sumZ_le (fun prio => tasks_of prio keys) 102400 (seq 0 NR_PRIO)) as Hs. rewrite length_seq in Hs.
  eapply Z.le_lt_trans; [apply Hs; intros x; pose proof (tasks_of_le x keys); lia|done].
Qed.

Lemma counted_print_row T prio : (prio < NR_PRIO)%nat ->
  match print_row p_data T prio with
  | Some r => (r_prio r = prio /\ r_total r = tasks_of prio keys /\ tasks_of prio keys <> 0) /\
      r_density r = (r_total r, T) /\ 99 ∈ r_cells r /\
      Forall2 (fun b c => 0 <= c <= 99 /\ (c = 0 <-> tasks_in (prio * NR_BINS + b) keys = 0)) (seq 0 NR_BINS) (r_cells r)
  | None => tasks_of prio keys = 0
  end.
Proof.
  intros Hp. pose proof (row_adds_up prio keys Hok) as Hsum. rewrite <- (counted_row p_data prio Hc Hp) in Hsum.
  assert (Hpos : Forall (Z.le 0) (row_data p_data prio)).
  { apply Forall_take, Forall_drop. eapply Forall_impl; [apply counted_small|]. by intros v []. }
  pose proof (max_sum_zero _ Hpos) as Hz. rewrite Hsum in Hz. destruct (print_row p_data T prio) as [r|] eqn:Er.
  - assert (Hm : max_of (row_data p_data prio) <> 0) by (unfold print_row in Er; by destruct (Z.eqb_spec (max_of (row_data p_data prio)) 0)).
    destruct (print_row_spec _ _ _ _ counted_small Er) as (H1 & H2 & _ & H4 & H5 & H6). pose proof (tasks_of_le prio keys).
    rewrite Hsum, u64_id in H4 by lia. split_and!; try done; [tauto|]. rewrite (counted_row p_data prio Hc Hp) in H5.
    apply Forall2_fmap_l in H5. eapply Forall2_impl; [exact H5|]. cbn. naive_solver.
  - unfold print_row in Er. destruct (Z.eqb_spec (max_of (row_data p_data prio)) 0); [tauto|done].
Qed.
End Counted.

End Trace.

(** ** Time per scheduling class *)

Import ClassTop.

Lemma sum_div n l : 0 < n -> Forall (Z.le 0) l -> sumZ ((fun t => t / n) <$> l) * n <= sumZ l.
Proof.
  intros Hn Hl. unfold sumZ. induction Hl as [|t l Ht Hl IH]; cbn in *; [lia|].
  pose proof (Z.mul_div_le t n Hn). lia.
Qed.

Lemma list_by_index (l : list Z) : l = (fun c => l !!! c) <$> seq 0 (length l).
Proof.
  apply list_eq. intros i. rewrite list_lookup_fmap. destruct (decide (i < length l)%nat) as [Hi|Hi].
  - rewrite lookup_seq_lt by done. cbn. by rewrite list_lookup_lookup_total_lt.
  - rewrite lookup_seq_ge, lookup_ge_None_2 by lia. done.
Qed.

(** Rows and columns have the same sum. *)
Lemma sum_exchange (times : list (list Z)) n : Forall (fun t => length t = n) times ->
  sumZ (sumZ <$> times) = sumZ ((fun c => sumZ (cpu_times times c)) <$> seq 0 n).
Proof.
  induction 1 as [|t times Ht _ IH].
  - unfold cpu_times. cbn. induction (seq 0 n); cbn; [done|]. unfold sumZ in *. cbn in *. lia.
  - change (sumZ (sumZ <$> t :: times)) with (sumZ t + sumZ (sumZ <$> times)). rewrite IH.
    change (fun c => sumZ (cpu_times (t :: times) c)) with (fun c => (t !!! c) + sumZ (cpu_times times c)).
    rewrite sum_indicator, <- Ht, <- (list_by_index t). done.
Qed.

Lemma sumZ_elem l x : Forall (Z.le 0) l -> x ∈ l -> x <= sumZ l.
Proof.
  intros Hl. unfold sumZ. induction Hl as [|y l Hy Hl IH]; [set_solver|]. pose proof (sumZ_nonneg l Hl) as Hs. unfold sumZ in Hs. cbn.
  intros [->|Hx]%elem_of_cons; [lia|]. specialize (IH Hx). lia.
Qed.

Section Times.
Context (times : list (list Z)) (nr_cpus : nat).
Context (Hcpus : Forall (fun t => length t = nr_cpus) times).
Context (Hpos : Forall (Forall (Z.le 0)) times).
Context (Hsum : sumZ (sumZ <$> times) < 2 ^ 64).

Lemma cpu_times_pos c : (c < nr_cpus)%nat -> Forall (Z.le 0) (cpu_times times c).
Proof.
  intros Hc. unfold cpu_times. apply Forall_fmap, Forall_forall. intros t Ht. rewrite Forall_forall in Hcpus, Hpos.
  specialize (Hcpus t Ht). specialize (Hpos t Ht). rewrite Forall_forall in Hpos. apply Hpos.
  apply list_elem_of_lookup_2 with c. apply list_lookup_lookup_total_lt. lia.
Qed.

Lemma cpu_sums_pos : Forall (Z.le 0) ((fun c => sumZ (cpu_times times c)) <$> seq 0 nr_cpus).
Proof. apply Forall_fmap, Forall_forall. intros c Hc%elem_of_seq. apply sumZ_nonneg, cpu_times_pos. lia. Qed.

Lemma cpu_total_exact c : (c < nr_cpus)%nat -> cpu_total times c = sumZ (cpu_times times c).
Proof.
  intros Hc. unfold cpu_total. rewrite sum64_mod. apply u64_id. split; [apply sumZ_nonneg, cpu_times_pos; done|].
  eapply Z.le_lt_trans; [|exact Hsum]. rewrite (sum_exchange _ _ Hcpus). apply sumZ_elem; [apply cpu_sums_pos|].
  apply list_elem_of_fmap. exists c. split; [done|]. apply elem_of_seq. lia.
Qed.

Lemma class_total_exact i t : times !! i = Some t -> class_total times nr_cpus i = sumZ t.
Proof.
  intros Ht. unfold class_total. rewrite (list_lookup_total_correct _ _ _ Ht). pose proof (list_elem_of_lookup_2 _ _ _ Ht) as Hin.
  rewrite Forall_forall in Hcpus, Hpos. rewrite take_ge by (rewrite (Hcpus t Hin); lia). rewrite sum64_mod. apply u64_id.
  split; [apply sumZ_nonneg, Hpos, Hin|]. eapply Z.le_lt_trans; [|exact Hsum]. apply sumZ_elem.
  - apply Forall_fmap, Forall_forall. intros x Hx. by apply sumZ_nonneg, Hpos.
  - apply list_elem_of_fmap. by exists t.
Qed.

Lemma max_time_bounds c : (c < nr_cpus)%nat -> sumZ (cpu_times times c) <= max_time times nr_cpus.
Proof.
  intros Hc. rewrite <- cpu_total_exact by done. apply max_of_le, list_elem_of_fmap. exists c. split; [done|]. apply elem_of_seq. lia.
Qed.
End Times.

(** The scale is right within a character. *)
Lemma scale_bounds m w : 0 <= m -> 0 < w -> let n := Z.max (m / w) 1 in
  m / n <= 2 * w - 1 /\ (w * w <= m -> m / n <= w).
Proof.
  intros Hm Hw n. pose proof (Z.div_mod m w ltac:(lia)) as E. pose proof (Z.mod_pos_bound m w Hw).
  assert (0 <= m / w) by (apply Z.div_pos; lia). assert (Hn : 0 < n) by (unfold n; lia). split.
  - apply Z.lt_succ_r, Z.div_lt_upper_bound; [done|]. unfold n. nia.
  - intros Hww. assert (w <= m / w) by (apply Z.div_le_lower_bound; lia). apply Z.lt_succ_r, Z.div_lt_upper_bound; [done|]. unfold n. nia.
Qed.

(** C40: the report of the time per class.  On a terminal of 7 columns or more, and while
    the time per character fits 32 bits, there is a bar for every CPU, at most twice as
    long as the width and no longer than it once the times are larger than its square;
    the totals of the classes are exact and add up to those of the CPUs. *)
Theorem class_times_report times nr_cpus columns :
  length times = MAX_SCHED_CLASS -> Forall (fun t => length t = nr_cpus) times -> Forall (Forall (Z.le 0)) times ->
  sumZ (sumZ <$> times) < 2 ^ 64 -> 7 <= columns -> max_time times nr_cpus / width columns < 2 ^ 32 ->
  exists r, print_class_times times nr_cpus columns = Some r /\ length (bars r) = nr_cpus /\
    Forall (fun b => length b = MAX_SCHED_CLASS /\ sumZ b <= 2 * width columns - 1 /\
      (width columns * width columns <= max_time times nr_cpus -> sumZ b <= width columns)) (bars r) /\
    class_totals r = sumZ <$> times /\ sumZ (class_totals r) = sumZ (cpu_total times <$> seq 0 nr_cpus).
Proof.
  intros Hclasses Hcpus Hpos Hsum Hcol Hfit. set (w := width columns) in *. set (m := max_time times nr_cpus) in *.
  assert (Hw : 0 < w <= 66) by (unfold w, width; rewrite u32_id by lia; lia). assert (Hm : 0 <= m) by apply max_of_nonneg.
  assert (Hq : 0 <= m / w) by (apply Z.div_pos; lia). destruct (scale_bounds m w Hm ltac:(lia)) as [Hb1 Hb2].
  unfold print_class_times, ns_per_char. fold w m. rewrite (proj2 (Z.eqb_neq w 0)), u32_id by lia. set (n := Z.max (m / w) 1) in *.
  rewrite (proj2 (Z.eqb_neq n 0)) by lia. eexists. split; [done|]. cbn [bars class_totals].
  assert (Htot : class_total times nr_cpus <$> seq 0 MAX_SCHED_CLASS = sumZ <$> times).
  { apply list_eq. intros i. rewrite !list_lookup_fmap. rewrite <- Hclasses. destruct (times !! i) as [t|] eqn:Et; cbn.
    - rewrite lookup_seq_lt by (by eapply lookup_lt_Some). cbn. f_equal. by apply class_total_exact.
    - apply lookup_ge_None in Et. by rewrite lookup_seq_ge by lia. }
  rewrite Htot. split_and!; [by rewrite length_fmap, length_seq| |done|].
  - apply Forall_fmap, Forall_forall. intros c [_ Hc]%elem_of_seq. cbn in Hc. unfold compose, bar.
    split; [by rewrite length_fmap; unfold cpu_times; rewrite length_fmap|].
    pose proof (cpu_times_pos times nr_cpus Hcpus Hpos c Hc) as Hcp.
    pose proof (max_time_bounds times nr_cpus Hcpus Hpos Hsum c Hc) as Hmax. fold m in Hmax.
    rewrite (list_fmap_ext _ (fun t => t / n)).
    2:{ intros i t Ht. apply list_elem_of_lookup_2 in Ht. pose proof (sumZ_elem _ _ Hcp Ht). rewrite Forall_forall in Hcp. specialize (Hcp t Ht).
        assert (0 <= t / n <= m / n) by (split; [apply Z.div_pos; lia|apply Z.div_le_mono; lia]). apply u32_id. lia. }
    pose proof (sum_div n _ ltac:(lia) Hcp) as Hs. assert (sumZ ((fun t => t / n) <$> cpu_times times c) <= m / n)
      by (apply Z.div_le_lower_bound; lia). lia.
  - rewrite (sum_exchange _ _ Hcpus). f_equal. apply list_fmap_ext. intros i c [-> Hc]%lookup_seq. symmetry. by apply (cpu_total_exact times nr_cpus).
Qed.

(** One CPU that ran only one class for [t] ns. *)
Definition one_cpu (t : Z) : list (list Z) := [t] :: replicate 19 [0].

Lemma class_times_report_witness :
  max_time (one_cpu 1000000) 1 / width 80 < 2 ^ 32 /\
  exists r, print_class_times (one_cpu 1000000) 1 80 = Some r /\ Forall (fun b => sumZ b <= 66) (bars r).
Proof.
  split; [vm_compute; reflexivity|].
  destruct (class_times_report (one_cpu 1000000) 1 80) as (r & Hr & _ & Hb & _);
    [reflexivity|repeat constructor|repeat (constructor; try lia)|vm_compute; reflexivity|lia|vm_compute; reflexivity|].
  exists r. split; [exact Hr|]. eapply Forall_impl; [exact Hb|]. intros b (_ & _ & H). apply H. vm_compute. discriminate.
Defined.

(** A trace of 284 seconds ends the tool by a division by zero, as does a terminal of six
    columns; after a little more than that a bar has millions of characters. *)
Example class_times_long_trace : print_class_times (one_cpu (66 * 2 ^ 32)) 1 80 = None.
Proof. vm_compute. reflexivity. Qed.

Example class_times_six_columns : print_class_times (one_cpu 1000000) 1 6 = None.
Proof. vm_compute. reflexivity. Qed.

Example class_times_long_bar :
  (bars <$> print_class_times (one_cpu (66 * 2 ^ 32 + 66 * 100)) 1 80) = Some [2834678481 :: replicate 19 0].
Proof. vm_compute. reflexivity. Qed.

(** Four tasks, one of which has gone. *)
Definition demo_tasks (pid : Z) : option task_info :=
  if pid =? 7 then Some (mk_ti 20 1000 1000)
  else if pid =? 9 then Some (mk_ti 20 450 1000)
  else if pid =? 12 then Some (mk_ti 0 5000 1000) else None.


(** ** Histograms *)

Lemma hist_total_exact hist s :
  Forall (fun h => 0 <= h !!! s) hist -> sumZ ((fun h => h !!! s) <$> hist) < 2 ^ 32 ->
  Hist.total hist s = sumZ ((fun h => h !!! s) <$> hist).
Proof.
  intros Hp Hs. unfold Hist.total. rewrite sum32_mod. apply u32_id. split; [|done]. by apply sumZ_nonneg, Forall_fmap.
Qed.

Lemma idle_slots_spec lookups tot hist t : Hist.idle_slots lookups tot = Some (hist, t) -> tot = u64 tot ->
  exists counts, lookups = Some <$> counts /\ hist = (fun c => u32 (sumZ c)) <$> counts /\ t = u64 (tot + sumZ (sumZ <$> counts)).
Proof.
  revert tot hist t. induction lookups as [|[c|] lookups IH]; intros tot hist t; cbn; [|..|done].
  - intros [= <- <-] Ht. exists []. split_and!; [done|done|]. cbn. by rewrite Z.add_0_r.
  - destruct (Hist.idle_slots lookups _) as [[hist' t']|] eqn:E; [|done]. cbn. intros [= <- <-] Ht.
    assert (Hc : foldl (fun t v => u64 (t + v)) tot c = u64 (tot + sumZ c)) by (rewrite Ht at 1; apply (sum_mod (2 ^ 64)); lia).
    rewrite Hc in E. destruct (IH _ _ _ E) as (counts & -> & -> & ->).
    { unfold u64. by rewrite Z.mod_mod by lia. }
    exists (c :: counts). split_and!; [done|cbn; by rewrite sum32_mod|]. unfold u64. rewrite Zplus_mod_idemp_l. f_equal.
    change (sumZ (sumZ <$> c :: counts)) with (sumZ c + sumZ (sumZ <$> counts)). lia.
Qed.

(** The slots and the total of [schedghostidle] agree as long as no slot overflows. *)
Lemma idle_hist_total lookups hist t : Hist.print_hist lookups = Some (hist, t) ->
  Forall (fun o => forall c, o = Some c -> 0 <= sumZ c < 2 ^ 32) lookups -> t = u64 (sumZ hist).
Proof.
  intros H Hs. destruct (idle_slots_spec _ _ _ _ H eq_refl) as (counts & -> & -> & ->). rewrite Z.add_0_l. do 2 f_equal. apply list_fmap_ext.
  intros i c Hc. symmetry. apply u32_id. rewrite Forall_fmap, Forall_forall in Hs. apply (Hs c); [by eapply list_elem_of_lookup_2|done].
Qed.

(** ** The programs *)

Import Tools.

(** The report is printed if every call succeeds, and an object that was loaded is
    destroyed on every way out; all tools but [schedrun] return 0 when the programs could
    not be attached. *)
Lemma tools_end succeeds attach_err opts strtol :
  Forall (fun o => (PrintReport ∈ snd o -> fst o = 0 /\ forall c, c ∈ snd o -> c <> DestroyObject -> c <> PrintReport -> succeeds c = true) /\
      (AttachPrograms ∈ snd o -> last (snd o) = Some DestroyObject))
    [schedfair_main succeeds; simple_main succeeds; schedrun_main succeeds strtol attach_err opts] /\
  (succeeds AttachPrograms = false -> succeeds BumpRlimit = true -> succeeds OpenObject = true -> succeeds LoadObject = true ->
   succeeds MapTable = true -> fst (schedfair_main succeeds) = 0 /\ fst (simple_main succeeds) = 0).
Proof.
  split.
  - unfold schedfair_main, simple_main, schedrun_main. destruct (parse_options strtol opts false 0) as [st|[g pid]]; [|destruct (g && _)];
      destruct (succeeds BumpRlimit) eqn:?, (succeeds OpenObject) eqn:?, (succeeds LoadObject) eqn:?, (succeeds MapTable) eqn:?, (succeeds AttachPrograms) eqn:?;
      cbn; repeat constructor; cbn; try set_solver.
  - unfold schedfair_main, simple_main. by intros -> -> -> -> ->.
Qed.

(** A process identifier is cut to 32 bits before it is checked. *)
Example schedrun_pid_wraps (strtol : string -> option Z) :
  strtol "4294967297" = Some 4294967297 -> parse_options strtol [OptPid "4294967297"] false 0 = inr (false, 1).
Proof. intros H. cbn. by rewrite H. Qed.
End ToolsProps.
