(* ===== verification/EnclaveSetup.v ===== *)
(** * Creating and attaching to an enclave

    [LocalEnclave] of [src/lib/enclave.h], [src/lib/enclave.cc]: the files of an enclave in
    the ghOSt file system, its construction and destruction, the hand-over from an old
    agent; and [LocalStatusWordTable] of [src/lib/ghost.cc].  The programs are interaction
    trees over the calls they make; a failed [CHECK] ends them with [None]. *)

From Stdlib Require Import Ascii.
From stdpp Require Import strings pretty.
From S2P Require Import Prelude CpuMap Topology.
From ITree Require Import ITree.
From S2P Require Import Interaction.
#[local] Open Scope itree_scope.
#[local] Open Scope Z_scope.

(** ** Calls *)

(** [Fstat] gives the size of a file; [MmapData] the address of the CPU data and the CPU
    number in each of its transactions; [MmapTable] the address of a status word region and
    its header (capacity, identifier, node); [ListDir] the names an iteration over a
    directory meets before its end or an error; [Getmntent] the directory and the type of a
    mount; the streams give their next line or the text that is left.  The registry of BPF
    programs is called as a whole. *)
Variant fsE : Type -> Type :=
  | Open (path : string) : fsE Z
  | OpenAt (dir : Z) (path : string) : fsE Z
  | Lseek (fd : Z) : fsE unit
  | Read (fd n : Z) : fsE (Z * list ascii)
  | Write (fd : Z) (data : list ascii) : fsE (Z * Z)
  | Close (fd : Z) : fsE Z
  | EpollCreate : fsE Z
  | EpollAdd (ep fd : Z) : fsE Z
  | EpollWait (ep : Z) : fsE (Z * Z)
  | Fstat (fd : Z) : fsE (option Z)
  | MmapData (fd size : Z) : fsE (option (Z * list Z))
  | MmapTable (fd size : Z) : fsE (option (Z * (Z * Z * Z)))
  | Munmap (addr : Z) : fsE Z
  | Sleep : fsE unit
  | ListDir (path : string) : fsE (list string)
  | Setmntent : fsE (option Z)
  | Getmntent (st : Z) : fsE (option (string * string))
  | Endmntent (st : Z) : fsE unit
  | MountGhost : fsE (Z * Z)
  | StreamOpen (path : string) : fsE (option Z)
  | StreamLine (st : Z) : fsE (option (list ascii))
  | StreamText (st : Z) : fsE (list ascii)
  | StreamClose (st : Z) : fsE unit
  | Getscheduler : fsE Z
  | Getaffinity : fsE (option (gset Z))
  | Getcpu : fsE Z
  | BpfInit : fsE Z
  | BpfDestroy : fsE unit.

Definition EINTR : Z := 4.
Definition EBUSY : Z := 16.
Definition EEXIST : Z := 17.
Definition GHOST_VERSION : Z := 91.
Definition kGhostfsMount : string := "/sys/fs/ghost".

Notation prog A := (may_abort fsE A).

Definition bytes (s : string) : list ascii := String.list_ascii_of_string s.

Module Enclave.
Section Enclave.
(** [absl::SimpleAtoi] for [int] and for [uint64_t] *)
Context (SimpleAtoi SimpleAtoiU64 : list ascii -> option Z).

(** ** Files *)

Definition GetFileSize (fd : Z) : prog Z :=
  st <! get (Fstat fd) ;;
  match st with Some size => done size | None => abort end.

(** A buffer as a string of C: up to the first zero. *)
Fixpoint c_str (s : list ascii) : list ascii :=
  match s with
  | [] => []
  | c :: s => if Ascii.eqb c "000"%char then [] else c :: c_str s
  end.

(** The buffer of [ReadString] has this size; [buf] is what is in it. *)
Definition kBufSize : Z := 4096.

Definition read_round (fd : Z) (buf : list ascii) : itree fsE (list ascii + option (list ascii)) :=
  ITree.bind (syscall (Read fd (kBufSize - Z.of_nat (length buf)))) (fun r =>
    let '(amt, data) := r in
    if amt <? 0 then Ret (inr None)
    else
      let buf := buf ++ take (Z.to_nat amt) data in
      if (0 <? amt) && (Z.of_nat (length buf) <? kBufSize) then Ret (inl buf)
      else Ret (inr (if amt =? 0 then Some buf else None))).

Definition ReadString (fd : Z) : prog (list ascii) := ITree.iter (read_round fd) [].

Definition WriteEnclaveTunable (dir_fd : Z) (path : string) (value : list ascii) : prog unit :=
  fd <! get (OpenAt dir_fd path) ;;
  CHECK_ (0 <=? fd) ;;!
  r <! get (Write fd value) ;;
  CHECK_ (fst r =? Z.of_nat (length value)) ;;!
  get (Close fd) ;;!
  done tt.

Definition ReadEnclaveTunable (dir_fd : Z) (path : string) : prog (list ascii) :=
  fd <! get (OpenAt dir_fd path) ;;
  CHECK_ (0 <=? fd) ;;!
  val <! ReadString fd ;;
  get (Close fd) ;;!
  done val.

Definition BoolToTunableString (b : bool) : list ascii := if b then ["1"%char] else ["0"%char].
Definition SetDeliverTicks (dir_fd : Z) (enabled : bool) : prog unit :=
  WriteEnclaveTunable dir_fd "deliver_ticks" (BoolToTunableString enabled).
Definition SetCommitAtTick (dir_fd : Z) (enabled : bool) : prog unit :=
  WriteEnclaveTunable dir_fd "commit_at_tick" (BoolToTunableString enabled).
Definition SetWakeOnWakerCpu (dir_fd : Z) (enabled : bool) : prog unit :=
  WriteEnclaveTunable dir_fd "wake_on_waker_cpu" (BoolToTunableString enabled).
Definition SetLiveDangerously (dir_fd : Z) (enabled : bool) : prog unit :=
  WriteEnclaveTunable dir_fd "live_dangerously" (BoolToTunableString enabled).
Definition SetDeliverAgentRunnability (dir_fd : Z) (enabled : bool) : prog unit :=
  WriteEnclaveTunable dir_fd "deliver_agent_runnability" (BoolToTunableString enabled).
Definition SetDeliverCpuAvailability (dir_fd : Z) (enabled : bool) : prog unit :=
  WriteEnclaveTunable dir_fd "deliver_cpu_availability" (BoolToTunableString enabled).

(** The timeout in milliseconds. *)
Definition SetRunnableTimeout (dir_fd ms : Z) : prog unit :=
  WriteEnclaveTunable dir_fd "runnable_timeout" (bytes (pretty ms)).
Definition DiscoverTasks (dir_fd : Z) : prog unit := WriteEnclaveTunable dir_fd "ctl" (bytes "discover tasks").

Definition GetAbiVersion (dir_fd : Z) : prog Z :=
  fd <! get (OpenAt dir_fd "abi_version") ;;
  CHECK_ (0 <=? fd) ;;!
  s <! ReadString fd ;;
  let version := default 0 (SimpleAtoi s) in
  get (Close fd) ;;!
  done version.

(** ** Enclaves *)

(** One attempt of [MakeNextEnclave] with the identifier [id]. *)
Definition make_round (top_ctl id : Z) : itree fsE (Z + option Z) :=
  let cmd := bytes ("create " ++ pretty id ++ " " ++ pretty GHOST_VERSION) in
  ITree.bind (syscall (Write top_ctl cmd)) (fun r =>
    if fst r =? Z.of_nat (length cmd) then Ret (inr (Some id))
    else if snd r =? EEXIST then Ret (inl (id + 1))
    else Ret (inr None)).

Definition MakeNextEnclave : prog Z :=
  top_ctl <! get (Open (kGhostfsMount ++ "/ctl")) ;;
  if top_ctl <? 0 then done (-1)
  else
    ITree.bind (ITree.iter (make_round top_ctl) 1) (fun id =>
      get (Close top_ctl) ;;!
      match id with
      | None => done (-1)
      | Some id => get (Open (kGhostfsMount ++ "/enclave_" ++ pretty id ++ "/ctl"))
      end).

(** 32 bytes for the number in ascii; the buffer is full of zeros. *)
Definition kU64InAsciiBytes : Z := 20 + 2 + 1 + 9.

Definition GetEnclaveDirectory (ctl_fd : Z) : prog Z :=
  CHECK_ (0 <=? ctl_fd) ;;!
  get (Lseek ctl_fd) ;;!
  r <! get (Read ctl_fd kU64InAsciiBytes) ;;
  CHECK_ (0 <? fst r) ;;!
  match SimpleAtoiU64 (c_str (take (Z.to_nat (fst r)) (snd r))) with
  | None => abort
  | Some id => get (Open (kGhostfsMount ++ "/enclave_" ++ pretty id))
  end.

Definition DestroyEnclave (ctl_fd : Z) : prog unit :=
  get (Write ctl_fd (bytes "destroy")) ;;! done tt.

(** The regular expression "^enclave_.*"; the dot is no end of a line. *)
Definition is_enclave_dir (name : string) : bool :=
  let prefix := bytes "enclave_" in
  let s := bytes name in
  bool_decide (take (length prefix) s = prefix) &&
  forallb (fun c => negb (Ascii.eqb c newline) && negb (Ascii.eqb c "013"%char)) (drop (length prefix) s).

Fixpoint destroy_all (names : list string) : prog unit :=
  match names with
  | [] => done tt
  | name :: names =>
      (if is_enclave_dir name then
         ctl <! get (Open (kGhostfsMount ++ "/" ++ name ++ "/ctl")) ;;
         if 0 <=? ctl then DestroyEnclave ctl ;;! get (Close ctl) ;;! done tt else done tt
       else done tt) ;;!
      destroy_all names
  end.

Definition DestroyAllEnclaves : prog unit :=
  names <! get (ListDir kGhostfsMount) ;;
  destroy_all names.

(** ** The hand-over from an old agent *)

(** [while (epoll_wait(...) != 1) CHECK_EQ(errno, EINTR)] *)
Definition epoll_round (ep : Z) : itree fsE (unit + option unit) :=
  ITree.bind (syscall (EpollWait ep)) (fun r =>
    if fst r =? 1 then Ret (inr (Some tt))
    else if snd r =? EINTR then Ret (inl tt)
    else Ret (inr None)).

Definition epoll_event (ep : Z) : prog unit := ITree.iter (fun _ => epoll_round ep) tt.

Definition WaitForAgentOnlineValue (dir_fd until : Z) : prog unit :=
  fd <! get (OpenAt dir_fd "agent_online") ;;
  CHECK_ ((until =? 0) || (until =? 1)) ;;!
  CHECK_ (0 <=? fd) ;;!
  epfd <! get EpollCreate ;;
  CHECK_ (0 <=? epfd) ;;!
  r <! get (EpollAdd epfd fd) ;;
  CHECK_ (r =? 0) ;;!
  epoll_event epfd ;;!
  m <! get (Read fd 19) ;;
  CHECK_ (0 <? fst m) ;;!
  match SimpleAtoi (c_str (take (Z.to_nat (fst m)) (snd m))) with
  | None => abort
  | Some one_or_zero =>
      (if negb (one_or_zero =? until) then epoll_event epfd else done tt) ;;!
      get (Close epfd) ;;!
      get (Close fd) ;;!
      done tt
  end.

Definition WaitForOldAgent (dir_fd : Z) : prog unit := WaitForAgentOnlineValue dir_fd 0.

(** ** The table of status words *)

Record LocalStatusWordTable := mk_table { t_fd : Z; t_addr : Z }.

Definition new_table (enclave_fd id numa_node : Z) : prog LocalStatusWordTable :=
  ctl <! get (OpenAt enclave_fd "ctl") ;;
  CHECK_ (0 <=? ctl) ;;!
  let cmd := bytes ("create sw_region " ++ pretty id ++ " " ++ pretty numa_node) in
  r <! get (Write ctl cmd) ;;
  CHECK_ ((fst r =? Z.of_nat (length cmd)) || (snd r =? EEXIST)) ;;!
  get (Close ctl) ;;!
  fd <! get (OpenAt enclave_fd ("sw_regions/sw_" ++ pretty id)) ;;
  CHECK_ (0 <=? fd) ;;!
  size <! GetFileSize fd ;;
  m <! get (MmapTable fd size) ;;
  match m with
  | None => abort
  | Some (addr, (capacity, hid, hnode)) =>
      CHECK_ (0 <? capacity) ;;!
      CHECK_ (hid =? id) ;;!
      CHECK_ (hnode =? numa_node) ;;!
      done (mk_table fd addr)
  end.

Definition delete_table (t : LocalStatusWordTable) : prog unit :=
  r <! get (Munmap (t_addr t)) ;;
  CHECK_ (r =? 0) ;;!
  r <! get (Close (t_fd t)) ;;
  CHECK_ (r =? 0).

(** ** Construction *)

(** The global descriptors and table of [GhostHelper]. *)
Record globals := mk_globals { gbl_ctl_fd_ : Z; gbl_dir_fd_ : Z; gbl_sw_table_ : option LocalStatusWordTable }.

Record AgentConfig := mk_config { enclave_fd_ : Z; numa_node_ : Z; all_ticks : bool; config_cpus_ : bitmap }.

(** The CPU of a run request and the index of its transaction; no agent is attached. *)
Record CpuRep := mk_cpu_rep { req_cpu : Z; req_txn : Z }.

(** [data_region_] is the address of the CPU data and what it says of the CPUs; [cpus_] has
    the representation of each CPU. *)
Record LocalEnclave := mk_enclave {
  ctl_fd_ : Z; dir_fd_ : Z; agent_online_fd_ : Z; data_region_ : Z * list Z; destroy_when_destructed_ : bool;
  enclave_cpus_ : bitmap; reps_ : gmap Z CpuRep }.

Definition GetCpuDataRegion (dir_fd : Z) : prog Z :=
  CHECK_ (0 <=? dir_fd) ;;! get (OpenAt dir_fd "cpu_data").

(** The CPU data, and the globals. *)
Definition CommonInit (ctl dir numa_node : Z) (g : globals) : prog (Z * list Z * globals) :=
  CHECK_ (gbl_ctl_fd_ g =? -1) ;;!
  CHECK_ (gbl_dir_fd_ g =? -1) ;;!
  version <! GetAbiVersion dir ;;
  CHECK_ (version =? GHOST_VERSION) ;;!
  data_fd <! GetCpuDataRegion dir ;;
  CHECK_ (0 <=? data_fd) ;;!
  size <! GetFileSize data_fd ;;
  data <! get (MmapData data_fd size) ;;
  get (Close data_fd) ;;!
  match data with
  | None => abort
  | Some data =>
      table <! new_table dir 0 numa_node ;;
      done (data, mk_globals ctl dir (Some table))
  end.

(** [num_cpus] is of the topology. *)
Definition AttachToExistingEnclave (num_cpus : Z) (c : AgentConfig) (g : globals) : prog (LocalEnclave * globals) :=
  let dir := enclave_fd_ c in
  CHECK_ (0 <=? dir) ;;!
  ctl <! get (OpenAt dir "ctl") ;;
  CHECK_ (0 <=? ctl) ;;!
  r <! CommonInit ctl dir (numa_node_ c) g ;;
  let '(data, g) := r in
  fd <! get (OpenAt dir "cpulist") ;;
  CHECK_ (0 <=? fd) ;;!
  cpulist <! ReadString fd ;;
  match ParseCpuStr SimpleAtoi num_cpus cpulist with
  | None => abort
  | Some cpus =>
      get (Close fd) ;;!
      done (mk_enclave ctl dir (-1) data false cpus ∅, g)
  end.

Definition kMaxRetries : nat := 10.

(** The loop over [write], which has been tried [retries] times; [n] more are left. *)
Fixpoint write_cpumask (fd : Z) (mask : list ascii) (n : nat) : prog unit :=
  match n with
  | O => abort
  | S n =>
      r <! get (Write fd mask) ;;
      if fst r =? Z.of_nat (length mask) then done tt
      else
        CHECK_ (fst r =? -1) ;;!
        CHECK_ (snd r =? EBUSY) ;;!
        get Sleep ;;!
        write_cpumask fd mask n
  end.

Definition CreateAndAttachToEnclave (num_cpus : Z) (c : AgentConfig) (g : globals) : prog (LocalEnclave * globals) :=
  ctl <! MakeNextEnclave ;;
  CHECK_ (0 <=? ctl) ;;!
  dir <! GetEnclaveDirectory ctl ;;
  CHECK_ (0 <=? dir) ;;!
  r <! CommonInit ctl dir (numa_node_ c) g ;;
  let '(data, g) := r in
  fd <! get (OpenAt dir "cpumask") ;;
  CHECK_ (0 <=? fd) ;;!
  write_cpumask fd (CpuList.CpuMaskStr num_cpus (config_cpus_ c)) kMaxRetries ;;!
  get (Close fd) ;;!
  done (mk_enclave ctl dir (-1) data true (config_cpus_ c) ∅, g).

(** [BuildCpuReps]: a CPU number that is not of the topology is a failed [DCHECK]. *)
Definition build_rep (num_cpus : Z) (cpuset : gset Z) (txn_cpus : list Z) (reps : option (gmap Z CpuRep)) (i : Z) :
    option (gmap Z CpuRep) :=
  if bool_decide (i ∈ cpuset) then
    let cpu := txn_cpus !!! Z.to_nat i in
    check (in_range num_cpus cpu) (<[cpu := mk_cpu_rep cpu i]> <$> reps)
  else reps.

Definition BuildCpuReps (num_cpus : Z) (e : LocalEnclave) : option LocalEnclave :=
  match ToCpuSet num_cpus (enclave_cpus_ e) with
  | None => None
  | Some cpuset =>
      (fun reps => mk_enclave (ctl_fd_ e) (dir_fd_ e) (agent_online_fd_ e) (data_region_ e) (destroy_when_destructed_ e)
                     (enclave_cpus_ e) reps) <$>
      foldl (build_rep num_cpus cpuset (snd (data_region_ e))) (Some (reps_ e)) (seqZ 0 num_cpus)
  end.

(** [LocalEnclave::LocalEnclave] *)
Definition NewEnclave (num_cpus : Z) (c : AgentConfig) (g : globals) : prog (LocalEnclave * globals) :=
  r <! (if enclave_fd_ c =? -1 then CreateAndAttachToEnclave num_cpus c g else AttachToExistingEnclave num_cpus c g) ;;
  let '(e, g) := r in
  match BuildCpuReps num_cpus e with
  | None => abort
  | Some e =>
      (if all_ticks c then SetDeliverTicks (dir_fd_ e) true else done tt) ;;!
      b <! get BpfInit ;;
      CHECK_ (b =? 0) ;;!
      done (e, g)
  end.

Definition set_agent_online_fd (fd : Z) (e : LocalEnclave) : LocalEnclave :=
  mk_enclave (ctl_fd_ e) (dir_fd_ e) fd (data_region_ e) (destroy_when_destructed_ e) (enclave_cpus_ e)
    (reps_ e).

Definition AdvertiseOnline (e : LocalEnclave) : prog LocalEnclave :=
  fd <! get (OpenAt (dir_fd_ e) "agent_online") ;;
  CHECK_ (0 <=? fd) ;;!
  done (set_agent_online_fd fd e).

Definition PrepareToExit (e : LocalEnclave) : prog LocalEnclave :=
  get (Close (agent_online_fd_ e)) ;;!
  get BpfDestroy ;;!
  done (set_agent_online_fd (-1) e).

(** [~LocalEnclave] *)
Definition DeleteEnclave (e : LocalEnclave) (g : globals) : prog globals :=
  e <! PrepareToExit e ;;
  get (Munmap (fst (data_region_ e))) ;;!
  (if destroy_when_destructed_ e then DestroyEnclave (ctl_fd_ e) else done tt) ;;!
  get (Close (ctl_fd_ e)) ;;!
  get (Close (dir_fd_ e)) ;;!
  (match gbl_sw_table_ g with None => done tt | Some t => delete_table t end) ;;!
  done (mk_globals (-1) (-1) None).

(** ** What the status file says *)

(** The digits of a line of the form "nr_tasks" and a number. *)
Definition match_nr_tasks (line : list ascii) : option (list ascii) :=
  let prefix := bytes "nr_tasks " in
  let digits := drop (length prefix) line in
  if bool_decide (take (length prefix) line = prefix) && forallb is_digit digits && negb (length digits =? 0)%nat
  then Some digits else None.

Fixpoint find_nr_tasks (lines : list (list ascii)) : option Z :=
  match lines with
  | [] => Some (-1)
  | line :: lines =>
      match match_nr_tasks line with
      | Some digits => SimpleAtoi digits
      | None => find_nr_tasks lines
      end
  end.

(** [std::getline]: a last line without end counts, an empty one after the last end
    does not. *)
Fixpoint getlines (line s : list ascii) : list (list ascii) :=
  match s with
  | [] => if (length line =? 0)%nat then [] else [line]
  | c :: s => if Ascii.eqb c newline then line :: getlines [] s else getlines (line ++ [c]) s
  end.

Definition GetNrTasks (dir_fd : Z) : prog Z :=
  fd <! get (OpenAt dir_fd "status") ;;
  CHECK_ (0 <=? fd) ;;!
  status_lines <! ReadString fd ;;
  get (Close fd) ;;!
  match find_nr_tasks (getlines [] status_lines) with
  | None => abort
  | Some n => done n
  end.
End Enclave.
End Enclave.
