(* ===== verification/EnclaveSetupProps.v ===== *)
(** * Enclaves: files, the hand-over, and what is released

    The programs of [EnclaveSetup] against every kernel that keeps the laws stated here. *)

From Stdlib Require Import Ascii.
From stdpp Require Import strings pretty.
From S2P Require Import Prelude CpuMap CpuMapProps Topology TopologyProps.
From ITree Require Import ITree.
From S2P Require Import Interaction EnclaveSetup.
#[local] Open Scope itree_scope.
#[local] Open Scope Z_scope.

Module EnclaveProps.
Import Enclave.

(** ** Reading files *)

(** How far the reads of a descriptor got. *)
Definition read_of (fd : Z) (x : entry fsE) : nat :=
  match x with
  | Entry e a =>
      match e in fsE X return X -> nat with
      | Read fd' _ => fun a => if fd' =? fd then length (snd a) else 0%nat
      | _ => fun _ => 0%nat
      end a
  end.

Definition pos (fd : Z) (h : history fsE) : nat := list_sum (read_of fd <$> h).

(** A read gives some of what is left, nothing only at the end. *)
Class ServesFile (os : answers fsE) (fd : Z) (content : list ascii) : Prop :=
  serves_read : forall h n, 0 < n -> exists data,
    os h _ (Read fd n) = (Z.of_nat (length data), data) /\ Z.of_nat (length data) <= n /\
    data `prefix_of` drop (pos fd h) content /\ (data = [] -> drop (pos fd h) content = []).

Section ReadString.
Context (os : answers fsE) (fd : Z) (content : list ascii) `{Hos : !ServesFile os fd content}.
Implicit Type h : history fsE.

(** What was read is in the buffer, and does not fill it. *)
Definition reading (buf : list ascii) h : Prop :=
  buf = take (pos fd h) content /\ length buf = pos fd h /\ Z.of_nat (length buf) < kBufSize.

Lemma pos_read h n a : pos fd (Entry (Read fd n) a :: h) = (length (snd a) + pos fd h)%nat.
Proof. unfold pos. cbn. by rewrite Z.eqb_refl. Qed.

Lemma take_more (l data : list ascii) n : data `prefix_of` drop n l -> (n <= length l)%nat ->
  take n l ++ data = take (length data + n) l /\ length (take n l ++ data) = (length data + n)%nat.
Proof.
  intros [rest Hd] Hn. pose proof (take_drop n l) as Hl. rewrite Hd in Hl. assert (Hlen : length (take n l) = n) by (rewrite length_take; lia).
  split; [|rewrite length_app; lia]. rewrite <- Hl at 2. rewrite app_assoc. symmetry. apply take_app_length'. rewrite length_app. lia.
Qed.

Lemma read_round_reaches buf h : reading buf h ->
  reaches os (read_round fd buf) (fun lr h' =>
    match lr with
    | inl buf' => reading buf' h' /\ (Z.to_nat kBufSize - length buf' < Z.to_nat kBufSize - length buf)%nat
    | inr r => r = if Z.of_nat (length content) <? kBufSize then Some content else None
    end) h.
Proof.
  intros (Hbuf & Hlen & Hlt). unfold read_round. apply reaches_bind, reaches_call.
  destruct (serves_read h (kBufSize - Z.of_nat (length buf)) ltac:(lia)) as (data & Hr & Hle & Hpre & Hend). rewrite Hr.
  assert (Hpos : (pos fd h <= length content)%nat) by (rewrite <- Hlen, Hbuf, length_take; lia).
  destruct (take_more _ _ _ Hpre Hpos) as [Htake Hall]. rewrite <- Hbuf in Htake, Hall.
  rewrite (proj2 (Z.ltb_ge _ 0)), Nat2Z.id, take_ge by lia. destruct data as [|c data].
  - apply reaches_ret. cbn. rewrite app_nil_r. specialize (Hend eq_refl). apply (f_equal length) in Hend. rewrite length_drop in Hend. cbn in Hend.
    assert (buf = content) as -> by (rewrite Hbuf; apply take_ge; lia). by rewrite (proj2 (Z.ltb_lt _ _)) by lia.
  - set (d := c :: data) in *. assert (Hd : 0 < Z.of_nat (length d)) by (cbn; lia). rewrite (proj2 (Z.ltb_lt 0 _) Hd). cbn [andb].
    destruct (Z.ltb_spec (Z.of_nat (length (buf ++ d))) kBufSize) as [Hs|Hs]; apply reaches_ret.
    + split; [split_and!; rewrite ?pos_read; cbn [snd]; [done|done|lia]|]. rewrite length_app in *. lia.
    + rewrite (proj2 (Z.eqb_neq _ 0)) by lia. assert (Hc : (length (buf ++ d) <= length content)%nat) by (rewrite Htake, length_take; lia).
      by rewrite (proj2 (Z.ltb_ge _ _)) by lia.
Qed.

(** [ReadString] reads a file of the kernel whole.  However the kernel divides the
    file among the reads, the loop ends, with the whole content if it is shorter than the
    buffer of 4096 bytes; a file that fills the buffer is a failed check. *)
Theorem read_string_reads_all h : pos fd h = 0%nat ->
  reaches os (ReadString fd) (fun r _ => r = if Z.of_nat (length content) <? kBufSize then Some content else None) h.
Proof.
  intros H0. apply (reaches_iter os reading (fun buf _ => (Z.to_nat kBufSize - length buf)%nat)); [apply read_round_reaches|].
  split_and!; [by rewrite H0|by rewrite H0|done].
Qed.
End ReadString.

(** ** The hand-over *)

(** The file changes between 0 and 1: its value after [k] changes. *)
Definition online_value (first : Z) (k : nat) : Z := if Nat.even k then first else 1 - first.

Definition interrupted (x : entry fsE) : nat :=
  match x with
  | Entry e a =>
      match e in fsE X return X -> nat with
      | EpollWait _ => fun a => if fst a =? 1 then 0%nat else 1%nat
      | _ => fun _ => 0%nat
      end a
  end.

(** The file [agent_online] has changed [flips h] times when the calls of [h] are over.
    It can be opened and polled; a read gives its value at some moment of the call; of two
    waits the second returns only after a change since the first was called; there are at
    most [signals] interruptions. *)
Class OnlineFile (os : answers fsE) (SimpleAtoi : list ascii -> option Z) (flips : history fsE -> nat)
    (first : Z) (signals : nat) : Prop := {
  flips_mono : forall h x, (flips h <= flips (x :: h))%nat;
  online_opens : forall h dir, 0 <= os h _ (OpenAt dir "agent_online");
  epoll_creates : forall h, 0 <= os h _ EpollCreate;
  epoll_adds : forall h ep fd, os h _ (EpollAdd ep fd) = 0;
  online_read : forall h dir fd, Entry (OpenAt dir "agent_online") fd ∈ h -> exists k data,
    os h _ (Read fd 19) = (Z.of_nat (length data), data) /\ data <> [] /\
    SimpleAtoi (c_str data) = Some (online_value first k) /\
    (flips h <= k <= flips (Entry (Read fd 19) (os h _ (Read fd 19)) :: h))%nat;
  epoll_answers : forall h ep, fst (os h _ (EpollWait ep)) = 1 \/
    snd (os h _ (EpollWait ep)) = EINTR /\ (list_sum (interrupted <$> h) < signals)%nat;
  epoll_edge : forall h1 h2 ep r, fst r = 1 -> let h := h2 ++ Entry (EpollWait ep) r :: h1 in
    fst (os h _ (EpollWait ep)) = 1 -> (flips h1 < flips (Entry (EpollWait ep) (os h _ (EpollWait ep)) :: h))%nat }.

Section Handover.
Context (os : answers fsE) (SimpleAtoi : list ascii -> option Z) (flips : history fsE -> nat) (first : Z) (signals : nat).
Context `{Hos : !OnlineFile os SimpleAtoi flips first signals}.
Implicit Type h : history fsE.

Lemma flips_app h1 h2 : (flips h1 <= flips (h2 ++ h1))%nat.
Proof. induction h2 as [|x h2 IH]; [done|]. pose proof (flips_mono (h2 ++ h1) x). cbn. lia. Qed.

(** A wait ends with its event. *)
Lemma epoll_event_reaches ep h :
  reaches os (epoll_event ep) (fun r h' => r = Some tt /\ exists h2, let h1 := h2 ++ h in
    h' = Entry (EpollWait ep) (os h1 _ (EpollWait ep)) :: h1 /\ fst (os h1 _ (EpollWait ep)) = 1) h.
Proof.
  apply (reaches_iter os (fun _ h' => exists h2, h' = h2 ++ h) (fun _ h' => signals - list_sum (interrupted <$> h'))%nat);
    [|by exists []].
  intros [] h' [h2 ->]. unfold epoll_round. apply reaches_bind, reaches_call.
  destruct (Z.eqb_spec (fst (os (h2 ++ h) _ (EpollWait ep))) 1) as [E1|E1].
  - apply reaches_ret. split; [done|]. by exists h2.
  - destruct (epoll_answers (h2 ++ h) ep) as [|[Ei Hlt]]; [done|]. rewrite (proj2 (Z.eqb_eq _ _) Ei). apply reaches_ret.
    split; [by eexists (_ :: h2)|]. cbn. rewrite (proj2 (Z.eqb_neq _ _) E1). unfold list_sum in *. lia.
Qed.

(** Two consecutive values are all there are. *)
Lemma online_value_next until k : until = 0 \/ until = 1 -> first = 0 \/ first = 1 ->
  online_value first k = until \/ online_value first (S k) = until.
Proof. intros [->| ->] [->| ->]; unfold online_value; rewrite Nat.even_succ, <- Nat.negb_even; destruct (Nat.even k); cbn; auto. Qed.

(** The file had the value at some moment from [h] to [h']. *)
Definition seen (until : Z) h h' : Prop := exists k, (flips h <= k <= flips h')%nat /\ online_value first k = until.

Lemma seen_cons until h h' x : seen until h h' -> seen until h (x :: h').
Proof. intros (k & Hk & Hv). exists k. pose proof (flips_mono h' x). split; [lia|done]. Qed.

(** From the first read on; the first wait was called after [h0]. *)
Lemma second_wait_reaches until v h0 l r ep fd h :
  until = 0 \/ until = 1 -> first = 0 \/ first = 1 -> fst r = 1 -> h = l ++ Entry (EpollWait ep) r :: h0 ->
  (v = until -> seen until h0 h) ->
  reaches os ((if negb (v =? until) then epoll_event ep else done tt) ;;! get (Close ep) ;;! get (Close fd) ;;! done tt)
    (fun r h' => r = Some tt /\ seen until h0 h') h.
Proof.
  intros Hu Hf Hr -> Hv. apply reaches_bindP.
  assert (Hend : forall h', seen until h0 h' ->
    reaches os (get (Close ep) ;;! get (Close fd) ;;! done tt) (fun r h' => r = Some tt /\ seen until h0 h') h').
  { intros h' Hs. do 2 apply reaches_get. apply reaches_ret. split; [done|]. by do 2 apply seen_cons. }
  destruct (Z.eqb_spec v until) as [Ev|Ev]; cbn [negb]; [apply reaches_ret; eauto|].
  eapply reaches_mono; [apply epoll_event_reaches|]. intros r' h' [-> (l2 & -> & E2)]. exists tt. split; [done|]. apply Hend.
  cbv zeta in E2. rewrite (app_assoc l2 l) in E2 |- *. pose proof (epoll_edge h0 (l2 ++ l) ep r Hr E2) as Hlt. cbv zeta in Hlt.
  destruct (online_value_next until (flips h0) Hu Hf) as [E|E]; [exists (flips h0)|exists (S (flips h0))]; (split; [lia|done]).
Qed.

(** Waiting for the old agent.  [WaitForAgentOnlineValue] returns if its waits for
    events do, however often signals interrupt them, and at some moment between its call
    and its return the file had the value waited for, although the last value it read may
    be the other one. *)
Theorem wait_for_agent_online_value_seen dir until h : until = 0 \/ until = 1 -> first = 0 \/ first = 1 ->
  reaches os (WaitForAgentOnlineValue SimpleAtoi dir until) (fun r h' => r = Some tt /\ seen until h h') h.
Proof.
  intros Hu Hf. unfold WaitForAgentOnlineValue. apply reaches_get. set (fd := os h _ _). set (h1 := Entry _ fd :: h).
  apply reaches_check; [by destruct Hu as [->| ->]|]. apply reaches_check; [apply Z.leb_le, online_opens|]. apply reaches_get. set (ep := os h1 _ _).
  apply reaches_check; [apply Z.leb_le, epoll_creates|]. apply reaches_get.
  apply reaches_check; [apply Z.eqb_eq, epoll_adds|]. set (l0 := [Entry (EpollAdd ep fd) (os (Entry EpollCreate ep :: h1) _ (EpollAdd ep fd)); Entry EpollCreate ep]).
  apply reaches_bindP. eapply reaches_mono; [apply epoll_event_reaches|]. intros r hx [-> (l & -> & E1)]. exists tt. split; [done|].
  change (Entry (EpollAdd ep fd) (os (Entry EpollCreate ep :: h1) Z (EpollAdd ep fd)) :: Entry EpollCreate ep :: h1) with (l0 ++ h1) in *.
  cbv zeta in *. rewrite app_assoc in *.
  set (h2 := (l ++ l0) ++ h1) in *. set (h3 := Entry (EpollWait ep) _ :: h2). apply reaches_get.
  assert (Hop : Entry (OpenAt dir "agent_online") fd ∈ h3) by (right; apply elem_of_app; right; by left).
  destruct (online_read h3 dir fd Hop) as (k & data & Hr & Hd & Ha & Hk).
  apply reaches_check; [rewrite Hr; destruct data; [done|by cbn]|]. rewrite Hr in *. cbn [fst snd]. rewrite Nat2Z.id, take_ge, Ha by lia.
  pose proof (flips_mono h2 (Entry (EpollWait ep) (os h2 _ (EpollWait ep)))) as H23. fold h3 in H23.
  eapply reaches_mono; [eapply (second_wait_reaches until _ h2 [_]); [done|done|exact E1|done|]; intros Hv; exists k; split; [lia|done]|].
  intros r h' (-> & j & Hj & Hv). split; [done|]. exists j. split; [|done].
  pose proof (flips_app h1 (l ++ l0)). pose proof (flips_mono h (Entry (OpenAt dir "agent_online") fd)). unfold h2, h1 in *. lia.
Qed.
End Handover.

(** ** What is released *)

(** A descriptor, a stream or a mapping; and what nothing undoes: the destruction of the
    enclave, and the use of the [tasks] file of a directory. *)
Inductive handle := Fd (fd : Z) | Stream (st : Z) | Map (addr : Z) | Destruction | Joined (dir : Z).

Definition fdh (fd : Z) : list handle := if 0 <=? fd then [Fd fd] else [].

Definition destruction (data : list ascii) : list handle := if bool_decide (data = bytes "destroy") then [Destruction] else [].

Definition joining (dir : Z) (path : string) (fd : Z) : list handle :=
  if String.eqb path "tasks" && (0 <=? fd) then [Joined dir] else [].

Definition acquired (x : entry fsE) : list handle :=
  match x with
  | Entry e a =>
      match e in fsE X return X -> list handle with
      | Open _ | EpollCreate => fdh
      | OpenAt dir path => fun fd => joining dir path fd ++ fdh fd
      | MmapData _ _ => fun m => match m with Some (addr, _) => [Map addr] | None => [] end
      | MmapTable _ _ => fun m => match m with Some (addr, _) => [Map addr] | None => [] end
      | StreamOpen _ | Setmntent => fun st => match st with Some st => [Stream st] | None => [] end
      | Write _ data => fun _ => destruction data
      | _ => fun _ => []
      end a
  end.

Definition released (x : entry fsE) : list handle :=
  match x with
  | Entry e a =>
      match e in fsE X return X -> list handle with
      | Close fd => fun _ => fdh fd
      | StreamClose st | Endmntent st => fun _ => [Stream st]
      | Munmap addr => fun _ => [Map addr]
      | _ => fun _ => []
      end a
  end.

#[local] Arguments fdh fd : simpl never.
#[local] Arguments destruction data : simpl never.
Notation holds := (holds acquired released).

(** A read says how much it gives, and an enclave of any number above [last] can be made. *)
Class GhostFs (os : answers fsE) (last : Z) : Prop := {
  read_length : forall h fd n, 0 <= fst (os h _ (Read fd n)) -> length (snd (os h _ (Read fd n))) = Z.to_nat (fst (os h _ (Read fd n)));
  number_free : forall h fd id, last < id -> snd (os h _ (Write fd (bytes ("create " ++ pretty id ++ " " ++ pretty GHOST_VERSION)))) <> EEXIST }.

Section Release.
Context (os : answers fsE) (last : Z) `{Hos : !GhostFs os last} (SimpleAtoi SimpleAtoiU64 : list ascii -> option Z).
Implicit Type h : history fsE.

Lemma ok_call {X} (e : fsE X) (Q : X -> history fsE -> Prop) L h :
  holds L h ->
  (forall a h', (forall L', acquired (Entry e a) ++ L ≡ₚ L' ++ released (Entry e a) -> holds L' h') -> Q a h') ->
  ok os (get e) Q h.
Proof. intros Hh HQ. apply ok_get, HQ. intros L' HL. by eapply holds_cons. Qed.

(** Calls that neither acquire nor release. *)
Lemma ok_plain {X} (e : fsE X) (Q : X -> history fsE -> Prop) L h :
  holds L h -> (forall a, acquired (Entry e a) = [] /\ released (Entry e a) = []) ->
  (forall a h', holds L h' -> Q a h') -> ok os (get e) Q h.
Proof.
  intros Hh He HQ. eapply ok_call; [exact Hh|]. intros a h' H. apply HQ, H. destruct (He a) as [-> ->]. by rewrite app_nil_r.
Qed.

Lemma ok_close fd (Q : Z -> history fsE -> Prop) L h :
  holds (fdh fd ++ L) h -> (forall a h', holds L h' -> Q a h') -> ok os (get (Close fd)) Q h.
Proof. intros Hh HQ. eapply ok_call; [exact Hh|]. intros a h' H. apply HQ, H. cbn. apply Permutation_app_comm. Qed.

(** An open followed by its check. *)
Lemma ok_open {B} (e : fsE Z) (k : Z -> prog B) (Q : B -> history fsE -> Prop) L h :
  (forall a, acquired (Entry e a) = fdh a /\ released (Entry e a) = []) -> holds L h ->
  (forall fd h', 0 <= fd -> holds (fdh fd ++ L) h' -> ok os (k fd) Q h') ->
  ok os (fd <! get e ;; CHECK_ (0 <=? fd) ;;! k fd) Q h.
Proof.
  intros He Hh HQ. apply ok_bind. eapply ok_call; [exact Hh|]. intros fd h' H. apply ok_bind, ok_check. intros Hfd. apply HQ; [lia|].
  apply H. destruct (He fd) as [-> ->]. by rewrite app_nil_r.
Qed.

Lemma get_file_size_ok fd L h : holds L h -> ok os (GetFileSize fd) (fun _ => holds L) h.
Proof.
  intros Hh. apply ok_bind. eapply ok_plain; [exact Hh|done|]. intros [size|] h1 H1; [by apply ok_done|apply ok_abort].
Qed.

Lemma read_string_ok fd L h : holds L h -> ok os (ReadString fd) (fun _ => holds L) h.
Proof.
  intros Hh. apply (reaches_iter os (fun buf h => holds L h) (fun buf _ => (Z.to_nat kBufSize - length buf)%nat)); [|done].
  clear h Hh. intros buf h Hh. unfold read_round. apply reaches_bind, reaches_call.
  pose proof (read_length h fd (kBufSize - Z.of_nat (length buf))) as Hlen. destruct (os h _ _) as [amt data]. cbn [fst snd] in Hlen.
  assert (Hh' : holds L (Entry (Read fd (kBufSize - Z.of_nat (length buf))) (amt, data) :: h)).
  { eapply holds_cons; [exact Hh|]. cbn. by rewrite app_nil_r. }
  destruct (Z.ltb_spec amt 0) as [|Ha]; [by apply reaches_ret|]. specialize (Hlen Ha). rewrite take_ge by lia.
  destruct (Z.ltb_spec 0 amt), (Z.ltb_spec (Z.of_nat (length (buf ++ data))) kBufSize) as [Hs|]; apply reaches_ret; cbn [andb];
    try (by destruct (amt =? 0)). split; [done|]. rewrite length_app in *. lia.
Qed.

Lemma ok_write fd data (Q : Z * Z -> history fsE -> Prop) L h :
  holds L h -> destruction data = [] -> (forall a h', holds L h' -> Q a h') -> ok os (get (Write fd data)) Q h.
Proof. intros Hh Hd HQ. eapply ok_plain; [exact Hh|by intros; split|done]. Qed.

Lemma write_tunable_ok dir path value L h : holds L h -> destruction value = [] -> String.eqb path "tasks" = false ->
  ok os (WriteEnclaveTunable dir path value) (fun _ => holds L) h.
Proof.
  intros Hh Hv Hp. apply (ok_open (OpenAt dir path) _ _ L); [intros a; cbn; unfold joining; by rewrite Hp|done|]. intros fd h1 _ H1.
  apply ok_bind. eapply ok_write; [exact H1|done|]. intros r h2 H2. apply ok_bind, ok_check. intros _.
  apply ok_bind. eapply ok_close; [exact H2|]. intros _ h3 H3. by apply ok_done.
Qed.

Lemma get_abi_version_ok dir L h : holds L h -> ok os (GetAbiVersion SimpleAtoi dir) (fun _ => holds L) h.
Proof.
  intros Hh. apply (ok_open (OpenAt dir "abi_version") _ _ L); [done|done|]. intros fd h1 _ H1.
  apply ok_bind. eapply ok_mono; [by apply read_string_ok|]. intros v h2 H2.
  apply ok_bind. eapply ok_close; [exact H2|]. intros _ h3 H3. by apply ok_done.
Qed.

Lemma make_next_enclave_ok L h : holds L h -> ok os MakeNextEnclave (fun fd => holds (fdh fd ++ L)) h.
Proof.
  intros Hh. unfold MakeNextEnclave. apply ok_bind. eapply ok_call; [exact Hh|]. intros ctl h1 H1.
  destruct (Z.ltb_spec ctl 0) as [Hc|Hc].
  { apply ok_done. apply H1. cbn. unfold fdh at 1. rewrite (proj2 (Z.leb_gt _ _) Hc). by rewrite app_nil_r. }
  apply reaches_bind. apply (reaches_iter os (fun _ h => holds (fdh ctl ++ L) h) (fun id _ => Z.to_nat (last + 1 - id))); [|apply H1; cbn; by rewrite app_nil_r].
  clear h h1 Hh H1. intros id h Hh. unfold make_round. apply reaches_bind, reaches_call. set (cmd := bytes _).
  assert (Hh' : holds (fdh ctl ++ L) (Entry (Write ctl cmd) (os h _ (Write ctl cmd)) :: h)).
  { eapply holds_cons; [exact Hh|]. cbn [acquired released]. by rewrite app_nil_r. }
  pose proof (number_free h ctl id) as Hfree. fold cmd in Hfree.
  assert (Hclose : forall o, ok os (get (Close ctl) ;;! match o with None => done (-1)
      | Some id => get (Open (kGhostfsMount ++ "/enclave_" ++ pretty (id : Z) ++ "/ctl")) end) (fun fd => holds (fdh fd ++ L))
      (Entry (Write ctl cmd) (os h _ (Write ctl cmd)) :: h)).
  { intros o. apply ok_bind. eapply ok_close; [exact Hh'|]. intros _ h2 H2. destruct o; [|by apply ok_done].
    eapply ok_call; [exact H2|]. intros fd h3 H3. apply H3. cbn. by rewrite app_nil_r. }
  destruct (_ =? _); [apply reaches_ret, (Hclose (Some id))|]. destruct (Z.eqb_spec (snd (os h _ (Write ctl cmd))) EEXIST) as [Ee|Ee]; apply reaches_ret; [|apply (Hclose None)].
  split; [done|]. destruct (Z.lt_ge_cases last id); [by destruct Hfree|]. lia.
Qed.

Lemma get_enclave_directory_ok ctl L h : holds L h ->
  ok os (GetEnclaveDirectory SimpleAtoiU64 ctl) (fun fd => holds (fdh fd ++ L)) h.
Proof.
  intros Hh. apply ok_bind, ok_check. intros _. apply ok_bind. eapply ok_plain; [exact Hh|done|]. intros _ h1 H1.
  apply ok_bind. eapply ok_plain; [exact H1|done|]. intros r h2 H2. apply ok_bind, ok_check. intros _.
  destruct (SimpleAtoiU64 _); [|apply ok_abort]. eapply ok_call; [exact H2|]. intros fd h3 H3. apply H3. cbn. by rewrite app_nil_r.
Qed.

Definition table_handles (t : LocalStatusWordTable) : list handle := Map (t_addr t) :: fdh (t_fd t).

Lemma new_table_ok dir id node L h : holds L h ->
  ok os (new_table dir id node) (fun t => holds (table_handles t ++ L)) h.
Proof.
  intros Hh. apply (ok_open (OpenAt dir "ctl") _ _ L); [done|done|]. intros ctl h1 _ H1.
  apply ok_bind. eapply ok_write; [exact H1|done|]. intros r h2 H2. apply ok_bind, ok_check. intros _.
  apply ok_bind. eapply ok_close; [exact H2|]. intros _ h3 H3.
  apply (ok_open (OpenAt dir _) _ _ L); [done|done|]. intros fd h4 _ H4.
  apply ok_bind. eapply ok_mono; [apply get_file_size_ok; exact H4|]. intros size h5 H5.
  apply ok_bind. eapply ok_call; [exact H5|]. intros [[addr [[c i] n]]|] h6 H6; [|apply ok_abort].
  do 3 (apply ok_bind, ok_check; intros _). apply ok_done, H6. cbn. by rewrite app_nil_r.
Qed.

Lemma delete_table_ok t L h : holds (table_handles t ++ L) h -> ok os (delete_table t) (fun _ => holds L) h.
Proof.
  intros Hh. apply ok_bind. eapply ok_call; [exact Hh|]. intros r h1 H1. apply ok_bind, ok_check. intros _.
  apply ok_bind. eapply (ok_close _ _ L); [apply H1; cbn; solve_Permutation|]. intros r2 h2 H2. by apply ok_check.
Qed.

(** What an enclave and the globals hold. *)
Definition globals_handles (g : globals) : list handle := match gbl_sw_table_ g with Some t => table_handles t | None => [] end.
Definition enclave_handles (e : LocalEnclave) (g : globals) : list handle :=
  fdh (agent_online_fd_ e) ++ Map (fst (data_region_ e)) :: fdh (ctl_fd_ e) ++ fdh (dir_fd_ e) ++ globals_handles g.

Lemma common_init_ok ctl dir node g L h : holds L h ->
  ok os (CommonInit SimpleAtoi ctl dir node g) (fun r => holds (Map (fst (fst r)) :: globals_handles (snd r) ++ L)) h.
Proof.
  intros Hh. do 2 (apply ok_bind, ok_check; intros _). apply ok_bind. eapply ok_mono; [by apply get_abi_version_ok|].
  intros v h1 H1. apply ok_bind, ok_check. intros _. apply ok_bind. apply ok_bind, ok_check. intros _.
  eapply ok_call; [exact H1|]. intros fd h2 H2. apply ok_bind, ok_check. intros _.
  apply ok_bind. eapply ok_mono; [apply (get_file_size_ok _ (fdh fd ++ L)), H2; cbn; by rewrite app_nil_r|]. clear H1 H2. intros size h3 H3.
  apply ok_bind. eapply ok_call; [exact H3|]. intros data h4 H4.
  destruct data as [[addr cpus]|]; apply ok_bind; cbn in H4.
  - eapply (ok_close _ _ (Map addr :: L)); [apply H4; solve_Permutation|]. intros _ h5 H5.
    apply ok_bind. eapply ok_mono; [by apply new_table_ok|]. intros t h6 H6. apply ok_done.
    eapply holds_perm; [|exact H6]. cbn. solve_Permutation.
  - eapply (ok_close _ _ L); [apply H4; solve_Permutation|]. intros. apply ok_abort.
Qed.

(** Construction, given the directory if there is one. *)
Definition constructed (created : bool) (L : list handle) (r : LocalEnclave * globals) h : Prop :=
  destroy_when_destructed_ (fst r) = created /\ agent_online_fd_ (fst r) = -1 /\ holds (enclave_handles (fst r) (snd r) ++ L) h.

Lemma attach_ok n c g L h : holds (fdh (enclave_fd_ c) ++ L) h ->
  ok os (AttachToExistingEnclave SimpleAtoi n c g) (constructed false L) h.
Proof.
  intros Hh. apply ok_bind, ok_check. intros _. apply (ok_open (OpenAt _ "ctl") _ _ (fdh (enclave_fd_ c) ++ L)); [done|done|].
  intros ctl h1 _ H1. apply ok_bind. eapply ok_mono; [by apply common_init_ok|]. intros [data g'] h2 H2.
  eapply (ok_open (OpenAt _ "cpulist")); [done|exact H2|]. intros fd h3 _ H3.
  apply ok_bind. eapply ok_mono; [apply read_string_ok; exact H3|]. intros s h4 H4.
  destruct (ParseCpuStr _ _ _); [|apply ok_abort]. apply ok_bind. eapply ok_close; [exact H4|]. intros _ h5 H5.
  apply ok_done. split_and!; [done|done|]. eapply holds_perm; [|exact H5]. cbn. unfold enclave_handles. cbn. solve_Permutation.
Qed.

Lemma write_cpumask_ok fd mask k L h : holds L h -> destruction mask = [] -> ok os (write_cpumask fd mask k) (fun _ => holds L) h.
Proof.
  intros Hh Hm. revert h Hh. induction k as [|k IH]; intros h Hh; cbn [write_cpumask]; [apply ok_abort|].
  apply ok_bind. eapply ok_write; [exact Hh|done|]. intros r h1 H1. destruct (_ =? _); [by apply ok_done|].
  do 2 (apply ok_bind, ok_check; intros _). apply ok_bind. eapply ok_plain; [exact H1|done|]. auto.
Qed.

(** A mask is not the command. *)
Lemma hex_not_s d : 0 <= d < 16 -> CpuList.hex d <> "s"%char.
Proof.
  intros H E. apply (f_equal N_of_ascii) in E. unfold CpuList.hex in E. change (N_of_ascii "s") with 115%N in E.
  rewrite N_ascii_embedding in E; destruct (Z.ltb_spec d 10); lia.
Qed.

Lemma nibble_digits bs st : Forall (fun b => 0 <= b < 256) bs -> "s"%char ∉ fst st -> "s"%char ∉ fst (foldl CpuList.nibble_step st bs).
Proof.
  intros Hbs. revert st. induction Hbs as [|b bs Hb _ IH]; intros [s em] Hs; [done|]. cbn [foldl]. apply IH. cbn in Hs |- *.
  assert (Hhi : CpuList.hex (Z.shiftr b 4) <> "s"%char) by (apply hex_not_s; rewrite Z.shiftr_div_pow2 by lia; split; [apply Z.div_pos; lia|apply Z.div_lt_upper_bound; lia]).
  assert (Hlo : CpuList.hex (Z.land b 15) <> "s"%char) by (apply hex_not_s; change 15 with (Z.ones 4); rewrite Z.land_ones by lia; apply Z.mod_pos_bound; lia).
  repeat case_match; simplify_eq/=; set_solver.
Qed.

Lemma comma_digits s k : "s"%char ∉ s -> "s"%char ∉ CpuList.comma_loop s k.
Proof.
  revert k. induction s as [|c s IH]; intros k Hs; cbn; [done|]. apply not_elem_of_cons in Hs as [Hc Hs].
  destruct (k =? 0); rewrite ?not_elem_of_cons; auto.
Qed.

Lemma mask_digits n m : "s"%char ∉ CpuList.CpuMaskStr n m.
Proof.
  unfold CpuList.CpuMaskStr. case_match; [set_solver|]. apply comma_digits, nibble_digits; [apply bytes_bounded|set_solver].
Qed.

Lemma mask_not_destruction n m : destruction (CpuList.CpuMaskStr n m) = [].
Proof.
  unfold destruction. case_bool_decide as E; [|done]. destruct (mask_digits n m). rewrite E. cbn. set_solver.
Qed.

Lemma create_ok n c g L h : holds L h -> ok os (CreateAndAttachToEnclave SimpleAtoi SimpleAtoiU64 n c g) (constructed true L) h.
Proof.
  intros Hh. apply ok_bind. eapply ok_mono; [by apply make_next_enclave_ok|]. intros ctl h1 H1. apply ok_bind, ok_check. intros _.
  apply ok_bind. eapply ok_mono; [apply get_enclave_directory_ok; exact H1|]. intros dir h2 H2. apply ok_bind, ok_check. intros _.
  apply ok_bind. eapply ok_mono; [apply common_init_ok; exact H2|]. intros [data g'] h3 H3.
  eapply (ok_open (OpenAt _ "cpumask")); [done|exact H3|]. intros fd h4 _ H4.
  apply ok_bind. eapply ok_mono; [apply write_cpumask_ok; [exact H4|apply mask_not_destruction]|]. intros ? h5 H5.
  apply ok_bind. eapply ok_close; [exact H5|]. intros _ h6 H6. apply ok_done. split_and!; [done|done|].
  eapply holds_perm; [|exact H6]. cbn. unfold enclave_handles. cbn. solve_Permutation.
Qed.

Lemma build_cpu_reps_keeps n e e' : BuildCpuReps n e = Some e' ->
  ctl_fd_ e' = ctl_fd_ e /\ dir_fd_ e' = dir_fd_ e /\ agent_online_fd_ e' = agent_online_fd_ e /\
  data_region_ e' = data_region_ e /\ destroy_when_destructed_ e' = destroy_when_destructed_ e.
Proof. unfold BuildCpuReps. destruct (ToCpuSet _ _); [|done]. destruct (foldl _ _ _); [|done]. by intros [= <-]. Qed.

Lemma new_enclave_ok n c g L h : holds (fdh (enclave_fd_ c) ++ L) h ->
  ok os (NewEnclave SimpleAtoi SimpleAtoiU64 n c g) (constructed (enclave_fd_ c =? -1) L) h.
Proof.
  intros Hh. apply ok_bind. eapply (ok_mono _ _ (constructed (enclave_fd_ c =? -1) L)).
  { destruct (Z.eqb_spec (enclave_fd_ c) (-1)) as [E|E]; [apply create_ok; by rewrite E in Hh|by apply attach_ok]. }
  intros [e g'] h1 (Hd & Ho & H1). cbn [fst snd] in Hd, Ho, H1. destruct (BuildCpuReps n e) as [e'|] eqn:Eb; [|apply ok_abort].
  apply build_cpu_reps_keeps in Eb as (E1 & E2 & E3 & E4 & E5). apply ok_bind.
  apply (ok_mono _ _ (fun _ => holds (enclave_handles e g' ++ L))); [destruct (all_ticks c); [by apply write_tunable_ok|by apply ok_done]|].
  intros _ h2 H2. apply ok_bind. eapply ok_plain; [exact H2|done|]. intros b h3 H3. apply ok_bind, ok_check. intros _. apply ok_done.
  split_and!; cbn [fst snd]; [congruence|congruence|]. unfold enclave_handles. by rewrite E1, E2, E3, E4.
Qed.

Lemma prepare_to_exit_ok e g L h : holds (enclave_handles e g ++ L) h ->
  ok os (PrepareToExit e) (fun e' h' => e' = set_agent_online_fd (-1) e /\ holds (enclave_handles e' g ++ L) h') h.
Proof.
  intros Hh. apply ok_bind. unfold enclave_handles in Hh. rewrite <- app_assoc in Hh. eapply ok_close; [exact Hh|]. intros _ h1 H1.
  apply ok_bind. eapply ok_plain; [exact H1|done|]. intros _ h2 H2. by apply ok_done.
Qed.

Lemma delete_enclave_ok e g L h : holds (enclave_handles e g ++ L) h ->
  ok os (DeleteEnclave e g)
    (fun g' h' => g' = mk_globals (-1) (-1) None /\ holds ((if destroy_when_destructed_ e then [Destruction] else []) ++ L) h') h.
Proof.
  intros Hh. apply ok_bind. eapply ok_mono; [by apply prepare_to_exit_ok|]. intros ? h1 [-> H1].
  apply ok_bind. eapply ok_call; [exact H1|]. intros r h2 H2. apply ok_bind. cbn [destroy_when_destructed_ set_agent_online_fd].
  set (D := if destroy_when_destructed_ e then [Destruction] else []).
  apply (ok_mono _ _ (fun _ => holds (fdh (ctl_fd_ e) ++ fdh (dir_fd_ e) ++ globals_handles g ++ D ++ L))).
  { assert (H2' : holds (fdh (ctl_fd_ e) ++ fdh (dir_fd_ e) ++ globals_handles g ++ L) h2).
    { apply H2. cbn. unfold enclave_handles. cbn. solve_Permutation. }
    unfold D. destruct (destroy_when_destructed_ e); [|by apply ok_done]. apply ok_bind. eapply ok_call; [exact H2'|].
    intros a h3 H3. apply ok_done, H3. cbn [acquired released]. change (destruction (bytes "destroy")) with [Destruction]. solve_Permutation. }
  intros _ h3 H3. apply ok_bind. eapply ok_close; [exact H3|]. intros _ h4 H4. apply ok_bind. eapply ok_close; [exact H4|]. intros _ h5 H5.
  apply ok_bind. apply (ok_mono _ _ (fun _ => holds (D ++ L))); [|intros _ h6 H6; by apply ok_done].
  unfold globals_handles in H5. destruct (gbl_sw_table_ g); [by apply delete_table_ok|by apply ok_done].
Qed.

(** The life of an enclave in a process: it may be advertised, and be prepared for the exit
    before it is destroyed. *)
Definition session (n : Z) (c : AgentConfig) (g : globals) (online early : bool) : prog globals :=
  r <! NewEnclave SimpleAtoi SimpleAtoiU64 n c g ;;
  e <! (if online then AdvertiseOnline (fst r) else done (fst r)) ;;
  e <! (if early then PrepareToExit e else done e) ;;
  DeleteEnclave e (snd r).


End Release.

(** ** Run requests *)

Lemma build_reps_fold n (cpuset : gset Z) txn_cpus l reps :
  (forall i, i ∈ l -> i ∈ cpuset -> txn_cpus !!! Z.to_nat i = i /\ 0 <= i < n) ->
  exists reps', foldl (build_rep n cpuset txn_cpus) (Some reps) l = Some reps' /\
    forall i, reps' !! i = if bool_decide (i ∈ l /\ i ∈ cpuset) then Some (mk_cpu_rep i i) else reps !! i.
Proof.
  intros Hl. induction l as [|j l IH] using rev_ind; [exists reps; split; [done|]; intros i; by rewrite bool_decide_eq_false_2 by set_solver|].
  destruct IH as (reps' & Hf & Hr); [intros i Hi; apply Hl; set_solver|]. rewrite foldl_snoc, Hf. unfold build_rep.
  case_bool_decide as Hj.
  - destruct (Hl j) as [-> Hn]; [set_solver|done|]. unfold check, in_range.
    rewrite (proj2 (Z.leb_le 0 j)), (proj2 (Z.ltb_lt j n)) by lia. eexists. split; [done|]. intros i.
    destruct (decide (i = j)) as [->|Hne]; [rewrite lookup_insert_eq, bool_decide_eq_true_2 by set_solver; done|].
    rewrite lookup_insert_ne, Hr by done. by rewrite (bool_decide_ext (i ∈ l ++ [j] /\ i ∈ cpuset) (i ∈ l /\ i ∈ cpuset)) by set_solver.
  - exists reps'. split; [done|]. intros i. rewrite Hr.
    by rewrite (bool_decide_ext (i ∈ l ++ [j] /\ i ∈ cpuset) (i ∈ l /\ i ∈ cpuset)) by set_solver.
Qed.

(** Where the kernel's transactions are in the order of the CPUs, every CPU of the enclave,
    and no other, gets a request for itself and for its own transaction. *)
Lemma build_cpu_reps_own_transaction n e cpuset :
  ToCpuSet n (enclave_cpus_ e) = Some cpuset -> reps_ e = ∅ ->
  (forall i, 0 <= i < n -> snd (data_region_ e) !!! Z.to_nat i = i) ->
  exists e', BuildCpuReps n e = Some e' /\
    forall i, reps_ e' !! i = if bool_decide (0 <= i < n /\ i ∈ cpuset) then Some (mk_cpu_rep i i) else None.
Proof.
  intros Hs He Ht. unfold BuildCpuReps. rewrite Hs, He.
  destruct (build_reps_fold n cpuset (snd (data_region_ e)) (seqZ 0 n) ∅) as (reps & -> & Hr).
  { intros i Hi%elem_of_seqZ _. split; [apply Ht|]; lia. }
  eexists. split; [done|]. intros i. cbn. rewrite Hr, lookup_empty.
  by rewrite (bool_decide_ext (i ∈ seqZ 0 n /\ i ∈ cpuset) (0 <= i < n /\ i ∈ cpuset)) by (rewrite elem_of_seqZ; naive_solver lia).
Qed.

(** ** Kernels *)

(** Descriptors are numbered by the calls; every file has the content [content], which is
    read [chunk] bytes at a time. *)
Definition demo_fs (chunk : nat) (content : list ascii) : answers fsE := fun h X e =>
  match e in fsE X return X with
  | Open _ => 3 + Z.of_nat (length h)
  | OpenAt _ _ => 3 + Z.of_nat (length h)
  | Lseek _ => tt
  | Read fd n => let data := take (Nat.min chunk (Z.to_nat n)) (drop (pos fd h) content) in (Z.of_nat (length data), data)
  | Write _ data => (Z.of_nat (length data), 0)
  | Close _ => 0
  | EpollCreate => 3 + Z.of_nat (length h)
  | EpollAdd _ _ => 0
  | EpollWait _ => (1, 0)
  | Fstat _ => Some 4096
  | MmapData _ _ => Some (1000 + Z.of_nat (length h), seqZ 0 4)
  | MmapTable _ _ => Some (1000 + Z.of_nat (length h), (1, 0, 0))
  | Munmap _ => 0
  | Sleep => tt
  | ListDir _ => ["enclave_1"; "ctl"]
  | Setmntent => Some (Z.of_nat (length h))
  | Getmntent _ => None
  | Endmntent _ => tt
  | MountGhost => (0, 0)
  | StreamOpen _ => Some (Z.of_nat (length h))
  | StreamLine _ => None
  | StreamText _ => []
  | StreamClose _ => tt
  | Getscheduler => 0
  | Getaffinity => None
  | Getcpu => 0
  | BpfInit => 0
  | BpfDestroy => tt
  end.

Lemma demo_serves chunk content fd : (0 < chunk)%nat -> ServesFile (demo_fs chunk content) fd content.
Proof.
  intros Hc h n Hn. cbn. set (rest := drop _ _). eexists. split; [done|]. split_and!.
  - rewrite length_take. lia.
  - apply prefix_take.
  - destruct rest; [done|]. destruct (Nat.min chunk (Z.to_nat n)) eqn:E; [lia|done].
Qed.

Lemma read_string_reads_all_witness :
  let content := bytes "nr_tasks 7" in
  ServesFile (demo_fs 3 content) 5 content /\
  reaches (demo_fs 3 content) (ReadString 5) (fun r _ => r = Some content) [].
Proof.
  cbv zeta. pose proof (demo_serves 3 (bytes "nr_tasks 7") 5 ltac:(lia)) as Hs. split; [exact Hs|].
  apply (read_string_reads_all (demo_fs 3 (bytes "nr_tasks 7")) 5 (bytes "nr_tasks 7") []). reflexivity.
Defined.

Lemma demo_ghost_fs chunk content : GhostFs (demo_fs chunk content) 0.
Proof. split; [intros h fd n _; cbn; lia|done]. Qed.

Definition demo_config : AgentConfig := mk_config (-1) 0 true (ToCpuList [1; 3]).


(** The old agent is online; the waits return as it changes to and fro. *)
Definition waited (x : entry fsE) : nat :=
  match x with Entry e _ => match e with EpollWait _ => 1%nat | _ => 0%nat end end.

Definition demo_flips (h : history fsE) : nat := Nat.pred (list_sum (waited <$> h)).

Definition demo_online : answers fsE := fun h X e =>
  match e in fsE X return X with
  | Read _ _ => (1, if Nat.even (demo_flips h) then ["1"%char] else ["0"%char])
  | e => demo_fs 1 [] h _ e
  end.

Lemma demo_online_file : OnlineFile demo_online demo_atoi demo_flips 1 0.
Proof.
  split; try (intros; cbn; lia).
  - intros h x. unfold demo_flips. cbn. unfold list_sum. lia.
  - intros h dir fd _. exists (demo_flips h), (if Nat.even (demo_flips h) then ["1"%char] else ["0"%char]).
    change (demo_flips (Entry (Read fd 19) _ :: h)) with (demo_flips h). cbn. unfold online_value.
    destruct (Nat.even (demo_flips h)); (split_and!; [done|done|vm_compute; reflexivity|done|done]).
  - intros h1 h2 ep r _ h _. unfold h, demo_flips. cbn. rewrite fmap_app, list_sum_app. cbn. unfold list_sum. lia.
Qed.

Lemma wait_for_agent_online_value_seen_witness :
  OnlineFile demo_online demo_atoi demo_flips 1 0 /\
  reaches demo_online (WaitForAgentOnlineValue demo_atoi 3 0) (fun r h' => r = Some tt /\ seen demo_flips 1 0 [] h') [].
Proof.
  pose proof demo_online_file as Ho. split; [exact Ho|].
  apply (wait_for_agent_online_value_seen demo_online demo_atoi demo_flips 1 0 3 0 []); lia.
Defined.
End EnclaveProps.
