(* ===== verification/GhostHelper.v ===== *)
(** * The helper for the kernel interface, and client threads

    [Ghost] and [GhostThread] of [src/lib/ghost.h], [src/lib/ghost.cc]: mounting the ghOSt
    file system, the check of the version, entering an enclave, and how the threads of a
    client find one. *)

From Stdlib Require Import Ascii.
From stdpp Require Import strings pretty.
From S2P Require Import Prelude CpuMap Topology.
From ITree Require Import ITree.
From S2P Require Import Interaction EnclaveSetup.
#[local] Open Scope itree_scope.
#[local] Open Scope Z_scope.

Definition SCHED_GHOST : Z := 18.
Definition SCHED_RESET_ON_FORK : Z := 1073741824.

(** A process that goes on or exits. *)
Variant version_check := Supported | Exit (code : Z).

Module Helper.
Import Enclave.
Section Helper.
(** [absl::SimpleAtoi] for [uint32_t] *)
Context (SimpleAtoiU32 : list ascii -> option Z).

(** ** Mounting *)

Definition mounts_round (path : string) (st : Z) : itree fsE (unit + option bool) :=
  ITree.bind (syscall (Getmntent st)) (fun ent =>
    match ent with
    | None => Ret (inr (Some false))
    | Some (mnt_dir, mnt_type) =>
        if String.eqb path mnt_dir && String.eqb "ghost" mnt_type then Ret (inr (Some true)) else Ret (inl tt)
    end).

Definition GhostIsMountedAt (path : string) : prog bool :=
  mounts <! get Setmntent ;;
  match mounts with
  | None => abort
  | Some st =>
      ret <! ITree.iter (fun _ => mounts_round path st) tt ;;
      get (Endmntent st) ;;!
      done ret
  end.

Definition MountGhostfs : prog unit :=
  r <! get MountGhost ;;
  if fst r =? 0 then done tt else CHECK_ (snd r =? EBUSY).

(** ** The version *)

Definition version_round (ver : Z) (versions : list Z) : itree fsE (list Z + option (Z * list Z)) :=
  ITree.bind (syscall (StreamLine ver)) (fun line =>
    match line with
    | None => Ret (inr (Some (0, versions)))
    | Some line =>
        match SimpleAtoiU32 line with
        | Some v => Ret (inl (versions ++ [v]))
        | None => Ret (inr (Some (-1, versions)))
        end
    end).

Definition GetSupportedVersions (versions : list Z) : prog (Z * list Z) :=
  mounted <! GhostIsMountedAt kGhostfsMount ;;
  (if mounted then done tt else MountGhostfs) ;;!
  ver <! get (StreamOpen (kGhostfsMount ++ "/version")) ;;
  match ver with
  | None => done (-1, versions)
  | Some ver =>
      r <! ITree.iter (version_round ver) versions ;;
      get (StreamClose ver) ;;!
      done r
  end.

Definition is_space (c : ascii) : bool :=
  let n := N_of_ascii c in ((9 <=? n)%N && (n <=? 13)%N) || (n =? 32)%N.

Fixpoint until_space (s : list ascii) : list ascii :=
  match s with
  | [] => []
  | c :: s => if is_space c then [] else c :: until_space s
  end.

(** [>>] to a string: the first word. *)
Fixpoint word (s : list ascii) : list ascii :=
  match s with
  | [] => []
  | c :: s' => if is_space c then word s' else until_space s
  end.

(** [absl::StrSplit] at the null characters. *)
Fixpoint split_null (cur s : list ascii) : list (list ascii) :=
  match s with
  | [] => [cur]
  | c :: s => if Ascii.eqb c "000"%char then cur :: split_null [] s else split_null (cur ++ [c]) s
  end.

Definition has_version_flag (cmdline : list ascii) : bool :=
  bool_decide (bytes "--ghost_version" ∈ split_null [] (word cmdline)).

Definition GetVersion : prog bool :=
  st <! get (StreamOpen "/proc/self/cmdline") ;;
  match st with
  | None => done (has_version_flag [])
  | Some st =>
      cmdline <! get (StreamText st) ;;
      get (StreamClose st) ;;!
      done (has_version_flag cmdline)
  end.

Definition CheckVersion : prog version_check :=
  asked <! GetVersion ;;
  if asked then done (Exit 0)
  else
    r <! GetSupportedVersions [] ;;
    CHECK_ (fst r =? 0) ;;!
    done (if bool_decide (GHOST_VERSION ∈ snd r) then Supported else Exit 1).

(** ** Entering an enclave *)

Definition SchedTaskEnterGhost (g : globals) (pid dir_fd : Z) : prog Z :=
  let dir_fd := if dir_fd =? -1 then gbl_dir_fd_ g else dir_fd in
  tasks_fd <! get (OpenAt dir_fd "tasks") ;;
  if tasks_fd <? 0 then done (-1)
  else
    let pid_s := bytes (pretty pid) in
    r <! get (Write tasks_fd pid_s) ;;
    get (Close tasks_fd) ;;!
    done (if fst r =? Z.of_nat (length pid_s) then 0 else -1).

(** The CPUs, and 0 or -1. *)
Definition SchedGetAffinity : prog (Z * bitmap) :=
  allowed <! get Getaffinity ;;
  match allowed with
  | None => done (-1, empty_map)
  | Some allowed =>
      CHECK_ (Z.of_nat (size allowed) <=? MAX_CPUS) ;;!
      CHECK_ (0 <? Z.of_nat (size allowed)) ;;!
      done (0, ToCpuList_set allowed)
  end.

Definition SchedAgentEnterGhost (num_cpus ctl_fd cpu queue_fd : Z) : prog Z :=
  let cmd := bytes ("become agent " ++ pretty cpu ++ " " ++ pretty queue_fd) in
  r <! get (Write ctl_fd cmd) ;;
  if fst r =? Z.of_nat (length cmd) then
    class <! get Getscheduler ;;
    CHECK_ (class =? Z.lor SCHED_GHOST SCHED_RESET_ON_FORK) ;;!
    a <! SchedGetAffinity ;;
    let '(ret, agent_affinity) := a in
    CHECK_ (ret =? 0) ;;!
    CHECK_ (CpuMap.Size num_cpus agent_affinity =? 1) ;;!
    CHECK_ (CpuMap.IsSet agent_affinity cpu) ;;!
    running <! get Getcpu ;;
    CHECK_ (running =? cpu) ;;!
    done 0
  else done (fst r).

(** ** Finding an enclave *)

(** The descriptors of an enclave. *)
Record ctl_dir := mk_ctl_dir { ctl : Z; dir : Z }.

Definition enclave_path (name : string) : string := kGhostfsMount ++ "/" ++ name.

Definition status_round (name : string) (status : Z) : itree fsE (unit + option (option ctl_dir)) :=
  ITree.bind (syscall (StreamLine status)) (fun line =>
    match line with
    | None => Ret (inr (Some None))
    | Some line =>
        if bool_decide (line = bytes "active yes") then
          ITree.bind (syscall (Open (enclave_path name ++ "/ctl"))) (fun ctl =>
            if 0 <=? ctl then
              ITree.bind (syscall (Open (enclave_path name))) (fun dir =>
                if 0 <=? dir then Ret (inr (Some (Some (mk_ctl_dir ctl dir)))) else Ret (inr None))
            else Ret (inl tt))
        else Ret (inl tt)
    end).

Definition search_status (name : string) : prog (option ctl_dir) :=
  status <! get (StreamOpen (enclave_path name ++ "/status")) ;;
  match status with
  | None => done None
  | Some st =>
      r <! ITree.iter (fun _ => status_round name st) tt ;;
      get (StreamClose st) ;;!
      done r
  end.

Fixpoint find_active (names : list string) : prog ctl_dir :=
  match names with
  | [] => done (mk_ctl_dir (-1) (-1))
  | name :: names =>
      r <! (if is_enclave_dir name then search_status name else done None) ;;
      match r with
      | Some cd => done cd
      | None => find_active names
      end
  end.

Definition FindActiveEnclave : prog ctl_dir :=
  names <! get (ListDir kGhostfsMount) ;;
  find_active names.

Definition SetGlobalEnclaveFds (ctl_fd dir_fd : Z) (g : globals) : globals := mk_globals ctl_fd dir_fd (gbl_sw_table_ g).

(** The mutex makes the calls follow each other. *)
Definition SetGlobalEnclaveFdsOnce (g : globals) : prog globals :=
  if gbl_ctl_fd_ g =? -1 then
    CHECK_ (gbl_dir_fd_ g =? -1) ;;!
    cd <! FindActiveEnclave ;;
    done (if 0 <=? ctl cd then SetGlobalEnclaveFds (ctl cd) (dir cd) g else g)
  else done g.

Definition CloseGlobalEnclaveFds (g : globals) : prog globals :=
  (if 0 <=? gbl_ctl_fd_ g then get (Close (gbl_ctl_fd_ g)) ;;! done tt else done tt) ;;!
  (if 0 <=? gbl_dir_fd_ g then get (Close (gbl_dir_fd_ g)) ;;! done tt else done tt) ;;!
  done (SetGlobalEnclaveFds (-1) (-1) g).

(** ** Client threads *)

Inductive KernelScheduler := kCfs | kGhost.
#[global] Instance KernelScheduler_dec : EqDecision KernelScheduler.
Proof. solve_decision. Defined.

(** The constructor of [GhostThread], up to the start of the thread. *)
Definition NewGhostThread (ksched : KernelScheduler) (dir_fd : Z) (g : globals) : prog globals :=
  g <! SetGlobalEnclaveFdsOnce g ;;
  CHECK_ (bool_decide (ksched = kGhost) || (dir_fd =? -1)) ;;!
  done g.

(** The thread, up to its work. *)
Definition thread_begin (ksched : KernelScheduler) (dir_fd : Z) (g : globals) : prog unit :=
  if bool_decide (ksched = kGhost) then
    ret <! SchedTaskEnterGhost g 0 dir_fd ;;
    CHECK_ (ret =? 0)
  else done tt.
End Helper.
End Helper.
