(* ===== verification/GhostHelperProps.v ===== *)
(** * The version check, and the enclave that client threads share *)

From Stdlib Require Import Ascii.
From stdpp Require Import strings pretty.
From S2P Require Import Prelude CpuMap Topology TopologyProps.
From ITree Require Import ITree.
From S2P Require Import Interaction EnclaveSetup EnclaveSetupProps GhostHelper.
#[local] Open Scope itree_scope.
#[local] Open Scope Z_scope.

Module HelperProps.
Import Enclave EnclaveProps Helper.
#[local] Arguments fdh fd : simpl never.

(** Calls that give a stream something to read. *)
Definition opens (x : entry fsE) : bool :=
  match x with Entry e _ => match e with StreamOpen _ | Setmntent => true | _ => false end end.

(** What is left in a stream gets less with every line and every mount that is read; there
    is no file relative to no directory. *)
Class ClientFs (os : answers fsE) (left : history fsE -> Z -> nat) : Prop := {
  left_line : forall h st, is_Some (os h _ (StreamLine st)) ->
    (left (Entry (StreamLine st) (os h _ (StreamLine st)) :: h) st < left h st)%nat;
  left_mount : forall h st, is_Some (os h _ (Getmntent st)) ->
    (left (Entry (Getmntent st) (os h _ (Getmntent st)) :: h) st < left h st)%nat;
  left_other : forall h x st, opens x = false -> (left (x :: h) st <= left h st)%nat;
  openat_nowhere : forall h path, os h _ (OpenAt (-1) path) < 0 }.

(** ** Finding an enclave *)

(** A thread is constructed, or begins, in any order. *)
Inductive client_op := New (ksched : KernelScheduler) (dir_fd : Z) | Begin (ksched : KernelScheduler) (dir_fd : Z).

Fixpoint clients (ops : list client_op) (g : globals) : prog globals :=
  match ops with
  | [] => done g
  | New k d :: ops => g <! NewGhostThread k d g ;; clients ops g
  | Begin k d :: ops => thread_begin k d g ;;! clients ops g
  end.

(** The threads that enter an enclave, and the directories that were named. *)
Definition enters (op : client_op) : bool := match op with Begin kGhost _ => true | _ => false end.
Definition named_dir (op : client_op) : Z := match op with Begin _ d | New _ d => d end.

Section Clients.
Context (os : answers fsE) (left : history fsE -> Z -> nat) `{Hos : !ClientFs os left}.
Implicit Type h : history fsE.

Definition found (cd : option ctl_dir) L h : Prop :=
  match cd with
  | Some cd => 0 <= ctl cd /\ 0 <= dir cd /\ holds (fdh (ctl cd) ++ fdh (dir cd) ++ L) h
  | None => holds L h
  end.

Lemma status_round_reaches name st L h : holds L h ->
  reaches os (status_round name st) (fun lr h' =>
    match lr with
    | inl _ => holds L h' /\ (left h' st < left h st)%nat
    | inr r => match r with Some cd => found cd L h' | None => True end
    end) h.
Proof.
  intros Hh. unfold status_round. apply reaches_bind, reaches_call. pose proof (left_line h st) as Hl.
  set (h1 := Entry _ _ :: h) in *. assert (H1 : holds L h1) by (eapply holds_cons; [exact Hh|]; cbn; by rewrite app_nil_r).
  destruct (os h _ (StreamLine st)) as [line|]; [|by apply reaches_ret]. specialize (Hl ltac:(done)).
  case_bool_decide; [|by apply reaches_ret]. apply reaches_bind, reaches_call. set (c := os h1 _ _). set (h2 := Entry _ c :: h1).
  assert (H2 : holds (fdh c ++ L) h2) by (eapply holds_cons; [exact H1|]; cbn; by rewrite app_nil_r).
  destruct (Z.leb_spec 0 c) as [Hc|Hc].
  - apply reaches_bind, reaches_call. set (d := os h2 _ _). destruct (Z.leb_spec 0 d) as [Hd|Hd]; apply reaches_ret; [|done].
    split_and!; [done|done|]. eapply holds_cons; [exact H2|]. cbn. rewrite app_nil_r. solve_Permutation.
  - apply reaches_ret. split; [by unfold fdh in H2; rewrite (proj2 (Z.leb_gt _ _) Hc) in H2|].
    pose proof (left_other h1 (Entry (Open (enclave_path name ++ "/ctl")) c) st ltac:(done)). fold h2 in H0. lia.
Qed.

Lemma search_status_ok name L h : holds L h -> ok os (search_status name) (fun cd => found cd L) h.
Proof.
  intros Hh. apply ok_bind. eapply ok_call; [exact Hh|]. intros [st|] h1 H1; [|apply ok_done, H1; cbn; by rewrite app_nil_r].
  apply ok_bind. apply (ok_mono _ _ (fun cd => found cd (Stream st :: L))).
  - apply (reaches_iter os (fun _ h => holds (Stream st :: L) h) (fun _ h => left h st)); [|apply H1; cbn; by rewrite app_nil_r].
    intros [] h' Hh'. by apply status_round_reaches.
  - intros cd h2 H2. apply ok_bind. destruct cd as [cd|].
    + destruct H2 as (Hc & Hd & H2). eapply ok_call; [exact H2|]. intros ? h3 H3. apply ok_done. split_and!; [done|done|].
      apply H3. cbn. solve_Permutation.
    + eapply ok_call; [exact H2|]. intros ? h3 H3. apply ok_done, H3. cbn. apply Permutation_cons_append.
Qed.

Definition cd_found (cd : ctl_dir) L h : Prop :=
  0 <= ctl cd /\ 0 <= dir cd /\ holds (fdh (ctl cd) ++ fdh (dir cd) ++ L) h \/ cd = mk_ctl_dir (-1) (-1) /\ holds L h.

Lemma find_active_ok names L h : holds L h -> ok os (find_active names) (fun cd => cd_found cd L) h.
Proof.
  revert h. induction names as [|name names IH]; intros h Hh; cbn [find_active]; [apply ok_done; by right|]. apply ok_bind.
  apply (ok_mono _ _ (fun cd => found cd L)); [destruct (is_enclave_dir name); [by apply search_status_ok|by apply ok_done]|].
  intros [cd|] h1 H1; [apply ok_done; by left|by apply IH].
Qed.

(** The globals are set at most once. *)
Lemma set_once_ok g L h : holds (fdh (gbl_ctl_fd_ g) ++ fdh (gbl_dir_fd_ g) ++ L) h ->
  ok os (SetGlobalEnclaveFdsOnce g) (fun g' h' =>
    holds (fdh (gbl_ctl_fd_ g') ++ fdh (gbl_dir_fd_ g') ++ L) h' /\
    (g' = g \/ gbl_ctl_fd_ g = -1 /\ gbl_dir_fd_ g = -1 /\ 0 <= gbl_ctl_fd_ g')) h.
Proof.
  intros Hh. unfold SetGlobalEnclaveFdsOnce. destruct (Z.eqb_spec (gbl_ctl_fd_ g) (-1)) as [Ec|Ec]; [|apply ok_done; by split; [|left]].
  apply ok_bind, ok_check. intros Ed%Z.eqb_eq. rewrite Ec, Ed in Hh. apply ok_bind. unfold FindActiveEnclave. apply ok_bind.
  eapply ok_plain; [exact Hh|done|]. intros names h1 H1. eapply ok_mono; [by apply find_active_ok|].
  intros cd h2 [(Hc & Hd & H2)|[-> H2]]; apply ok_done.
  - rewrite (proj2 (Z.leb_le _ _) Hc). cbn. split; [done|]. right. done.
  - cbn. rewrite Ec, Ed. split; [done|by left].
Qed.

(** The uses of directories by threads. *)
Definition joined_in (g : globals) (ops : list client_op) (d : Z) : Prop := d <> -1 /\ (d = gbl_dir_fd_ g \/ d ∈ named_dir <$> ops).

Lemma thread_begin_ok k d g L h : holds L h ->
  ok os (thread_begin k d g) (fun _ h' => exists js, holds ((Joined <$> js) ++ L) h' /\
    length js = (if enters (Begin k d) then 1%nat else 0%nat) /\ Forall (joined_in g [Begin k d]) js) h.
Proof.
  intros Hh. unfold thread_begin. destruct k; cbn [bool_decide enters]; [apply ok_done; by exists []|].
  rewrite bool_decide_eq_true_2 by done. set (d' := if d =? -1 then gbl_dir_fd_ g else d).
  apply ok_bind. unfold SchedTaskEnterGhost. fold d'. apply ok_bind, ok_get. pose proof (openat_nowhere h "tasks") as Hno.
  assert (Hd' : d' <> -1 \/ os h _ (OpenAt d' "tasks") < 0) by (destruct (decide (d' = -1)) as [->|]; auto).
  set (fd := os h _ (OpenAt d' "tasks")) in *. set (h1 := Entry (OpenAt d' "tasks") fd :: h).
  destruct (Z.ltb_spec fd 0) as [Hf|Hf]; [by apply ok_done, ok_check|]. apply ok_bind.
  assert (H1 : holds (fdh fd ++ Joined d' :: L) h1).
  { eapply holds_cons; [exact Hh|]. cbn. unfold joining. cbn. rewrite (proj2 (Z.leb_le 0 fd) Hf), app_nil_r. cbn. solve_Permutation. }
  eapply ok_write; [exact H1|vm_compute; reflexivity|]. intros r h2 H2. apply ok_bind. eapply ok_close; [exact H2|]. intros ? h3 H3. apply ok_done, ok_check. intros _.
  exists [d']. split_and!; [done|done|]. apply Forall_singleton. split; [destruct Hd'; [done|lia]|].
  unfold d'. destruct (d =? -1); [by left|right]. set_solver.
Qed.

Lemma joined_in_more g ops ops' d : joined_in g ops d -> ops ⊆ ops' -> joined_in g ops' d.
Proof. intros [Hd Hj] Hs. split; [done|]. destruct Hj as [|Hj]; [by left|right]. set_solver. Qed.

Lemma clients_ok ops g L h :
  holds (fdh (gbl_ctl_fd_ g) ++ fdh (gbl_dir_fd_ g) ++ L) h ->
  ok os (clients ops g) (fun g' h' => exists js,
    holds (fdh (gbl_ctl_fd_ g') ++ fdh (gbl_dir_fd_ g') ++ (Joined <$> js) ++ L) h' /\
    length js = length (List.filter enters ops) /\ Forall (joined_in g' ops) js /\
    (g' = g \/ gbl_ctl_fd_ g = -1 /\ gbl_dir_fd_ g = -1 /\ 0 <= gbl_ctl_fd_ g')) h.
Proof.
  revert g L h. induction ops as [|[k d|k d] ops IH]; intros g L h Hh; cbn [clients].
  - apply ok_done. exists []. split_and!; [done|done|constructor|by left].
  - apply ok_bind. unfold NewGhostThread. apply ok_bind. eapply ok_mono; [by apply set_once_ok|]. intros g1 h1 [H1 Hg].
    apply ok_bind, ok_check. intros _. apply ok_done. eapply ok_mono; [by apply IH|]. intros g' h' (js & Hj & Hlen & Hall & Hg').
    exists js. split_and!; [done|done| |naive_solver lia].
    eapply Forall_impl; [exact Hall|]. intros x Hx. eapply joined_in_more; [exact Hx|set_solver].
  - apply ok_bind. eapply ok_mono; [by apply thread_begin_ok|]. intros _ h1 (js & H1 & Hlen & Hall).
    eapply ok_mono; [apply (IH g ((Joined <$> js) ++ L)); eapply holds_perm; [|exact H1]; solve_Permutation|].
    intros g' h' (js' & Hj & Hlen' & Hall' & Hg'). exists (js' ++ js). split_and!; [| | |done].
    + rewrite fmap_app. eapply holds_perm; [|exact Hj]. solve_Permutation.
    + rewrite length_app, Hlen, Hlen'. cbn [List.filter]. destruct (enters (Begin k d)); cbn [length]; lia.
    + apply Forall_app. split; (eapply Forall_impl; [eassumption|]); intros x Hx; [eapply joined_in_more; [exact Hx|set_solver]|].
      destruct Hx as [Hx Hd]. split; [done|]. destruct Hg' as [->|(_ & Ed & _)]; destruct Hd as [Hd|Hd]; try (by left); try (right; set_solver).
Qed.

End Clients.

(** ** The version *)

(** A command line as the kernel shows it. *)
Definition cmdline_of (args : list (list ascii)) : list ascii := mjoin ((fun a => a ++ ["000"%char]) <$> args).

Definition plain (c : ascii) : Prop := is_space c = false /\ c <> "000"%char.

Lemma split_null_arg cur a s : Forall plain a -> split_null cur (a ++ "000"%char :: s) = (cur ++ a) :: split_null [] s.
Proof.
  intros Ha. revert cur. induction Ha as [|c a [_ Hc] _ IH]; intros cur; cbn; [by rewrite app_nil_r|].
  destruct (Ascii.eqb_spec c "000"%char); [done|]. by rewrite IH, <- app_assoc.
Qed.

Lemma until_space_none s : Forall (fun c => is_space c = false) s -> until_space s = s.
Proof. induction 1 as [|c s Hc _ IH]; cbn; [done|]. by rewrite Hc, IH. Qed.

Lemma word_none s : Forall (fun c => is_space c = false) s -> word s = s.
Proof. intros [|c s' Hc Hs]; [done|]. cbn. rewrite Hc. f_equal. by apply until_space_none. Qed.

Lemma has_version_flag_args args : Forall (Forall plain) args ->
  has_version_flag (cmdline_of args) = bool_decide (bytes "--ghost_version" ∈ args).
Proof.
  intros Ha. unfold has_version_flag. rewrite word_none.
  2:{ induction Ha as [|a args Ha _ IH]; [constructor|]. cbn. rewrite !Forall_app. split_and!; [|by repeat constructor|done].
      eapply Forall_impl; [exact Ha|]. by intros c []. }
  assert (E : split_null [] (cmdline_of args) = args ++ [[]]).
  { induction Ha as [|a args Ha _ IH]; [done|]. cbn. rewrite <- app_assoc. cbn. rewrite split_null_arg by done. cbn. by f_equal. }
  rewrite E. apply bool_decide_ext. rewrite elem_of_app, list_elem_of_singleton. naive_solver.
Qed.

(** A blank in an argument hides the flag after it. *)
Example version_flag_hidden :
  has_version_flag (cmdline_of [bytes "agent"; bytes "--note=a b"; bytes "--ghost_version"]) = false.
Proof. vm_compute. reflexivity. Qed.

Definition version_path : string := kGhostfsMount ++ "/version".
Definition is_line (st : Z) (x : entry fsE) : Prop := exists a, x = Entry (StreamLine st) a.

(** The process was started with [args]; the ghOSt file system is or can be mounted, and its
    version file has [lines]. *)
Class VersionFs (os : answers fsE) (args lines : list (list ascii)) : Prop := {
  cmdline_opens : forall h, is_Some (os h _ (StreamOpen "/proc/self/cmdline"));
  cmdline_text : forall h st, os (Entry (StreamOpen "/proc/self/cmdline") (Some st) :: h) _ (StreamText st) = cmdline_of args;
  mounts_open : forall h, is_Some (os h _ Setmntent);
  mount_succeeds : forall h, fst (os h _ MountGhost) = 0 \/ snd (os h _ MountGhost) = EBUSY;
  version_opens : forall h, is_Some (os h _ (StreamOpen version_path));
  version_line : forall h l st, Forall (is_line st) l ->
    os (l ++ Entry (StreamOpen version_path) (Some st) :: h) _ (StreamLine st) = lines !! length l }.

Section Version.
Context (os : answers fsE) (left : history fsE -> Z -> nat) `{Hos : !ClientFs os left}.
Context (args lines : list (list ascii)) `{Hv : !VersionFs os args lines} (SimpleAtoiU32 : list ascii -> option Z).
Implicit Type h : history fsE.

Lemma mounted_reaches path h : reaches os (GhostIsMountedAt path) (fun r _ => is_Some r) h.
Proof.
  unfold GhostIsMountedAt. apply reaches_get. destruct (mounts_open h) as [st Hst]. rewrite Hst. set (h1 := _ :: h).
  apply reaches_bindP. eapply (reaches_mono _ _ (fun r _ => is_Some r)).
  - apply (reaches_iter os (fun _ _ => True) (fun _ h => left h st)); [|done]. intros [] h2 _. unfold mounts_round.
    apply reaches_bind, reaches_call. pose proof (left_mount h2 st) as Hl. destruct (os h2 _ (Getmntent st)) as [[d t]|]; [|by apply reaches_ret].
    specialize (Hl ltac:(done)). destruct (_ && _); by apply reaches_ret.
  - intros r h2 [b ->]. exists b. split; [done|]. apply reaches_get. by apply reaches_ret.
Qed.

Lemma versions_reaches ver h :
  reaches os (ITree.iter (version_round SimpleAtoiU32 ver) []) (fun r _ => exists vs,
    r = Some (match mapM SimpleAtoiU32 lines with Some _ => 0 | None => -1 end, vs) /\
    (forall vs', mapM SimpleAtoiU32 lines = Some vs' -> vs = vs')) (Entry (StreamOpen version_path) (Some ver) :: h).
Proof.
  apply (reaches_iter os (fun vs h' => exists l, h' = l ++ Entry (StreamOpen version_path) (Some ver) :: h /\ Forall (is_line ver) l /\
    Forall2 (fun x v => SimpleAtoiU32 x = Some v) (take (length l) lines) vs /\ (length l <= length lines)%nat)
    (fun vs _ => (length lines - length vs)%nat)); [|exists []; split_and!; [done|constructor|constructor|cbn; lia]].
  intros vs h' (l & -> & Hl & H2 & Hlen). unfold version_round. apply reaches_bind, reaches_call. rewrite (version_line h l ver Hl).
  pose proof (Forall2_length _ _ _ H2) as Hvs. rewrite length_take, Nat.min_l in Hvs by done.
  destruct (lines !! length l) as [line|] eqn:El.
  - destruct (SimpleAtoiU32 line) as [v|] eqn:Ev; apply reaches_ret.
    + split; [|rewrite length_app; apply lookup_lt_Some in El; cbn; lia]. eexists (_ :: l). split_and!; [done|constructor; [by eexists|done]| |].
      * cbn [length]. rewrite (take_S_r _ _ _ El). apply Forall2_app; [done|by constructor].
      * apply lookup_lt_Some in El. cbn. lia.
    + assert (Hn : mapM SimpleAtoiU32 lines = None) by (apply mapM_None, Exists_exists; exists line; split; [by eapply list_elem_of_lookup_2|done]).
      rewrite Hn. exists vs. done.
  - apply lookup_ge_None in El. rewrite take_ge in H2 by done. apply mapM_Some in H2. rewrite H2. apply reaches_ret. exists vs. split; [done|]. congruence.
Qed.

Lemma supported_versions_reaches h :
  reaches os (GetSupportedVersions SimpleAtoiU32 []) (fun r _ => exists vs,
    r = Some (match mapM SimpleAtoiU32 lines with Some _ => 0 | None => -1 end, vs) /\
    (forall vs', mapM SimpleAtoiU32 lines = Some vs' -> vs = vs')) h.
Proof.
  unfold GetSupportedVersions. fold version_path. apply reaches_bindP. eapply reaches_mono; [apply mounted_reaches|].
  intros r h1 [b ->]. exists b. split; [done|]. apply reaches_bindP.
  apply (reaches_mono _ _ (fun r _ => r = Some tt)).
  { destruct b; [by apply reaches_ret|]. unfold MountGhostfs. apply reaches_get.
    destruct (Z.eqb_spec (fst (os h1 _ MountGhost)) 0); [by apply reaches_ret|].
    destruct (mount_succeeds h1) as [|E]; [done|]. rewrite E. by apply reaches_ret. }
  intros r h2 ->. exists tt. split; [done|]. apply reaches_get. destruct (version_opens h2) as [ver Hver]. rewrite Hver.
  apply reaches_bindP. eapply reaches_mono; [apply versions_reaches|]. intros r h3 (vs & -> & Hvs). eexists. split; [done|].
  apply reaches_get, reaches_ret. eauto.
Qed.

(** The check of the version.  Asked for its version, a program exits with 0 before it
    looks at the kernel's; otherwise it goes on exactly if its version is among those in
    the version file, exits with 1 if it is not, and aborts if a line of the file is not a
    number; it mounts the file system if need be. *)
Theorem check_version_decides h : Forall (Forall plain) args ->
  reaches os (CheckVersion SimpleAtoiU32) (fun r _ =>
    r = if bool_decide (bytes "--ghost_version" ∈ args) then Some (Exit 0)
        else (fun vs => if bool_decide (GHOST_VERSION ∈ vs) then Supported else Exit 1) <$> mapM SimpleAtoiU32 lines) h.
Proof.
  intros Ha. unfold CheckVersion. apply reaches_bindP.
  apply (reaches_mono _ _ (fun r _ => r = Some (bool_decide (bytes "--ghost_version" ∈ args)))).
  { unfold GetVersion. apply reaches_get. destruct (cmdline_opens h) as [st Hst]. rewrite Hst. do 2 apply reaches_get.
    rewrite cmdline_text, has_version_flag_args by done. by apply reaches_ret. }
  intros r h1 ->. eexists. split; [done|]. case_bool_decide; [by apply reaches_ret|].
  apply reaches_bindP. eapply reaches_mono; [apply supported_versions_reaches|]. intros r h2 (vs & -> & Hvs). eexists. split; [done|].
  cbn [fst snd]. destruct (mapM SimpleAtoiU32 lines) as [vs'|] eqn:Em.
  - rewrite (Hvs vs' eq_refl). apply reaches_check; [done|]. by apply reaches_ret.
  - apply reaches_bind. by do 2 apply reaches_ret.
Qed.
End Version.

(** ** A machine *)

Definition client_lines (st : Z) (path : string) : list (list ascii) :=
  if String.eqb path version_path then [bytes "90"; bytes "91"] else [bytes "id 1"; bytes "active yes"].

(** The lines read of a stream since its opening, and its path. *)
Fixpoint read_lines (st : Z) (h : history fsE) : nat * string :=
  match h with
  | [] => (0%nat, EmptyString)
  | Entry e a :: h =>
      match e in fsE X return X -> nat * string with
      | StreamLine st' => fun _ => if st' =? st then (S (fst (read_lines st h)), snd (read_lines st h)) else read_lines st h
      | StreamOpen path => fun a => match a with Some st' => if st' =? st then (0%nat, path) else read_lines st h | None => read_lines st h end
      | _ => fun _ => read_lines st h
      end a
  end.

Definition client_os : answers fsE := fun h X e =>
  match e in fsE X return X with
  | StreamLine st => let '(n, path) := read_lines st h in client_lines st path !! n
  | StreamText _ => cmdline_of [bytes "agent"; bytes "--cpus=1-3"]
  | OpenAt d _ => if d =? -1 then -1 else 3 + Z.of_nat (length h)
  | e => demo_fs 1 [] h _ e
  end.

Definition client_left (h : history fsE) (st : Z) : nat := 2 - fst (read_lines st h).

Lemma client_lines_length st path : length (client_lines st path) = 2%nat.
Proof. unfold client_lines. by destruct (String.eqb _ _). Qed.

Lemma client_os_fs : ClientFs client_os client_left.
Proof.
  split.
  - intros h st [line Hl]. unfold client_left. rewrite Hl. cbn in Hl |- *. rewrite Z.eqb_refl. cbn.
    destruct (read_lines st h) as [n path]. apply lookup_lt_Some in Hl. rewrite client_lines_length in Hl. cbn. lia.
  - intros h st [x Hx]. done.
  - intros h [X e a] st Ho. unfold client_left. destruct e; cbn in *; try lia; try done. destruct (_ =? _); cbn; lia.
  - intros h path. done.
Qed.

Lemma client_os_version : VersionFs client_os [bytes "agent"; bytes "--cpus=1-3"] [bytes "90"; bytes "91"].
Proof.
  split; try (intros; cbn; by eauto).
  intros h l st Hl. cbn. assert (E : read_lines st (l ++ Entry (StreamOpen version_path) (Some st) :: h) = (length l, version_path)).
  { induction Hl as [|x l [a ->] _ IH]; cbn; rewrite Z.eqb_refl; [done|]. by rewrite IH. }
  by rewrite E.
Qed.

Lemma check_version_decides_witness :
  VersionFs client_os [bytes "agent"; bytes "--cpus=1-3"] [bytes "90"; bytes "91"] /\
  reaches client_os (CheckVersion demo_atoi) (fun r _ => r = Some Supported) [].
Proof.
  pose proof client_os_fs as Hc. pose proof client_os_version as Hv. split; [exact Hv|].
  refine (reaches_mono client_os _ _ _ _ (check_version_decides client_os client_left [bytes "agent"; bytes "--cpus=1-3"]
    [bytes "90"; bytes "91"] demo_atoi [] _) _).
  - repeat (constructor; [repeat (constructor; [split; [reflexivity|discriminate]|]); constructor|]). constructor.
  - intros r h' Hr. rewrite Hr. vm_compute. reflexivity.
Defined.

End HelperProps.
