(* ===== verification/Globals.v ===== *)
(** * Process-wide objects, and spinning

    The topologies of a process ([MachineTopology], [TestTopology], [CustomTopology] with their
    updates, [src/lib/topology.cc]), the helper for the kernel interface ([GhostHelper],
    [UpdateGhostHelper], [src/lib/ghost.cc]) and [SpinFor] ([src/lib/base.cc]). *)

From S2P Require Import Prelude.
From ITree Require Import ITree.
From S2P Require Import Interaction.
#[local] Open Scope Z_scope.

(** ** Objects that are replaced *)

Module Globals.
Section Objects.
(** Topologies and helpers. *)
Context {T G : Type}.

(** Objects on the heap by address, and the pointers of the process. *)
Record process := mk_process {
  topologies : gmap nat T;
  helpers : gmap nat G;
  next : nat;
  machine : option nat;          (* the static variable of [MachineTopology] *)
  test_topology : option nat;
  custom_topology : option nat;
  ghost_helper_ptr : option nat }.

Notation P := (M process).

Definition set_topologies (m : gmap nat T) (p : process) : process :=
  mk_process m (helpers p) (next p) (machine p) (test_topology p) (custom_topology p) (ghost_helper_ptr p).

Definition new_topology (t : T) : P nat := fun p =>
  Some (next p, mk_process (<[next p := t]> (topologies p)) (helpers p) (S (next p)) (machine p) (test_topology p) (custom_topology p) (ghost_helper_ptr p)).

Definition new_helper (g : G) : P nat := fun p =>
  Some (next p, mk_process (topologies p) (<[next p := g]> (helpers p)) (S (next p)) (machine p) (test_topology p) (custom_topology p) (ghost_helper_ptr p)).

(** [delete]; a failure if the object is gone. *)
Definition delete_topology (a : nat) : P unit :=
  p <- mget ;; deref (topologies p !! a) ;;; mmod (set_topologies (delete a (topologies p))).

(** The host is read once. *)
Definition MachineTopology (InitHost : T) : P nat :=
  p <- mget ;;
  match machine p with
  | Some a => mret a
  | None =>
      a <- new_topology InitHost ;;
      mmod (fun p => mk_process (topologies p) (helpers p) (next p) (Some a) (test_topology p) (custom_topology p) (ghost_helper_ptr p)) ;;;
      mret a
  end.

Definition UpdateTestTopology (InitTest : T) : P unit :=
  p <- mget ;;
  (match test_topology p with Some a => delete_topology a | None => mret tt end) ;;;
  a <- new_topology InitTest ;;
  mmod (fun p => mk_process (topologies p) (helpers p) (next p) (machine p) (Some a) (custom_topology p) (ghost_helper_ptr p)).

Definition TestTopology : P nat := p <- mget ;; deref (test_topology p).

Definition UpdateCustomTopology (InitCustom : T) : P unit :=
  p <- mget ;;
  (match custom_topology p with Some a => delete_topology a | None => mret tt end) ;;;
  a <- new_topology InitCustom ;;
  mmod (fun p => mk_process (topologies p) (helpers p) (next p) (machine p) (test_topology p) (Some a) (ghost_helper_ptr p)).

Definition CustomTopology : P nat := p <- mget ;; deref (custom_topology p).

Definition GhostHelper : P nat := p <- mget ;; deref (ghost_helper_ptr p).

(** [ghost_helper] may be null. *)
Definition UpdateGhostHelper (ghost_helper : option nat) : P unit :=
  a <- deref ghost_helper ;;
  p <- mget ;;
  (match ghost_helper_ptr p with
   | Some old =>
       deref (helpers p !! old) ;;;
       mmod (fun p => mk_process (topologies p) (delete old (helpers p)) (next p) (machine p) (test_topology p) (custom_topology p) (ghost_helper_ptr p))
   | None => mret tt
   end) ;;;
  mmod (fun p => mk_process (topologies p) (helpers p) (next p) (machine p) (test_topology p) (custom_topology p) (Some a)).

(** At the start: the helper of the library. *)
Definition start (g : G) : process := mk_process ∅ {[ 0%nat := g ]} 1 None None None (Some 0%nat).
End Objects.
Arguments process : clear implicits.
End Globals.

(** ** Spinning *)

Variant clockE : Type -> Type := MonotonicNow : clockE Z.

Module Spin.

(** Nanoseconds. *)
Definition Microseconds (n : Z) : Z := n * 1000.

(** The reads of the clock of one round: the last difference. *)
Fixpoint poll (n : nat) (start delta : Z) : itree clockE Z :=
  match n with
  | O => Ret delta
  | S n =>
      ITree.bind (syscall MonotonicNow) (fun now =>
      let delta := now - start in
      if Microseconds 10 <? delta then Ret delta else poll n start delta)
  end.

Definition round (remaining : Z) : itree clockE (Z + unit) :=
  if 0 <? remaining then
    ITree.bind (syscall MonotonicNow) (fun start =>
    ITree.bind (poll 100 start 0) (fun delta =>
    Ret (inl (if delta <? Microseconds 100 then remaining - delta else remaining))))
  else Ret (inr tt).

Definition SpinFor (remaining : Z) : itree clockE unit := ITree.iter round remaining.
End Spin.

(** ** What holds of them *)

Module GlobalsProps.
Import Globals.

Section Objects.
Context {T G : Type}.
Implicit Type p : process T G.

(** Every pointer is to a live object of its own, and nothing else is alive. *)
Definition pointers p : list nat := option_list (machine p) ++ option_list (test_topology p) ++ option_list (custom_topology p).

Record ok p : Prop := {
  ok_next : (forall a, is_Some (topologies p !! a) -> (a < next p)%nat) /\ (forall a, is_Some (helpers p !! a) -> (a < next p)%nat);
  ok_topologies : dom (topologies p) = list_to_set (pointers p);
  ok_distinct : NoDup (pointers p);
  ok_helper : exists a g, ghost_helper_ptr p = Some a /\ helpers p = {[ a := g ]} }.

Lemma start_process_ok g : ok (start (T := T) g).
Proof.
  split; cbn; [split; intros a [x Hx]|done|constructor|by exists 0%nat, g].
  - by rewrite lookup_empty in Hx.
  - apply lookup_singleton_Some in Hx. lia.
Qed.

Lemma ok_pointer p a : ok p -> a ∈ pointers p -> exists t, topologies p !! a = Some t /\ (a < next p)%nat.
Proof.
  intros [[Hn _] Hd _ _] Ha. assert (Hin : a ∈ dom (topologies p)) by (rewrite Hd; by apply elem_of_list_to_set).
  apply elem_of_dom in Hin as [t Ht]. exists t. split; [done|]. apply Hn. by exists t.
Qed.

(** The objects behind the pointers. *)
Definition view p : option T * option T * option T * option G :=
  (machine p ≫= (fun a => topologies p !! a), test_topology p ≫= (fun a => topologies p !! a), custom_topology p ≫= (fun a => topologies p !! a),
   ghost_helper_ptr p ≫= (fun a => helpers p !! a)).

(** Calls of a process, in any order. *)
Inductive op := Machine (t : T) | UpdateTest (t : T) | UpdateCustom (t : T) | UpdateHelper (g : G).

Definition run_op (o : op) : M (process T G) unit :=
  match o with
  | Machine t => MachineTopology t ;;; mret tt
  | UpdateTest t => UpdateTestTopology t
  | UpdateCustom t => UpdateCustomTopology t
  | UpdateHelper g => a <- new_helper g ;; UpdateGhostHelper (Some a)
  end.

(** What a call is to do: the host is read once, the others are replaced. *)
Definition spec_op (o : op) (v : option T * option T * option T * option G) : option T * option T * option T * option G :=
  let '(m, te, c, h) := v in
  match o with
  | Machine t => (Some (default t m), te, c, h)
  | UpdateTest t => (m, Some t, c, h)
  | UpdateCustom t => (m, te, Some t, h)
  | UpdateHelper g => (m, te, c, Some g)
  end.

(** A topology replaces the one its pointer had. *)
Lemma ok_replaced p p' old l1 l2 :
  ok p -> pointers p = l1 ++ option_list old ++ l2 -> pointers p' = l1 ++ next p :: l2 ->
  next p' = S (next p) -> helpers p' = helpers p -> ghost_helper_ptr p' = ghost_helper_ptr p ->
  dom (topologies p') = {[ next p ]} ∪ (dom (topologies p) ∖ list_to_set (option_list old)) -> ok p'.
Proof.
  intros Hok El El' En Eh Eg Ed. pose proof (fun a Ha => ok_pointer p a Hok Ha) as Hlive. destruct Hok as [[Hn Hnh] Hd Hnd Hh].
  assert (Hfresh : next p ∉ pointers p) by (intros Hin; destruct (Hlive _ Hin) as (_ & _ & ?); lia).
  rewrite El in Hd, Hnd, Hfresh. rewrite !NoDup_app in Hnd. split.
  - rewrite En, Eh. split; intros a Ha; [|specialize (Hnh a Ha); lia]. apply elem_of_dom in Ha. rewrite Ed in Ha.
    apply elem_of_union in Ha as [->%elem_of_singleton|[Ha%elem_of_dom _]%elem_of_difference]; [lia|]. specialize (Hn a Ha). lia.
  - rewrite Ed, Hd, El'. set_solver.
  - rewrite El', NoDup_middle, NoDup_app. set_solver.
  - by rewrite Eg, Eh.
Qed.

Lemma fresh_pointer p a : ok p -> a ∈ pointers p -> a <> next p.
Proof. intros Hok Ha. destruct (ok_pointer p a Hok Ha) as (_ & _ & H). lia. Qed.

(** The old topology is deleted, the new one gets an address of its own. *)
Lemma replace_topology {B} p (old : option nat) t (k : nat -> M (process T G) B) (Q : B -> process T G -> Prop) :
  ok p -> (forall a, old = Some a -> a ∈ pointers p) ->
  (forall m, m !! next p = Some t -> (forall a, a ∈ pointers p -> old <> Some a -> m !! a = topologies p !! a) ->
     dom m = {[ next p ]} ∪ (dom (topologies p) ∖ list_to_set (option_list old)) ->
     wp (k (next p)) Q (mk_process m (helpers p) (S (next p)) (machine p) (test_topology p) (custom_topology p) (ghost_helper_ptr p))) ->
  wp ((match old with Some a => delete_topology a | None => mret tt end) ;;; a <- new_topology t ;; k a) Q p.
Proof.
  intros Hok Hold HQ. wp_step. destruct old as [a|].
  - destruct (ok_pointer p a Hok (Hold a eq_refl)) as (t0 & Ht0 & _). unfold delete_topology. do 4 wp_step; [exact Ht0|]. do 2 wp_step.
    eapply wp_intro; [reflexivity|]. apply HQ; cbn; [by rewrite lookup_insert_eq| |rewrite dom_insert_L, dom_delete_L; set_solver].
    intros b Hb Hne. pose proof (fresh_pointer p b Hok Hb). rewrite lookup_insert_ne, lookup_delete_ne by congruence. done.
  - do 2 wp_step. eapply wp_intro; [reflexivity|]. apply HQ; [by rewrite lookup_insert_eq| |rewrite dom_insert_L; set_solver].
    intros b Hb _. pose proof (fresh_pointer p b Hok Hb). by rewrite lookup_insert_ne by congruence.
Qed.

(** Pointers other than [old] lead where they led. *)
Lemma view_kept p (m : gmap nat T) (old x : option nat) :
  (forall a, a ∈ pointers p -> old <> Some a -> m !! a = topologies p !! a) ->
  (forall a, x = Some a -> a ∈ pointers p /\ old <> Some a) -> x ≫= (fun a => m !! a) = x ≫= (fun a => topologies p !! a).
Proof. intros Hm Hx. destruct x as [a|]; [|done]. cbn. destruct (Hx a eq_refl). auto. Qed.

Lemma machine_ok t p : ok p -> wp (run_op (Machine t)) (fun _ p' => ok p' /\ view p' = spec_op (Machine t) (view p)) p.
Proof.
  intros Hok. cbn [run_op].
  unfold MachineTopology. do 3 wp_step. destruct (machine p) as [a|] eqn:Em.
  { wp_steps. split; [done|]. unfold view, spec_op. rewrite Em. cbn.
    destruct (ok_pointer p a Hok) as (t0 & -> & _); [unfold pointers; rewrite Em; set_solver|done]. }
  wp_step. eapply wp_intro; [reflexivity|]. wp_steps. split.
  - eapply (ok_replaced p _ None [] (pointers p)); cbn; [done|done| |done..|rewrite dom_insert_L; set_solver].
    unfold pointers. by rewrite Em.
  - unfold view, spec_op. rewrite Em. cbn. rewrite lookup_insert_eq.
    rewrite (view_kept p _ None (test_topology p)), (view_kept p _ None (custom_topology p)); [done|..]; try (intros a Ha ?; rewrite lookup_insert_ne; [done|]; by apply not_eq_sym, fresh_pointer);
      intros a Ea; (split; [|done]); unfold pointers; rewrite Ea; set_solver.
Qed.

Lemma update_test_ok t p : ok p -> wp (run_op (UpdateTest t)) (fun _ p' => ok p' /\ view p' = spec_op (UpdateTest t) (view p)) p.
Proof.
  intros Hok. cbn [run_op].
  unfold UpdateTestTopology. do 2 wp_step. apply replace_topology; [done|intros a E; unfold pointers; rewrite E; set_solver|].
  intros m Hm Hk Ed. wp_step. split.
  - by eapply (ok_replaced p _ (test_topology p) (option_list (machine p)) (option_list (custom_topology p))).
  - unfold view, spec_op. cbn. rewrite Hm. destruct Hok as [_ _ Hnd _]. unfold pointers in Hnd. rewrite !NoDup_app in Hnd.
    rewrite (view_kept p _ _ (machine p) Hk), (view_kept p _ _ (custom_topology p) Hk); [done|..]; intros a Ea; rewrite Ea in Hnd; (split; [|intros Et; rewrite Et in Hnd; set_solver]);
      unfold pointers; rewrite Ea; set_solver.
Qed.

Lemma update_custom_ok t p : ok p -> wp (run_op (UpdateCustom t)) (fun _ p' => ok p' /\ view p' = spec_op (UpdateCustom t) (view p)) p.
Proof.
  intros Hok. cbn [run_op].
  unfold UpdateCustomTopology. do 2 wp_step. apply replace_topology; [done|intros a E; unfold pointers; rewrite E; set_solver|].
  intros m Hm Hk Ed. wp_step. split.
  - eapply (ok_replaced p _ (custom_topology p) (option_list (machine p) ++ option_list (test_topology p)) []); cbn; try done;
      unfold pointers; cbn; by rewrite ?app_nil_r, <- ?app_assoc.
  - unfold view, spec_op. cbn. rewrite Hm. destruct Hok as [_ _ Hnd _]. unfold pointers in Hnd. rewrite !NoDup_app in Hnd.
    rewrite (view_kept p _ _ (machine p) Hk), (view_kept p _ _ (test_topology p) Hk); [done|..]; intros a Ea; rewrite Ea in Hnd; (split; [|intros Et; rewrite Et in Hnd; set_solver]);
      unfold pointers; rewrite Ea; set_solver.
Qed.

Lemma update_helper_ok g p : ok p -> wp (run_op (UpdateHelper g)) (fun _ p' => ok p' /\ view p' = spec_op (UpdateHelper g) (view p)) p.
Proof.
  intros Hok. cbn [run_op].
  wp_step. eapply wp_intro; [reflexivity|]. destruct Hok as [[Hn Hnh] Hd Hnd (a & g0 & Hp & Hg)]. cbn.
  assert (Ha : (a < next p)%nat) by (apply Hnh; rewrite Hg, lookup_singleton_eq; by exists g0).
  unfold UpdateGhostHelper. do 2 wp_step; [reflexivity|]. do 3 wp_step; cbn. rewrite Hp. do 2 wp_step; cbn.
  { rewrite lookup_insert_ne by lia. by rewrite Hg, lookup_singleton_eq. }
  assert (Eh : delete a (<[next p := g]> (helpers p)) = {[ next p := g ]}).
  { rewrite Hg, delete_insert_ne, delete_singleton_eq by lia. done. }
  split; [split; cbn|].
  - split; [intros b Hb; specialize (Hn b Hb); lia|]. rewrite Eh. intros b [x Hx]. apply lookup_singleton_Some in Hx. lia.
  - done.
  - done.
  - by exists (next p), g.
  - unfold view, spec_op. cbn. by rewrite Eh, lookup_singleton_eq.
Qed.

(** Every call succeeds and does what it is to do: no object is used after its deletion or deleted twice, and what no
    pointer leads to is deleted. *)
Lemma run_op_ok o p : ok p -> wp (run_op o) (fun _ p' => ok p' /\ view p' = spec_op o (view p)) p.
Proof. intros Hok. destruct o; [by apply machine_ok|by apply update_test_ok|by apply update_custom_ok|by apply update_helper_ok]. Qed.

Fixpoint run_ops (os : list op) : M (process T G) unit :=
  match os with [] => mret tt | o :: os => run_op o ;;; run_ops os end.

(** After any calls, the pointers lead to the first topology of the host, and to the last of the others; asking for one
    that was never set aborts. *)
Theorem process_objects os g : exists p, run_ops os (start g) = Some (tt, p) /\
  ok p /\ view p = foldl (fun v o => spec_op o v) (None, None, None, Some g) os /\
  (exists a, GhostHelper p = Some (a, p) /\ is_Some (helpers p !! a)) /\
  (forall a p', TestTopology p = Some (a, p') <-> p' = p /\ test_topology p = Some a) /\
  (TestTopology p = None <-> test_topology p = None) /\ (CustomTopology p = None <-> custom_topology p = None).
Proof.
  assert (H : forall p, ok p -> wp (run_ops os) (fun _ p' => ok p' /\ view p' = foldl (fun v o => spec_op o v) (view p) os) p).
  { induction os as [|o os IH]; intros p Hok; cbn [run_ops]; [by wp_steps|]. wp_step. eapply wp_mono; [by apply run_op_ok|].
    intros [] p1 [Hok1 Ev]. eapply wp_mono; [by apply IH|]. intros [] p2 [? Ev2]. rewrite Ev2, Ev. done. }
  destruct (wp_run _ _ _ (H _ (start_process_ok g))) as ([] & p & Hr & Hok & Ev). exists p. split_and!; [done|done|exact Ev|..].
  - destruct Hok as [_ _ _ (a & g' & Hp & Hh)]. exists a. unfold GhostHelper, mbind, mget, deref. rewrite Hp. split; [done|].
    rewrite Hh, lookup_singleton_eq. by exists g'.
  - intros a p'. unfold TestTopology, mbind, mget, deref. destruct (test_topology p); naive_solver.
  - unfold TestTopology, mbind, mget, deref. by destruct (test_topology p).
  - unfold CustomTopology, mbind, mget, deref. by destruct (custom_topology p).
Qed.
End Objects.

(** *** Spinning *)

Section Spinning.
Context (os : answers clockE).
Import Spin.
Implicit Type h : history clockE.

Definition reading {X} (e : clockE X) : X -> Z := match e with MonotonicNow => fun t => t end.

(** The last reading of the clock, or the time at the call. *)
Definition latest (t0 : Z) h : Z := match h with Entry e a :: _ => reading e a | [] => t0 end.

(** The next reading is at least [lo] and less than [hi] later than the last one. *)
Definition steps (t0 lo hi : Z) : Prop := forall h, latest t0 h + lo <= os h _ MonotonicNow < latest t0 h + hi.

(** What a round measures is the time from its first reading to its last one. *)
Lemma poll_keeps n t0 start delta h : latest t0 h = start + delta ->
  keeps os (fun _ => True) (poll n start delta) (fun d h' => latest t0 h' = start + d) h.
Proof.
  revert delta h. induction n as [|n IH]; intros delta h Hl; cbn [poll]; [by apply keeps_ret|].
  apply keeps_bind, keeps_call; [done|]. split; [done|]. case_match; [apply keeps_ret; [done|]; cbn; lia|]. apply IH. cbn. lia.
Qed.

(** [SpinFor] returns only when the time has passed, if the clock does not run backwards. *)
Theorem spin_for_long_enough t0 remaining :
  (forall h, latest t0 h <= os h _ MonotonicNow) ->
  keeps os (fun _ => True) (SpinFor remaining) (fun _ h' => t0 + remaining <= latest t0 h') [].
Proof.
  intros Hm. apply (keeps_iter os _ (fun r h => t0 + remaining <= latest t0 h + r)); [|cbn; lia].
  intros r h Hi. unfold round. destruct (Z.ltb_spec 0 r); [|apply keeps_ret; [done|lia]].
  apply keeps_bind, keeps_call; [done|]. split; [done|]. apply keeps_bind. specialize (Hm h).
  eapply keeps_mono; [apply (poll_keeps _ t0); cbn; lia|]. intros d h' _ Hl. apply keeps_ret; [done|].
  destruct (Z.ltb_spec d (Microseconds 100)); unfold Microseconds in *; lia.
Qed.

(** A round that is not interrupted measures some time, less than that of a preemption. *)
Lemma poll_reaches n t0 start delta h : steps t0 1 (Microseconds 90) -> latest t0 h = start + delta -> 0 <= delta <= Microseconds 10 ->
  reaches os (poll n start delta) (fun d h' => latest t0 h' = start + d /\ delta + (if n then 0 else 1) <= d < Microseconds 100) h.
Proof.
  intros Hs. revert delta h. induction n as [|n IH]; intros delta h Hl Hd; cbn [poll].
  { apply reaches_ret. unfold Microseconds in *. split; [done|lia]. }
  specialize (Hs h). apply reaches_bind, reaches_call. destruct (Z.ltb_spec (Microseconds 10) (os h Z MonotonicNow - start)).
  - apply reaches_ret. cbn. unfold Microseconds in *. lia.
  - eapply reaches_mono; [apply IH; cbn; lia|]. cbn. intros d h' [Hl' Hd']. split; [done|]. destruct n; lia.
Qed.

(** [SpinFor] returns if the clock advances and its reading is never late by the length of a preemption. *)
Theorem spin_for_returns t0 remaining : steps t0 1 (Microseconds 90) ->
  reaches os (SpinFor remaining) (fun _ h' => t0 + remaining <= latest t0 h') [].
Proof.
  intros Hs. apply (reaches_iter os (fun r h => t0 + remaining <= latest t0 h + r) (fun r _ => Z.to_nat r)); [|cbn; lia].
  intros r h Hi. unfold round. destruct (Z.ltb_spec 0 r); [|apply reaches_ret; lia].
  apply reaches_bind, reaches_call, reaches_bind. pose proof (Hs h).
  eapply reaches_mono; [apply (poll_reaches 100 t0); [done|cbn; lia|unfold Microseconds; lia]|]. intros d h' [Hl Hd].
  apply reaches_ret. destruct (Z.ltb_spec d (Microseconds 100)); lia.
Qed.

(** A clock that takes [100] microseconds to read makes every round a preemption: [SpinFor] never returns. *)
Theorem spin_for_slow_clock t0 remaining : 0 < remaining ->
  (forall h, latest t0 h + Microseconds 100 <= os h _ MonotonicNow) ->
  keeps os (fun _ => True) (SpinFor remaining) (fun _ _ => False) [].
Proof.
  intros Hr Hm. apply (keeps_iter os _ (fun r _ => r = remaining)); [|done]. intros r h ->. unfold round.
  rewrite (proj2 (Z.ltb_lt _ _)) by done. apply keeps_bind, keeps_call; [done|]. split; [done|]. apply keeps_bind.
  cbn [poll]. apply keeps_bind, keeps_call; [done|]. split; [done|].
  pose proof (Hm (Entry MonotonicNow (os h Z MonotonicNow) :: h)) as Hm2. cbn [latest reading] in Hm2.
  rewrite (proj2 (Z.ltb_lt _ _)) by (unfold Microseconds in *; lia). apply keeps_ret; [done|]. apply keeps_ret; [done|].
  rewrite (proj2 (Z.ltb_ge _ _)) by lia. done.
Qed.
End Spinning.
End GlobalsProps.
