(* ===== verification/ThreadTester.v ===== *)
(** * The thread tester, on a fair scheduler

    [RemoteThreadTester::Run] of [src/lib/ghost.h] and [src/lib/ghost.cc]: threads that meet at a barrier, work until
    they are told to leave, and are joined.  Notifications are flags here ([Notification] has their implementation). *)

From S2P Require Import Prelude.
#[local] Open Scope nat_scope.

(** ** Fair schedules *)

Section Fairness.
Context {S T : Type} (step : T -> S -> S) (live : T -> Prop).

(** [sched] gives turns to threads. *)
Fixpoint run_sched (sched : nat -> T) (n : nat) (s : S) : S :=
  match n with O => s | Datatypes.S n => step (sched n) (run_sched sched n s) end.

(** Every thread gets a turn again and again. *)
Definition fair (sched : nat -> T) : Prop := forall t n, live t -> exists m, n <= m /\ sched m = t.

Context (Inv finished : S -> Prop) (mu : S -> nat) (helpful : S -> T).
Context (Hinv : forall t s, live t -> Inv s -> Inv (step t s)).
Context (Hmono : forall t s, live t -> Inv s -> mu (step t s) <= mu s).
Context (Hlive : forall s, Inv s -> finished s \/ live (helpful s) /\ mu (step (helpful s) s) < mu s).
Context (Hpersist : forall t s, live t -> Inv s -> t = helpful s \/ mu (step t s) < mu s \/ helpful (step t s) = helpful s).

Section Run.
Context (sched : nat -> T) (s : S) (Hturns : forall n, live (sched n)) (Hs : Inv s).
Notation at_ n := (run_sched sched n s).

Lemma run_sched_inv n : Inv (at_ n).
Proof. induction n; cbn; auto. Qed.

(** The helpful thread has its turn after [d] others. *)
Lemma helped d n : sched (n + d) = helpful (at_ n) -> (exists m, finished (at_ m)) \/ exists m, mu (at_ m) < mu (at_ n).
Proof.
  revert n. induction d as [|d IH]; intros n Et; destruct (Hlive _ (run_sched_inv n)) as [?|[Hl Hlt]]; eauto;
    destruct (Hpersist (sched n) _ (Hturns n) (run_sched_inv n)) as [E|[?|Eh]]; try (right; exists (Datatypes.S n); cbn; congruence || done).
  - right. exists (Datatypes.S n). cbn. by rewrite Nat.add_0_r in Et; rewrite Et.
  - destruct (IH (Datatypes.S n)) as [?|[m Hm]]; [cbn; rewrite Eh, <- Et; f_equal; lia|by left|].
    right. exists m. pose proof (Hmono (sched n) _ (Hturns n) (run_sched_inv n)). cbn in Hm. lia.
Qed.

(** If the helpful thread gets nearer to the end, and is helpful until it has its turn, the end is reached. *)
Lemma fair_run_finishes : fair sched -> exists n, finished (at_ n).
Proof.
  intros Hfair. cut (forall k n, mu (at_ n) <= k -> exists m, finished (at_ m)); [intros H; by apply (H (mu s) 0)|].
  induction k as [k IH] using lt_wf_ind. intros n Hk. destruct (Hlive _ (run_sched_inv n)) as [?|[Hl _]]; eauto.
  destruct (Hfair _ n Hl) as (m & Hm & Et). destruct (helped (m - n) n) as [?|[m' Hm']]; [rewrite <- Et; f_equal; lia|done|].
  apply (IH (mu (at_ m')) ltac:(lia) m'). lia.
Qed.
End Run.
End Fairness.

(** ** The tester *)

Module Tester.

(** Where a worker is: before the increment, at [WaitForNotification], at [thread_work], at [HasBeenNotified], gone. *)
Inductive wpc := WBarrier | WWait | WWork | WCheck | WEnd.
#[export] Instance wpc_eq_dec : EqDecision wpc.
Proof. solve_decision. Defined.

(** With how often it has worked. *)
Record worker := mk_worker { w_pc : wpc; w_works : nat }.

(** [Run]: the loop over [i] that makes threads, the wait at the barrier, [start_.Notify], [remote_work] on thread [i],
    [exit_.Notify], [Join] of thread [i]. *)
Inductive mpc := Spawn (i : nat) | Barrier | Start | Remote (i : nat) | Exit | Join (i : nat) | Finished | Failed.

Record tester := mk_tester {
  main : mpc;
  num_threads_at_barrier_ : Z;
  start_ : bool;
  exit_ : bool;
  threads_ : list worker;
  remote : list nat (* the threads [remote_work] was called with *) }.

(** Zero in C++20. *)
Definition RemoteThreadTester : tester := mk_tester (Spawn 0) 0 false false [] [].

Inductive thread := Main | Worker (i : nat).

Section Run.
Context (num_threads_ : Z).
Implicit Type s : tester.

Definition set_main (p : mpc) s : tester := mk_tester p (num_threads_at_barrier_ s) (start_ s) (exit_ s) (threads_ s) (remote s).

Definition main_step s : tester :=
  match main s with
  | Spawn i =>
      if (Z.of_nat i <? num_threads_)%Z
      then mk_tester (Spawn (S i)) (num_threads_at_barrier_ s) (start_ s) (exit_ s) (threads_ s ++ [mk_worker WBarrier 0]) (remote s)
      else set_main Barrier s
  | Barrier => if (num_threads_at_barrier_ s <? num_threads_)%Z then s else set_main Start s
  | Start =>
      if start_ s then set_main Failed s
      else mk_tester (Remote 0) (num_threads_at_barrier_ s) true (exit_ s) (threads_ s) (remote s)
  | Remote i =>
      if i <? length (threads_ s)
      then mk_tester (Remote (S i)) (num_threads_at_barrier_ s) (start_ s) (exit_ s) (threads_ s) (remote s ++ [i])
      else set_main Exit s
  | Exit =>
      if exit_ s then set_main Failed s
      else mk_tester (Join 0) (num_threads_at_barrier_ s) (start_ s) true (threads_ s) (remote s)
  | Join i =>
      match threads_ s !! i with
      | Some w => match w_pc w with WEnd => set_main (Join (S i)) s | _ => s end
      | None => set_main Finished s
      end
  | Finished | Failed => s
  end.

Definition set_worker (i : nat) (w : worker) s : tester :=
  mk_tester (main s) (num_threads_at_barrier_ s) (start_ s) (exit_ s) (<[i := w]> (threads_ s)) (remote s).

Definition worker_step (i : nat) (w : worker) s : tester :=
  match w_pc w with
  | WBarrier =>
      mk_tester (main s) (s32 (num_threads_at_barrier_ s + 1)) (start_ s) (exit_ s) (<[i := mk_worker WWait (w_works w)]> (threads_ s)) (remote s)
  | WWait => if start_ s then set_worker i (mk_worker WWork (w_works w)) s else s
  | WWork => set_worker i (mk_worker WCheck (S (w_works w))) s
  | WCheck => set_worker i (mk_worker (if exit_ s then WEnd else WWork) (w_works w)) s
  | WEnd => s
  end.

Definition step (t : thread) s : tester :=
  match t with
  | Main => main_step s
  | Worker i => match threads_ s !! i with Some w => worker_step i w s | None => s end
  end.
End Run.
End Tester.

(** ** What holds of it *)

Module TesterProps.
Import Tester.

Section Props.
Context (num_threads_ : Z) (Hbound : (num_threads_ < 2 ^ 31)%Z).
Implicit Type s : tester.
Notation N := (Z.to_nat num_threads_).

Definition arrived (ws : list worker) : nat := length (filter (fun w => w_pc w <> WBarrier) ws).
#[local] Arguments arrived : simpl never.
#[local] Arguments Nat.ltb : simpl never.

Definition started (m : mpc) : bool := match m with Remote _ | Exit | Join _ | Finished => true | _ => false end.
Definition exiting (m : mpc) : bool := match m with Join _ | Finished => true | _ => false end.

(** What holds of a worker, by the two notifications. *)
Definition worker_ok (start exit : bool) (w : worker) : Prop :=
  match w_pc w with
  | WBarrier => start = false
  | WWait => True
  | WWork => start = true
  | WCheck => start = true /\ 0 < w_works w
  | WEnd => exit = true /\ 0 < w_works w
  end.

(** How far the program has come. *)
Definition main_ok (m : mpc) (ws : list worker) (r : list nat) : Prop :=
  match m with
  | Spawn i => length ws = i /\ i <= N /\ r = []
  | Barrier => length ws = N /\ r = []
  | Start => length ws = N /\ r = [] /\ arrived ws = N
  | Remote i => length ws = N /\ i <= N /\ r = seq 0 i
  | Exit => length ws = N /\ r = seq 0 N
  | Join i => length ws = N /\ r = seq 0 N /\ (forall j w, j < i -> ws !! j = Some w -> w_pc w = WEnd)
  | Finished => length ws = N /\ r = seq 0 N /\ (forall j w, ws !! j = Some w -> w_pc w = WEnd)
  | Failed => False
  end.

Record tester_ok s : Prop := {
  ok_main : main_ok (main s) (threads_ s) (remote s);
  ok_start : start_ s = started (main s);
  ok_exit : exit_ s = exiting (main s);
  ok_barrier : num_threads_at_barrier_ s = Z.of_nat (arrived (threads_ s));
  ok_workers : Forall (worker_ok (start_ s) (exit_ s)) (threads_ s) }.

Lemma arrived_all ws : arrived ws = length ws <-> Forall (fun w => w_pc w <> WBarrier) ws.
Proof.
  unfold arrived. induction ws as [|w ws IH]; [done|]. rewrite filter_cons, Forall_cons.
  pose proof (length_filter (fun w => w_pc w <> WBarrier) ws). case_decide as Hd; cbn; rewrite <- IH; intuition lia.
Qed.

Lemma arrived_le ws : arrived ws <= length ws.
Proof. apply length_filter. Qed.

(** A worker that moves counts once, when it passes the barrier. *)
Lemma arrived_insert ws i w w' : ws !! i = Some w -> w_pc w' <> WBarrier ->
  arrived (<[i := w']> ws) = arrived ws + (if decide (w_pc w = WBarrier) then 1 else 0).
Proof.
  intros Hi Hw'. unfold arrived. rewrite <- (take_drop_middle ws i w Hi) at 2. rewrite insert_take_drop by (by eapply lookup_lt_Some).
  rewrite !filter_app, !length_app, !filter_cons. rewrite (decide_True (P := w_pc w' <> WBarrier)) by done.
  repeat case_decide; cbn; try tauto; lia.
Qed.

(** What a worker has still to do once it is asked to leave. *)
Definition rank (exit : bool) (w : worker) : nat :=
  match w_pc w with WBarrier => 4 | WWait => 3 | WWork => 2 | WCheck => if exit then 1 else 2 | WEnd => 0 end.

Definition ranks s : nat := sum_list_with (rank (exit_ s)) (threads_ s).

Definition next_worker (exit : bool) (w : worker) : worker :=
  match w_pc w with
  | WBarrier => mk_worker WWait (w_works w)
  | WWait => mk_worker WWork (w_works w)
  | WWork => mk_worker WCheck (S (w_works w))
  | WCheck => mk_worker (if exit then WEnd else WWork) (w_works w)
  | WEnd => w
  end.

(** It has nothing to do: it has left, or waits for the start. *)
Definition idle i s : Prop :=
  step num_threads_ (Worker i) s = s /\
  forall w, threads_ s !! i = Some w -> w_pc w = WEnd \/ w_pc w = WWait /\ start_ s = false.

(** A step of a worker, as seen by the others: either it waits, or it moves on. *)
Definition moves i w w' s : Prop :=
  threads_ s !! i = Some w /\ w_pc w <> WEnd /\ w_pc w' <> WBarrier /\ worker_ok (start_ s) (exit_ s) w' /\
  rank (exit_ s) w' <= rank (exit_ s) w /\ (start_ s = false \/ exit_ s = true -> rank (exit_ s) w' < rank (exit_ s) w) /\
  step num_threads_ (Worker i) s =
    mk_tester (main s) (Z.of_nat (arrived (<[i := w']> (threads_ s)))) (start_ s) (exit_ s) (<[i := w']> (threads_ s)) (remote s).

Lemma length_ok s : tester_ok s -> length (threads_ s) <= N.
Proof. intros [Hm _ _ _ _]. destruct (main s); cbn in Hm; lia. Qed.

Lemma worker_moves i s : tester_ok s ->
  idle i s \/ exists w w', moves i w w' s.
Proof.
  intros Hok. pose proof (length_ok s Hok) as Hlen. destruct Hok as [_ _ _ Hb Hw]. unfold idle, moves, step.
  destruct (threads_ s !! i) as [w|] eqn:Hi; [|by left].
  pose proof (Forall_lookup_1 _ _ _ _ Hw Hi) as Hok. unfold worker_ok in Hok. unfold worker_step, set_worker, rank.
  pose proof (arrived_le (threads_ s)) as Hle. destruct (w_pc w) eqn:Ep; [|destruct (start_ s) eqn:Es; [|left; split; [done|naive_solver]]| | |left; split; [done|naive_solver]];
    right; exists w.
  all: exists (next_worker (exit_ s) w); rewrite (arrived_insert _ _ w) by (done || (unfold next_worker; rewrite Ep; done || by destruct (exit_ s))).
  all: unfold next_worker; rewrite !Ep; cbn.
  all: split_and!; try done; try (destruct (exit_ s); cbn; lia).
  all: rewrite ?Hb, ?Nat.add_0_r; try done.
  - pose proof (arrived_le (<[i := mk_worker WWait (w_works w)]> (threads_ s))) as Hle'.
    rewrite (arrived_insert _ _ w), Ep, length_insert in Hle' by done. destruct (decide (WBarrier = WBarrier)); [|done].
    rewrite s32_id by lia. f_equal. lia.
  - rewrite Hok. intros [?|He]; [done|]. rewrite He. lia.
  - by destruct (exit_ s).
  - unfold worker_ok. destruct Hok. by destruct (exit_ s).
  - destruct Hok as [-> ?]. intros [?|He]; [done|]. rewrite He. lia.
Qed.

Lemma worker_keeps_ok i s : tester_ok s -> tester_ok (step num_threads_ (Worker i) s).
Proof.
  intros Hok. destruct (worker_moves i s Hok) as [[-> ?]|(w & w' & Hi & Hne & Hb' & Hw' & _ & _ & ->)]; [done|].
  destruct Hok as [Hm Hs He Hb Hw]. split; cbn; [|done..|by apply Forall_insert].
  assert (Hkeep : forall j v, <[i := w']> (threads_ s) !! j = Some v -> (forall u, threads_ s !! j = Some u -> w_pc u = WEnd) -> w_pc v = WEnd).
  { intros j v Hv Hend. apply list_lookup_insert_Some in Hv as [(<- & <- & _)|[_ Hv]]; [|by apply Hend]. by rewrite Hend in Hne. }
  destruct (main s) eqn:Em; cbn in *; rewrite ?length_insert; try tauto.
  - destruct Hm as (? & ? & Ha). split_and!; [done..|]. rewrite (arrived_insert _ _ w) by done.
    pose proof (arrived_le (<[i := w']> (threads_ s))) as Hle. rewrite (arrived_insert _ _ w), length_insert in Hle by done. lia.
  - destruct Hm as (? & ? & Hj). split_and!; [done..|]. intros j v Hlt Hv. eapply Hkeep; [done|]. intros u. by apply Hj.
  - destruct Hm as (? & ? & Hj). split_and!; [done..|]. intros j v Hv. eapply Hkeep; [done|]. apply Hj.
Qed.

Lemma main_keeps_ok s : tester_ok s -> tester_ok (step num_threads_ Main s).
Proof.
  intros Hok. destruct s as [m b st ex ws r]. destruct Hok as [Hm Hs He Hb Hw]. cbn in *. subst st ex b.
  unfold main_step, set_main. destruct m as [i| | |i| |i| |]; cbn in *; try done.
  - destruct Hm as (Hl & Hi & ->). destruct (Z.ltb_spec (Z.of_nat i) num_threads_); split; cbn; try done.
    + rewrite length_app. cbn. split_and!; [lia..|done].
    + unfold arrived. rewrite filter_app, filter_cons, decide_False by tauto. cbn. by rewrite app_nil_r.
    + apply Forall_app. split; [done|]. by repeat constructor.
    + split; [lia|done].
  - destruct Hm as [Hl ->]. pose proof (arrived_le ws). destruct (Z.ltb_spec (Z.of_nat (arrived ws)) num_threads_); split; cbn; try done.
    split_and!; [done..|lia].
  - destruct Hm as (Hl & -> & Ha). split; cbn; try done; [split_and!; [done|lia|done]|]. rewrite <- Hl in Ha. apply arrived_all in Ha.
    apply Forall_forall. intros w Hin. pose proof (proj1 (Forall_forall _ _) Hw w Hin) as Hok. pose proof (proj1 (Forall_forall _ _) Ha w Hin).
    unfold worker_ok in *. destruct (w_pc w); naive_solver.
  - destruct Hm as (Hl & Hi & ->). destruct (Nat.ltb_spec i (length ws)); split; cbn; try done.
    + split_and!; [done|lia|]. by rewrite <- seq_S.
    + split; [done|]. f_equal. lia.
  - destruct Hm as [Hl ->]. split; cbn; try done; [split_and!; [done..|lia]|].
    eapply Forall_impl; [exact Hw|]. intros w. unfold worker_ok. destruct (w_pc w); naive_solver.
  - destruct Hm as (Hl & -> & Hj). destruct (ws !! i) as [w|] eqn:Hi.
    + destruct (w_pc w) eqn:Ep; split; cbn; try done. split_and!; [done..|]. intros j v Hlt Hv.
      destruct (decide (j = i)) as [->|]; [congruence|]. apply (Hj j); [lia|done].
    + split; cbn; try done. split_and!; [done..|]. intros j v Hv. apply (Hj j); [|done].
      apply lookup_ge_None in Hi. apply lookup_lt_Some in Hv. lia.
Qed.

(** *** Progress *)

Definition live (t : thread) : Prop := match t with Main => True | Worker i => i < N end.

(** The thread the others wait for. *)
Definition helpful s : thread :=
  match main s with
  | Barrier =>
      if (num_threads_at_barrier_ s <? num_threads_)%Z
      then match list_find (fun w => w_pc w = WBarrier) (threads_ s) with Some (i, _) => Worker i | None => Main end
      else Main
  | Join i =>
      match threads_ s !! i with Some w => if decide (w_pc w = WEnd) then Main else Worker i | None => Main end
  | _ => Main
  end.

Definition main_rank (m : mpc) : nat :=
  match m with
  | Spawn i => 5 * (N - i) + 2 * N + 7
  | Barrier => 2 * N + 6
  | Start => 2 * N + 5
  | Remote i => (N - i) + N + 4
  | Exit => N + 3
  | Join i => (N - i) + 1
  | Finished | Failed => 0
  end.

Definition mu s : nat := main_rank (main s) + ranks s.

Lemma ranks_insert e ws i w w' : ws !! i = Some w ->
  sum_list_with (rank e) (<[i := w']> ws) + rank e w = sum_list_with (rank e) ws + rank e w'.
Proof.
  intros Hi. rewrite <- (take_drop_middle ws i w Hi) at 2. rewrite insert_take_drop by (by eapply lookup_lt_Some).
  rewrite !sum_list_with_app. cbn. lia.
Qed.

Lemma ranks_exit ws : sum_list_with (rank true) ws <= sum_list_with (rank false) ws.
Proof. induction ws as [|w ws IH]; cbn; [done|]. unfold rank at 1 3. destruct (w_pc w); lia. Qed.

Lemma worker_nearer i s : tester_ok s -> mu (step num_threads_ (Worker i) s) <= mu s.
Proof.
  intros Hok. destruct (worker_moves i s Hok) as [[-> ?]|(w & w' & Hi & _ & _ & _ & Hr & _ & ->)]; [done|].
  unfold mu, ranks. cbn. pose proof (ranks_insert (exit_ s) _ _ _ w' Hi). lia.
Qed.

(** Before the start and after the end of the work, a worker waits or gets nearer. *)
Lemma worker_stays_or_nearer i s : tester_ok s -> start_ s = false \/ exit_ s = true ->
  idle i s \/ mu (step num_threads_ (Worker i) s) < mu s.
Proof.
  intros Hok Hse. destruct (worker_moves i s Hok) as [?|(w & w' & Hi & _ & _ & _ & _ & Hr & ->)]; [by left|]. right.
  unfold mu, ranks. cbn. pose proof (ranks_insert (exit_ s) _ _ _ w' Hi). specialize (Hr Hse). lia.
Qed.

(** The main thread waits, gets nearer, or has returned. *)
Lemma main_nearer s : tester_ok s -> mu (step num_threads_ Main s) < mu s \/ step num_threads_ Main s = s /\ (main s = Finished \/ helpful s <> Main).
Proof.
  intros Hok. destruct s as [m b st ex ws r]. destruct Hok as [Hm Hs He Hb Hw]. cbn in *. subst st ex b.
  unfold main_step, set_main, mu, ranks, helpful. destruct m as [i| | |i| |i| |]; cbn in *; try done.
  - left. destruct Hm as (Hl & Hi & ->). destruct (Z.ltb_spec (Z.of_nat i) num_threads_); cbn; [rewrite sum_list_with_app; cbn|]; lia.
  - destruct Hm as [Hl ->]. destruct (Z.ltb_spec (Z.of_nat (arrived ws)) num_threads_) as [Hlt|]; cbn; [|lia]. right. split; [done|]. right.
    destruct (list_find _ ws) as [[j w]|] eqn:Ef; [done|]. apply list_find_None in Ef. exfalso.
    apply arrived_all in Ef. lia.
  - left. lia.
  - left. destruct Hm as (Hl & Hi & ->). destruct (Nat.ltb_spec i (length ws)); cbn; lia.
  - left. pose proof (ranks_exit ws). lia.
  - destruct Hm as (Hl & -> & Hj). destruct (ws !! i) as [w|] eqn:Hi; cbn; [|left; lia]. pose proof (lookup_lt_Some _ _ _ Hi).
    destruct (w_pc w) eqn:Ep; cbn; try (right; split; [done|]; right; done). left. lia.
  - right. split; [done|]. by left.
Qed.

(** The helpful thread gets nearer to the end... *)
Lemma helpful_nearer s : tester_ok s -> main s = Finished \/ live (helpful s) /\ mu (step num_threads_ (helpful s) s) < mu s.
Proof.
  intros Hok. destruct (helpful s) as [|i] eqn:Eh.
  { destruct (main_nearer s Hok) as [?|[_ [?|?]]]; [by right|by left|done]. }
  right. pose proof (length_ok s Hok) as Hlen. unfold helpful in Eh.
  assert (exists w, threads_ s !! i = Some w /\ (start_ s = false /\ w_pc w = WBarrier \/ exit_ s = true /\ w_pc w <> WEnd)) as (w & Hi & Hw).
  { destruct Hok as [_ Hs He _ _]. rewrite Hs, He. destruct (main s) as [| | | | |j| |]; try done; cbn.
    - destruct (_ <? _)%Z; [|done]. destruct (list_find _ _) as [[j w]|] eqn:Ef; [|done]. injection Eh as ->.
      apply list_find_Some in Ef as (Hi & Hp & _). eauto.
    - destruct (threads_ s !! j) as [w|] eqn:Ej; [|done]. case_decide; [done|]. injection Eh as ->. eauto. }
  split; [apply lookup_lt_Some in Hi; cbn; lia|].
  destruct (worker_stays_or_nearer i s Hok) as [[_ Hidle]|?]; [naive_solver| |done].
  destruct (Hidle w Hi) as [Hp|[Hp Hs]], Hw as [[??]|[He ?]]; try congruence.
  destruct Hok as [_ Hs' He' _ _]. rewrite He' in He. rewrite Hs' in Hs. by destruct (main s).
Qed.

(** ... and stays helpful until it has its turn. *)
Lemma helpful_persists t s : tester_ok s ->
  t = helpful s \/ mu (step num_threads_ t s) < mu s \/ helpful (step num_threads_ t s) = helpful s.
Proof.
  intros Hok. destruct t as [|i].
  { destruct (main_nearer s Hok) as [?|[-> _]]; auto. }
  assert (Hse : (start_ s = false \/ exit_ s = true) \/ (main s = Exit \/ exists j, main s = Remote j)).
  { destruct Hok as [Hm Hs He _ _]. rewrite Hs, He. destruct (main s); cbn in *; eauto. }
  destruct Hse as [Hse|Hse].
  - destruct (worker_stays_or_nearer i s Hok Hse) as [[-> _]|?]; auto.
  - right. right. assert (Em : main (step num_threads_ (Worker i) s) = main s).
    { destruct (worker_moves i s Hok) as [[-> _]|(w & w' & _ & _ & _ & _ & _ & _ & ->)]; done. }
    unfold helpful. rewrite Em. by destruct Hse as [->|[j ->]].
Qed.

Lemma step_ok t s : tester_ok s -> tester_ok (step num_threads_ t s).
Proof. destruct t; [apply main_keeps_ok|apply worker_keeps_ok]. Qed.

Lemma step_nearer t s : tester_ok s -> mu (step num_threads_ t s) <= mu s.
Proof. intros Hok. destruct t; [|by apply worker_nearer]. destruct (main_nearer s Hok) as [?|[-> _]]; lia. Qed.

Lemma tester_starts_ok : tester_ok RemoteThreadTester.
Proof. split; cbn; try done. split_and!; [done|lia|done]. Qed.

Lemma run_tester_ok sched n : tester_ok (run_sched (step num_threads_) sched n RemoteThreadTester).
Proof. induction n; cbn; [apply tester_starts_ok|by apply step_ok]. Qed.

End Props.

(** Whenever [remote_work] has been called, every thread has been at the barrier and may work; [Run] fails no CHECK,
    and under every fair schedule it returns, after each thread has worked at least once and left, and [remote_work] was
    called with each thread once, in order. *)
Theorem thread_tester_returns num_threads_ sched : (num_threads_ < 2 ^ 31)%Z ->
  fair (live num_threads_) sched -> (forall n, live num_threads_ (sched n)) ->
  (forall n, let s := run_sched (step num_threads_) sched n RemoteThreadTester in
     main s <> Failed /\
     (remote s <> [] -> Z.of_nat (length (threads_ s)) = num_threads_ /\ forall w, w ∈ threads_ s -> w_pc w <> WBarrier)) /\
  exists n, let s := run_sched (step num_threads_) sched n RemoteThreadTester in
    main s = Finished /\ remote s = seq 0 (Z.to_nat num_threads_) /\ length (threads_ s) = Z.to_nat num_threads_ /\
    forall w, w ∈ threads_ s -> w_pc w = WEnd /\ 0 < w_works w.
Proof.
  intros Hb Hfair Hturns. split.
  - intros n s. assert (Hok : tester_ok num_threads_ s) by (by apply run_tester_ok). clearbody s. destruct Hok as [Hm Hs _ _ Hw].
    split; [intros E; by rewrite E in Hm|]. intros Hr.
    assert (Hst : start_ s = true /\ length (threads_ s) = Z.to_nat num_threads_).
    { rewrite Hs. destruct (main s); cbn in *; naive_solver. }
    destruct Hst as [Hst Hl]. assert (Hk : exists k, remote s = seq 0 k /\ k <= Z.to_nat num_threads_).
    { destruct (main s) as [i| | |i| | | |]; cbn in Hm; try tauto; [exists i|exists (Z.to_nat num_threads_)..]; naive_solver. }
    destruct Hk as ([|k] & Ek & Hle); [by rewrite Ek in Hr|].
    split; [lia|]. intros w Hin Ep. pose proof (proj1 (Forall_forall _ _) Hw w Hin) as Hok. unfold worker_ok in Hok. rewrite Ep in Hok. congruence.
  - destruct (fair_run_finishes (step num_threads_) (live num_threads_) (tester_ok num_threads_) (fun s => main s = Finished)
      (mu num_threads_) (helpful num_threads_)) with (sched := sched) (s := RemoteThreadTester) as [n Hn];
      [intros; by apply step_ok|intros; by apply step_nearer|intros; by apply helpful_nearer|intros; by apply helpful_persists|done
      |apply tester_starts_ok|done|].
    exists n. cbv zeta. set (s := run_sched _ _ _ _) in *. assert (Hok : tester_ok num_threads_ s) by (by apply run_tester_ok).
    clearbody s. destruct Hok as [Hm Hs _ _ Hw]. rewrite Hn in Hm. destruct Hm as (Hl & Hr & Hend). split_and!; [done..|].
    intros w Hin. apply list_elem_of_lookup in Hin as [j Hj]. pose proof (Forall_lookup_1 _ _ _ _ Hw Hj) as Hok. unfold worker_ok in Hok.
    rewrite (Hend j w Hj) in Hok. split; [by apply (Hend j)|tauto].
Qed.

(** Turns in a circle. *)
Definition round_robin (threads : nat) (n : nat) : thread :=
  match n mod S threads with O => Main | S i => Worker i end.

Lemma round_robin_fair num_threads_ : fair (live num_threads_) (round_robin (Z.to_nat num_threads_)).
Proof.
  intros t n Ht. set (N := Z.to_nat num_threads_) in *. pose (k := match t with Main => 0 | Worker i => S i end).
  assert (Hk : k < S N) by (subst k; destruct t; cbn in Ht; lia). exists (n * S N + k). split; [nia|].
  unfold round_robin. rewrite Nat.add_comm, Nat.Div0.mod_add, Nat.mod_small by done. subst k. by destruct t.
Qed.

Lemma thread_tester_returns_witness : exists n,
  main (run_sched (step 3) (round_robin 3) n RemoteThreadTester) = Finished /\
  remote (run_sched (step 3) (round_robin 3) n RemoteThreadTester) = [0; 1; 2].
Proof.
  destruct (thread_tester_returns 3 (round_robin 3)) as [_ (n & Hf & Hr & _)]; [reflexivity|apply (round_robin_fair 3)| |by exists n].
  intros n. unfold round_robin. destruct (n mod 4) eqn:E; [done|]. cbn. pose proof (Nat.mod_upper_bound n 4). lia.
Defined.
End TesterProps.
