(* ===== verification/AvlTree.v ===== *)
(** * AVL trees threaded through an array

    Models [lib/avl.bpf.h]: AVL trees whose nodes are embedded in the elements of
    one array, with parent links, ids (index + 1) instead of pointers, loops
    bounded by [MAX_AVL_HEIGHT], a cache of the smallest and largest key, and a
    list of orphans for the nodes that found no room.

    The tree code runs on node ids: a non-null [struct avl_node *] is the id of
    its element, and [avl_id_to_node] is the bounds check.  [Addr] models the
    address arithmetic behind it, and [AvlSpec] shows the two agree.  The array
    is zero-initialised.  As in the source, a loop that runs out of iterations
    just falls through. *)

From S2P Require Import Prelude.

Definition MAX_AVL_HEIGHT : nat := 23.

(** ** Data *)

Record avl_tree := mk_tree {
  root : Z; min_id : Z; min_key : Z; max_id : Z; max_key : Z; first_orphan_id : Z }.

Record avl_node := mk_node {
  key : Z; left_id : Z; right_id : Z; parent_id : Z; balance : Z; is_orphan : bool;
  prev_orphan_id : Z; next_orphan_id : Z }.

#[export] Instance avl_node_inhabited : Inhabited avl_node :=
  populate (mk_node 0 0 0 0 0 false 0 0).

Definition avl_tree_init : avl_tree := mk_tree 0 0 0 0 0 0.

(** Field updates. *)
Definition set_root (v : Z) (t : avl_tree) : avl_tree :=
  mk_tree v (min_id t) (min_key t) (max_id t) (max_key t) (first_orphan_id t).
Definition set_first_orphan (v : Z) (t : avl_tree) : avl_tree :=
  mk_tree (root t) (min_id t) (min_key t) (max_id t) (max_key t) v.
Definition set_min (i k : Z) (t : avl_tree) : avl_tree :=
  mk_tree (root t) i k (max_id t) (max_key t) (first_orphan_id t).
Definition set_max (i k : Z) (t : avl_tree) : avl_tree :=
  mk_tree (root t) (min_id t) (min_key t) i k (first_orphan_id t).

Definition set_left (v : Z) (n : avl_node) : avl_node :=
  mk_node (key n) v (right_id n) (parent_id n) (balance n) (is_orphan n)
    (prev_orphan_id n) (next_orphan_id n).
Definition set_right (v : Z) (n : avl_node) : avl_node :=
  mk_node (key n) (left_id n) v (parent_id n) (balance n) (is_orphan n)
    (prev_orphan_id n) (next_orphan_id n).
Definition set_parent (v : Z) (n : avl_node) : avl_node :=
  mk_node (key n) (left_id n) (right_id n) v (balance n) (is_orphan n)
    (prev_orphan_id n) (next_orphan_id n).
Definition set_balance (v : Z) (n : avl_node) : avl_node :=
  mk_node (key n) (left_id n) (right_id n) (parent_id n) v (is_orphan n)
    (prev_orphan_id n) (next_orphan_id n).
Definition set_is_orphan (v : bool) (n : avl_node) : avl_node :=
  mk_node (key n) (left_id n) (right_id n) (parent_id n) (balance n) v
    (prev_orphan_id n) (next_orphan_id n).
Definition set_prev_orphan (v : Z) (n : avl_node) : avl_node :=
  mk_node (key n) (left_id n) (right_id n) (parent_id n) (balance n) (is_orphan n)
    v (next_orphan_id n).
Definition set_next_orphan (v : Z) (n : avl_node) : avl_node :=
  mk_node (key n) (left_id n) (right_id n) (parent_id n) (balance n) (is_orphan n)
    (prev_orphan_id n) v.

(** A write through a node pointer. *)
Definition upd (arr : gmap Z avl_node) (p : Z) (f : avl_node -> avl_node) : gmap Z avl_node :=
  <[p := f (arr !!! p)]> arr.

(** ** Address arithmetic

    A pointer is a byte offset from [arr].  [BOUNDED_ARRAY_IDX] is the BPF
    version of [third_party/bpf/common.bpf.h]. *)
Module Addr.
Definition el_off (elem_sz field_off : Z) : Z := Z.lor (u64 (Z.shiftl elem_sz 32)) field_off.
Definition __el_off_elem (e : Z) : Z := Z.shiftr e 32.
Definition __el_off_field (e : Z) : Z := Z.land e (Z.shiftl 1 32 - 1).

Definition BOUNDED_ARRAY_IDX (arr_sz idx : Z) : option Z :=
  if arr_sz <=? idx then None else Some idx.

Definition __avl_id_to_node (arr_sz e id : Z) : option Z :=
  let elem_sz := __el_off_elem e in
  let field_off := __el_off_field e in
  if id =? 0 then None
  else
    let p := u64 (u64 (u32 (id - 1) * elem_sz) + field_off) in
    BOUNDED_ARRAY_IDX (u64 (u64 (u64 (arr_sz - 1) * elem_sz) + field_off)) p.

Definition __avl_node_to_id (e : Z) (node : option Z) : Z :=
  let elem_sz := __el_off_elem e in
  let field_off := __el_off_field e in
  match node with
  | None => 0
  | Some p => u32 (u64 (p - field_off) / elem_sz + 1)
  end.
End Addr.

(** ** The tree operations *)

Module Avl.
Section Avl.
Context (nr : Z).  (* ids 1 .. nr pass the bounds check *)
Implicit Types (arr : gmap Z avl_node) (t : avl_tree).

Definition avl_id_to_node (id : Z) : option Z :=
  if (0 <? id) && (id <=? nr) then Some id else None.

Definition avl_node_to_id (node : option Z) : Z := match node with None => 0 | Some p => p end.

(** A write through a pointer that may be null. *)
Definition upd_opt arr (p : option Z) (f : avl_node -> avl_node) : gmap Z avl_node :=
  match p with Some p => upd arr p f | None => arr end.

(** *** Orphans *)

Definition __insert_orphan arr t (node : Z) : gmap Z avl_node * avl_tree :=
  let node_id := node in
  let next_id := first_orphan_id t in
  let next := avl_id_to_node next_id in
  let t := set_first_orphan node_id t in
  let arr := upd_opt arr next (set_prev_orphan node_id) in
  let arr := upd arr node (set_next_orphan next_id) in
  let arr := upd arr node (set_prev_orphan 0) in
  (arr, t).

Definition __remove_orphan arr t (node : Z) : gmap Z avl_node * avl_tree :=
  let node_id := node in
  let prev_id := prev_orphan_id (arr !!! node) in
  let prev := avl_id_to_node prev_id in
  let next_id := next_orphan_id (arr !!! node) in
  let next := avl_id_to_node next_id in
  let t := if first_orphan_id t =? node_id then set_first_orphan next_id t else t in
  let arr := upd_opt arr prev (set_next_orphan next_id) in
  let arr := upd_opt arr next (set_prev_orphan prev_id) in
  let arr := upd arr node (set_next_orphan 0) in
  let arr := upd arr node (set_prev_orphan 0) in
  (arr, t).

Definition __pop_first_orphan arr t : gmap Z avl_node * avl_tree * option Z :=
  match avl_id_to_node (first_orphan_id t) with
  | None => (arr, t, None)
  | Some first =>
      let next_id := next_orphan_id (arr !!! first) in
      let next := avl_id_to_node next_id in
      let t := set_first_orphan next_id t in
      let arr := upd_opt arr next (set_prev_orphan 0) in
      let arr := upd arr first (set_next_orphan 0) in
      let arr := upd arr first (set_prev_orphan 0) in
      (arr, t, Some first)
  end.

(** *** Searching *)

Fixpoint lookup_loop arr (k : Z) (n : nat) (x : option Z) : option Z :=
  match n with
  | O => None
  | S n' =>
      match x with
      | None => None
      | Some p =>
          if key (arr !!! p) =? k then Some p
          else if k <? key (arr !!! p) then lookup_loop arr k n' (avl_id_to_node (left_id (arr !!! p)))
          else lookup_loop arr k n' (avl_id_to_node (right_id (arr !!! p)))
      end
  end.

Definition avl_tree_lookup arr t (k : Z) : option Z :=
  lookup_loop arr k MAX_AVL_HEIGHT (avl_id_to_node (root t)).

Fixpoint min_loop arr (n : nat) (x : option Z) : option Z :=
  match n with
  | O => None
  | S n' =>
      match x with
      | None => None
      | Some p => if left_id (arr !!! p) =? 0 then Some p
                  else min_loop arr n' (avl_id_to_node (left_id (arr !!! p)))
      end
  end.

Definition avl_min_node arr (x : option Z) : option Z := min_loop arr MAX_AVL_HEIGHT x.
Definition avl_min_node_id arr (id : Z) : option Z := avl_min_node arr (avl_id_to_node id).
Definition avl_tree_min t : option Z := avl_id_to_node (min_id t).

Fixpoint max_loop arr (n : nat) (x : option Z) : option Z :=
  match n with
  | O => None
  | S n' =>
      match x with
      | None => None
      | Some p => if right_id (arr !!! p) =? 0 then Some p
                  else max_loop arr n' (avl_id_to_node (right_id (arr !!! p)))
      end
  end.

Definition avl_max_node arr (x : option Z) : option Z := max_loop arr MAX_AVL_HEIGHT x.
Definition avl_max_node_id arr (id : Z) : option Z := avl_max_node arr (avl_id_to_node id).
Definition avl_tree_max t : option Z := avl_id_to_node (max_id t).

(** The climb of [__avl_next_node]: until [x_id] is a left child. *)
Fixpoint next_climb arr (n : nat) (x x_id : Z) : option Z :=
  match n with
  | O => None
  | S n' =>
      match avl_id_to_node (parent_id (arr !!! x)) with
      | None => None
      | Some parent =>
          if x_id =? left_id (arr !!! parent) then Some parent
          else next_climb arr n' parent (parent_id (arr !!! x))
      end
  end.

Definition __avl_next_node arr (x : Z) : option Z :=
  if negb (right_id (arr !!! x) =? 0) then avl_min_node_id arr (right_id (arr !!! x))
  else next_climb arr MAX_AVL_HEIGHT x (avl_node_to_id (Some x)).

Fixpoint prev_climb arr (n : nat) (x x_id : Z) : option Z :=
  match n with
  | O => None
  | S n' =>
      match avl_id_to_node (parent_id (arr !!! x)) with
      | None => None
      | Some parent =>
          if x_id =? right_id (arr !!! parent) then Some parent
          else prev_climb arr n' parent (parent_id (arr !!! x))
      end
  end.

Definition __avl_prev_node arr (x : Z) : option Z :=
  if negb (left_id (arr !!! x) =? 0) then avl_max_node_id arr (left_id (arr !!! x))
  else prev_climb arr MAX_AVL_HEIGHT x (avl_node_to_id (Some x)).

(** *** Rotations: the array and the root of the rotated subtree *)

Definition __avl_rotate_left arr (x z : Z) : gmap Z avl_node * Z :=
  let x_id := x in
  let z_id := z in
  let t23_id := left_id (arr !!! z) in
  let t23 := avl_id_to_node t23_id in
  let arr := upd arr x (set_right t23_id) in
  let arr := upd_opt arr t23 (set_parent x_id) in
  let arr := upd arr z (set_left x_id) in
  let arr := upd arr x (set_parent z_id) in
  let arr :=
    if balance (arr !!! z) =? 0
    then upd (upd arr x (set_balance 1)) z (set_balance (-1))
    else upd (upd arr x (set_balance 0)) z (set_balance 0) in
  (arr, z).

Definition __avl_rotate_right arr (x z : Z) : gmap Z avl_node * Z :=
  let x_id := x in
  let z_id := z in
  let t23_id := right_id (arr !!! z) in
  let t23 := avl_id_to_node t23_id in
  let arr := upd arr x (set_left t23_id) in
  let arr := upd_opt arr t23 (set_parent x_id) in
  let arr := upd arr z (set_right x_id) in
  let arr := upd arr x (set_parent z_id) in
  let arr :=
    if balance (arr !!! z) =? 0
    then upd (upd arr x (set_balance (-1))) z (set_balance 1)
    else upd (upd arr x (set_balance 0)) z (set_balance 0) in
  (arr, z).

Definition __avl_rotate_right_left arr (x z : Z) : gmap Z avl_node * Z :=
  let x_id := x in
  let z_id := z in
  let y_id := left_id (arr !!! z) in
  match avl_id_to_node y_id with
  | None => (arr, x)
  | Some y =>
      let t2_id := left_id (arr !!! y) in
      let t3_id := right_id (arr !!! y) in
      let t2 := avl_id_to_node t2_id in
      let t3 := avl_id_to_node t3_id in
      let arr := upd arr y (set_left x_id) in
      let arr := upd arr x (set_parent y_id) in
      let arr := upd arr x (set_right t2_id) in
      let arr := upd_opt arr t2 (set_parent x_id) in
      let arr := upd arr y (set_right z_id) in
      let arr := upd arr z (set_parent y_id) in
      let arr := upd arr z (set_left t3_id) in
      let arr := upd_opt arr t3 (set_parent z_id) in
      let b := balance (arr !!! y) in
      let arr :=
        if b =? 0 then
          upd (upd (upd arr x (set_balance 0)) y (set_balance 0)) z (set_balance 0)
        else if 0 <? b then
          upd (upd (upd arr x (set_balance (-1))) y (set_balance 0)) z (set_balance 0)
        else
          upd (upd (upd arr x (set_balance 0)) y (set_balance 0)) z (set_balance 1) in
      (arr, y)
  end.

Definition __avl_rotate_left_right arr (x z : Z) : gmap Z avl_node * Z :=
  let x_id := x in
  let z_id := z in
  let y_id := right_id (arr !!! z) in
  match avl_id_to_node y_id with
  | None => (arr, x)
  | Some y =>
      let t2_id := left_id (arr !!! y) in
      let t3_id := right_id (arr !!! y) in
      let t2 := avl_id_to_node t2_id in
      let t3 := avl_id_to_node t3_id in
      let arr := upd arr y (set_left z_id) in
      let arr := upd arr z (set_parent y_id) in
      let arr := upd arr z (set_right t2_id) in
      let arr := upd_opt arr t2 (set_parent z_id) in
      let arr := upd arr y (set_right x_id) in
      let arr := upd arr x (set_parent y_id) in
      let arr := upd arr x (set_left t3_id) in
      let arr := upd_opt arr t3 (set_parent x_id) in
      let b := balance (arr !!! y) in
      let arr :=
        if b =? 0 then
          upd (upd (upd arr x (set_balance 0)) y (set_balance 0)) z (set_balance 0)
        else if 0 <? b then
          upd (upd (upd arr x (set_balance 0)) y (set_balance 0)) z (set_balance (-1))
        else
          upd (upd (upd arr x (set_balance 1)) y (set_balance 0)) z (set_balance 0) in
      (arr, y)
  end.

(** *** Insertion *)

(** The search for the future parent: [x], its id, the id found at its free slot
    (zero, unless the iterations ran out), and whether the slot is the left one. *)
Fixpoint insert_walk arr (k : Z) (n : nat) (x : option Z) (x_id next_id : Z) (is_left : bool) :
    option Z * Z * Z * bool :=
  match n with
  | O => (x, x_id, next_id, is_left)
  | S n' =>
      if next_id =? 0 then (x, x_id, next_id, is_left)
      else
        let x_id := next_id in
        match avl_id_to_node x_id with
        | None => (None, x_id, next_id, is_left)
        | Some p =>
            if k <? key (arr !!! p)
            then insert_walk arr k n' (Some p) x_id (left_id (arr !!! p)) true
            else insert_walk arr k n' (Some p) x_id (right_id (arr !!! p)) false
        end
  end.

(** Reconnect the rotated subtree to the parent [x] had. *)
Definition reattach arr t (x_parent : option Z) (x_parent_id x_id str : Z) :
    gmap Z avl_node * avl_tree :=
  let str_id := str in
  let arr := upd arr str (set_parent x_parent_id) in
  match x_parent with
  | None => (arr, set_root str_id t)
  | Some xp =>
      if left_id (arr !!! xp) =? x_id then (upd arr xp (set_left str_id), t)
      else (upd arr xp (set_right str_id), t)
  end.

(** The walk up that restores the balance after an insertion below [x]. *)
Fixpoint insert_retrace arr t (n : nat) (x : option Z) (x_id z z_id : Z) :
    gmap Z avl_node * avl_tree :=
  match n, x with
  | O, _ | _, None => (arr, t)
  | S n', Some x =>
      let left := left_id (arr !!! x) =? z_id in
      let b := balance (arr !!! x) in
      if b =? 0 then
        let arr := upd arr x (set_balance (if left then -1 else 1)) in
        let x_id' := parent_id (arr !!! x) in
        insert_retrace arr t n' (avl_id_to_node x_id') x_id' x x_id
      else if (left && (0 <? b)) || (negb left && (b <? 0)) then
        (upd arr x (set_balance 0), t)
      else
        let x_parent_id := parent_id (arr !!! x) in
        let x_parent := avl_id_to_node x_parent_id in
        let '(arr, str) :=
          if left then
            if balance (arr !!! z) <=? 0 then __avl_rotate_right arr x z
            else __avl_rotate_left_right arr x z
          else
            if 0 <=? balance (arr !!! z) then __avl_rotate_left arr x z
            else __avl_rotate_right_left arr x z in
        reattach arr t x_parent x_parent_id x_id str
  end.

(** The min/max cache after an insertion. *)
Definition insert_cache arr t (node : Z) : avl_tree :=
  let k := key (arr !!! node) in
  let t := if (min_id t =? 0) || (k <? min_key t) then set_min node k t else t in
  if (max_id t =? 0) || (max_key t <=? k) then set_max node k t else t.

Definition avl_tree_insert arr t (node : Z) : gmap Z avl_node * avl_tree :=
  let arr := upd arr node (fun n => set_balance 0 (set_right 0 (set_left 0 n))) in
  let arr := upd arr node (set_is_orphan false) in
  let node_id := node in
  let '(x, x_id, next_id, is_left) :=
    insert_walk arr (key (arr !!! node)) (MAX_AVL_HEIGHT - 1) None 0 (root t) false in
  if negb (next_id =? 0) then
    let arr := upd arr node (set_is_orphan true) in
    __insert_orphan arr t node
  else
    let arr := upd arr node (set_parent x_id) in
    match x with
    | None =>
        let k := key (arr !!! node) in
        (arr, set_max node_id k (set_min node_id k (set_root node_id t)))
    | Some xp =>
        let arr := if is_left then upd arr xp (set_left node_id) else upd arr xp (set_right node_id) in
        let '(arr, t) := insert_retrace arr t MAX_AVL_HEIGHT (Some xp) x_id node node_id in
        (arr, insert_cache arr t node)
    end.

(** *** Deletion *)

Definition __avl_replace_node arr (x with_id : Z) : gmap Z avl_node * bool :=
  let x_was_root := parent_id (arr !!! x) =? 0 in
  let arr :=
    match avl_id_to_node (parent_id (arr !!! x)) with
    | Some xp =>
        if left_id (arr !!! xp) =? avl_node_to_id (Some x) then upd arr xp (set_left with_id)
        else upd arr xp (set_right with_id)
    | None => arr
    end in
  let arr := upd_opt arr (avl_id_to_node with_id) (set_parent (parent_id (arr !!! x))) in
  (arr, x_was_root).

(** The macro [avl_replace_node]. *)
Definition avl_replace_node arr t (x with_id : Z) : gmap Z avl_node * avl_tree :=
  let '(arr, was_root) := __avl_replace_node arr x with_id in
  (arr, if was_root then set_root with_id t else t).

(** The min/max cache before a deletion. *)
Definition delete_cache arr t (node : Z) : avl_tree :=
  let t :=
    if node =? min_id t then
      match __avl_next_node arr node with
      | Some next => set_min next (key (arr !!! next)) t
      | None => set_min 0 (min_key t) t
      end
    else t in
  if node =? max_id t then
    match __avl_prev_node arr node with
    | Some prev => set_max prev (key (arr !!! prev)) t
    | None => set_max 0 (max_key t) t
    end
  else t.

(** Taking [node] out of the tree: the node [x] to retrace from, its id and the
    side that lost height; [None] where the function returns early. *)
(** The successor leaves its place: where the descent to repair starts. *)
Definition delete_detach_next arr t (node next : Z) :
    gmap Z avl_node * avl_tree * option (option Z * Z * bool) :=
  let node_id := node in
  let next_id := next in
  if negb (parent_id (arr !!! next) =? node_id) then
    (* the "deep next" case *)
    let x_id := parent_id (arr !!! next) in
    match avl_id_to_node x_id with
    | None => (arr, t, None)
    | Some x =>
        let from_the_left := left_id (arr !!! x) =? next_id in
        let '(arr, t) := avl_replace_node arr t next (right_id (arr !!! next)) in
        let arr := upd arr next (set_right (right_id (arr !!! node))) in
        match avl_id_to_node (right_id (arr !!! node)) with
        | None => (arr, t, None)
        | Some node_right =>
            (upd arr node_right (set_parent next_id), t, Some (Some x, x_id, from_the_left))
        end
    end
  else (* the "immediate child next" case *)
    (arr, t, Some (Some next, next_id, false)).

(** The successor takes the node's place above the node's left subtree. *)
Definition delete_splice_next {F} arr t (node next : Z) (from : F) :
    gmap Z avl_node * avl_tree * option F :=
  let next_id := next in
  let '(arr, t) := avl_replace_node arr t node next_id in
  let arr := upd arr next (set_left (left_id (arr !!! node))) in
  match avl_id_to_node (left_id (arr !!! node)) with
  | None => (arr, t, None)
  | Some node_left => (upd arr node_left (set_parent next_id), t, Some from)
  end.

Definition delete_unlink arr t (node : Z) :
    gmap Z avl_node * avl_tree * option (option Z * Z * bool) :=
  let node_id := node in
  let x_id := parent_id (arr !!! node) in
  let x := avl_id_to_node x_id in
  let from_the_left :=
    match x with Some p => left_id (arr !!! p) =? node_id | None => false end in
  if left_id (arr !!! node) =? 0 then
    let '(arr, t) := avl_replace_node arr t node (right_id (arr !!! node)) in
    (arr, t, Some (x, x_id, from_the_left))
  else if right_id (arr !!! node) =? 0 then
    let '(arr, t) := avl_replace_node arr t node (left_id (arr !!! node)) in
    (arr, t, Some (x, x_id, from_the_left))
  else
    match __avl_next_node arr node with
    | None => (arr, t, None)
    | Some next =>
        let arr := upd arr next (set_balance (balance (arr !!! node))) in
        match delete_detach_next arr t node next with
        | (arr, t, None) => (arr, t, None)
        | (arr, t, Some from) => delete_splice_next arr t node next from
        end
    end.

(** The rotation of an [x] that lost height on its light side: the array, the new
    subtree root and whether the height loss is absorbed; [None] where the
    function returns early. *)
Definition delete_rotate arr (x : Z) (from_the_left : bool) : option (gmap Z avl_node * Z * bool) :=
  if from_the_left then
    match avl_id_to_node (right_id (arr !!! x)) with
    | None => None
    | Some z =>
        let absorbed := balance (arr !!! z) =? 0 in
        let '(arr, str) :=
          if 0 <=? balance (arr !!! z) then __avl_rotate_left arr x z
          else __avl_rotate_right_left arr x z in
        Some (arr, str, absorbed)
    end
  else
    match avl_id_to_node (left_id (arr !!! x)) with
    | None => None
    | Some z =>
        let absorbed := balance (arr !!! z) =? 0 in
        let '(arr, str) :=
          if balance (arr !!! z) <=? 0 then __avl_rotate_right arr x z
          else __avl_rotate_left_right arr x z in
        Some (arr, str, absorbed)
    end.

(** The walk up after a deletion; false when the function returns early. *)
Fixpoint delete_retrace arr t (n : nat) (x : option Z) (x_id : Z) (from_the_left : bool) :
    gmap Z avl_node * avl_tree * bool :=
  match n, x with
  | O, _ | _, None => (arr, t, true)
  | S n', Some x =>
      let b := balance (arr !!! x) in
      if b =? 0 then (upd arr x (set_balance (if from_the_left then 1 else -1)), t, true)
      else
        let x_parent_id := parent_id (arr !!! x) in
        let x_parent := avl_id_to_node x_parent_id in
        if (from_the_left && (b <? 0)) || (negb from_the_left && (0 <? b)) then
          let arr := upd arr x (set_balance 0) in
          match x_parent with
          | None => (arr, t, true)
          | Some xp =>
              delete_retrace arr t n' (Some xp) x_parent_id (left_id (arr !!! xp) =? x_id)
          end
        else
          match delete_rotate arr x from_the_left with
          | None => (arr, t, false)
          | Some (arr, str, absorbed) =>
              match x_parent with
              | None => let '(arr, t) := reattach arr t None x_parent_id x_id str in (arr, t, true)
              | Some xp =>
                  let was_left := left_id (upd arr str (set_parent x_parent_id) !!! xp) =? x_id in
                  let '(arr, t) := reattach arr t (Some xp) x_parent_id x_id str in
                  if absorbed then (arr, t, true)
                  else delete_retrace arr t n' (Some xp) x_parent_id was_left
              end
          end
  end.

(** One orphan, if there is any, gets another chance. *)
Definition adopt_orphan arr t : gmap Z avl_node * avl_tree :=
  let '(arr, t, o) := __pop_first_orphan arr t in
  match o with Some o => avl_tree_insert arr t o | None => (arr, t) end.

Definition avl_tree_delete arr t (node : Z) : gmap Z avl_node * avl_tree :=
  if is_orphan (arr !!! node) then
    let '(arr, t) := __remove_orphan arr t node in
    (upd arr node (set_is_orphan false), t)
  else
    let t := delete_cache arr t node in
    match delete_unlink arr t node with
    | (arr, t, None) => (arr, t)
    | (arr, t, Some (x, x_id, from_the_left)) =>
        match delete_retrace arr t MAX_AVL_HEIGHT x x_id from_the_left with
        | (arr, t, false) => (arr, t)
        | (arr, t, true) => adopt_orphan arr t
        end
    end.

Definition avl_tree_pop_min arr t : gmap Z avl_node * avl_tree * option Z :=
  match avl_tree_min t with
  | Some min => (avl_tree_delete arr t min, Some min)
  | None => (arr, t, None)
  end.

Definition avl_tree_pop_max arr t : gmap Z avl_node * avl_tree * option Z :=
  match avl_tree_max t with
  | Some max => (avl_tree_delete arr t max, Some max)
  | None => (arr, t, None)
  end.
End Avl.
End Avl.
