(* ===== verification/AvlSpec.v ===== *)
(** * Trees, contexts and what an array represents

    The abstract trees that [AvlTree] implements: their in-order sequence and
    heights, contexts (a path from a hole up to the root), the representation
    predicates, and the effect of the address arithmetic. *)

From S2P Require Import Prelude AvlTree.
Import Avl.

(** ** Trees and contexts *)

Inductive tree := Leaf | Node (l : tree) (x : Z) (r : tree).

Fixpoint inorder (t : tree) : list Z :=
  match t with Leaf => [] | Node l x r => inorder l ++ x :: inorder r end.

Fixpoint height (t : tree) : Z :=
  match t with Leaf => 0 | Node l _ r => 1 + Z.max (height l) (height r) end.

Definition root_id (t : tree) : Z := match t with Leaf => 0 | Node _ x _ => x end.

Fixpoint balanced (t : tree) : Prop :=
  match t with
  | Leaf => True
  | Node l _ r => -1 <= height r - height l <= 1 /\ balanced l /\ balanced r
  end.

(** One step of a path: the hole is the left (right) child of [x]. *)
Inductive frame := FL (x : Z) (r : tree) | FR (l : tree) (x : Z).

(** A path from a hole to the root, innermost frame first. *)
Notation ctx := (list frame).

Definition frame_id (f : frame) : Z := match f with FL x _ => x | FR _ x => x end.
Definition frame_sib (f : frame) : tree := match f with FL _ r => r | FR l _ => l end.
Definition frame_plug (f : frame) (t : tree) : tree :=
  match f with FL x r => Node t x r | FR l x => Node l x t end.

Definition plug (c : ctx) (t : tree) : tree := foldl (fun t f => frame_plug f t) t c.

(** The id of the hole's parent. *)
Definition ctx_top (c : ctx) : Z := match c with [] => 0 | f :: _ => frame_id f end.

Fixpoint ctx_ids (c : ctx) : list Z :=
  match c with [] => [] | f :: c' => frame_id f :: inorder (frame_sib f) ++ ctx_ids c' end.

Fixpoint ctx_before (c : ctx) : list Z :=
  match c with
  | [] => []
  | FL _ _ :: c' => ctx_before c'
  | FR l x :: c' => ctx_before c' ++ inorder l ++ [x]
  end.

Fixpoint ctx_after (c : ctx) : list Z :=
  match c with
  | [] => []
  | FL x r :: c' => x :: inorder r ++ ctx_after c'
  | FR _ _ :: c' => ctx_after c'
  end.

Lemma height_nonneg t : 0 <= height t.
Proof. induction t; cbn; lia. Qed.

Lemma height_zero t : height t = 0 -> t = Leaf.
Proof. destruct t as [|l x r]; [done|]. cbn. pose proof (height_nonneg l). lia. Qed.

Lemma plug_cons f c t : plug (f :: c) t = plug c (frame_plug f t).
Proof. done. Qed.

Lemma plug_inorder c t : inorder (plug c t) = ctx_before c ++ inorder t ++ ctx_after c.
Proof.
  revert t. induction c as [|[x r|l x] c IH]; intros t; rewrite ?plug_cons.
  - cbn. by rewrite app_nil_r.
  - rewrite IH. cbn. by rewrite <- !app_assoc.
  - rewrite IH. cbn. by rewrite <- !app_assoc.
Qed.

Lemma ctx_ids_perm c : ctx_before c ++ ctx_after c ≡ₚ ctx_ids c.
Proof.
  induction c as [|[x r|l x] c IH]; cbn; [done|..]; rewrite <- IH; solve_Permutation.
Qed.

Lemma plug_perm c t : inorder (plug c t) ≡ₚ inorder t ++ ctx_ids c.
Proof. rewrite plug_inorder, <- ctx_ids_perm. solve_Permutation. Qed.

Lemma plug_height c t t' : height t <= height t' -> height (plug c t) <= height (plug c t').
Proof.
  revert t t'. induction c as [|[x r|l x] c IH]; intros t t' H; rewrite ?plug_cons;
    [done|..]; apply IH; cbn; lia.
Qed.

Lemma plug_height_len c t : Z.of_nat (length c) + height t <= height (plug c t).
Proof.
  revert t. induction c as [|f c IH]; intros t; rewrite ?plug_cons; [cbn; lia|].
  specialize (IH (frame_plug f t)). cbn [length].
  pose proof (height_nonneg (frame_sib f)). destruct f; cbn [frame_plug height frame_sib] in *; lia.
Qed.

(** ** Representation *)

Section Rep.
Context (nr : Z).
Implicit Types (arr : gmap Z avl_node) (t : tree) (c : ctx).

Definition valid (i : Z) : Prop := 0 < i <= nr.

(** The fields of a tree node. *)
Record node_at arr (x p li ri b : Z) : Prop := {
  at_left : left_id (arr !!! x) = li;
  at_right : right_id (arr !!! x) = ri;
  at_parent : parent_id (arr !!! x) = p;
  at_balance : balance (arr !!! x) = b;
  at_orphan : is_orphan (arr !!! x) = false;
}.

(** [arr] holds [t], hanging below node [p] (zero for the root). *)
Fixpoint tree_rep arr (p : Z) t : Prop :=
  match t with
  | Leaf => True
  | Node l x r =>
      valid x /\ node_at arr x p (root_id l) (root_id r) (height r - height l) /\
      tree_rep arr x l /\ tree_rep arr x r
  end.

(** The fields of a frame's node, for a hole that holds [hid] and is accounted
    with height [hb]. *)
Definition frame_at arr (f : frame) (p hid hb : Z) : Prop :=
  match f with
  | FL x r => node_at arr x p hid (root_id r) (height r - hb)
  | FR l x => node_at arr x p (root_id l) hid (hb - height l)
  end.

(** [arr] holds the path [c] around a hole; [hb] is the height the balances
    account for. *)
Fixpoint ctx_rep arr c (hid hb : Z) : Prop :=
  match c with
  | [] => True
  | f :: c' =>
      valid (frame_id f) /\ frame_at arr f (ctx_top c') hid hb /\
      tree_rep arr (frame_id f) (frame_sib f) /\
      ctx_rep arr c' (frame_id f) (1 + Z.max hb (height (frame_sib f)))
  end.

Fixpoint ctx_bal c (hb : Z) : Prop :=
  match c with
  | [] => True
  | f :: c' =>
      -1 <= height (frame_sib f) - hb <= 1 /\ balanced (frame_sib f) /\
      ctx_bal c' (1 + Z.max hb (height (frame_sib f)))
  end.

Lemma plug_rep arr c t :
  tree_rep arr 0 (plug c t) <-> tree_rep arr (ctx_top c) t /\ ctx_rep arr c (root_id t) (height t).
Proof.
  revert t. induction c as [|[x r|l x] c IH]; intros t; rewrite ?plug_cons.
  - cbn. tauto.
  - rewrite IH. cbn. tauto.
  - rewrite IH. cbn. rewrite (Z.max_comm (height l)). tauto.
Qed.

Lemma plug_balanced c t : balanced (plug c t) <-> balanced t /\ ctx_bal c (height t).
Proof.
  revert t. induction c as [|[x r|l x] c IH]; intros t; rewrite ?plug_cons.
  - cbn. tauto.
  - rewrite IH. cbn. tauto.
  - rewrite IH. cbn. rewrite (Z.max_comm (height l)).
    split; intros H; split_and!; try tauto; lia.
Qed.

(** ** Framing *)

Lemma tree_rep_ext arr arr' p t :
  (forall i, i ∈ inorder t -> arr' !!! i = arr !!! i) -> tree_rep arr p t -> tree_rep arr' p t.
Proof.
  revert p. induction t as [|l IHl x r IHr]; intros p Heq; [done|]. cbn in *.
  intros (Hv & [? ? ? ? ?] & Hl & Hr). split; [done|]. split.
  - rewrite <- (Heq x) in * by set_solver. by split.
  - split; [apply IHl|apply IHr]; try done; intros i Hi; apply Heq; set_solver.
Qed.

Lemma node_at_ext arr arr' x p li ri b :
  arr' !!! x = arr !!! x -> node_at arr x p li ri b -> node_at arr' x p li ri b.
Proof. intros Heq [? ? ? ? ?]. split; by rewrite Heq. Qed.

Lemma ctx_rep_ext arr arr' c hid hb :
  (forall i, i ∈ ctx_ids c -> arr' !!! i = arr !!! i) ->
  ctx_rep arr c hid hb -> ctx_rep arr' c hid hb.
Proof.
  revert hid hb. induction c as [|f c IH]; intros hid hb Heq; [done|]. cbn in *.
  intros (Hv & Hf & Ht & Hc). split_and!; [done|..].
  - destruct f; cbn in *; (eapply node_at_ext; [|done]); apply Heq; set_solver.
  - eapply tree_rep_ext; [|done]. intros i Hi. apply Heq. set_solver.
  - apply IH; [|done]. intros i Hi. apply Heq. set_solver.
Qed.

(** A write to a node outside. *)
Lemma upd_eq arr i f : upd arr i f !!! i = f (arr !!! i).
Proof. apply lookup_total_insert_eq. Qed.
Lemma upd_ne arr i j f : i <> j -> upd arr i f !!! j = arr !!! j.
Proof. apply lookup_total_insert_ne. Qed.

Lemma tree_rep_upd arr p t i f : i ∉ inorder t -> tree_rep arr p t -> tree_rep (upd arr i f) p t.
Proof. intros Hi. apply tree_rep_ext. intros j Hj. apply upd_ne. set_solver. Qed.

Lemma ctx_rep_upd arr c hid hb i f :
  i ∉ ctx_ids c -> ctx_rep arr c hid hb -> ctx_rep (upd arr i f) c hid hb.
Proof. intros Hi. apply ctx_rep_ext. intros j Hj. apply upd_ne. set_solver. Qed.

(** Hanging a subtree below another node: the write [if (t) t->parent_id = q]. *)
Lemma id_to_node_valid i : valid i -> avl_id_to_node nr i = Some i.
Proof.
  intros [? ?]. unfold avl_id_to_node. by rewrite (proj2 (Z.ltb_lt _ _)), (proj2 (Z.leb_le _ _)) by lia.
Qed.

Lemma id_to_node_0 : avl_id_to_node nr 0 = None.
Proof. done. Qed.

Definition node_opt t : option Z := match t with Leaf => None | Node _ x _ => Some x end.

Lemma id_to_node_root arr p t : tree_rep arr p t -> avl_id_to_node nr (root_id t) = node_opt t.
Proof. destruct t; [done|]. cbn. intros (? & _). by apply id_to_node_valid. Qed.

Lemma id_to_node_top arr c hid hb :
  ctx_rep arr c hid hb -> avl_id_to_node nr (ctx_top c) = frame_id <$> head c.
Proof. destruct c; [done|]. cbn. intros (? & _). by apply id_to_node_valid. Qed.

Lemma reparent_rep arr p q t :
  NoDup (inorder t) -> tree_rep arr p t ->
  tree_rep (upd_opt arr (node_opt t) (set_parent q)) q t.
Proof.
  destruct t as [|l x r]; [done|]. cbn. intros Hnd (Hv & [? ? ? ? ?] & Hl & Hr).
  apply NoDup_middle in Hnd as (Hxl & Hxr & _). split; [done|]. split.
  - split; rewrite upd_eq; done.
  - split; by apply tree_rep_upd.
Qed.

Lemma upd_opt_other arr t f i :
  i ∉ inorder t -> upd_opt arr (node_opt t) f !!! i = arr !!! i.
Proof. destruct t; [done|]. cbn. intros Hi. apply upd_ne. set_solver. Qed.

Lemma tree_rep_valid arr p t i : tree_rep arr p t -> i ∈ inorder t -> valid i.
Proof.
  revert p. induction t as [|l IHl x r IHr]; intros p; cbn; [set_solver|].
  intros (? & _ & ? & ?). rewrite elem_of_app, elem_of_cons. naive_solver.
Qed.

Lemma root_id_in t : t <> Leaf -> root_id t ∈ inorder t.
Proof. destruct t; [done|]. cbn. set_solver. Qed.

Lemma root_id_zero arr p t : tree_rep arr p t -> root_id t = 0 -> t = Leaf.
Proof. destruct t; [done|]. cbn. intros ([? ?] & _). lia. Qed.

(** An id that is not in [t] is not its root. *)
Lemma root_id_ne arr p t x : tree_rep arr p t -> valid x -> x ∉ inorder t -> root_id t <> x.
Proof.
  intros Ht [? ?] Hx Heq. subst x. destruct t; cbn in *; [lia|set_solver].
Qed.
End Rep.

(** ** The address arithmetic *)

(** The element size and the field offset are recovered from [el_off]. *)
Lemma el_off_fields e f :
  0 <= e < 2 ^ 32 -> 0 <= f < 2 ^ 32 ->
  Addr.__el_off_elem (Addr.el_off e f) = e /\ Addr.__el_off_field (Addr.el_off e f) = f.
Proof.
  intros He Hf. unfold Addr.__el_off_elem, Addr.__el_off_field, Addr.el_off.
  assert (Hs : u64 (Z.shiftl e 32) = Z.shiftl e 32).
  { apply u64_id. rewrite Z.shiftl_mul_pow2 by lia. lia. }
  rewrite Hs. split.
  - rewrite Z.shiftr_lor, Z.shiftr_shiftl_l by lia. replace (32 - 32) with 0 by lia.
    rewrite Z.shiftl_0_r, (Z.shiftr_div_pow2 f) by lia. rewrite Z.div_small by lia.
    apply Z.lor_0_r.
  - change (Z.shiftl 1 32 - 1) with (Z.ones 32). rewrite Z.land_lor_distr_l, !Z.land_ones by lia.
    rewrite Z.shiftl_mul_pow2, Z.mod_mul, Z.mod_small by lia. done.
Qed.
