(* ===== verification/AvlRotate.v ===== *)
(** * Rotations and re-attachment

    Each rotation of [AvlTree] turns the represented subtree into the rotated
    one, and touches nothing but the links and balances of its nodes. *)

From S2P Require Import Prelude AvlTree AvlSpec.
Import Avl.

(** ** What a structural update leaves alone *)

(** The fields of a node that are not tree structure. *)
Definition data (n : avl_node) : Z * bool * Z * Z :=
  (key n, is_orphan n, prev_orphan_id n, next_orphan_id n).

(** [arr'] differs from [arr] only in the tree structure of the nodes in [S]. *)
Record relinked (arr arr' : gmap Z avl_node) (S : list Z) : Prop := {
  rel_other : forall i, i ∉ S -> arr' !!! i = arr !!! i;
  rel_data : forall i, data (arr' !!! i) = data (arr !!! i);
}.

Lemma relinked_refl arr S : relinked arr arr S.
Proof. by split. Qed.

Lemma relinked_upd arr arr' S i f :
  (forall n, data (f n) = data n) -> i ∈ S -> relinked arr arr' S -> relinked arr (upd arr' i f) S.
Proof.
  intros Hf Hi [H1 H2]. split.
  - intros j Hj. rewrite upd_ne by set_solver. auto.
  - intros j. destruct (decide (i = j)) as [<-|]; [rewrite upd_eq, Hf|rewrite upd_ne by done]; auto.
Qed.

Lemma relinked_upd_opt arr arr' S t f :
  (forall n, data (f n) = data n) -> (forall i, i ∈ inorder t -> i ∈ S) ->
  relinked arr arr' S -> relinked arr (upd_opt arr' (node_opt t) f) S.
Proof. destruct t; [done|]. intros Hf Hi. apply relinked_upd; [done|]. apply Hi. cbn. set_solver. Qed.

Lemma relinked_trans arr arr' arr'' S :
  relinked arr arr' S -> relinked arr' arr'' S -> relinked arr arr'' S.
Proof. intros [H1 H2] [G1 G2]. split; intros; [rewrite G1, H1 by done|rewrite G2, H2]; done. Qed.

Lemma relinked_mono arr arr' S S' :
  (forall i, i ∈ S -> i ∈ S') -> relinked arr arr' S -> relinked arr arr' S'.
Proof. intros HS [H1 H2]. split; [|done]. intros i Hi. apply H1. naive_solver. Qed.

#[export] Hint Resolve relinked_refl : ghost.

(** Discharge a chain of structural updates. *)
Ltac relink :=
  repeat lazymatch goal with
  | |- relinked _ (upd_opt _ _ _) _ => apply relinked_upd_opt; [done|set_solver|]
  | |- relinked _ (upd _ _ _) _ => apply relinked_upd; [done|first [assumption|set_solver]|]
  | |- relinked ?a ?a _ => apply relinked_refl
  end.

(** ** Normalising chains of writes *)

Lemma upd_opt_upd_comm arr t i f g :
  i ∉ inorder t ->
  upd_opt (upd arr i f) (node_opt t) g = upd (upd_opt arr (node_opt t) g) i f.
Proof.
  destruct t as [|l x r]; [done|]. cbn. intros Hi. unfold upd.
  assert (i <> x) by set_solver.
  rewrite !lookup_total_insert_ne by done. by rewrite insert_insert_ne by done.
Qed.

(** Reads through writes to the distinct nodes of a rotation. *)
Ltac reads :=
  repeat first [ rewrite upd_eq | rewrite upd_ne by congruence | rewrite upd_opt_other by done ].

(** The fields of a rewritten node, and a subtree whose nodes were not written. *)
Ltac solve_node :=
  split; reads; cbn [left_id right_id parent_id balance is_orphan root_id height
                     set_left set_right set_parent set_balance];
  repeat match goal with H : ?a !!! ?i = _ !!! ?i |- context [?a !!! ?i] => rewrite H end;
  first [done | lia].
Ltac solve_sub H N Heq :=
  eapply tree_rep_ext; [|exact H]; intros i Hi; pose proof (N i Hi) as Hne;
  rewrite !upd_ne by tauto; first [done | by apply Heq].

(** Membership in a concatenation, by propositional reasoning. *)
Ltac mem := rewrite ?elem_of_app, ?elem_of_cons, ?elem_of_app, ?elem_of_cons, ?elem_of_app,
              ?elem_of_cons, ?elem_of_app in *; tauto.

(** What [NoDup] says of two (three) nodes and their subtrees. *)
Lemma nodup_two (l1 l2 l3 : list Z) x z :
  NoDup (l1 ++ x :: l2 ++ z :: l3) ->
  NoDup l2 /\ x <> z /\
  (forall i, i ∈ l1 -> x <> i /\ z <> i /\ i ∉ l2) /\
  (forall i, i ∈ l2 -> x <> i /\ z <> i) /\
  (forall i, i ∈ l3 -> x <> i /\ z <> i /\ i ∉ l2) /\ x ∉ l2 /\ z ∉ l2.
Proof.
  rewrite !NoDup_app, !NoDup_cons, !NoDup_app, !NoDup_cons. intros (_ & H1 & H2 & H3 & H4 & H5 & _).
  split_and!; [done|set_solver..].
Qed.

Lemma nodup_three (l1 l2 l3 l4 : list Z) x y z :
  NoDup (l1 ++ x :: l2 ++ y :: l3 ++ z :: l4) ->
  NoDup (l2 ++ l3) /\ x <> z /\ x <> y /\ y <> z /\
  (forall i, i ∈ l1 -> (x <> i /\ y <> i /\ z <> i) /\ i ∉ l2 /\ i ∉ l3) /\
  (forall i, i ∈ l2 -> x <> i /\ y <> i /\ z <> i) /\
  (forall i, i ∈ l3 -> x <> i /\ y <> i /\ z <> i) /\
  (forall i, i ∈ l4 -> (x <> i /\ y <> i /\ z <> i) /\ i ∉ l2 /\ i ∉ l3).
Proof.
  rewrite !NoDup_app, !NoDup_cons, !NoDup_app, !NoDup_cons, !NoDup_app, !NoDup_cons.
  intros (_ & H1 & H2 & H3 & H4 & H5 & H6 & H7 & H8 & _).
  split_and!; [done|set_solver..].
Qed.

Section Rotate.
Context (nr : Z).
Implicit Types (arr : gmap Z avl_node).

Lemma rotate_left_rep arr x z l t23 t4 p b q :
  valid nr x -> valid nr z ->
  node_at arr x p (root_id l) z b ->
  node_at arr z x (root_id t23) (root_id t4) (height t4 - height t23) ->
  tree_rep nr arr x l -> tree_rep nr arr z t23 -> tree_rep nr arr z t4 ->
  NoDup (inorder l ++ x :: inorder t23 ++ z :: inorder t4) ->
  0 <= height t4 - height t23 <= 1 -> height l = height t4 - 1 ->
  exists arr', __avl_rotate_left nr arr x z = (arr', z) /\
    relinked arr arr' (inorder l ++ x :: inorder t23 ++ z :: inorder t4) /\
    tree_rep nr (upd arr' z (set_parent q)) q (Node (Node l x t23) z t4).
Proof.
  intros Hvx Hvz [Hx1 Hx2 Hx3 Hx4 Hx5] [Hz1 Hz2 Hz3 Hz4 Hz5] Hl Ht23 Ht4 Hnd Hb Hh.
  destruct (nodup_two _ _ _ _ _ Hnd) as (Hnd23 & Hxz & Nl & N23 & N4 & Hx23 & Hz23).
  unfold __avl_rotate_left. cbv zeta. rewrite Hz1, (id_to_node_root _ _ _ _ Ht23).
  rewrite !upd_opt_upd_comm by done.
  set (arr0 := upd_opt arr (node_opt t23) (set_parent x)).
  assert (E0x : arr0 !!! x = arr !!! x) by (by apply upd_opt_other).
  assert (E0z : arr0 !!! z = arr !!! z) by (by apply upd_opt_other).
  reads. cbn [balance set_left]. rewrite E0z, Hz4.
  set (S := inorder l ++ x :: inorder t23 ++ z :: inorder t4).
  assert (HxS : x ∈ S) by (subst S; mem). assert (HzS : z ∈ S) by (subst S; mem).
  assert (Hlx : forall i, i ∈ inorder l -> arr0 !!! i = arr !!! i)
    by (intros i Hi; apply upd_opt_other, (Nl i Hi)).
  assert (H4x : forall i, i ∈ inorder t4 -> arr0 !!! i = arr !!! i)
    by (intros i Hi; apply upd_opt_other, (N4 i Hi)).
  assert (H23 : tree_rep nr arr0 x t23) by (by eapply reparent_rep).
  assert (Hrel0 : relinked arr arr0 S).
  { apply relinked_upd_opt; [done| |apply relinked_refl]. intros i Hi. subst S. mem. }
  destruct (Z.eqb_spec (height t4 - height t23) 0) as [Hz0|Hz0];
    (eexists; split; [reflexivity|]; split; [relink; exact Hrel0|]).
  all: cbn [tree_rep]; split; [done|]; split; [solve_node|].
  all: split; [|solve_sub Ht4 N4 H4x].
  all: split; [done|]; split; [solve_node|].
  all: split; [solve_sub Hl Nl Hlx|solve_sub H23 N23 H23].
Qed.

Lemma rotate_right_rep arr x z t1 t23 t4 p b q :
  valid nr x -> valid nr z ->
  node_at arr x p z (root_id t4) b ->
  node_at arr z x (root_id t1) (root_id t23) (height t23 - height t1) ->
  tree_rep nr arr z t1 -> tree_rep nr arr z t23 -> tree_rep nr arr x t4 ->
  NoDup (inorder t1 ++ z :: inorder t23 ++ x :: inorder t4) ->
  -1 <= height t23 - height t1 <= 0 -> height t4 = height t1 - 1 ->
  exists arr', __avl_rotate_right nr arr x z = (arr', z) /\
    relinked arr arr' (inorder t1 ++ z :: inorder t23 ++ x :: inorder t4) /\
    tree_rep nr (upd arr' z (set_parent q)) q (Node t1 z (Node t23 x t4)).
Proof.
  intros Hvx Hvz [Hx1 Hx2 Hx3 Hx4 Hx5] [Hz1 Hz2 Hz3 Hz4 Hz5] Ht1 Ht23 Ht4 Hnd Hb Hh.
  destruct (nodup_two _ _ _ _ _ Hnd) as (Hnd23 & Hzx & N1 & N23 & N4 & Hz23 & Hx23).
  unfold __avl_rotate_right. cbv zeta. rewrite Hz2, (id_to_node_root _ _ _ _ Ht23).
  rewrite !upd_opt_upd_comm by done.
  set (arr0 := upd_opt arr (node_opt t23) (set_parent x)).
  assert (E0x : arr0 !!! x = arr !!! x) by (by apply upd_opt_other).
  assert (E0z : arr0 !!! z = arr !!! z) by (by apply upd_opt_other).
  reads. cbn [balance set_right]. rewrite E0z, Hz4.
  set (S := inorder t1 ++ z :: inorder t23 ++ x :: inorder t4).
  assert (HxS : x ∈ S) by (subst S; mem). assert (HzS : z ∈ S) by (subst S; mem).
  assert (H1x : forall i, i ∈ inorder t1 -> arr0 !!! i = arr !!! i)
    by (intros i Hi; apply upd_opt_other, (N1 i Hi)).
  assert (H4x : forall i, i ∈ inorder t4 -> arr0 !!! i = arr !!! i)
    by (intros i Hi; apply upd_opt_other, (N4 i Hi)).
  assert (H23 : tree_rep nr arr0 x t23) by (by eapply reparent_rep).
  assert (Hrel0 : relinked arr arr0 S).
  { apply relinked_upd_opt; [done| |apply relinked_refl]. intros i Hi. subst S. mem. }
  destruct (Z.eqb_spec (height t23 - height t1) 0) as [Hz0|Hz0];
    (eexists; split; [reflexivity|]; split; [relink; exact Hrel0|]).
  all: cbn [tree_rep]; split; [done|]; split; [solve_node|].
  all: split; [solve_sub Ht1 N1 H1x|].
  all: split; [done|]; split; [solve_node|].
  all: split; [solve_sub H23 N23 H23|solve_sub Ht4 N4 H4x].
Qed.

(** The double rotations re-hang both inner subtrees. *)
Lemma two_reparented arr p2 p3 q2 q3 t2 t3 :
  NoDup (inorder t2 ++ inorder t3) -> tree_rep nr arr p2 t2 -> tree_rep nr arr p3 t3 ->
  let arr0 := upd_opt (upd_opt arr (node_opt t2) (set_parent q2)) (node_opt t3) (set_parent q3) in
  tree_rep nr arr0 q2 t2 /\ tree_rep nr arr0 q3 t3 /\
  (forall i, i ∉ inorder t2 -> i ∉ inorder t3 -> arr0 !!! i = arr !!! i) /\
  forall S, (forall i, i ∈ inorder t2 ++ inorder t3 -> i ∈ S) -> relinked arr arr0 S.
Proof.
  rewrite NoDup_app. intros (Hnd2 & Hd & Hnd3) Ht2 Ht3 arr0.
  assert (Ht2' : tree_rep nr (upd_opt arr (node_opt t2) (set_parent q2)) q2 t2)
    by (by eapply reparent_rep).
  assert (Ht3' : tree_rep nr (upd_opt arr (node_opt t2) (set_parent q2)) p3 t3).
  { eapply tree_rep_ext; [|exact Ht3]. intros i Hi. apply upd_opt_other. set_solver. }
  split_and!.
  - eapply tree_rep_ext; [|exact Ht2']. intros i Hi. apply upd_opt_other. set_solver.
  - by eapply reparent_rep.
  - intros i H2 H3. unfold arr0. by rewrite !upd_opt_other.
  - intros S HS. subst arr0. apply relinked_upd_opt; [done|set_solver|].
    apply relinked_upd_opt; [done|set_solver|]. apply relinked_refl.
Qed.

Lemma rotate_right_left_rep arr x z y t1 t2 t3 t4 p b q :
  valid nr x -> valid nr z -> valid nr y ->
  node_at arr x p (root_id t1) z b ->
  node_at arr z x y (root_id t4) (-1) ->
  node_at arr y z (root_id t2) (root_id t3) (height t3 - height t2) ->
  tree_rep nr arr x t1 -> tree_rep nr arr y t2 -> tree_rep nr arr y t3 -> tree_rep nr arr z t4 ->
  NoDup (inorder t1 ++ x :: inorder t2 ++ y :: inorder t3 ++ z :: inorder t4) ->
  -1 <= height t3 - height t2 <= 1 -> Z.max (height t2) (height t3) = height t4 ->
  height t1 = height t4 ->
  exists arr', __avl_rotate_right_left nr arr x z = (arr', y) /\
    relinked arr arr' (inorder t1 ++ x :: inorder t2 ++ y :: inorder t3 ++ z :: inorder t4) /\
    tree_rep nr (upd arr' y (set_parent q)) q (Node (Node t1 x t2) y (Node t3 z t4)).
Proof.
  intros Hvx Hvz Hvy [Hx1 Hx2 Hx3 Hx4 Hx5] [Hz1 Hz2 Hz3 Hz4 Hz5] [Hy1 Hy2 Hy3 Hy4 Hy5]
    Ht1 Ht2 Ht3 Ht4 Hnd Hb Hmax Hh.
  destruct (nodup_three _ _ _ _ _ _ _ Hnd) as (Hnd23 & Hxz & Hxy & Hyz & N1 & N2 & N3 & N4).
  assert (x ∉ inorder t2 /\ y ∉ inorder t2 /\ z ∉ inorder t2) as (Hx2' & Hy2' & Hz2')
    by (split_and!; intros Hi; by destruct (N2 _ Hi) as (? & ? & ?)).
  assert (x ∉ inorder t3 /\ y ∉ inorder t3 /\ z ∉ inorder t3) as (Hx3' & Hy3' & Hz3')
    by (split_and!; intros Hi; by destruct (N3 _ Hi) as (? & ? & ?)).
  unfold __avl_rotate_right_left. rewrite Hz1, (id_to_node_valid _ _ Hvy). cbv zeta.
  rewrite Hy1, Hy2, (id_to_node_root _ _ _ _ Ht2), (id_to_node_root _ _ _ _ Ht3).
  rewrite !upd_opt_upd_comm by done.
  destruct (two_reparented arr y y x z t2 t3) as (H2 & H3 & E0 & Hrel);
    [done..|].
  set (arr0 := upd_opt (upd_opt arr _ _) _ _) in *.
  assert (E0x : arr0 !!! x = arr !!! x) by (by apply E0).
  assert (E0y : arr0 !!! y = arr !!! y) by (by apply E0).
  assert (E0z : arr0 !!! z = arr !!! z) by (by apply E0).
  reads. cbn [balance set_left set_right]. rewrite E0y, Hy4.
  assert (H1x : forall i, i ∈ inorder t1 -> arr0 !!! i = arr !!! i)
    by (intros i Hi; apply E0; apply (N1 i Hi)).
  assert (H4x : forall i, i ∈ inorder t4 -> arr0 !!! i = arr !!! i)
    by (intros i Hi; apply E0; apply (N4 i Hi)).
  set (S := inorder t1 ++ x :: inorder t2 ++ y :: inorder t3 ++ z :: inorder t4).
  assert (Hrel0 : relinked arr arr0 S) by (apply Hrel; intros i Hi; subst S; mem).
  assert (HxS : x ∈ S) by (subst S; mem). assert (HyS : y ∈ S) by (subst S; mem).
  assert (HzS : z ∈ S) by (subst S; mem).
  destruct (Z.eqb_spec (height t3 - height t2) 0); [|destruct (Z.ltb_spec 0 (height t3 - height t2))].
  all: eexists; split; [reflexivity|]; split; [relink; exact Hrel0|].
  all: cbn [tree_rep]; split; [done|]; split; [solve_node|].
  all: split; (split; [done|]; split; [solve_node|]).
  1, 3, 5: split; [solve_sub Ht1 N1 H1x|solve_sub H2 N2 H2].
  all: split; [solve_sub H3 N3 H3|solve_sub Ht4 N4 H4x].
Qed.

Lemma rotate_left_right_rep arr x z y t1 t2 t3 t4 p b q :
  valid nr x -> valid nr z -> valid nr y ->
  node_at arr x p z (root_id t4) b ->
  node_at arr z x (root_id t1) y 1 ->
  node_at arr y z (root_id t2) (root_id t3) (height t3 - height t2) ->
  tree_rep nr arr z t1 -> tree_rep nr arr y t2 -> tree_rep nr arr y t3 -> tree_rep nr arr x t4 ->
  NoDup (inorder t1 ++ z :: inorder t2 ++ y :: inorder t3 ++ x :: inorder t4) ->
  -1 <= height t3 - height t2 <= 1 -> Z.max (height t2) (height t3) = height t1 ->
  height t1 = height t4 ->
  exists arr', __avl_rotate_left_right nr arr x z = (arr', y) /\
    relinked arr arr' (inorder t1 ++ z :: inorder t2 ++ y :: inorder t3 ++ x :: inorder t4) /\
    tree_rep nr (upd arr' y (set_parent q)) q (Node (Node t1 z t2) y (Node t3 x t4)).
Proof.
  intros Hvx Hvz Hvy [Hx1 Hx2 Hx3 Hx4 Hx5] [Hz1 Hz2 Hz3 Hz4 Hz5] [Hy1 Hy2 Hy3 Hy4 Hy5]
    Ht1 Ht2 Ht3 Ht4 Hnd Hb Hmax Hh.
  destruct (nodup_three _ _ _ _ _ _ _ Hnd) as (Hnd23 & Hzx & Hzy & Hyx & N1 & N2 & N3 & N4).
  assert (x ∉ inorder t2 /\ y ∉ inorder t2 /\ z ∉ inorder t2) as (Hx2' & Hy2' & Hz2')
    by (split_and!; intros Hi; by destruct (N2 _ Hi) as (? & ? & ?)).
  assert (x ∉ inorder t3 /\ y ∉ inorder t3 /\ z ∉ inorder t3) as (Hx3' & Hy3' & Hz3')
    by (split_and!; intros Hi; by destruct (N3 _ Hi) as (? & ? & ?)).
  unfold __avl_rotate_left_right. rewrite Hz2, (id_to_node_valid _ _ Hvy). cbv zeta.
  rewrite Hy1, Hy2, (id_to_node_root _ _ _ _ Ht2), (id_to_node_root _ _ _ _ Ht3).
  rewrite !upd_opt_upd_comm by done.
  destruct (two_reparented arr y y z x t2 t3) as (H2 & H3 & E0 & Hrel);
    [done..|].
  set (arr0 := upd_opt (upd_opt arr _ _) _ _) in *.
  assert (E0x : arr0 !!! x = arr !!! x) by (by apply E0).
  assert (E0y : arr0 !!! y = arr !!! y) by (by apply E0).
  assert (E0z : arr0 !!! z = arr !!! z) by (by apply E0).
  reads. cbn [balance set_left set_right]. rewrite E0y, Hy4.
  assert (H1x : forall i, i ∈ inorder t1 -> arr0 !!! i = arr !!! i)
    by (intros i Hi; apply E0; apply (N1 i Hi)).
  assert (H4x : forall i, i ∈ inorder t4 -> arr0 !!! i = arr !!! i)
    by (intros i Hi; apply E0; apply (N4 i Hi)).
  set (S := inorder t1 ++ z :: inorder t2 ++ y :: inorder t3 ++ x :: inorder t4).
  assert (Hrel0 : relinked arr arr0 S) by (apply Hrel; intros i Hi; subst S; mem).
  assert (HxS : x ∈ S) by (subst S; mem). assert (HyS : y ∈ S) by (subst S; mem).
  assert (HzS : z ∈ S) by (subst S; mem).
  destruct (Z.eqb_spec (height t3 - height t2) 0); [|destruct (Z.ltb_spec 0 (height t3 - height t2))].
  all: eexists; split; [reflexivity|]; split; [relink; exact Hrel0|].
  all: cbn [tree_rep]; split; [done|]; split; [solve_node|].
  all: split; (split; [done|]; split; [solve_node|]).
  1, 3, 5: split; [solve_sub Ht1 N1 H1x|solve_sub H2 N2 H2].
  all: split; [solve_sub H3 N3 H3|solve_sub Ht4 N4 H4x].
Qed.
End Rotate.
