(* ===== verification/AvlBalance.v ===== *)
(** * Rebalancing on the way up

    A node whose children differ by two levels is repaired by one rotation; the
    walks up after an insertion and after a deletion restore the balance of the
    whole tree, within the iterations the loops allow. *)

From S2P Require Import Prelude AvlTree AvlSpec AvlRotate.
Import Avl.

Definition is_FL (f : frame) : bool := match f with FL _ _ => true | FR _ _ => false end.

(** The height of the whole tree, given the height in the hole. *)
Fixpoint ctx_height (c : ctx) (h : Z) : Z :=
  match c with [] => h | f :: c' => ctx_height c' (1 + Z.max h (height (frame_sib f))) end.

Lemma plug_ctx_height c t : height (plug c t) = ctx_height c (height t).
Proof.
  revert t. induction c as [|f c IH]; intros t; [done|]. rewrite plug_cons, IH. cbn.
  destruct f; cbn; f_equal; lia.
Qed.

Lemma ctx_height_mono c h h' : h <= h' -> ctx_height c h <= ctx_height c h'.
Proof. revert h h'. induction c as [|f c IH]; intros h h' Hh; [done|]. cbn. apply IH. lia. Qed.

Section Balance.
Context (nr : Z).
Implicit Types (arr : gmap Z avl_node) (t : avl_tree) (s : tree) (c : ctx).

(** ** Repairing one node *)

(** [x]'s left subtree [s] is two levels higher than its right one. *)
Lemma fix_left arr x p b l z r1 r :
  let s := Node l z r1 in
  valid nr x -> node_at arr x p z (root_id r) b -> tree_rep nr arr x s -> tree_rep nr arr x r ->
  NoDup (inorder s ++ x :: inorder r) -> height s = height r + 2 -> balanced s -> balanced r ->
  exists arr' s',
    (if balance (arr !!! z) <=? 0 then __avl_rotate_right nr arr x z
     else __avl_rotate_left_right nr arr x z) = (arr', root_id s') /\
    relinked arr arr' (inorder s ++ x :: inorder r) /\ s' <> Leaf /\ balanced s' /\
    inorder s' = inorder s ++ x :: inorder r /\
    height s' = height s + (if height l =? height r1 then 1 else 0) /\
    forall q, tree_rep nr (upd arr' (root_id s') (set_parent q)) q s'.
Proof.
  intros s. subst s. intros Hv Hx (Hvz & Hz & Hl & Hr1) Hr Hnd Hh (Hb & Hbl & Hbr1) Hbr. cbn [height inorder] in *.
  rewrite (at_balance _ _ _ _ _ _ Hz).
  rewrite <- app_assoc in Hnd |- *. cbn [app] in Hnd |- *.
  destruct (Z.leb_spec (height r1 - height l) 0) as [Hle|Hgt].
  - destruct (rotate_right_rep nr arr x z l r1 r p b 0 Hv Hvz Hx Hz Hl Hr1 Hr Hnd)
      as (arr' & Hrot & Hrel & _); [lia..|].
    exists arr', (Node l z (Node r1 x r)). split_and!; try done; cbn; try lia.
    + split_and!; try done; lia.
    + destruct (Z.eqb_spec (height l) (height r1)); lia.
    + intros q. destruct (rotate_right_rep nr arr x z l r1 r p b q Hv Hvz Hx Hz Hl Hr1 Hr Hnd)
        as (arr2 & Hrot2 & _ & H2); [lia..|]. rewrite Hrot in Hrot2. by injection Hrot2 as <-.
  - destruct r1 as [|t2 y t3]; [cbn in Hgt; pose proof (height_nonneg l); lia|].
    destruct Hr1 as (Hvy & Hy & Ht2 & Ht3). destruct Hbr1 as (Hby & Hb2 & Hb3).
    cbn [height inorder root_id] in *.
    rewrite <- app_assoc in Hnd |- *. cbn [app] in Hnd |- *.
    assert (Hz1 : node_at arr z x (root_id l) y 1) by (destruct Hz; split; try done; lia).
    destruct (rotate_left_right_rep nr arr x z y l t2 t3 r p b 0 Hv Hvz Hvy Hx Hz1 Hy Hl Ht2 Ht3 Hr Hnd)
      as (arr' & Hrot & Hrel & _); [lia..|].
    exists arr', (Node (Node l z t2) y (Node t3 x r)). split_and!; try done; cbn; try lia.
    + split_and!; try done; lia.
    + by rewrite <- app_assoc.
    + destruct (Z.eqb_spec (height l) (1 + Z.max (height t2) (height t3))); lia.
    + intros q.
      destruct (rotate_left_right_rep nr arr x z y l t2 t3 r p b q Hv Hvz Hvy Hx Hz1 Hy Hl Ht2 Ht3 Hr Hnd)
        as (arr2 & Hrot2 & _ & H2); [lia..|]. rewrite Hrot in Hrot2. by injection Hrot2 as <-.
Qed.

(** [x]'s right subtree [s] is two levels higher than its left one. *)
Lemma fix_right arr x p b l l1 z r1 :
  let s := Node l1 z r1 in
  valid nr x -> node_at arr x p (root_id l) z b -> tree_rep nr arr x l -> tree_rep nr arr x s ->
  NoDup (inorder l ++ x :: inorder s) -> height s = height l + 2 -> balanced l -> balanced s ->
  exists arr' s',
    (if 0 <=? balance (arr !!! z) then __avl_rotate_left nr arr x z
     else __avl_rotate_right_left nr arr x z) = (arr', root_id s') /\
    relinked arr arr' (inorder l ++ x :: inorder s) /\ s' <> Leaf /\ balanced s' /\
    inorder s' = inorder l ++ x :: inorder s /\
    height s' = height s + (if height l1 =? height r1 then 1 else 0) /\
    forall q, tree_rep nr (upd arr' (root_id s') (set_parent q)) q s'.
Proof.
  intros s. subst s. intros Hv Hx Hl (Hvz & Hz & Hl1 & Hr1) Hnd Hh Hbl (Hb & Hbl1 & Hbr1). cbn [height inorder] in *.
  rewrite (at_balance _ _ _ _ _ _ Hz).
  destruct (Z.leb_spec 0 (height r1 - height l1)) as [Hle|Hgt].
  - destruct (rotate_left_rep nr arr x z l l1 r1 p b 0 Hv Hvz Hx Hz Hl Hl1 Hr1 Hnd)
      as (arr' & Hrot & Hrel & _); [lia..|].
    exists arr', (Node (Node l x l1) z r1). split_and!; try done; cbn; try lia.
    + split_and!; try done; lia.
    + by rewrite <- app_assoc.
    + destruct (Z.eqb_spec (height l1) (height r1)); lia.
    + intros q. destruct (rotate_left_rep nr arr x z l l1 r1 p b q Hv Hvz Hx Hz Hl Hl1 Hr1 Hnd)
        as (arr2 & Hrot2 & _ & H2); [lia..|]. rewrite Hrot in Hrot2. by injection Hrot2 as <-.
  - destruct l1 as [|t2 y t3]; [cbn in Hgt; pose proof (height_nonneg r1); lia|].
    destruct Hl1 as (Hvy & Hy & Ht2 & Ht3). destruct Hbl1 as (Hby & Hb2 & Hb3).
    cbn [height inorder root_id] in *.
    rewrite <- app_assoc in Hnd |- *. cbn [app] in Hnd |- *.
    assert (Hz1 : node_at arr z x y (root_id r1) (-1)) by (destruct Hz; split; try done; lia).
    destruct (rotate_right_left_rep nr arr x z y l t2 t3 r1 p b 0 Hv Hvz Hvy Hx Hz1 Hy Hl Ht2 Ht3 Hr1 Hnd)
      as (arr' & Hrot & Hrel & _); [lia..|].
    exists arr', (Node (Node l x t2) y (Node t3 z r1)). split_and!; try done; cbn; try lia.
    + split_and!; try done; lia.
    + by rewrite <- app_assoc.
    + destruct (Z.eqb_spec (1 + Z.max (height t2) (height t3)) (height r1)); lia.
    + intros q.
      destruct (rotate_right_left_rep nr arr x z y l t2 t3 r1 p b q Hv Hvz Hvy Hx Hz1 Hy Hl Ht2 Ht3 Hr1 Hnd)
        as (arr2 & Hrot2 & _ & H2); [lia..|]. rewrite Hrot in Hrot2. by injection Hrot2 as <-.
Qed.

(** ** Re-attaching a subtree *)

(** The test [x_parent->left_id == x_id] finds the side of the hole. *)
Lemma ctx_side arr f c x hb :
  ctx_rep nr arr (f :: c) x hb -> valid nr x -> x ∉ ctx_ids (f :: c) ->
  (left_id (arr !!! frame_id f) =? x) = is_FL f.
Proof.
  cbn. intros (Hv & Hf & Hs & _) Hx Hn. destruct f as [y r|l y]; cbn in *.
  - rewrite (at_left _ _ _ _ _ _ Hf). apply Z.eqb_refl.
  - rewrite (at_left _ _ _ _ _ _ Hf). apply Z.eqb_neq. eapply root_id_ne; [done..|set_solver].
Qed.

(** A write of the hole's id into the parent. *)
Lemma ctx_set_child arr f c hid hid' hb :
  NoDup (ctx_ids (f :: c)) -> ctx_rep nr arr (f :: c) hid hb ->
  ctx_rep nr (upd arr (frame_id f) (if is_FL f then set_left hid' else set_right hid')) (f :: c) hid' hb.
Proof.
  cbn [ctx_ids]. rewrite NoDup_cons. intros [Hn _] (Hv & Hf & Hs & Hc). cbn [ctx_rep].
  split; [done|]. split; [|split].
  - destruct f as [y r|l y]; cbn [frame_at frame_id is_FL] in Hf |- *; destruct Hf; split; by rewrite upd_eq.
  - apply tree_rep_upd; [set_solver|done].
  - apply ctx_rep_upd; [set_solver|done].
Qed.

Lemma reattach_rep arr t c x hb s :
  ctx_rep nr arr c x hb -> valid nr x -> x ∉ ctx_ids c -> s <> Leaf ->
  NoDup (inorder s ++ ctx_ids c) ->
  tree_rep nr (upd arr (root_id s) (set_parent (ctx_top c))) (ctx_top c) s ->
  exists arr',
    reattach arr t (avl_id_to_node nr (ctx_top c)) (ctx_top c) x (root_id s) =
      (arr', if c then set_root (root_id s) t else t) /\
    tree_rep nr arr' (ctx_top c) s /\ ctx_rep nr arr' c (root_id s) hb /\
    relinked arr arr' (inorder s ++ ctx_ids c).
Proof.
  intros Hc Hx Hnx Hs Hnd Ht. pose proof (root_id_in _ Hs) as Hin.
  rewrite NoDup_app in Hnd. destruct Hnd as (_ & Hd & Hndc). unfold reattach. cbv zeta.
  set (arr1 := upd arr (root_id s) (set_parent (ctx_top c))) in *.
  assert (Hc1 : ctx_rep nr arr1 c x hb) by (apply ctx_rep_upd; [set_solver|done]).
  assert (Hrel : relinked arr arr1 (inorder s ++ ctx_ids c)).
  { apply relinked_upd; [done|set_solver|apply relinked_refl]. }
  rewrite (id_to_node_top _ _ _ _ _ Hc). destruct c as [|f c]; cbn [head fmap option_fmap option_map].
  { by exists arr1. }
  rewrite (ctx_side _ _ _ _ _ Hc1 Hx Hnx).
  exists (upd arr1 (frame_id f) (if is_FL f then set_left (root_id s) else set_right (root_id s))).
  split; [by destruct (is_FL f)|]. split; [|split].
  - apply tree_rep_upd; [|done]. intros Hi. apply (Hd _ Hi). cbn. set_solver.
  - by apply (ctx_set_child arr1 f c x).
  - apply relinked_upd; [by destruct (is_FL f)|cbn; set_solver|done].
Qed.

(** A change of balance only. *)
Lemma node_rebalance arr x p li ri b b' :
  node_at arr x p li ri b -> node_at (upd arr x (set_balance b')) x p li ri b'.
Proof. intros []. split; by rewrite upd_eq. Qed.

(** Closing a frame around the hole's subtree with the right balance. *)
Lemma close_frame arr f c s hb b' :
  tree_rep nr arr (frame_id f) s -> ctx_rep nr arr (f :: c) (root_id s) hb ->
  NoDup (inorder s ++ ctx_ids (f :: c)) ->
  b' = (if is_FL f then height (frame_sib f) - height s else height s - height (frame_sib f)) ->
  let arr' := upd arr (frame_id f) (set_balance b') in
  tree_rep nr arr' (ctx_top c) (frame_plug f s) /\
  ctx_rep nr arr' c (frame_id f) (1 + Z.max hb (height (frame_sib f))) /\
  relinked arr arr' (inorder s ++ ctx_ids (f :: c)).
Proof.
  intros Hs (Hv & Hf & Hsib & Hc) Hnd -> arr'. cbn [ctx_ids] in Hnd |- *.
  rewrite NoDup_app, NoDup_cons, NoDup_app in Hnd. destruct Hnd as (_ & Hd & Hx & Hn2 & Hd2 & _).
  assert (Hs' : tree_rep nr arr' (frame_id f) s) by (apply tree_rep_upd; [set_solver|done]).
  assert (Hsib' : tree_rep nr arr' (frame_id f) (frame_sib f)) by (apply tree_rep_upd; [set_solver|done]).
  split; [|split].
  - destruct f; cbn [frame_plug tree_rep frame_id frame_sib is_FL frame_at] in *;
      (split; [done|]; split; [by eapply node_rebalance|]; split; done).
  - apply ctx_rep_upd; [set_solver|done].
  - apply relinked_upd; [done|set_solver|apply relinked_refl].
Qed.

Lemma frame_plug_perm f s c :
  inorder (frame_plug f s) ++ ctx_ids c ≡ₚ inorder s ++ ctx_ids (f :: c).
Proof. destruct f; cbn; solve_Permutation. Qed.

Lemma frame_plug_height f s : height (frame_plug f s) = 1 + Z.max (height s) (height (frame_sib f)).
Proof. destruct f; cbn; lia. Qed.

Lemma frame_plug_root f s : root_id (frame_plug f s) = frame_id f.
Proof. by destruct f. Qed.

(** The root of a plugged context is its outermost node. *)
Lemma plug_root f c s s' : root_id (plug (f :: c) s) = root_id (plug (f :: c) s').
Proof.
  revert f s s'. induction c as [|g c IH]; intros f s s'.
  - cbn. by rewrite !frame_plug_root.
  - rewrite (plug_cons f), (plug_cons f _ s'). apply IH.
Qed.

Lemma frame_plug_balanced f s :
  balanced (frame_plug f s) <->
  -1 <= height (frame_sib f) - height s <= 1 /\ balanced s /\ balanced (frame_sib f).
Proof. destruct f; cbn; intuition lia. Qed.

Lemma relinked_perm arr arr' S S' : S ≡ₚ S' -> relinked arr arr' S -> relinked arr arr' S'.
Proof. intros HP. apply relinked_mono. intros i. by rewrite HP. Qed.

(** The balance stored at the hole's parent. *)
Lemma frame_balance arr f p hid hb :
  frame_at arr f p hid hb ->
  balance (arr !!! frame_id f) =
    (if is_FL f then height (frame_sib f) - hb else hb - height (frame_sib f)) /\
  parent_id (arr !!! frame_id f) = p.
Proof. destruct f; cbn; by intros [? ? ? ?]. Qed.

(** Rotating at the hole's parent, whose hole subtree [s] is two levels higher
    than its sibling. *)
Definition rotate_in arr (f : frame) (z : Z) : gmap Z avl_node * Z :=
  if is_FL f then
    if balance (arr !!! z) <=? 0 then __avl_rotate_right nr arr (frame_id f) z
    else __avl_rotate_left_right nr arr (frame_id f) z
  else
    if 0 <=? balance (arr !!! z) then __avl_rotate_left nr arr (frame_id f) z
    else __avl_rotate_right_left nr arr (frame_id f) z.

Lemma rotate_in_rep arr f c l z r hb hc :
  let s := Node l z r in
  valid nr (frame_id f) -> frame_at arr f (ctx_top c) z hb ->
  tree_rep nr arr (frame_id f) (frame_sib f) -> ctx_rep nr arr c (frame_id f) hc ->
  tree_rep nr arr (frame_id f) s ->
  NoDup (inorder s ++ ctx_ids (f :: c)) -> height s = height (frame_sib f) + 2 ->
  balanced s -> balanced (frame_sib f) ->
  exists arr' s', rotate_in arr f z = (arr', root_id s') /\
    relinked arr arr' (inorder (frame_plug f s)) /\ s' <> Leaf /\ balanced s' /\
    inorder s' = inorder (frame_plug f s) /\
    height s' = height s + (if height l =? height r then 1 else 0) /\
    ctx_rep nr arr' c (frame_id f) hc /\
    forall q, tree_rep nr (upd arr' (root_id s') (set_parent q)) q s'.
Proof.
  intros s Hv Hf Hsib Hc Hs Hnd Hh Hbs Hb. subst s. unfold rotate_in.
  rewrite <- frame_plug_perm, NoDup_app in Hnd. destruct Hnd as (Hnd & Hd & _).
  destruct f as [x sib|sib x]; cbn [is_FL frame_id frame_sib frame_at frame_plug] in *.
  - destruct (fix_left arr x (ctx_top c) _ l z r sib Hv Hf Hs Hsib Hnd Hh Hbs Hb)
      as (arr' & s' & Hrot & Hrel & Hne & Hb' & Hin & Hh' & Hrep).
    exists arr', s'. split_and!; try done. eapply ctx_rep_ext; [|exact Hc].
    intros i Hi. apply (rel_other _ _ _ Hrel). intros Hi2. by apply (Hd i Hi2).
  - destruct (fix_right arr x (ctx_top c) _ sib l z r Hv Hf Hsib Hs Hnd Hh Hb Hbs)
      as (arr' & s' & Hrot & Hrel & Hne & Hb' & Hin & Hh' & Hrep).
    exists arr', s'. split_and!; try done. eapply ctx_rep_ext; [|exact Hc].
    intros i Hi. apply (rel_other _ _ _ Hrel). intros Hi2. by apply (Hd i Hi2).
Qed.

(** ** After an insertion *)

(** The subtree in the hole has just grown by one level. *)
Definition grown s : Prop :=
  match s with
  | Leaf => False
  | Node l _ r => (l = Leaf /\ r = Leaf) \/ height l <> height r
  end.

(** What a rebalancing walk delivers. *)
Record rebalanced arr t (c : ctx) (s : tree) (arr' : gmap Z avl_node) (t' : avl_tree) (T : tree) : Prop := {
  rb_rep : tree_rep nr arr' 0 T;
  rb_balanced : balanced T;
  rb_inorder : inorder T = inorder (plug c s);
  rb_root : t' = set_root (root_id T) t;
  rb_relinked : relinked arr arr' (inorder s ++ ctx_ids c);
}.

(** Reading a closed walk off its last array. *)
Lemma rebalanced_here arr t c s arr' c' s' :
  tree_rep nr arr' (ctx_top c') s' -> ctx_rep nr arr' c' (root_id s') (height s') ->
  balanced s' -> ctx_bal c' (height s') -> inorder (plug c' s') = inorder (plug c s) ->
  relinked arr arr' (inorder s ++ ctx_ids c) -> root t = root_id (plug c' s') ->
  rebalanced arr t c s arr' t (plug c' s').
Proof.
  intros ?????? Hr. split; try done; [by apply plug_rep|by apply plug_balanced|].
  rewrite <- Hr. by destruct t.
Qed.

(** The deeper walk's result, seen from below the frame it started above. *)
Lemma rebalanced_step arr t f c s arr1 t1 s1 arr' t' T :
  rebalanced arr1 t1 c s1 arr' t' T -> relinked arr arr1 (inorder s ++ ctx_ids (f :: c)) ->
  inorder s1 = inorder (frame_plug f s) -> (t1 = t \/ exists i, t1 = set_root i t) ->
  rebalanced arr t (f :: c) s arr' t' T.
Proof.
  intros [H1 H2 H3 H4 H5] Hrel Hin Ht. split; try done.
  - rewrite H3, plug_cons, !plug_inorder. by rewrite Hin.
  - destruct Ht as [->|[i ->]]; [done|]. rewrite H4. by destruct t.
  - eapply relinked_trans; [exact Hrel|]. eapply relinked_perm; [apply frame_plug_perm|].
    by rewrite Hin in H5.
Qed.

(** The walk ends at the frame [f], whose height does not change. *)
Lemma absorb_frame arr t f c s h b :
  tree_rep nr arr (frame_id f) s -> balanced s -> ctx_rep nr arr (f :: c) (root_id s) h -> ctx_bal (f :: c) h ->
  NoDup (inorder s ++ ctx_ids (f :: c)) -> root t = root_id (plug (f :: c) s) ->
  b = (if is_FL f then height (frame_sib f) - height s else height s - height (frame_sib f)) ->
  -1 <= b <= 1 -> Z.max (height s) (height (frame_sib f)) = Z.max h (height (frame_sib f)) ->
  rebalanced arr t (f :: c) s (upd arr (frame_id f) (set_balance b)) t (plug (f :: c) s) /\
  height (plug (f :: c) s) = ctx_height (f :: c) h.
Proof.
  intros Hs Hbs Hc (Hbf & Hbsib & Hbc) Hnd Hroot Hb Hb1 Hmax.
  destruct (close_frame arr f c s h b Hs Hc Hnd Hb) as (Hs1 & Hc1 & Hrel1).
  assert (Hhp : height (frame_plug f s) = 1 + Z.max h (height (frame_sib f))) by (rewrite frame_plug_height; lia).
  rewrite plug_cons. split; [|by rewrite plug_ctx_height, Hhp]. apply rebalanced_here; try done.
  - by rewrite frame_plug_root, Hhp.
  - apply frame_plug_balanced. split_and!; try done; destruct (is_FL f); lia.
  - by rewrite Hhp.
Qed.

(** Rotation, re-attachment and the tree that results. *)
Lemma rotate_attach arr t f c l z r hb hc :
  let s := Node l z r in
  valid nr (frame_id f) -> frame_at arr f (ctx_top c) z hb ->
  tree_rep nr arr (frame_id f) (frame_sib f) -> ctx_rep nr arr c (frame_id f) hc ->
  tree_rep nr arr (frame_id f) s ->
  NoDup (inorder s ++ ctx_ids (f :: c)) -> height s = height (frame_sib f) + 2 ->
  balanced s -> balanced (frame_sib f) ->
  exists arr1 arr2 s', rotate_in arr f z = (arr1, root_id s') /\
    reattach arr1 t (avl_id_to_node nr (ctx_top c)) (ctx_top c) (frame_id f) (root_id s') =
      (arr2, if c then set_root (root_id s') t else t) /\
    tree_rep nr arr2 (ctx_top c) s' /\
    ctx_rep nr arr2 c (root_id s') hc /\
    s' <> Leaf /\ balanced s' /\ inorder s' = inorder (frame_plug f s) /\
    height s' = height s + (if height l =? height r then 1 else 0) /\
    relinked arr arr2 (inorder s ++ ctx_ids (f :: c)) /\
    (forall f' c', c = f' :: c' ->
       (left_id (upd arr1 (root_id s') (set_parent (ctx_top c)) !!! frame_id f') =? frame_id f) = is_FL f').
Proof.
  intros s Hv Hf Hsib Hc Hs Hnd Hh Hbs Hb.
  destruct (rotate_in_rep arr f c l z r hb hc Hv Hf Hsib Hc Hs Hnd Hh Hbs Hb)
    as (arr1 & s' & Hrot & Hrel & Hne & Hb' & Hin & Hh' & Hc1 & Hrep).
  rewrite <- frame_plug_perm in Hnd. fold s in Hin, Hrel. rewrite <- Hin in Hnd.
  assert (Hxc : frame_id f ∉ ctx_ids c).
  { rewrite NoDup_app in Hnd. destruct Hnd as (_ & Hd & _). apply Hd. rewrite Hin.
    destruct f; cbn; set_solver. }
  destruct (reattach_rep arr1 t c (frame_id f) _ s' Hc1 Hv Hxc Hne Hnd (Hrep _))
    as (arr2 & Hre & Ht2 & Hc2 & Hrel2).
  exists arr1, arr2, s'. split_and!; try done.
  - eapply relinked_perm; [apply frame_plug_perm|]. rewrite Hin in Hrel2.
    eapply relinked_trans; [|exact Hrel2]. eapply relinked_mono; [|exact Hrel]. fold s. set_solver.
  - intros f' c' ->. assert (Hc1' : ctx_rep nr (upd arr1 (root_id s') (set_parent (ctx_top (f' :: c'))))
      (f' :: c') (frame_id f) hc).
    { apply ctx_rep_upd; [|done]. rewrite NoDup_app in Hnd. destruct Hnd as (_ & Hd & _).
      apply Hd. by apply root_id_in. }
    by apply (ctx_side _ _ _ _ _ Hc1').
Qed.

(** The subtree grew on the side that was already higher: one rotation. *)
Lemma insert_heavy arr t f c l z r :
  let s := Node l z r in
  tree_rep nr arr (frame_id f) s -> balanced s -> grown s ->
  ctx_rep nr arr (f :: c) z (height s - 1) -> ctx_bal (f :: c) (height s - 1) ->
  NoDup (inorder s ++ ctx_ids (f :: c)) -> root t = root_id (plug (f :: c) s) ->
  height s = height (frame_sib f) + 2 ->
  exists arr1 arr2 s', rotate_in arr f z = (arr1, root_id s') /\
    reattach arr1 t (avl_id_to_node nr (ctx_top c)) (ctx_top c) (frame_id f) (root_id s') =
      (arr2, if c then set_root (root_id s') t else t) /\
    rebalanced arr t (f :: c) s arr2 (if c then set_root (root_id s') t else t) (plug c s') /\
    height (plug c s') <= height (plug (f :: c) s).
Proof.
  intros s Hs Hbs Hg (Hv & Hf & Hsib & Hc) (_ & Hbsib & Hbc) Hnd Hroot Hh.
  destruct (rotate_attach arr t f c l z r _ _ Hv Hf Hsib Hc Hs Hnd Hh Hbs Hbsib)
    as (arr1 & arr2 & s' & Hrot & Hre & Hs2 & Hc2 & Hne & Hb2 & Hin2 & Hh' & Hrel2 & _).
  assert (Hlr : height l <> height r).
  { destruct Hg as [[-> ->]|?]; [|done]. cbn in Hh. pose proof (height_nonneg (frame_sib f)). lia. }
  destruct (Z.eqb_spec (height l) (height r)); [done|]. fold s in Hh', Hin2.
  assert (Hhs' : height s' = 1 + Z.max (height s - 1) (height (frame_sib f))) by lia.
  exists arr1, arr2, s'. split; [done|]. split; [done|]. split; [split|].
  - apply plug_rep. split; [done|]. by rewrite Hhs'.
  - apply plug_balanced. split; [done|]. by rewrite Hhs'.
  - by rewrite plug_cons, !plug_inorder, Hin2.
  - destruct c as [|f' c']; [done|].
    assert (Hrr : root_id (plug (f' :: c') s') = root t); [|rewrite Hrr; by destruct t].
    rewrite Hroot, (plug_cons f). apply plug_root.
  - done.
  - rewrite plug_cons. apply plug_height. rewrite frame_plug_height. lia.
Qed.

Lemma insert_retrace_rep n c s arr t :
  (length c <= n)%nat ->
  tree_rep nr arr (ctx_top c) s -> balanced s -> grown s ->
  ctx_rep nr arr c (root_id s) (height s - 1) -> ctx_bal c (height s - 1) ->
  NoDup (inorder s ++ ctx_ids c) -> root t = root_id (plug c s) ->
  exists arr' t' T,
    insert_retrace nr arr t n (avl_id_to_node nr (ctx_top c)) (ctx_top c) (root_id s) (root_id s) =
      (arr', t') /\
    rebalanced arr t c s arr' t' T /\ height T <= height (plug c s).
Proof.
  revert n s arr. induction c as [|f c IH]; intros n s arr Hn Hs Hbs Hg Hc Hbc Hnd Hroot.
  { exists arr, t, s. split; [by destruct n|]. split; [|done]. split; try done.
    cbn in Hroot. rewrite <- Hroot. by destruct t. }
  destruct n as [|n]; [cbn in Hn; lia|]. pose proof Hc as (Hv & Hf & Hsib & Hc').
  pose proof Hbc as (Hbf & Hbsib & Hbc'). assert (Hsne : s <> Leaf) by (by intros ->).
  assert (Hvs : valid nr (root_id s)) by (destruct s; [done|by destruct Hs]).
  assert (Hns : root_id s ∉ ctx_ids (f :: c)).
  { rewrite NoDup_app in Hnd. destruct Hnd as (_ & Hd & _). by apply Hd, root_id_in. }
  destruct (frame_balance _ _ _ _ _ Hf) as [Hbal Hpar].
  rewrite (id_to_node_top _ _ _ _ _ Hc). cbn [head fmap option_fmap option_map insert_retrace ctx_top].
  rewrite (ctx_side _ _ _ _ _ Hc Hvs Hns), Hbal. set (b := if is_FL f then _ else _).
  destruct (Z.eqb_spec b 0) as [Hb0|Hb0].
  { (* case 3: pass it up *)
    destruct (close_frame arr f c s _ (if is_FL f then -1 else 1) Hs Hc Hnd) as (Hs1 & Hc1 & Hrel1).
    { subst b. destruct (is_FL f); lia. }
    rewrite upd_eq. cbn [parent_id set_balance]. rewrite Hpar.
    assert (Hhp : height (frame_plug f s) - 1 = 1 + Z.max (height s - 1) (height (frame_sib f))).
    { rewrite frame_plug_height. subst b. destruct (is_FL f); lia. }
    destruct (IH n (frame_plug f s) (upd arr (frame_id f) (set_balance (if is_FL f then -1 else 1))))
      as (arr' & t' & T & Hrun & Hreb & Hht); rewrite ?Hhp, ?frame_plug_root; try done.
    - cbn in Hn. lia.
    - apply frame_plug_balanced. split_and!; try done; subst b; destruct (is_FL f); lia.
    - subst b. destruct f; cbn in *; right; lia.
    - by rewrite frame_plug_perm.
    - exists arr', t', T. rewrite frame_plug_root in Hrun. split; [exact Hrun|]. split; [|done].
      by eapply rebalanced_step; eauto. }
  destruct (_ || _) eqn:Habs.
  - (* case 1: absorbed by a heavy x *)
    assert (Hbb : height (frame_sib f) = height s).
    { subst b. destruct (is_FL f); cbn in Habs; rewrite ?orb_false_r in Habs; apply Z.ltb_lt in Habs; lia. }
    destruct (absorb_frame arr t f c s (height s - 1) 0) as [Hreb _]; try done; [destruct (is_FL f); lia|lia|..].
    by eexists _, t, _.
  - (* case 2: rotate *)
    assert (Hh2 : height s = height (frame_sib f) + 2).
    { subst b. destruct (is_FL f); cbn in Habs; rewrite ?orb_false_r in Habs; apply Z.ltb_ge in Habs; lia. }
    rewrite Hpar. destruct s as [|l z r]; [done|].
    destruct (insert_heavy arr t f c l z r Hs Hbs Hg Hc Hbc Hnd Hroot Hh2) as (arr1 & arr2 & s' & Hrot & Hre & Hreb & Hle).
    unfold rotate_in in Hrot. cbn [root_id] in *. rewrite Hrot. by eexists arr2, _, _.
Qed.

(** ** After a deletion *)

(** The same node seen from its other child. *)
Definition opposite (f : frame) (s : tree) : frame :=
  match f with FL x r => FR s x | FR l x => FL x s end.

Lemma opposite_plug f s : frame_plug (opposite f s) (frame_sib f) = frame_plug f s.
Proof. by destruct f. Qed.

(** The rotation of the deletion is the one on the other side. *)
Lemma delete_rotate_in arr f c s hb :
  ctx_rep nr arr (f :: c) (root_id s) hb -> frame_sib f <> Leaf ->
  delete_rotate nr arr (frame_id f) (is_FL f) =
    let '(arr', str) := rotate_in arr (opposite f s) (root_id (frame_sib f)) in
    Some (arr', str, balance (arr !!! root_id (frame_sib f)) =? 0).
Proof.
  intros (_ & Hf & Hsib & _) Hne. unfold delete_rotate, rotate_in.
  destruct f as [x r|l x]; cbn [is_FL opposite frame_id frame_sib frame_at] in *.
  - rewrite (at_right _ _ _ _ _ _ Hf), (id_to_node_root _ _ _ _ Hsib). by destruct r.
  - rewrite (at_left _ _ _ _ _ _ Hf), (id_to_node_root _ _ _ _ Hsib). by destruct l.
Qed.

Definition side (c : ctx) (fl : bool) : Prop := match c with [] => True | f :: _ => fl = is_FL f end.

(** The light side lost height: one rotation of the sibling. *)
Lemma delete_heavy arr t f c s :
  tree_rep nr arr (frame_id f) s -> balanced s ->
  ctx_rep nr arr (f :: c) (root_id s) (height s + 1) -> balanced (frame_sib f) ->
  NoDup (inorder s ++ ctx_ids (f :: c)) -> height (frame_sib f) = height s + 2 ->
  exists arr1 arr2 s' absorbed,
    delete_rotate nr arr (frame_id f) (is_FL f) = Some (arr1, root_id s', absorbed) /\
    reattach arr1 t (avl_id_to_node nr (ctx_top c)) (ctx_top c) (frame_id f) (root_id s') =
      (arr2, if c then set_root (root_id s') t else t) /\
    tree_rep nr arr2 (ctx_top c) s' /\ ctx_rep nr arr2 c (root_id s') (height s + 3) /\
    s' <> Leaf /\ balanced s' /\ inorder s' = inorder (frame_plug f s) /\
    height s' = height s + (if absorbed : bool then 3 else 2) /\
    relinked arr arr2 (inorder s ++ ctx_ids (f :: c)) /\
    (forall f' c', c = f' :: c' ->
       (left_id (upd arr1 (root_id s') (set_parent (ctx_top c)) !!! frame_id f') =? frame_id f) = is_FL f').
Proof.
  intros Hs Hbs Hc Hbsib Hnd Hh.
  assert (Hne : frame_sib f <> Leaf).
  { intros E. rewrite E in Hh. cbn in Hh. pose proof (height_nonneg s). lia. }
  pose proof (delete_rotate_in _ _ _ _ _ Hc Hne) as Hrot. destruct Hc as (Hv & Hf & Hsib & Hc).
  replace (1 + Z.max (height s + 1) (height (frame_sib f))) with (height s + 3) in Hc by lia.
  destruct (frame_sib f) as [|l z r] eqn:Esib; [done|]. cbn [root_id] in Hrot.
  set (g := opposite f s). fold g in Hrot.
  assert (Eg : frame_id g = frame_id f /\ frame_sib g = s) by (by destruct f).
  destruct Eg as [Eid Esb].
  assert (Hg : frame_at arr g (ctx_top c) z (height s + 1)).
  { unfold g. destruct f; cbn in Esib, Hf |- *; rewrite Esib in Hf; destruct Hf; split; try done; cbn [height] in *; lia. }
  assert (Hp : frame_plug g (Node l z r) = frame_plug f s) by (subst g; rewrite <- Esib; apply opposite_plug).
  assert (Hperm : inorder (Node l z r) ++ ctx_ids (g :: c) ≡ₚ inorder s ++ ctx_ids (f :: c)).
  { by rewrite <- !frame_plug_perm, Hp. }
  assert (Hnd' : NoDup (inorder (Node l z r) ++ ctx_ids (g :: c))) by (by rewrite Hperm).
  destruct (rotate_attach arr t g c l z r (height s + 1) (height s + 3))
    as (arr1 & arr2 & s' & Hr & Hre & Hs2 & Hc2 & Hne2 & Hb2 & Hin2 & Hh2 & Hrel2 & Hside);
    rewrite ?Eid, ?Esb; try done.
  rewrite Eid in Hre, Hside. rewrite Hr in Hrot.
  exists arr1, arr2, s', (balance (arr !!! z) =? 0). split_and!; try done.
  - by rewrite Hin2, Hp.
  - destruct Hsib as (_ & Hz & _). rewrite (at_balance _ _ _ _ _ _ Hz), Hh2, Hh.
    destruct (Z.eqb_spec (height l) (height r)), (Z.eqb_spec (height r - height l) 0); lia.
  - by eapply relinked_perm.
Qed.

(** The heavy side lost height: the node is level, one lower than before. *)
Lemma delete_level arr f c s :
  tree_rep nr arr (frame_id f) s -> balanced s ->
  ctx_rep nr arr (f :: c) (root_id s) (height s + 1) -> ctx_bal (f :: c) (height s + 1) ->
  NoDup (inorder s ++ ctx_ids (f :: c)) -> height (frame_sib f) = height s ->
  let arr1 := upd arr (frame_id f) (set_balance 0) in let s1 := frame_plug f s in
  tree_rep nr arr1 (ctx_top c) s1 /\ balanced s1 /\ ctx_rep nr arr1 c (root_id s1) (height s1 + 1) /\
  ctx_bal c (height s1 + 1) /\ NoDup (inorder s1 ++ ctx_ids c) /\
  height s1 + 1 = 1 + Z.max (height s + 1) (height (frame_sib f)) /\
  relinked arr arr1 (inorder s ++ ctx_ids (f :: c)) /\
  (forall f' c', c = f' :: c' -> (left_id (arr1 !!! frame_id f') =? frame_id f) = is_FL f').
Proof.
  intros Hs Hbs Hc (Hbf & Hbsib & Hbc) Hnd Hh arr1 s1.
  destruct (close_frame arr f c s _ 0 Hs Hc Hnd) as (Hs1 & Hc1 & Hrel1); [destruct (is_FL f); lia|].
  assert (Hhp : height s1 + 1 = 1 + Z.max (height s + 1) (height (frame_sib f))).
  { unfold s1. rewrite frame_plug_height. lia. }
  assert (Hnd1 : NoDup (inorder s1 ++ ctx_ids c)) by (unfold s1; by rewrite frame_plug_perm).
  rewrite Hhp. unfold s1. rewrite frame_plug_root. split_and!; try done.
  - apply frame_plug_balanced. split_and!; try done; lia.
  - intros f' c' ->. eapply ctx_side; [done|by destruct Hc|]. apply NoDup_app in Hnd1 as (_ & Hd & _).
    apply Hd. rewrite <- (frame_plug_root f s). apply root_id_in. by destruct f.
Qed.

Lemma delete_retrace_rep n c s arr t fl :
  (length c <= n)%nat -> side c fl ->
  tree_rep nr arr (ctx_top c) s -> balanced s ->
  ctx_rep nr arr c (root_id s) (height s + 1) -> ctx_bal c (height s + 1) ->
  NoDup (inorder s ++ ctx_ids c) -> root t = root_id (plug c s) ->
  exists arr' t' T,
    delete_retrace nr arr t n (avl_id_to_node nr (ctx_top c)) (ctx_top c) fl = (arr', t', true) /\
    rebalanced arr t c s arr' t' T /\ height T <= ctx_height c (height s + 1).
Proof.
  revert n s arr t fl. induction c as [|f c IH]; intros n s arr t fl Hn Hfl Hs Hbs Hc Hbc Hnd Hroot.
  { exists arr, t, s. split; [by destruct n|]. split; [|cbn; lia].
    split; try done. cbn in Hroot. rewrite <- Hroot. by destruct t. }
  destruct n as [|n]; [cbn in Hn; lia|]. pose proof Hc as (Hv & Hf & Hsib & Hc').
  pose proof Hbc as (Hbf & Hbsib & Hbc'). cbn in Hfl. subst fl.
  destruct (frame_balance _ _ _ _ _ Hf) as [Hbal Hpar].
  rewrite (id_to_node_top _ _ _ _ _ Hc). cbn [head fmap option_fmap option_map delete_retrace ctx_top].
  rewrite Hbal. set (b := if is_FL f then _ else _). cbn [ctx_height].
  destruct (Z.eqb_spec b 0) as [Hb0|Hb0].
  { (* absorbed *)
    destruct (absorb_frame arr t f c s (height s + 1) (if is_FL f then 1 else -1)) as [Hreb Hhp]; try done;
      [subst b; destruct (is_FL f); lia..|]. eexists _, t, _. split; [done|]. cbn [ctx_height] in Hhp. by rewrite <- Hhp. }
  rewrite Hpar.
  destruct (_ || _) eqn:Habs.
  { (* the heavy side lost height: pass it up *)
    assert (Hh : height (frame_sib f) = height s).
    { subst b. destruct (is_FL f); cbn in Habs; rewrite ?orb_false_r in Habs; apply Z.ltb_lt in Habs; lia. }
    destruct (delete_level arr f c s Hs Hbs Hc Hbc Hnd Hh)
      as (Hs1 & Hb1 & Hc1 & Hbc1 & Hnd1 & Hhp & Hrel1 & Hsd1).
    destruct (IH n (frame_plug f s) (upd arr (frame_id f) (set_balance 0)) t
      (match c with [] => true | f' :: _ => is_FL f' end)) as (arr' & t' & T & Hrun & Hreb & Hht); try done.
    - cbn in Hn. lia.
    - by destruct c.
    - exists arr', t', T. rewrite Hhp in Hht. split; [|split; [by eapply rebalanced_step; eauto|done]].
      rewrite <- Hrun, (id_to_node_top _ _ _ _ _ Hc1).
      destruct c as [|f' c']; cbn [head fmap option_fmap option_map]; [by destruct n|].
      f_equal. by apply (Hsd1 f' c'). }
  assert (Hh : height (frame_sib f) = height s + 2).
  { subst b. destruct (is_FL f); cbn in Habs; rewrite ?orb_false_r in Habs; apply Z.ltb_ge in Habs; lia. }
  destruct (delete_heavy arr t f c s Hs Hbs Hc Hbsib Hnd Hh)
    as (arr1 & arr2 & s' & absorbed & Hrot & Hre & Hs2 & Hc2 & Hne2 & Hb2 & Hin2 & Hh2 & Hrel2 & Hside).
  rewrite Hrot. rewrite (id_to_node_top _ _ _ _ _ Hc') in Hre |- *.
  replace (1 + Z.max (height s + 1) (height (frame_sib f))) with (height s + 3) in * by lia.
  destruct c as [|f' c']; cbn [head fmap option_fmap option_map] in Hre |- *.
  { rewrite Hre. exists arr2, (set_root (root_id s') t), s'. split; [done|].
    split; [|cbn; rewrite Hh2; destruct absorbed; lia].
    split; try done. }
  rewrite Hre, (Hside _ _ eq_refl).
  assert (Hroot2 : root t = root_id (plug (f' :: c') s')).
  { rewrite Hroot, (plug_cons f). apply plug_root. }
  destruct absorbed.
  { exists arr2, t, (plug (f' :: c') s'). split; [done|]. split; [|by rewrite plug_ctx_height, Hh2].
    apply rebalanced_here; try done.
    - by rewrite Hh2.
    - by rewrite Hh2.
    - by rewrite (plug_cons f), !(plug_inorder (f' :: c')), Hin2. }
  replace (height s + 3) with (height s' + 1) in * by lia.
  destruct (IH n s' arr2 t (is_FL f')) as (arr' & t' & T & Hrun & Hreb & Hht); try done.
  - cbn in Hn |- *. lia.
  - rewrite NoDup_app in *. rewrite Hin2. rewrite <- NoDup_app, frame_plug_perm. by apply NoDup_app.
  - exists arr', t', T. rewrite (id_to_node_top _ _ _ _ _ Hc2) in Hrun. split; [exact Hrun|].
    split; [by eapply rebalanced_step; eauto|done].
Qed.
End Balance.
