(* ===== verification/AvlSearch.v ===== *)
(** * Searching the tree

    The read-only walks of [AvlTree] on a represented tree: key lookup, the
    extreme nodes, the neighbours of a node, and the descent that finds the place
    of a new key.  Each loop is shown to finish within its bound. *)

From stdpp Require Import sorting.
From S2P Require Import Prelude AvlTree AvlSpec.
Import Avl.

(** Ids in key order. *)
Definition sorted (kof : Z -> Z) (l : list Z) : Prop :=
  StronglySorted (fun i j => kof i <= kof j) l.

Lemma sorted_app kof l1 l2 :
  sorted kof (l1 ++ l2) <->
  sorted kof l1 /\ sorted kof l2 /\ (forall i j, i ∈ l1 -> j ∈ l2 -> kof i <= kof j).
Proof.
  unfold sorted. induction l1 as [|x l1 IH]; cbn.
  { split; [|tauto]. intros H. split_and!; [constructor|done|set_solver]. }
  split.
  - intros H. inversion H as [|? ? Hs Hf]; subst. apply IH in Hs as (H1 & H2 & H3).
    rewrite Forall_app in Hf. destruct Hf as [Hf1 Hf2]. split_and!; [by constructor|done|].
    intros i j Hi Hj. rewrite elem_of_cons in Hi. destruct Hi as [->|Hi]; [|by apply H3].
    by eapply Forall_forall in Hf2.
  - intros (H1 & H2 & H3). inversion H1 as [|? ? Hs Hf]; subst. constructor.
    + apply IH. split_and!; try done. intros i j Hi Hj. apply H3; set_solver.
    + apply Forall_app. split; [done|]. apply Forall_forall. intros j Hj. apply H3; set_solver.
Qed.

Lemma sorted_cons kof x l :
  sorted kof (x :: l) <-> sorted kof l /\ (forall j, j ∈ l -> kof x <= kof j).
Proof.
  change (x :: l) with ([x] ++ l). rewrite sorted_app. split.
  - intros (_ & ? & H). split; [done|]. intros j Hj. apply H; set_solver.
  - intros [? H]. split_and!; [repeat constructor|done|].
    intros i j Hi%list_elem_of_singleton Hj. subst. auto.
Qed.

Lemma sorted_ext kof kof' l :
  (forall i, i ∈ l -> kof' i = kof i) -> sorted kof l -> sorted kof' l.
Proof.
  induction l as [|x l IH]; intros Heq; [constructor|]. rewrite !sorted_cons. intros [Hs Hx].
  split; [apply IH; [|done]; intros; apply Heq; set_solver|].
  intros j Hj. rewrite !Heq by set_solver. auto.
Qed.

(** Stable insertion into a sorted sequence: behind the keys that are not larger. *)
Fixpoint ins (kof : Z -> Z) (x : Z) (l : list Z) : list Z :=
  match l with
  | [] => [x]
  | y :: l' => if kof x <? kof y then x :: l else y :: ins kof x l'
  end.

Lemma ins_split kof x l1 l2 :
  (forall i, i ∈ l1 -> kof i <= kof x) -> (forall i, i ∈ l2 -> kof x < kof i) ->
  ins kof x (l1 ++ l2) = l1 ++ x :: l2.
Proof.
  intros H1 H2. induction l1 as [|y l1 IH]; cbn.
  - destruct l2 as [|y l2]; cbn; [done|]. specialize (H2 y ltac:(set_solver)).
    by rewrite (proj2 (Z.ltb_lt _ _)) by lia.
  - specialize (H1 y ltac:(set_solver)) as Hy. rewrite (proj2 (Z.ltb_ge _ _)) by lia. f_equal.
    apply IH. intros i Hi. apply H1. set_solver.
Qed.

(** ** The descent *)

(** The path from a hole [c] holding [t] to the free slot of key [k]. *)
Fixpoint descend (kof : Z -> Z) (k : Z) (t : tree) (c : ctx) : ctx :=
  match t with
  | Leaf => c
  | Node l x r =>
      if k <? kof x then descend kof k l (FL x r :: c) else descend kof k r (FR l x :: c)
  end.

Lemma descend_plug kof k t c : plug (descend kof k t c) Leaf = plug c t.
Proof.
  revert c. induction t as [|l IHl x r IHr]; intros c; cbn [descend]; [done|].
  destruct (_ <? _); [rewrite IHl|rewrite IHr]; done.
Qed.

Lemma descend_length kof k t c :
  Z.of_nat (length (descend kof k t c)) <= Z.of_nat (length c) + height t /\
  (length c <= length (descend kof k t c))%nat.
Proof.
  revert c. induction t as [|l IHl x r IHr]; intros c; cbn [descend height]; [lia|].
  destruct (_ <? _); [specialize (IHl (FL x r :: c))|specialize (IHr (FR l x :: c))]; cbn in *; lia.
Qed.

Lemma descend_keys kof k t c :
  sorted kof (inorder t) ->
  (forall i, i ∈ ctx_before c -> kof i <= k) -> (forall i, i ∈ ctx_after c -> k < kof i) ->
  (forall i, i ∈ ctx_before (descend kof k t c) -> kof i <= k) /\
  (forall i, i ∈ ctx_after (descend kof k t c) -> k < kof i).
Proof.
  revert c. induction t as [|l IHl x r IHr]; intros c Hs Hb Ha; [done|]. cbn [descend inorder] in *.
  rewrite sorted_app, sorted_cons in Hs. destruct Hs as (Hl & (Hr & Hxr) & Hlr).
  destruct (Z.ltb_spec k (kof x)) as [Hk|Hk].
  - apply IHl; try done. cbn. intros i. rewrite elem_of_cons, elem_of_app. intros [->|[Hi|Hi]]; [lia|..].
    + specialize (Hxr i Hi). lia.
    + auto.
  - apply IHr; try done. cbn. intros i. rewrite !elem_of_app, list_elem_of_singleton.
    intros [Hi|[Hi| ->]]; [auto| |lia]. specialize (Hlr i x Hi ltac:(set_solver)). lia.
Qed.

Section Search.
Context (nr : Z).
Implicit Types (arr : gmap Z avl_node) (t : tree) (c : ctx).

Definition kof arr (i : Z) : Z := key (arr !!! i).

(** The loop finds the descent's slot when it is at most [n] levels away, and
    reports a non-zero id otherwise. *)
Lemma insert_walk_rep arr k n t c il :
  tree_rep nr arr (ctx_top c) t ->
  let d := descend (kof arr) k t c in
  let res := insert_walk nr arr k n (frame_id <$> head c) (ctx_top c) (root_id t) il in
  if decide (length d <= length c + n)%nat
  then exists il', res = (frame_id <$> head d, ctx_top d, 0, il') /\
         (t <> Leaf -> match d with FL _ _ :: _ => il' = true | FR _ _ :: _ => il' = false | [] => True end)
  else snd (fst res) <> 0.
Proof.
  revert n c il. induction t as [|l IHl x r IHr]; intros n c il.
  { intros _. cbn. rewrite decide_True by lia. exists il. by destruct n. }
  cbn [tree_rep]. intros (Hv & Hx & Hl & Hr). pose proof Hv as [Hv0 _].
  destruct n as [|n].
  { cbn [insert_walk root_id fst snd].
    pose proof (descend_length (kof arr) k (Node l x r) c) as [_ Hlen]. cbn [descend] in *.
    destruct (decide _) as [Hle|]; [|lia]. exfalso.
    destruct (k <? kof arr x).
    - pose proof (descend_length (kof arr) k l (FL x r :: c)) as [_ ?]. cbn in *. lia.
    - pose proof (descend_length (kof arr) k r (FR l x :: c)) as [_ ?]. cbn in *. lia. }
  cbn [insert_walk root_id descend]. rewrite (proj2 (Z.eqb_neq x 0)) by lia.
  rewrite id_to_node_valid by done. change (key (arr !!! x)) with (kof arr x).
  destruct (Z.ltb_spec k (kof arr x)).
  - rewrite (at_left _ _ _ _ _ _ Hx). specialize (IHl n (FL x r :: c) true Hl).
    cbn [head fmap option_fmap option_map ctx_top frame_id length] in IHl. cbv zeta in *.
    set (d := descend (kof arr) k l (FL x r :: c)) in *.
    replace (S (length c) + n)%nat with (length c + S n)%nat in IHl by lia.
    destruct (decide _); [|done]. destruct IHl as (il' & Hw & Hil). exists il'. split; [done|].
    intros _. destruct l; [|by apply Hil]. subst d. cbn [descend] in Hw |- *.
    destruct n; cbn in Hw; congruence.
  - rewrite (at_right _ _ _ _ _ _ Hx). specialize (IHr n (FR l x :: c) false Hr).
    cbn [head fmap option_fmap option_map ctx_top frame_id length] in IHr. cbv zeta in *.
    set (d := descend (kof arr) k r (FR l x :: c)) in *.
    replace (S (length c) + n)%nat with (length c + S n)%nat in IHr by lia.
    destruct (decide _); [|done]. destruct IHr as (il' & Hw & Hil). exists il'. split; [done|].
    intros _. destruct r; [|by apply Hil]. subst d. cbn [descend] in Hw |- *.
    destruct n; cbn in Hw; congruence.
Qed.

(** ** Lookup by key *)

Lemma lookup_loop_rep arr k n p t :
  tree_rep nr arr p t -> sorted (kof arr) (inorder t) -> height t <= Z.of_nat n ->
  match lookup_loop nr arr k n (node_opt t) with
  | Some i => i ∈ inorder t /\ kof arr i = k
  | None => forall i, i ∈ inorder t -> kof arr i <> k
  end.
Proof.
  revert n p. induction t as [|l IHl x r IHr]; intros n p Hrep Hs Hn.
  { destruct n; cbn; set_solver. }
  destruct Hrep as (Hv & Hx & Hl & Hr). cbn [inorder height] in *.
  rewrite sorted_app, sorted_cons in Hs. destruct Hs as (Hsl & (Hsr & Hxr) & Hlr).
  pose proof (height_nonneg l). pose proof (height_nonneg r). destruct n as [|n]; [lia|].
  cbn [lookup_loop node_opt]. change (key (arr !!! x)) with (kof arr x).
  destruct (Z.eqb_spec (kof arr x) k) as [<-|Hk]; [split; [set_solver|done]|].
  destruct (Z.ltb_spec k (kof arr x)) as [Hlt|Hge].
  - rewrite (at_left _ _ _ _ _ _ Hx), (id_to_node_root _ _ _ _ Hl).
    specialize (IHl n x Hl Hsl ltac:(lia)). destruct (lookup_loop _ _ _ _ _).
    + set_solver.
    + intros i. rewrite elem_of_app, elem_of_cons. intros [Hi|[->|Hi]]; [by apply IHl|done|].
      specialize (Hxr i Hi). lia.
  - rewrite (at_right _ _ _ _ _ _ Hx), (id_to_node_root _ _ _ _ Hr).
    specialize (IHr n x Hr Hsr ltac:(lia)). destruct (lookup_loop _ _ _ _ _).
    + set_solver.
    + intros i. rewrite elem_of_app, elem_of_cons. intros [Hi|[->|Hi]]; [|done|by apply IHr].
      specialize (Hlr i x Hi ltac:(set_solver)). lia.
Qed.

(** ** Extreme nodes and neighbours *)

Lemma head_inorder_node l x r : head (inorder (Node l x r)) = head (inorder l ++ [x]).
Proof. cbn. by destruct (inorder l). Qed.

Lemma last_cons_app (l : list Z) x l' : last (l ++ x :: l') = last (x :: l').
Proof. by rewrite last_app_cons. Qed.

Lemma inorder_nil t : inorder t = [] -> t = Leaf.
Proof. destruct t; [done|]. cbn. by intros [_ ?]%app_eq_nil. Qed.

Lemma head_app_ne (l l' : list Z) : l <> [] -> head (l ++ l') = head l.
Proof. by destruct l. Qed.

Lemma last_app_ne (l l' : list Z) : l' <> [] -> last (l ++ l') = last l'.
Proof. destruct l'; [done|]. by rewrite last_app_cons. Qed.

Lemma min_loop_rep arr n p t :
  tree_rep nr arr p t -> height t <= Z.of_nat n -> min_loop nr arr n (node_opt t) = head (inorder t).
Proof.
  revert n p. induction t as [|l IHl x r _]; intros n p Hrep Hn; [by destruct n|].
  destruct Hrep as (Hv & Hx & Hl & _). cbn [height] in Hn.
  pose proof (height_nonneg l). pose proof (height_nonneg r). destruct n as [|n]; [lia|].
  cbn [min_loop node_opt]. rewrite (at_left _ _ _ _ _ _ Hx), (id_to_node_root _ _ _ _ Hl).
  destruct (Z.eqb_spec (root_id l) 0) as [E|E].
  - apply (root_id_zero _ _ _ _ Hl) in E. by subst.
  - rewrite (IHl n x Hl ltac:(lia)). cbn [inorder]. rewrite head_app_ne; [done|].
    intros ->%inorder_nil. done.
Qed.

Lemma max_loop_rep arr n p t :
  tree_rep nr arr p t -> height t <= Z.of_nat n -> max_loop nr arr n (node_opt t) = last (inorder t).
Proof.
  revert n p. induction t as [|l _ x r IHr]; intros n p Hrep Hn; [by destruct n|].
  destruct Hrep as (Hv & Hx & _ & Hr). cbn [height] in Hn.
  pose proof (height_nonneg l). pose proof (height_nonneg r). destruct n as [|n]; [lia|].
  cbn [max_loop node_opt]. rewrite (at_right _ _ _ _ _ _ Hx), (id_to_node_root _ _ _ _ Hr).
  cbn [inorder]. rewrite last_cons_app.
  destruct (Z.eqb_spec (root_id r) 0) as [E|E].
  - apply (root_id_zero _ _ _ _ Hr) in E. by subst.
  - rewrite (IHr n x Hr ltac:(lia)). change (x :: inorder r) with ([x] ++ inorder r).
    rewrite last_app_ne; [done|]. intros ->%inorder_nil. done.
Qed.

(** The climbs: from a hole that holds [x] up to the next frame on the other side. *)
Lemma next_climb_rep arr n c x hb :
  ctx_rep nr arr c x hb -> valid nr x -> NoDup (x :: ctx_ids c) ->
  parent_id (arr !!! x) = ctx_top c -> (length c <= n)%nat ->
  next_climb nr arr n x x = head (ctx_after c).
Proof.
  revert n x hb. induction c as [|f c IH]; intros n x hb Hc Hv Hnd Hp Hn.
  { destruct n; cbn; [done|]. by rewrite Hp. }
  destruct n as [|n]; [cbn in Hn; lia|]. cbn [next_climb].
  rewrite Hp, (id_to_node_top _ _ _ _ _ Hc). cbn [head fmap option_fmap option_map ctx_top].
  destruct Hc as (Hvf & Hf & Hsib & Hc). cbn [ctx_ids] in Hnd.
  apply NoDup_cons in Hnd as [Hx Hnd]. apply NoDup_cons in Hnd as [Hf2 Hnd].
  apply NoDup_app in Hnd as (_ & _ & Hnd).
  destruct f as [y r|l y]; cbn [frame_at frame_id frame_sib ctx_after] in *.
  - rewrite (at_left _ _ _ _ _ _ Hf), Z.eqb_refl. done.
  - rewrite (at_left _ _ _ _ _ _ Hf). pose proof (root_id_ne _ _ _ _ _ Hsib Hv ltac:(set_solver)).
    rewrite (proj2 (Z.eqb_neq _ _)) by done.
    apply (IH n y _ Hc Hvf); [constructor; [set_solver|done]|by destruct Hf|cbn in Hn; lia].
Qed.

Lemma prev_climb_rep arr n c x hb :
  ctx_rep nr arr c x hb -> valid nr x -> NoDup (x :: ctx_ids c) ->
  parent_id (arr !!! x) = ctx_top c -> (length c <= n)%nat ->
  prev_climb nr arr n x x = last (ctx_before c).
Proof.
  revert n x hb. induction c as [|f c IH]; intros n x hb Hc Hv Hnd Hp Hn.
  { destruct n; cbn; [done|]. by rewrite Hp. }
  destruct n as [|n]; [cbn in Hn; lia|]. cbn [prev_climb].
  rewrite Hp, (id_to_node_top _ _ _ _ _ Hc). cbn [head fmap option_fmap option_map ctx_top].
  destruct Hc as (Hvf & Hf & Hsib & Hc). cbn [ctx_ids] in Hnd.
  apply NoDup_cons in Hnd as [Hx Hnd]. apply NoDup_cons in Hnd as [Hf2 Hnd].
  apply NoDup_app in Hnd as (_ & _ & Hnd).
  destruct f as [y r|l y]; cbn [frame_at frame_id frame_sib ctx_before] in *.
  - rewrite (at_right _ _ _ _ _ _ Hf). pose proof (root_id_ne _ _ _ _ _ Hsib Hv ltac:(set_solver)).
    rewrite (proj2 (Z.eqb_neq _ _)) by done.
    apply (IH n y _ Hc Hvf); [constructor; [set_solver|done]|by destruct Hf|cbn in Hn; lia].
  - rewrite (at_right _ _ _ _ _ _ Hf), Z.eqb_refl, app_assoc. by rewrite last_snoc.
Qed.

(** The neighbours of the node in focus. *)
Lemma next_node_rep arr c l x r :
  tree_rep nr arr 0 (plug c (Node l x r)) -> NoDup (inorder (plug c (Node l x r))) ->
  height (plug c (Node l x r)) <= Z.of_nat MAX_AVL_HEIGHT ->
  __avl_next_node nr arr x = head (inorder r ++ ctx_after c).
Proof.
  intros Hrep Hnd Hh. pose proof (plug_height_len c (Node l x r)) as Hlen. cbn [height] in Hlen.
  apply plug_rep in Hrep as [(Hv & Hx & Hl & Hr) Hc]. rewrite plug_perm in Hnd. cbn [inorder root_id] in *.
  pose proof (height_nonneg l). pose proof (height_nonneg r).
  unfold __avl_next_node. rewrite (at_right _ _ _ _ _ _ Hx).
  destruct (Z.eqb_spec (root_id r) 0) as [E|E]; cbn [negb].
  - apply (root_id_zero _ _ _ _ Hr) in E. subst r. cbn [inorder app avl_node_to_id].
    eapply next_climb_rep; [done..| |by destruct Hx|lia].
    rewrite <- app_assoc in Hnd. by apply NoDup_app in Hnd as (_ & _ & Hnd).
  - unfold avl_min_node_id, avl_min_node. rewrite (id_to_node_root _ _ _ _ Hr), (min_loop_rep _ _ x) by (done || lia).
    rewrite head_app_ne; [done|]. intros ->%inorder_nil. done.
Qed.

Lemma prev_node_rep arr c l x r :
  tree_rep nr arr 0 (plug c (Node l x r)) -> NoDup (inorder (plug c (Node l x r))) ->
  height (plug c (Node l x r)) <= Z.of_nat MAX_AVL_HEIGHT ->
  __avl_prev_node nr arr x = last (ctx_before c ++ inorder l).
Proof.
  intros Hrep Hnd Hh. pose proof (plug_height_len c (Node l x r)) as Hlen. cbn [height] in Hlen.
  apply plug_rep in Hrep as [(Hv & Hx & Hl & Hr) Hc]. rewrite plug_perm in Hnd. cbn [inorder root_id] in *.
  pose proof (height_nonneg l). pose proof (height_nonneg r).
  unfold __avl_prev_node. rewrite (at_left _ _ _ _ _ _ Hx).
  destruct (Z.eqb_spec (root_id l) 0) as [E|E]; cbn [negb].
  - apply (root_id_zero _ _ _ _ Hl) in E. subst l. cbn [inorder app avl_node_to_id] in *. rewrite app_nil_r.
    eapply prev_climb_rep; [done..| |by destruct Hx|lia].
    apply NoDup_cons in Hnd as [Hni Hnd]. apply NoDup_app in Hnd as (_ & _ & Hnd).
    apply NoDup_cons. split; [|done]. intros Hi. apply Hni, elem_of_app. by right.
  - unfold avl_max_node_id, avl_max_node. rewrite (id_to_node_root _ _ _ _ Hl), (max_loop_rep _ _ x) by (done || lia).
    rewrite last_app_ne; [done|]. intros ->%inorder_nil. done.
Qed.

(** Every node can be brought into focus. *)
Lemma focus t x : x ∈ inorder t -> exists c l r, t = plug c (Node l x r).
Proof.
  enough (G : forall c, x ∈ inorder t -> exists c' l r, plug c t = plug c' (Node l x r)) by apply (G []).
  induction t as [|l IHl y r IHr]; intros c; [set_solver|]. cbn [inorder].
  rewrite elem_of_app, elem_of_cons. intros [Hi|[->|Hi]].
  - apply (IHl (FL y r :: c) Hi).
  - by exists c, l, r.
  - apply (IHr (FR l y :: c) Hi).
Qed.
End Search.
