(* ===== verification/AvlInsert.v ===== *)
(** * Insertion

    What a tree and its array stand for ([avl_rep]): a balanced search tree of
    at most [MAX_AVL_HEIGHT] levels, the cache of its ends, and the list of
    orphans.  [avl_tree_insert] puts a new node behind the keys that are not
    larger, or makes it an orphan when its path is full. *)

From S2P Require Import Prelude AvlTree AvlSpec AvlRotate AvlBalance AvlSearch.
Import Avl.

Section Insert.
Context (nr : Z).
Implicit Types (arr : gmap Z avl_node) (t : avl_tree) (T : tree) (O : list Z).

(** ** The orphan list *)

Definition first (O : list Z) : Z := default 0 (head O).

Fixpoint orphans arr (p : Z) O : Prop :=
  match O with
  | [] => True
  | x :: O' =>
      valid nr x /\ is_orphan (arr !!! x) = true /\ prev_orphan_id (arr !!! x) = p /\
      next_orphan_id (arr !!! x) = first O' /\ orphans arr x O'
  end.

Lemma orphans_ext arr arr' p O :
  (forall i, i ∈ O -> data (arr' !!! i) = data (arr !!! i)) -> orphans arr p O -> orphans arr' p O.
Proof.
  revert p. induction O as [|x O IH]; intros p Heq; [done|]. cbn. intros (Hv & Ho & Hp & Hn & HO).
  pose proof (Heq x ltac:(set_solver)) as E. injection E as E1 E2 E3 E4.
  split_and!; try congruence. apply IH; [|done]. intros i Hi. apply Heq. set_solver.
Qed.

Lemma orphans_first arr p O : orphans arr p O -> avl_id_to_node nr (first O) = head O.
Proof. destruct O; [done|]. cbn. intros (? & _). by apply id_to_node_valid. Qed.

(** Rewriting the back link of the first orphan: [if (next) next->prev = q]. *)
Lemma orphans_relink arr p q O :
  NoDup O -> orphans arr p O -> orphans (upd_opt arr (head O) (set_prev_orphan q)) q O.
Proof.
  destruct O as [|x O]; [done|]. cbn. rewrite NoDup_cons. intros [Hx Hnd] (Hv & Ho & Hp & Hn & HO).
  rewrite !upd_eq. cbn. split_and!; try done. eapply orphans_ext; [|done].
  intros i Hi. rewrite upd_ne by set_solver. done.
Qed.

(** ** The cache *)

Definition cached arr t (L : list Z) : Prop :=
  match head L with
  | None => min_id t = 0 | Some i => min_id t = i /\ min_key t = kof arr i
  end /\
  match last L with
  | None => max_id t = 0 | Some i => max_id t = i /\ max_key t = kof arr i
  end.

Lemma cached_ext arr arr' t t' L :
  (forall i, i ∈ L -> kof arr' i = kof arr i) ->
  min_id t' = min_id t -> min_key t' = min_key t -> max_id t' = max_id t -> max_key t' = max_key t ->
  cached arr t L -> cached arr' t' L.
Proof.
  intros Hk E1 E2 E3 E4 [H1 H2]. split; rewrite ?E1, ?E2, ?E3, ?E4.
  - destruct (head L) eqn:E; [|done]. rewrite Hk; [done|]. by apply head_Some_elem_of in E.
  - destruct (last L) eqn:E; [|done]. rewrite Hk; [done|]. by apply last_Some_elem_of in E.
Qed.

Lemma insert_cache_ok arr t x l1 l2 :
  (forall i, i ∈ l1 -> kof arr i <= kof arr x) -> (forall i, i ∈ l2 -> kof arr x < kof arr i) ->
  (forall i, i ∈ l1 ++ l2 -> 0 < i) -> l1 ++ l2 <> [] ->
  cached arr t (l1 ++ l2) -> cached arr (insert_cache arr t x) (l1 ++ x :: l2).
Proof.
  intros H1 H2 Hpos Hne [Hmin Hmax]. unfold insert_cache. fold (kof arr x).
  assert (Hm : match head (l1 ++ x :: l2) with None => False | Some i =>
      (if (min_id t =? 0) || (kof arr x <? min_key t) then set_min x (kof arr x) t else t) =
      set_min i (kof arr i) t end).
  { destruct l1 as [|i l1]; cbn in Hmin |- *.
    - destruct l2 as [|j l2]; [done|]. cbn in Hmin. destruct Hmin as [-> ->].
      specialize (H2 j ltac:(set_solver)). rewrite (proj2 (Z.ltb_lt _ _)) by lia.
      by rewrite orb_true_r.
    - destruct Hmin as [E1 E2]. specialize (H1 i ltac:(set_solver)). rewrite E1, E2.
      specialize (Hpos i ltac:(set_solver)). rewrite (proj2 (Z.eqb_neq _ _)) by lia.
      rewrite (proj2 (Z.ltb_ge _ _)) by lia. cbn. rewrite <- E2, <- E1. by destruct t. }
  destruct (head (l1 ++ x :: l2)) as [m|] eqn:Em; [|done]. rewrite Hm. cbn [set_min max_id max_key].
  assert (Hx : match last (l1 ++ x :: l2) with None => False | Some i =>
      exists a b, (if (max_id t =? 0) || (max_key t <=? kof arr x) then set_max x (kof arr x) (set_min m (kof arr m) t)
       else set_min m (kof arr m) t) = mk_tree (root t) m (kof arr m) a b (first_orphan_id t) /\
       a = i /\ b = kof arr i end).
  { rewrite last_app_cons. destruct l2 as [|j l2].
    - cbn. rewrite app_nil_r in *. destruct (last l1) as [i|] eqn:E.
      + destruct Hmax as [-> ->]. apply last_Some_elem_of in E. specialize (H1 i E).
        rewrite (proj2 (Z.leb_le _ _)), orb_true_r by lia. eauto.
      + by apply last_None in E.
    - rewrite last_app_cons in Hmax. change (x :: j :: l2) with ([x] ++ j :: l2).
      rewrite last_app_cons. destruct (last (j :: l2)) as [i|] eqn:E; [|by apply last_None in E].
      destruct Hmax as [E1 E2]. rewrite E1, E2. apply last_Some_elem_of in E. specialize (H2 i E).
      specialize (Hpos i ltac:(set_solver)). rewrite (proj2 (Z.eqb_neq _ _)) by lia.
      rewrite (proj2 (Z.leb_gt _ _)) by lia. exists i, (kof arr i). unfold set_min. by rewrite E1, E2. }
  unfold cached. rewrite Em. destruct (last (l1 ++ x :: l2)) as [i|]; [|done].
  destruct Hx as (a & b & -> & -> & ->). done.
Qed.

(** ** The representation *)

Record avl_rep arr t T O : Prop := {
  ar_tree : tree_rep nr arr 0 T;
  ar_root : root t = root_id T;
  ar_balanced : balanced T;
  ar_height : height T <= Z.of_nat MAX_AVL_HEIGHT;
  ar_sorted : sorted (kof arr) (inorder T);
  ar_nodup : NoDup (inorder T ++ O);
  ar_cached : cached arr t (inorder T);
  ar_first : first_orphan_id t = first O;
  ar_orphans : orphans arr 0 O;
}.

Lemma avl_rep_init arr : avl_rep arr avl_tree_init Leaf [].
Proof. split; try done; constructor. Qed.

(** The array written only at nodes that are neither in the tree nor orphans. *)
Lemma avl_rep_outside arr arr' t T O :
  (forall i, i ∈ inorder T ++ O -> arr' !!! i = arr !!! i) -> avl_rep arr t T O -> avl_rep arr' t T O.
Proof.
  intros Heq []. split; try done.
  - eapply tree_rep_ext; [|done]. intros; apply Heq; set_solver.
  - eapply sorted_ext; [|done]. intros i Hi. unfold kof. rewrite Heq; [done|set_solver].
  - eapply cached_ext; [|done..]. intros i Hi. unfold kof. rewrite Heq; [done|set_solver].
  - eapply orphans_ext; [|done]. intros i Hi. rewrite Heq; [done|set_solver].
Qed.

Lemma kof_data arr arr' i : data (arr' !!! i) = data (arr !!! i) -> kof arr' i = kof arr i.
Proof. unfold kof, data. by intros [= -> _ _ _]. Qed.

Lemma kof_upd arr i f j : (forall n, key (f n) = key n) -> kof (upd arr i f) j = kof arr j.
Proof.
  intros Hf. unfold kof. destruct (decide (i = j)) as [<-|]; [by rewrite upd_eq|by rewrite upd_ne].
Qed.

Lemma kof_upd_opt arr o f j : (forall n, key (f n) = key n) -> kof (upd_opt arr o f) j = kof arr j.
Proof. destruct o; [apply kof_upd|done]. Qed.

(** ** Insertion *)

Lemma ctx_height_le c h h0 :
  ctx_height c h <= Z.max (ctx_height c h0) (Z.of_nat (length c) + h).
Proof.
  revert h h0. induction c as [|f c IH]; intros h h0; cbn [ctx_height length]; [lia|].
  destruct (Z.le_gt_cases h (Z.max h0 (height (frame_sib f)))) as [Hle|Hgt].
  - pose proof (ctx_height_mono c (1 + Z.max h (height (frame_sib f)))
      (1 + Z.max h0 (height (frame_sib f))) ltac:(lia)). lia.
  - specialize (IH (1 + Z.max h (height (frame_sib f))) (1 + Z.max h0 (height (frame_sib f)))). lia.
Qed.

(** What an operation leaves alone: the keys, and the nodes it does not own. *)
Definition untouched arr arr' (S : list Z) : Prop :=
  (forall i, kof arr' i = kof arr i) /\ (forall i, i ∉ S -> arr' !!! i = arr !!! i).

Lemma untouched_trans arr arr' arr'' S :
  untouched arr arr' S -> untouched arr' arr'' S -> untouched arr arr'' S.
Proof. intros [H1 H2] [G1 G2]. split; intros i; [by rewrite G1, H1|]. intros Hi. by rewrite G2, H2. Qed.

Lemma untouched_mono arr arr' S S' :
  (forall i, i ∈ S -> i ∈ S') -> untouched arr arr' S -> untouched arr arr' S'.
Proof. intros HS [H1 H2]. split; [done|]. intros i Hi. apply H2. intros ?. by apply Hi, HS. Qed.

Lemma relinked_untouched arr arr' S : relinked arr arr' S -> untouched arr arr' S.
Proof. intros [H1 H2]. split; [|done]. intros i. by apply kof_data. Qed.

(** Where a new node goes: behind the keys that are not larger, or, in a tree
    of full height, possibly to the front of the orphans. *)
Definition placed (kf : Z -> Z) (h x : Z) (L O L' O' : list Z) : Prop :=
  L' = ins kf x L /\ O' = O \/ h = Z.of_nat MAX_AVL_HEIGHT /\ L' = L /\ O' = x :: O.

(** The node that found no room. *)
Lemma insert_orphan_rep arr t T O x :
  avl_rep arr t T O -> valid nr x -> x ∉ inorder T ++ O ->
  exists arr' t', __insert_orphan nr (upd arr x (set_is_orphan true)) t x = (arr', t') /\
    avl_rep arr' t' T (x :: O) /\ untouched arr arr' (x :: inorder T ++ O).
Proof.
  intros [H1 H2 H3 H4 H5 H6 H7 H8 H9] Hv Hx. unfold __insert_orphan. rewrite H8, (orphans_first _ _ _ H9).
  set (arr1 := upd arr x (set_is_orphan true)).
  assert (Hnx : x ∉ O) by set_solver. pose proof H6 as (_ & Hd & HndO)%NoDup_app.
  set (arr2 := upd_opt arr1 (head O) (set_prev_orphan x)).
  assert (HO2 : orphans arr2 x O).
  { apply (orphans_relink _ 0); [done|]. eapply orphans_ext; [|done].
    intros i Hi. unfold arr1. rewrite upd_ne by set_solver. done. }
  assert (Hout : forall i, i <> x -> i ∉ O -> arr2 !!! i = arr !!! i).
  { intros i Hi HiO. unfold arr2, arr1. destruct O as [|y O]; cbn; rewrite ?upd_ne by set_solver; done. }
  assert (Hkey : forall i, kof arr2 i = kof arr i).
  { intros i. unfold arr2, arr1. by rewrite kof_upd_opt, kof_upd. }
  set (arr3 := upd (upd arr2 x (set_next_orphan (first O))) x (set_prev_orphan 0)).
  assert (H3x : forall i, i <> x -> arr3 !!! i = arr2 !!! i).
  { intros i Hi. unfold arr3. rewrite !upd_ne by done. done. }
  assert (H3k : forall i, kof arr3 i = kof arr i).
  { intros i. unfold arr3. by rewrite !kof_upd. }
  eexists arr3, _. split; [reflexivity|]. split.
  - split; try done.
    + eapply tree_rep_ext; [|exact H1]. intros i Hi. rewrite H3x, Hout by set_solver. done.
    + eapply sorted_ext; [|exact H5]. auto.
    + rewrite <- Permutation_middle. constructor; [set_solver|done].
    + eapply cached_ext; [..|exact H7]; try done.
    + cbn [orphans]. unfold arr3 at 1 2 3. rewrite !upd_eq. cbn. split_and!; try done.
      * assert (Hio : is_orphan (arr2 !!! x) = is_orphan (arr1 !!! x)); [|rewrite Hio; unfold arr1; by rewrite upd_eq].
        unfold arr2. destruct O as [|y O]; cbn; [done|]. by rewrite upd_ne by set_solver.
      * eapply orphans_ext; [|exact HO2]. intros i Hi. rewrite H3x; [done|set_solver].
  - split; [done|]. intros i Hi. rewrite H3x, Hout by set_solver. done.
Qed.

(** The node in its slot, before the balances are repaired. *)
Lemma hang_rep arr f c x :
  ctx_rep nr arr (f :: c) 0 0 -> NoDup (x :: ctx_ids (f :: c)) -> valid nr x ->
  left_id (arr !!! x) = 0 -> right_id (arr !!! x) = 0 -> balance (arr !!! x) = 0 ->
  is_orphan (arr !!! x) = false ->
  let arr' := upd (upd arr x (set_parent (frame_id f))) (frame_id f)
                (if is_FL f then set_left x else set_right x) in
  tree_rep nr arr' (frame_id f) (Node Leaf x Leaf) /\ ctx_rep nr arr' (f :: c) x 0 /\
  relinked arr arr' (x :: ctx_ids (f :: c)).
Proof.
  intros Hc Hnd Hv Hl Hr Hb Ho arr'. pose proof Hnd as [Hx Hndc]%NoDup_cons. subst arr'.
  assert (Hxf : x <> frame_id f) by (intros ->; apply Hx; cbn; set_solver). split; [|split].
  - cbn [tree_rep root_id height]. split; [done|]. split; [|done].
    split; rewrite upd_ne, upd_eq by done; done.
  - apply (ctx_set_child nr _ f c 0); [done|]. by apply ctx_rep_upd.
  - apply relinked_upd; [by destruct (is_FL f)|cbn; set_solver|].
    apply relinked_upd; [done|set_solver|apply relinked_refl].
Qed.

Lemma plug_nil_leaf d : plug d Leaf = Leaf -> d = [].
Proof.
  destruct d as [|f d]; [done|]. intros E. pose proof (plug_height_len (f :: d) Leaf) as H.
  rewrite E in H. cbn in H. lia.
Qed.

(** A rebuilt tree with one more node, behind [l1] and before [l2]. *)
Lemma avl_rep_grown arr t T O x arr' T' l1 l2 :
  avl_rep arr t T O -> x ∉ inorder T ++ O -> inorder T = l1 ++ l2 -> l1 ++ l2 <> [] ->
  (forall i, i ∈ l1 -> kof arr i <= kof arr x) -> (forall i, i ∈ l2 -> kof arr x < kof arr i) ->
  relinked arr arr' (x :: inorder T) -> tree_rep nr arr' 0 T' -> balanced T' ->
  height T' <= Z.of_nat MAX_AVL_HEIGHT -> inorder T' = l1 ++ x :: l2 ->
  avl_rep arr' (insert_cache arr' (set_root (root_id T') t) x) T' O.
Proof.
  intros [H1 H2 H3 H4 H5 H6 H7 H8 H9] Hx Hino Hne Hbef Haft Hrel Ht' Hb' Hh' Hino'.
  assert (Hk : forall i, kof arr' i = kof arr i) by (intros; apply kof_data, (rel_data _ _ _ Hrel)).
  split; try done.
  - by unfold insert_cache; repeat case_match.
  - eapply sorted_ext; [intros; apply Hk|]. rewrite Hino, sorted_app in H5. destruct H5 as (S1 & S2 & S3).
    rewrite Hino', sorted_app, sorted_cons. split_and!; try done.
    + intros j Hj. specialize (Haft j Hj). lia.
    + intros i j Hi. rewrite elem_of_cons. intros [->|Hj]; [by apply Hbef|by apply S3].
  - assert (HxO : inorder T' ++ O ≡ₚ x :: inorder T ++ O) by (rewrite Hino', Hino; solve_Permutation).
    rewrite HxO. by constructor.
  - rewrite Hino'. apply insert_cache_ok; rewrite <- ?Hino; try congruence.
    + intros i Hi. rewrite !Hk. by apply Hbef.
    + intros i Hi. rewrite !Hk. by apply Haft.
    + intros i Hi. by destruct (tree_rep_valid _ _ _ _ _ H1 Hi).
    + by eapply cached_ext; [intros; apply Hk|..|exact H7].
  - rewrite <- H8. by unfold insert_cache; repeat case_match.
  - eapply orphans_ext; [|exact H9]. intros i _. apply (rel_data _ _ _ Hrel).
Qed.

(** Insertion at the slot the descent found. *)
Lemma insert_at_rep arr t T O x d :
  avl_rep arr t T O -> valid nr x -> x ∉ inorder T ++ O ->
  left_id (arr !!! x) = 0 -> right_id (arr !!! x) = 0 -> balance (arr !!! x) = 0 ->
  is_orphan (arr !!! x) = false -> T = plug d Leaf -> d <> [] -> (length d < MAX_AVL_HEIGHT)%nat ->
  (forall i, i ∈ ctx_before d -> kof arr i <= kof arr x) ->
  (forall i, i ∈ ctx_after d -> kof arr x < kof arr i) ->
  let arr1 := upd arr x (set_parent (ctx_top d)) in
  let arr2 := upd arr1 (ctx_top d) (if match d with FL _ _ :: _ => true | _ => false end
                                    then set_left x else set_right x) in
  exists arr3 t3 T',
    insert_retrace nr arr2 t MAX_AVL_HEIGHT (Some (ctx_top d)) (ctx_top d) x x = (arr3, t3) /\
    avl_rep arr3 (insert_cache arr3 t3 x) T' O /\ untouched arr arr3 (x :: inorder T ++ O) /\
    inorder T' = ins (kof arr) x (inorder T).
Proof.
  intros Hrep Hv Hx Hl Hr Hb Ho HT Hd Hlen Hbef Haft. destruct d as [|f c]; [done|].
  pose proof Hrep as [H1 H2 H3 H4 _ H6 _ _ _]. cbv zeta. rewrite HT in H1, H3.
  replace (match f :: c with FL _ _ :: _ => true | _ => false end) with (is_FL f) by (by destruct f).
  apply plug_rep in H1 as [_ Hc]. apply plug_balanced in H3 as [_ Hbc].
  assert (Hperm : inorder T ≡ₚ ctx_ids (f :: c)) by (rewrite HT, plug_perm; done).
  assert (Hndx : NoDup (x :: ctx_ids (f :: c))).
  { apply NoDup_cons. rewrite <- Hperm. split; [set_solver|]. by apply NoDup_app in H6 as (? & _). }
  destruct (hang_rep arr f c x Hc Hndx Hv Hl Hr Hb Ho) as (Hs & Hc2 & Hrel).
  set (arr2 := upd _ (frame_id f) _) in *.
  destruct (insert_retrace_rep nr MAX_AVL_HEIGHT (f :: c) (Node Leaf x Leaf) arr2 t)
    as (arr3 & t3 & T' & Hrun & [G1 G2 G3 G4 G5] & G6); try done; [lia|by left|rewrite H2, HT; apply plug_root|].
  rewrite (id_to_node_top _ _ _ _ _ Hc2) in Hrun. cbn [head fmap option_fmap option_map] in Hrun.
  exists arr3, t3, T'. split; [exact Hrun|]. rewrite G4.
  assert (Hino : inorder T = ctx_before (f :: c) ++ ctx_after (f :: c)) by (by rewrite HT, plug_inorder).
  assert (Hino' : inorder T' = ctx_before (f :: c) ++ x :: ctx_after (f :: c)) by (by rewrite G3, plug_inorder).
  assert (Hrel3 : relinked arr arr3 (x :: inorder T)).
  { eapply relinked_perm; [by rewrite Hperm|]. by eapply relinked_trans. }
  split; [|split].
  - eapply (avl_rep_grown arr t T); try done.
    + rewrite <- Hino, HT. intros E%inorder_nil. by apply plug_nil_leaf in E.
    + pose proof (ctx_height_le (f :: c) (height (Node Leaf x Leaf)) 0) as Hle.
      rewrite plug_ctx_height in G6. rewrite HT, plug_ctx_height in H4. cbn [height] in *. lia.
  - eapply untouched_mono; [|by apply relinked_untouched]. intros i Hi. mem.
  - rewrite Hino', Hino. symmetry. by apply ins_split.
Qed.

(** The first node of an empty tree. *)
Lemma insert_first_rep arr t O x :
  avl_rep arr t Leaf O -> valid nr x -> x ∉ O ->
  left_id (arr !!! x) = 0 -> right_id (arr !!! x) = 0 -> balance (arr !!! x) = 0 ->
  is_orphan (arr !!! x) = false ->
  let arr' := upd arr x (set_parent 0) in
  avl_rep arr' (mk_tree x x (key (arr' !!! x)) x (key (arr' !!! x)) (first_orphan_id t)) (Node Leaf x Leaf) O /\
  untouched arr arr' (x :: O).
Proof.
  intros [H1 H2 H3 H4 H5 H6 H7 H8 H9] Hv Hx Hl Hr Hb Ho arr'. split.
  - split; try done.
    + cbn. split; [done|]. split; [|done]. subst arr'. split; by rewrite upd_eq.
    + repeat constructor.
    + cbn. by constructor.
    + eapply orphans_ext; [|done]. intros i Hi. subst arr'. rewrite upd_ne; [done|]. by intros ->.
  - split; intros i; [by apply kof_upd|]. intros Hi. subst arr'. rewrite upd_ne; [done|]. intros ->. apply Hi. mem.
Qed.

(** [avl_tree_insert] on every branch. *)
Lemma avl_tree_insert_rep arr t T O x :
  avl_rep arr t T O -> valid nr x -> x ∉ inorder T ++ O ->
  exists arr' t' T' O', avl_tree_insert nr arr t x = (arr', t') /\ avl_rep arr' t' T' O' /\
    untouched arr arr' (x :: inorder T ++ O) /\
    placed (kof arr) (height T) x (inorder T) O (inorder T') O'.
Proof.
  intros Hrep Hv Hx. unfold avl_tree_insert.
  set (arr1 := upd (upd arr x _) x (set_is_orphan false)).
  assert (Hout : forall i, i <> x -> arr1 !!! i = arr !!! i) by (intros i Hi; unfold arr1; by rewrite !upd_ne).
  assert (Hk : forall i, kof arr1 i = kof arr i) by (intros i; unfold arr1; by rewrite !kof_upd).
  assert (Hx1 : arr1 !!! x = set_is_orphan false (set_balance 0 (set_right 0 (set_left 0 (arr !!! x)))))
    by (unfold arr1; by rewrite !upd_eq).
  assert (Hrep1 : avl_rep arr1 t T O).
  { eapply avl_rep_outside; [|exact Hrep]. intros i Hi. apply Hout. set_solver. }
  clearbody arr1.
  assert (Htr : forall arr' S, untouched arr1 arr' (x :: S) -> untouched arr arr' (x :: S)).
  { intros arr' S [U1 U2]. split; intros i; [by rewrite U1|]. intros Hi.
    rewrite U2 by done. apply Hout. intros ->. apply Hi, elem_of_cons. by left. }
  pose proof (insert_walk_rep nr arr1 (key (arr1 !!! x)) (MAX_AVL_HEIGHT - 1) T [] false (ar_tree _ _ _ _ Hrep1)) as Hw.
  pose proof (descend_plug (kof arr1) (key (arr1 !!! x)) T []) as Hpl.
  destruct (descend_keys (kof arr1) (key (arr1 !!! x)) T [] (ar_sorted _ _ _ _ Hrep1)) as [Hbef Haft];
    [intros i Hi; by inversion Hi..|].
  destruct (descend_length (kof arr1) (key (arr1 !!! x)) T []) as [Hlen _].
  cbv zeta in Hw. set (d := descend _ _ T []) in *. cbn [plug foldl length head fmap option_fmap option_map ctx_top] in *.
  rewrite <- (ar_root _ _ _ _ Hrep1) in Hw.
  destruct (insert_walk nr arr1 _ _ None 0 (root t) false) as [[[px xid] next] il].
  destruct (decide (length d <= 0 + (MAX_AVL_HEIGHT - 1))%nat) as [Hle|Hgt].
  - destruct Hw as (il' & [= -> -> -> ->] & Hil). cbn [Z.eqb negb].
    destruct (decide (d = [])) as [Hd|Hd].
    + rewrite Hd in *. cbn in Hpl. subst T. cbn [head fmap option_fmap option_map ctx_top].
      destruct (insert_first_rep arr1 t O x Hrep1 Hv Hx) as [Hr' Hu]; rewrite ?Hx1; try done.
      eexists _, _, (Node Leaf x Leaf), O. split; [done|]. split; [exact Hr'|].
      split; [by apply Htr|by left].
    + assert (HT : T <> Leaf) by (intros ->; apply Hd; by apply plug_nil_leaf). specialize (Hil HT).
      destruct (insert_at_rep arr1 t T O x d Hrep1 Hv Hx) as (arr3 & t3 & T' & Hrun & Hr3 & Hu & Hin);
        rewrite ?Hx1; try done; [unfold MAX_AVL_HEIGHT in *; lia|].
      exists arr3, (insert_cache arr3 t3 x), T', O. split; [|split; [done|split; [by apply Htr|left; split; [|done]]]].
      * destruct d as [|f c]; [done|]. cbn [head fmap option_fmap option_map ctx_top] in *.
        destruct f; cbn [frame_id] in *; subst il'; by rewrite Hrun.
      * rewrite Hin. clear -Hk. induction (inorder T) as [|y l IH]; cbn; [done|]. by rewrite !Hk, IH.
  - cbn [fst snd] in Hw. rewrite (proj2 (Z.eqb_neq _ _)) by done. cbn [negb].
    destruct (insert_orphan_rep arr1 t T O x Hrep1 Hv Hx) as (arr' & t' & E & Hr' & Hu).
    exists arr', t', T, (x :: O). split; [done|]. split; [done|]. split; [by apply Htr|right].
    pose proof (ar_height _ _ _ _ Hrep1). split; [|done]. unfold MAX_AVL_HEIGHT in *. lia.
Qed.
End Insert.
