(* ===== verification/AvlUnlink.v ===== *)
(** * Taking a node out of the tree

    The first half of [avl_tree_delete]: the node is replaced by its only child,
    or by its in-order successor, which leaves a path that is one level short
    below a known frame. *)

From S2P Require Import Prelude AvlTree AvlSpec AvlRotate AvlBalance AvlSearch.
Import Avl.

(** ** Path segments *)

(** The id at the top end of a segment around a hole that holds [hid]. *)
Fixpoint seg_root (d : ctx) (hid : Z) : Z :=
  match d with [] => hid | f :: d' => seg_root d' (frame_id f) end.

Lemma seg_root_plug d t : root_id (plug d t) = seg_root d (root_id t).
Proof.
  revert t. induction d as [|f d IH]; intros t; [done|]. rewrite plug_cons, IH. cbn.
  by rewrite frame_plug_root.
Qed.

Lemma seg_root_in d hid : d <> [] -> seg_root d hid ∈ ctx_ids d.
Proof.
  revert hid. induction d as [|f d IH]; intros hid; [done|]. intros _. cbn.
  rewrite elem_of_cons, elem_of_app. destruct d as [|g d]; [by left|].
  right; right. by apply IH.
Qed.

Lemma ctx_ids_app d c : ctx_ids (d ++ c) = ctx_ids d ++ ctx_ids c.
Proof. induction d as [|f d IH]; cbn; [done|]. by rewrite IH, <- app_assoc. Qed.

Lemma plug_app d c t : plug (d ++ c) t = plug c (plug d t).
Proof. unfold plug. apply foldl_app. Qed.

Section Unlink.
Context (nr : Z).
Implicit Types (arr : gmap Z avl_node) (t : avl_tree) (s : tree) (c d : ctx).

(** A path segment whose outermost node hangs below [q]. *)
Fixpoint seg_rep arr d (q hid hb : Z) : Prop :=
  match d with
  | [] => True
  | f :: d' =>
      valid nr (frame_id f) /\
      frame_at arr f (match d' with [] => q | g :: _ => frame_id g end) hid hb /\
      tree_rep nr arr (frame_id f) (frame_sib f) /\
      seg_rep arr d' q (frame_id f) (1 + Z.max hb (height (frame_sib f)))
  end.

Lemma ctx_rep_app arr d c hid hb :
  ctx_rep nr arr (d ++ c) hid hb <->
  seg_rep arr d (ctx_top c) hid hb /\ ctx_rep nr arr c (seg_root d hid) (ctx_height d hb).
Proof.
  revert hid hb. induction d as [|f d IH]; intros hid hb; cbn [app ctx_rep seg_rep seg_root ctx_height].
  - tauto.
  - rewrite IH. replace (ctx_top (d ++ c)) with (match d with [] => ctx_top c | g :: _ => frame_id g end)
      by (by destruct d). tauto.
Qed.

Lemma ctx_bal_app d c hb : ctx_bal (d ++ c) hb <-> ctx_bal d hb /\ ctx_bal c (ctx_height d hb).
Proof.
  revert hb. induction d as [|f d IH]; intros hb; cbn; [tauto|]. rewrite IH. tauto.
Qed.

Lemma ctx_height_app d c h : ctx_height (d ++ c) h = ctx_height c (ctx_height d h).
Proof. revert h. induction d as [|f d IH]; intros h; cbn; [done|]. apply IH. Qed.

Lemma seg_rep_ext arr arr' d q hid hb :
  (forall i, i ∈ ctx_ids d -> arr' !!! i = arr !!! i) -> seg_rep arr d q hid hb -> seg_rep arr' d q hid hb.
Proof.
  revert hid hb. induction d as [|f d IH]; intros hid hb Heq; [done|]. cbn in *.
  intros (Hv & Hf & Ht & Hd). split_and!; [done|..].
  - destruct f; cbn in *; (eapply node_at_ext; [|done]); apply Heq; set_solver.
  - eapply tree_rep_ext; [|done]. intros i Hi. apply Heq. set_solver.
  - apply IH; [|done]. intros i Hi. apply Heq. set_solver.
Qed.

(** Hanging the segment below another node. *)
Lemma seg_reparent arr d q q' hid hb :
  NoDup (ctx_ids d) -> d <> [] -> seg_rep arr d q hid hb ->
  seg_rep (upd arr (seg_root d hid) (set_parent q')) d q' hid hb.
Proof.
  revert hid hb. induction d as [|f d IH]; intros hid hb Hnd Hne; [done|]. clear Hne.
  cbn [ctx_ids] in Hnd. apply NoDup_cons in Hnd as [Hf0 Hnd]. apply NoDup_app in Hnd as (_ & Hd0 & Hnd).
  intros (Hv & Hf & Hsib & Hd). destruct d as [|g d].
  - cbn [seg_root seg_rep]. split; [done|]. split; [|split; [apply tree_rep_upd; set_solver|done]].
    destruct f; cbn [frame_at frame_id] in *; destruct Hf; split; by rewrite upd_eq.
  - specialize (IH (frame_id f) _ Hnd ltac:(done) Hd).
    change (seg_root (f :: g :: d) hid) with (seg_root (g :: d) (frame_id f)).
    pose proof (seg_root_in (g :: d) (frame_id f) ltac:(done)) as Hin.
    set (u := seg_root (g :: d) (frame_id f)) in *. remember (g :: d) as e eqn:Ee.
    assert (Huf : u <> frame_id f) by (intros E; apply Hf0, elem_of_app; right; by rewrite <- E).
    assert (Hus : u ∉ inorder (frame_sib f)) by (intros Hi; by apply (Hd0 _ Hi)).
    subst e. split; [done|]. split; [|split; [by apply tree_rep_upd|done]].
    destruct f; cbn [frame_at frame_id] in *; destruct Hf; split; by rewrite upd_ne.
Qed.

(** ** Replacing a node below its parent *)

Lemma ctx_top_zero arr c hid hb : ctx_rep nr arr c hid hb -> (ctx_top c =? 0) = match c with [] => true | _ => false end.
Proof. destruct c; [done|]. cbn. intros ([? ?] & _). apply Z.eqb_neq. lia. Qed.

Lemma avl_replace_id arr t c x hb w :
  ctx_rep nr arr c x hb -> valid nr x -> x ∉ ctx_ids c -> NoDup (ctx_ids c) ->
  parent_id (arr !!! x) = ctx_top c -> w = 0 \/ valid nr w -> w ∉ ctx_ids c ->
  exists arr', avl_replace_node nr arr t x w = (arr', if c then set_root w t else t) /\
    ctx_rep nr arr' c w hb /\
    arr' = upd_opt (match c with
                    | [] => arr
                    | f :: _ => upd arr (frame_id f) (if is_FL f then set_left w else set_right w)
                    end) (avl_id_to_node nr w) (set_parent (ctx_top c)).
Proof.
  intros Hc Hv Hx Hnd Hp Hw Hwc. unfold avl_replace_node, __avl_replace_node. cbv zeta.
  rewrite Hp, (ctx_top_zero _ _ _ _ Hc), (id_to_node_top _ _ _ _ _ Hc).
  assert (Hupd : forall a, ctx_rep nr a c w hb ->
    ctx_rep nr (upd_opt a (avl_id_to_node nr w) (set_parent (ctx_top c))) c w hb).
  { intros a Ha. destruct (avl_id_to_node nr w) as [w'|] eqn:E; [|done].
    assert (w' = w) as -> by (unfold avl_id_to_node in E; case_match; congruence).
    cbn. by apply ctx_rep_upd. }
  destruct c as [|f c]; cbn [head fmap option_fmap option_map avl_node_to_id].
  - eexists. rewrite Hp. split; [done|]. by split.
  - rewrite (ctx_side nr _ _ _ _ _ Hc Hv Hx).
    assert (Hxf : frame_id f <> x) by (intros <-; apply Hx; cbn; set_solver).
    replace (if is_FL f then upd arr (frame_id f) (set_left w) else upd arr (frame_id f) (set_right w))
      with (upd arr (frame_id f) (if is_FL f then set_left w else set_right w)) by (by destruct (is_FL f)).
    eexists. rewrite upd_ne, Hp by done. split; [done|]. split; [|done]. apply Hupd.
    by apply (ctx_set_child nr arr f c x).
Qed.

Lemma avl_replace_tree arr t c x hb q s :
  ctx_rep nr arr c x hb -> valid nr x -> x ∉ ctx_ids c -> x ∉ inorder s ->
  parent_id (arr !!! x) = ctx_top c -> tree_rep nr arr q s -> NoDup (inorder s ++ ctx_ids c) ->
  exists arr', avl_replace_node nr arr t x (root_id s) = (arr', if c then set_root (root_id s) t else t) /\
    tree_rep nr arr' (ctx_top c) s /\ ctx_rep nr arr' c (root_id s) hb /\
    relinked arr arr' (inorder s ++ ctx_ids c).
Proof.
  intros Hc Hv Hx Hxs Hp Hs Hnd. pose proof Hnd as (Hnds & Hd & Hndc)%NoDup_app.
  destruct (avl_replace_id arr t c x hb (root_id s) Hc Hv Hx Hndc Hp) as (arr' & E & Hc' & ->).
  - destruct s; [by left|right]. by destruct Hs.
  - destruct s as [|l y r]; [|apply Hd; cbn; set_solver]. cbn [root_id].
    clear -Hc. revert x hb Hc. induction c as [|f c IH]; intros x hb; [set_solver|].
    intros (Hvf & _ & Hsib & Hc). cbn. rewrite elem_of_cons, elem_of_app. intros [E|[E|E]].
    + destruct Hvf. lia.
    + destruct (tree_rep_valid _ _ _ _ _ Hsib E). lia.
    + by apply (IH _ _ Hc).
  - eexists. split; [exact E|]. rewrite (id_to_node_root _ _ _ _ Hs) in Hc' |- *.
    split; [|split; [exact Hc'|]].
    + apply (reparent_rep nr _ q); [done|]. destruct c as [|f c]; [done|]. apply tree_rep_upd; [|done].
      intros Hi. apply (Hd _ Hi). cbn. set_solver.
    + apply relinked_upd_opt; [done|set_solver|]. destruct c as [|f c]; [apply relinked_refl|].
      apply relinked_upd; [by destruct (is_FL f)|cbn; set_solver|apply relinked_refl].
Qed.

(** ** Moving the successor into the node's place *)

(** What the writes leave, of the node's old neighbours and of everything else. *)
Lemma splice_writes {F} arr t c x y l hc (from : F) :
  ctx_rep nr arr c x hc -> valid nr x -> valid nr y ->
  parent_id (arr !!! x) = ctx_top c -> left_id (arr !!! x) = root_id l ->
  tree_rep nr arr x l -> l <> Leaf -> NoDup (x :: y :: inorder l ++ ctx_ids c) ->
  exists arr',
    delete_splice_next nr arr t x y from = (arr', if c then set_root y t else t, Some from) /\
    tree_rep nr arr' y l /\ ctx_rep nr arr' c y hc /\
    arr' !!! y = set_left (root_id l) (set_parent (ctx_top c) (arr !!! y)) /\
    relinked arr arr' (y :: inorder l ++ ctx_ids c).
Proof.
  intros Hc Hvx Hvy Hp Hlx Hl Hlne [Hx [Hy (Hndl & Hdl & Hndc)%NoDup_app]%NoDup_cons]%NoDup_cons.
  rewrite !elem_of_cons, !elem_of_app in Hx. rewrite !elem_of_app in Hy.
  pose proof (root_id_in l Hlne) as Hrl.
  assert (Hvl : valid nr (root_id l)) by (destruct l; [done|by destruct Hl]).
  destruct (avl_replace_id arr t c x hc y Hc Hvx) as (arr1 & E & Hc1 & Harr1); try tauto.
  rewrite (id_to_node_valid nr y Hvy) in Harr1. cbn [upd_opt] in Harr1.
  assert (Hrel1 : relinked arr arr1 (y :: ctx_ids c)).
  { rewrite Harr1. apply relinked_upd; [done|set_solver|]. destruct c as [|f c]; [apply relinked_refl|].
    apply relinked_upd; [by destruct (is_FL f)|cbn; set_solver|apply relinked_refl]. }
  assert (H1y : arr1 !!! y = set_parent (ctx_top c) (arr !!! y)).
  { rewrite Harr1, upd_eq. destruct c as [|f c]; [done|]. rewrite upd_ne; [done|].
    intros Ey. assert (y ∈ ctx_ids (f :: c)) by (rewrite <- Ey; cbn; set_solver). tauto. }
  assert (H1 : forall i, i <> y -> i ∉ ctx_ids c -> arr1 !!! i = arr !!! i).
  { intros i Hi Hic. apply (rel_other _ _ _ Hrel1). rewrite elem_of_cons. tauto. }
  clear Harr1. unfold delete_splice_next. cbv zeta. rewrite E, (H1 x), Hlx by tauto.
  rewrite upd_ne, (H1 x), Hlx, (id_to_node_valid _ _ Hvl) by naive_solver.
  assert (Hyl : root_id l <> y) by (intros Ey; rewrite <- Ey in Hy; tauto).
  eexists. split; [done|]. split_and!.
  - assert (Hno : Some (root_id l) = node_opt l) by (by destruct l).
    change (upd ?a (root_id l) ?g) with (upd_opt a (Some (root_id l)) g). rewrite Hno.
    apply (reparent_rep nr _ x); [done|]. apply tree_rep_upd; [tauto|].
    eapply tree_rep_ext; [|exact Hl]. intros i Hi. apply H1; [intros ->; tauto|]. by apply Hdl.
  - apply ctx_rep_upd; [by apply Hdl|]. apply ctx_rep_upd; [tauto|done].
  - by rewrite upd_ne, upd_eq, H1y.
  - apply relinked_upd; [done|mem|]. apply relinked_upd; [done|mem|].
    eapply relinked_mono; [|exact Hrel1]. intros i Hi. mem.
Qed.

Lemma splice_rep {F} arr t c x y l hc d s hb (from : F) :
  ctx_rep nr arr c x hc -> valid nr x -> valid nr y ->
  parent_id (arr !!! x) = ctx_top c -> left_id (arr !!! x) = root_id l ->
  tree_rep nr arr x l -> l <> Leaf ->
  seg_rep arr d y (root_id s) hb ->
  tree_rep nr arr (match d with [] => y | f :: _ => frame_id f end) s ->
  right_id (arr !!! y) = seg_root d (root_id s) ->
  balance (arr !!! y) = ctx_height d hb - height l -> is_orphan (arr !!! y) = false ->
  hc = 1 + Z.max (ctx_height d hb) (height l) ->
  NoDup (x :: y :: inorder s ++ ctx_ids d ++ inorder l ++ ctx_ids c) ->
  exists arr',
    delete_splice_next nr arr t x y from = (arr', if c then set_root y t else t, Some from) /\
    tree_rep nr arr' (ctx_top (d ++ FR l y :: c)) s /\
    ctx_rep nr arr' (d ++ FR l y :: c) (root_id s) hb /\
    relinked arr arr' (inorder s ++ ctx_ids (d ++ FR l y :: c)).
Proof.
  intros Hc Hvx Hvy Hp Hlx Hl Hlne Hd Hs Hyr Hyb Hyo Hhc Hnd.
  assert (HP : x :: y :: inorder s ++ ctx_ids d ++ inorder l ++ ctx_ids c ≡ₚ
    (inorder s ++ ctx_ids d) ++ x :: y :: inorder l ++ ctx_ids c) by solve_Permutation.
  rewrite HP in Hnd. apply NoDup_app in Hnd as (_ & Hdis & Hnd).
  destruct (splice_writes arr t c x y l hc from) as (arr' & E & Hl' & Hc' & Hy' & Hrel); try done.
  assert (Hout : forall i, i ∈ inorder s ++ ctx_ids d -> arr' !!! i = arr !!! i).
  { intros i Hi. apply (rel_other _ _ _ Hrel). specialize (Hdis i Hi). rewrite elem_of_cons in Hdis. tauto. }
  exists arr'. split; [done|]. split; [|split].
  - replace (ctx_top (d ++ FR l y :: c)) with (match d with [] => y | f :: _ => frame_id f end) by (by destruct d).
    eapply tree_rep_ext; [|exact Hs]. intros i Hi. apply Hout. mem.
  - apply ctx_rep_app. split; [eapply seg_rep_ext; [|exact Hd]; intros i Hi; apply Hout; mem|].
    cbn [ctx_rep frame_id frame_at frame_sib]. rewrite <- Hhc. split_and!; try done. split; by rewrite Hy'.
  - rewrite ctx_ids_app. cbn [ctx_ids frame_id frame_sib]. eapply relinked_mono; [|exact Hrel].
    intros i. clear. set_solver.
Qed.

(** Unlinking the successor of a node from the node's right subtree, whose
    leftmost path is [d]. *)
Lemma leftmost_path r : r <> Leaf ->
  exists d y r2, r = plug d (Node Leaf y r2) /\ ctx_before d = [] /\ Forall (fun f => is_FL f = true) d.
Proof.
  enough (G : forall d, r <> Leaf -> Forall (fun f => is_FL f = true) d ->
    exists d' y r2, plug d r = plug d' (Node Leaf y r2) /\ Forall (fun f => is_FL f = true) d').
  { intros Hr. destruct (G [] Hr ltac:(constructor)) as (d & y & r2 & E & Hd). exists d, y, r2.
    split; [done|]. split; [|done]. clear E. induction Hd as [|f d Hf _ IH]; [done|]. by destruct f. }
  induction r as [|l IHl x r _]; intros d; [done|]. intros _ Hd. destruct l as [|l1 z l2].
  - by exists d, x, r.
  - apply (IHl (FL x r :: d)); [done|]. by constructor.
Qed.

Lemma seg_root_valid arr d q hid hb : d <> [] -> seg_rep arr d q hid hb -> valid nr (seg_root d hid).
Proof.
  revert hid hb. induction d as [|f d IH]; intros hid hb; [done|]. intros _ (Hv & _ & _ & Hd).
  destruct d as [|g d]; [done|]. by apply (IH (frame_id f) _ ltac:(done) Hd).
Qed.

(** The "deep next" case, up to the array in which the node itself is replaced. *)
Lemma unlink_deep arr t c l x d y r2 :
  d <> [] -> let c1 := d ++ FR l x :: c in let hb := height r2 + 1 in
  valid nr y -> parent_id (arr !!! y) = ctx_top c1 -> tree_rep nr arr y r2 ->
  ctx_rep nr arr c1 y hb -> NoDup (y :: inorder r2 ++ ctx_ids c1) ->
  exists arr2, avl_replace_node nr arr t y (root_id r2) = (arr2, t) /\
    let rt := seg_root d (root_id r2) in
    right_id (arr2 !!! x) = rt /\ valid nr rt /\
    let arr4 := upd (upd arr2 y (set_right rt)) rt (set_parent y) in
    right_id (upd arr2 y (set_right rt) !!! x) = rt /\
    seg_rep arr4 d y (root_id r2) hb /\ tree_rep nr arr4 (ctx_top d) r2 /\
    node_at arr4 x (ctx_top c) (root_id l) rt (ctx_height d hb - height l) /\
    tree_rep nr arr4 x l /\ ctx_rep nr arr4 c x (1 + Z.max (ctx_height d hb) (height l)) /\
    arr4 !!! y = set_right rt (arr !!! y) /\ relinked arr arr4 (y :: inorder r2 ++ ctx_ids c1).
Proof.
  intros Hne c1 hb Hvy Hy Hr2 Hc Hnd. pose proof Hnd as [Hyn Hnd']%NoDup_cons.
  rewrite elem_of_app in Hyn.
  destruct (avl_replace_tree arr t c1 y hb y r2) as (arr2 & E & Ht2 & Hc2 & Hrel); try done; try tauto.
  exists arr2. split; [subst c1; by destruct d|]. intros rt.
  apply NoDup_app in Hnd' as (_ & Hd2 & Hnd'). unfold c1 in Hc2, Hyn, Hnd', Hd2.
  rewrite ctx_ids_app in Hnd', Hyn, Hd2. apply NoDup_app in Hnd' as (Hndd & Hdd & Hnd').
  cbn [ctx_ids frame_id frame_sib] in *. apply NoDup_cons in Hnd' as [Hxn Hnd'].
  setoid_rewrite elem_of_cons in Hdd. setoid_rewrite elem_of_app in Hdd.
  rewrite !elem_of_app, !elem_of_cons, elem_of_app in Hyn. rewrite elem_of_app in Hxn.
  pose proof Hc2 as (Hseg & Hvx & Hx & Hl & Hc')%ctx_rep_app.
  cbn [frame_at frame_sib frame_id] in *. fold rt in Hx.
  pose proof (seg_root_valid _ _ _ _ _ Hne Hseg) as Hvrt. fold rt in Hvrt.
  pose proof (seg_root_in d (root_id r2) Hne) as Hrt. fold rt in Hrt. specialize (Hdd rt Hrt) as Hrt'.
  assert (Hyx : y <> x) by tauto. assert (Hyrt : y <> rt) by (intros Ey; rewrite <- Ey in Hrt; tauto).
  assert (Hxrt : x <> rt) by (intros Ex; apply Hrt'; by left).
  split; [by destruct Hx|]. split; [done|].
  set (arr4 := upd (upd arr2 y (set_right rt)) rt (set_parent y)).
  assert (H4 : forall i, i <> y -> i <> rt -> arr4 !!! i = arr2 !!! i) by (intros; unfold arr4; by rewrite !upd_ne).
  assert (Hs4 : forall p s, y ∉ inorder s -> rt ∉ inorder s -> tree_rep nr arr2 p s -> tree_rep nr arr4 p s).
  { intros p s ? ?. apply tree_rep_ext. intros i Hi. apply H4; intros ->; done. }
  split; [rewrite upd_ne by done; by destruct Hx|]. split_and!.
  - apply (seg_reparent _ _ x); [done..|]. eapply seg_rep_ext; [|exact Hseg].
    intros i Hi. rewrite upd_ne; [done|]. intros ->. tauto.
  - apply Hs4; [tauto| |]; [intros Hi; apply (Hd2 _ Hi), elem_of_app; by left|].
    unfold c1 in Ht2. by destruct d.
  - destruct Hx. split; rewrite H4 by done; done.
  - apply Hs4; [tauto|tauto|done].
  - eapply ctx_rep_ext; [|exact Hc']. intros i Hi. apply H4; intros ->; tauto.
  - unfold arr4. rewrite upd_ne, upd_eq by done. f_equal. apply (rel_other _ _ _ Hrel).
    unfold c1. rewrite ctx_ids_app. cbn [ctx_ids frame_id frame_sib].
    rewrite !elem_of_app, !elem_of_cons, elem_of_app. tauto.
  - unfold arr4. unfold c1 in *. rewrite ctx_ids_app in *. apply relinked_upd; [done|mem|].
    apply relinked_upd; [done|mem|]. eapply relinked_mono; [|exact Hrel]. intros i Hi. mem.
Qed.

(** ** What unlinking leaves *)

Lemma set_root_same t c s s' :
  root t = root_id (plug c s) ->
  (if c then set_root (root_id s') t else t) = set_root (root_id (plug c s')) t.
Proof.
  destruct c as [|f c]; [done|]. intros Hr. rewrite (plug_root f c s' s), <- Hr. by destruct t.
Qed.

(** What unlinking leaves: the path [c'] and the subtree [s] that is one level
    lower than the balances of the path account for. *)
Record unlinked arr t (c : ctx) l x r arr' t' (c' : ctx) (s : tree) : Prop := {
  ul_tree : tree_rep nr arr' (ctx_top c') s;
  ul_balanced : balanced s;
  ul_ctx : ctx_rep nr arr' c' (root_id s) (height s + 1);
  ul_bal : ctx_bal c' (height s + 1);
  ul_inorder : inorder (plug c' s) = ctx_before c ++ inorder l ++ inorder r ++ ctx_after c;
  ul_root : t' = set_root (root_id (plug c' s)) t;
  ul_relinked : relinked arr arr' (inorder (plug c (Node l x r)));
  ul_height : ctx_height c' (height s + 1) = height (plug c (Node l x r));
}.

(** A node with at most one subtree [s]. *)
Lemma unlink_one arr t c l x r s :
  let T := plug c (Node l x r) in
  tree_rep nr arr 0 T -> balanced T -> NoDup (inorder T) -> root t = root_id T ->
  l = Leaf /\ s = r \/ r = Leaf /\ s = l ->
  exists arr', avl_replace_node nr arr t x (root_id s) = (arr', if c then set_root (root_id s) t else t) /\
    unlinked arr t c l x r arr' (if c then set_root (root_id s) t else t) c s.
Proof.
  intros T Hrep Hbal Hnd Hroot Hone. unfold T in *.
  apply plug_rep in Hrep as [(Hv & Hx & Hl & Hr) Hc]. apply plug_balanced in Hbal as [(_ & Hbl & Hbr) Hbc].
  pose proof (plug_perm c (Node l x r)) as Hperm. rewrite Hperm in Hnd. cbn [inorder root_id] in *.
  assert (HP : (inorder l ++ x :: inorder r) ++ ctx_ids c ≡ₚ x :: inorder s ++ ctx_ids c).
  { destruct Hone as [[-> ->]|[-> ->]]; cbn; solve_Permutation. }
  rewrite HP in Hnd, Hperm. apply NoDup_cons in Hnd as [Hxn Hnd]. rewrite elem_of_app in Hxn.
  assert (Hs : tree_rep nr arr x s) by (by destruct Hone as [[-> ->]|[-> ->]]).
  destruct (avl_replace_tree arr t c x _ x s Hc Hv ltac:(tauto) ltac:(tauto) (at_parent _ _ _ _ _ _ Hx) Hs Hnd)
    as (arr' & E & Ht' & Hc' & Hrel).
  assert (Hh : height (Node l x r) = height s + 1).
  { destruct Hone as [[-> ->]|[-> ->]]; cbn;
      [pose proof (height_nonneg r)|pose proof (height_nonneg l)]; lia. }
  exists arr'. split; [done|]. split; try done.
  - by destruct Hone as [[-> ->]|[-> ->]].
  - by rewrite <- Hh.
  - by rewrite <- Hh.
  - rewrite plug_inorder. by destruct Hone as [[-> ->]|[-> ->]].
  - by apply (set_root_same _ _ (Node l x r)).
  - eapply relinked_perm; [symmetry; exact Hperm|]. eapply relinked_mono; [|exact Hrel]. intros i Hi. mem.
  - by rewrite plug_ctx_height, Hh.
Qed.

Lemma ctx_side_opt arr c x hb :
  ctx_rep nr arr c x hb -> valid nr x -> x ∉ ctx_ids c ->
  side c (match frame_id <$> head c with Some p => left_id (arr !!! p) =? x | None => false end).
Proof. destruct c as [|f c]; [done|]. intros. cbn. by eapply ctx_side. Qed.

(** ** The node has two subtrees: its successor takes its place *)

Section Successor.
Context (c : ctx) (l : tree) (x : Z) (d : ctx) (y : Z) (r2 : tree).
Context (Hbef : ctx_before d = []).

Notation r := (plug d (Node Leaf y r2)).
Notation c1 := (d ++ FR l x :: c).
Notation c2 := (d ++ FR l y :: c).

Lemma successor_height : height (Node Leaf y r2) = height r2 + 1.
Proof. cbn. pose proof (height_nonneg r2). lia. Qed.

Lemma right_height : ctx_height d (height r2 + 1) = height r.
Proof. by rewrite plug_ctx_height, successor_height. Qed.

Lemma right_inorder : inorder r = y :: inorder r2 ++ ctx_after d.
Proof. by rewrite plug_inorder, Hbef. Qed.

Lemma successor_perm : inorder (plug c (Node l x r)) ≡ₚ x :: inorder r2 ++ ctx_ids c2.
Proof.
  rewrite plug_perm. cbn [inorder]. rewrite right_inorder, ctx_ids_app. cbn [ctx_ids frame_id frame_sib].
  rewrite <- (ctx_ids_perm d), Hbef. cbn [app]. solve_Permutation.
Qed.

Lemma successor_nodup :
  NoDup (y :: inorder r2 ++ ctx_ids c1) -> NoDup (x :: y :: inorder r2 ++ ctx_ids d ++ inorder l ++ ctx_ids c).
Proof.
  intros Hnd. eapply NoDup_Permutation_proper; [|exact Hnd]. rewrite ctx_ids_app. cbn. solve_Permutation.
Qed.

(** Where the successor took the node's place, the tree has lost just the node. *)
Lemma successor_unlinked arr t arr' :
  balanced r2 -> ctx_bal c1 (height r2 + 1) -> root t = root_id (plug c (Node l x r)) ->
  tree_rep nr arr' (ctx_top c2) r2 -> ctx_rep nr arr' c2 (root_id r2) (height r2 + 1) ->
  relinked arr arr' (inorder (plug c (Node l x r))) ->
  unlinked arr t c l x r arr' (if c then set_root y t else t) c2 r2.
Proof.
  intros Hb2 Hbc Hroot Ht' Hc' Hrel. split; try done.
  - apply ctx_bal_app in Hbc as [B1 B2]. apply ctx_bal_app. by split.
  - rewrite plug_app, (plug_cons _ c), plug_inorder. cbn [frame_plug inorder].
    rewrite plug_inorder, Hbef, right_inorder. rewrite <- !app_assoc. cbn [app]. by rewrite <- !app_assoc.
  - rewrite plug_app, (plug_cons _ c). by rewrite <- (set_root_same t c (Node l x r)).
  - rewrite plug_ctx_height, ctx_height_app, right_height. cbn [ctx_height frame_sib height]. f_equal. lia.
Qed.

(** The successor is the node's right child. *)
Lemma unlink_child arr t :
  d = [] -> valid nr x -> valid nr y -> l <> Leaf ->
  node_at arr y x 0 (root_id r2) (height r - height l) -> tree_rep nr arr y r2 ->
  ctx_rep nr arr c1 y (height r2 + 1) -> NoDup (y :: inorder r2 ++ ctx_ids c1) ->
  exists arr', delete_detach_next nr arr t x y = (arr, t, Some (Some y, y, false)) /\
    delete_splice_next nr arr t x y (Some y, y, false) =
      (arr', if c then set_root y t else t, Some (Some y, y, false)) /\
    tree_rep nr arr' (ctx_top c2) r2 /\ ctx_rep nr arr' c2 (root_id r2) (height r2 + 1) /\
    relinked arr arr' (inorder r2 ++ ctx_ids c2).
Proof.
  intros Ed Hv Hvy Hlne Hy Hr2 Hc Hnd. pose proof right_height as Hhr. apply successor_nodup in Hnd.
  rewrite Ed in Hy, Hc, Hnd, Hhr |- *. destruct Hc as (_ & Hx & Hl & Hc). cbn [frame_sib frame_id app] in *.
  destruct (splice_rep arr t c x y l _ [] r2 (height r2 + 1) (Some y, y, false) Hc Hv Hvy)
    as (arr' & E & Ht' & Hc' & Hrel); try done; try apply Hx; try apply Hy.
  - rewrite Hhr. apply Hy.
  - exists arr'. unfold delete_detach_next. rewrite (at_parent _ _ _ _ _ _ Hy), Z.eqb_refl. done.
Qed.

(** The successor is further down. *)
Lemma unlink_below arr t f d' :
  d = f :: d' -> is_FL f = true -> valid nr x -> valid nr y -> l <> Leaf ->
  node_at arr y (frame_id f) 0 (root_id r2) (height r - height l) -> tree_rep nr arr y r2 ->
  ctx_rep nr arr c1 y (height r2 + 1) -> NoDup (y :: inorder r2 ++ ctx_ids c1) ->
  let from := (Some (frame_id f), frame_id f, true) in
  exists arr4 arr', delete_detach_next nr arr t x y = (arr4, t, Some from) /\
    delete_splice_next nr arr4 t x y from = (arr', if c then set_root y t else t, Some from) /\
    tree_rep nr arr' (ctx_top c2) r2 /\ ctx_rep nr arr' c2 (root_id r2) (height r2 + 1) /\
    relinked arr arr' (y :: inorder r2 ++ ctx_ids c1).
Proof.
  intros Ed HfL Hv Hvy Hlne Hy Hr2 Hc Hnd from. pose proof (successor_nodup Hnd) as Hndx.
  pose proof Hnd as [Hyn _]%NoDup_cons. rewrite elem_of_app in Hyn.
  assert (Hfx : frame_id f <> x).
  { apply NoDup_cons in Hndx as [Hxn _]. intros <-. apply Hxn. rewrite Ed. cbn [ctx_ids]. mem. }
  assert (Hvf : valid nr (frame_id f)) by (rewrite Ed in Hc; by destruct Hc).
  assert (Hsd : (left_id (arr !!! frame_id f) =? y) = true).
  { rewrite Ed in Hc, Hyn. cbn [app] in Hc, Hyn. rewrite (ctx_side nr _ _ _ _ _ Hc Hvy); tauto. }
  destruct (unlink_deep arr t c l x d y r2)
    as (arr2 & E & Hrx & Hvrt & Hrx2 & Hseg & Ht4 & Hx4 & Hl4 & Hc4 & Hy4 & Hrel4); try done.
  { by rewrite Ed. } { rewrite Ed. apply Hy. }
  set (arr4 := upd (upd arr2 y _) _ _) in *.
  destruct (splice_rep arr4 t c x y l _ d r2 (height r2 + 1) from Hc4 Hv Hvy) as (arr' & E' & Ht' & Hc' & Hrel); try done.
  { apply Hx4. } { apply Hx4. } { by rewrite Ed in Ht4 |- *. } { by rewrite Hy4. } { rewrite Hy4, right_height. apply Hy. } { rewrite Hy4. apply Hy. }
  exists arr4, arr'. split_and!; try done.
  - unfold delete_detach_next. cbv zeta. rewrite (at_parent _ _ _ _ _ _ Hy), (proj2 (Z.eqb_neq _ _)) by done. cbn [negb].
    rewrite (id_to_node_valid nr _ Hvf), Hsd, (at_right _ _ _ _ _ _ Hy), E, Hrx, Hrx2, (id_to_node_valid _ _ Hvrt). done.
  - eapply relinked_trans; [exact Hrel4|]. eapply relinked_mono; [|exact Hrel]. intros i.
    rewrite !ctx_ids_app. cbn [ctx_ids frame_id frame_sib]. clear. set_solver.
Qed.

(** Both cases. *)
Lemma unlink_successor arr t :
  Forall (fun f => is_FL f = true) d -> valid nr x -> valid nr y -> l <> Leaf ->
  node_at arr y (ctx_top c1) 0 (root_id r2) (height r - height l) ->
  tree_rep nr arr y r2 -> balanced r2 -> ctx_rep nr arr c1 y (height r2 + 1) -> ctx_bal c1 (height r2 + 1) ->
  NoDup (y :: inorder r2 ++ ctx_ids c1) -> root t = root_id (plug c (Node l x r)) ->
  exists arr4 arr' fl, let from := (avl_id_to_node nr (ctx_top c2), ctx_top c2, fl) in
    let t' := if c then set_root y t else t in
    delete_detach_next nr arr t x y = (arr4, t, Some from) /\
    delete_splice_next nr arr4 t x y from = (arr', t', Some from) /\
    side c2 fl /\ unlinked arr t c l x r arr' t' c2 r2.
Proof.
  intros HFL Hv Hvy Hlne Hy Hr2 Hb2 Hc Hbc Hnd Hroot.
  assert (Hsub : forall i, i ∈ y :: inorder r2 ++ ctx_ids c1 -> i ∈ inorder (plug c (Node l x r))).
  { intros i. rewrite successor_perm, !ctx_ids_app. cbn [ctx_ids frame_id frame_sib]. clear. set_solver. }
  destruct (decide (d = [])) as [Ed|Hd].
  - assert (Htop : ctx_top c1 = x /\ ctx_top c2 = y) by (by rewrite Ed). destruct Htop as [Ht1 Ht2]. rewrite Ht1 in Hy.
    destruct (unlink_child arr t Ed Hv Hvy Hlne) as (arr' & E1 & E2 & Ht' & Hc' & Hrel); try done.
    exists arr, arr', false. rewrite Ht2, (id_to_node_valid nr y Hvy). split_and!; try done; [by rewrite Ed|].
    apply successor_unlinked; try done. eapply relinked_mono; [|exact Hrel]. intros i Hi.
    rewrite successor_perm. by right.
  - assert (exists f d', d = f :: d') as (f & d' & Ed) by (destruct d; [done|eauto]).
    assert (Hft : ctx_top c1 = frame_id f /\ ctx_top c2 = frame_id f) by (by rewrite Ed). destruct Hft as [Hf1 Hf2].
    destruct (unlink_below arr t f d' Ed) as (arr4 & arr' & E1 & E2 & Ht' & Hc' & Hrel); try done.
    { rewrite Ed in HFL. by apply Forall_cons in HFL as [? _]. } { by rewrite <- Hf1. }
    assert (Hvf : valid nr (frame_id f)) by (rewrite Ed in Hc; by destruct Hc).
    exists arr4, arr', true. rewrite Hf2, (id_to_node_valid nr _ Hvf). split_and!; try done.
    + rewrite Ed in HFL |- *. apply Forall_cons in HFL as [HfL _]. cbn. by rewrite HfL.
    + apply successor_unlinked; try done. by eapply relinked_mono.
Qed.
End Successor.

(** ** The whole step *)

Lemma delete_unlink_rep arr t c l x r :
  let T := plug c (Node l x r) in
  tree_rep nr arr 0 T -> balanced T -> NoDup (inorder T) -> root t = root_id T ->
  height T <= Z.of_nat MAX_AVL_HEIGHT ->
  exists arr' t' c' s fl,
    delete_unlink nr arr t x = (arr', t', Some (avl_id_to_node nr (ctx_top c'), ctx_top c', fl)) /\
    side c' fl /\ unlinked arr t c l x r arr' t' c' s.
Proof.
  intros T Hrep Hbal Hnd Hroot Hh. pose proof Hrep as [(Hv & Hx & Hl & Hr) Hc]%plug_rep.
  cbn [root_id] in Hc. pose proof Hnd as Hnd0. unfold T in Hnd0. rewrite plug_perm in Hnd0.
  assert (Hxc : x ∉ ctx_ids c) by (apply NoDup_app in Hnd0 as (_ & Hd & _); apply Hd; cbn; set_solver).
  unfold delete_unlink. cbv zeta. rewrite (at_parent _ _ _ _ _ _ Hx).
  pose proof (ctx_side_opt _ _ _ _ Hc Hv Hxc) as Hside. rewrite <- (id_to_node_top _ _ _ _ _ Hc) in Hside.
  rewrite (at_left _ _ _ _ _ _ Hx), (at_right _ _ _ _ _ _ Hx).
  destruct (Z.eqb_spec (root_id l) 0) as [El|El].
  { apply (root_id_zero _ _ _ _ Hl) in El.
    destruct (unlink_one arr t c l x r r Hrep Hbal Hnd Hroot ltac:(by left)) as (arr' & E & U).
    rewrite E. by eexists _, _, c, r, _. }
  destruct (Z.eqb_spec (root_id r) 0) as [Er|Er].
  { apply (root_id_zero _ _ _ _ Hr) in Er.
    destruct (unlink_one arr t c l x r l Hrep Hbal Hnd Hroot ltac:(by right)) as (arr' & E & U).
    rewrite E. by eexists _, _, c, l, _. }
  rewrite (next_node_rep nr arr c l x r Hrep Hnd Hh), (at_balance _ _ _ _ _ _ Hx).
  destruct (leftmost_path r) as (d & y & r2 & -> & Hbef & HFL); [by intros ->|].
  rewrite (right_inorder d y r2 Hbef). cbn [app head].
  assert (ET : T = plug (d ++ FR l x :: c) (Node Leaf y r2)) by (unfold T; by rewrite plug_app).
  rewrite ET in Hrep, Hbal, Hnd. rewrite plug_perm in Hnd.
  apply plug_rep in Hrep as [(Hvy & [] & _ & Hr2) Hc1]. apply plug_balanced in Hbal as [(_ & _ & Hb2) Hbc].
  rewrite successor_height in Hc1, Hbc. pose proof Hnd as [Hyn _]%NoDup_cons. rewrite elem_of_app in Hyn.
  destruct (unlink_successor c l x d y r2 Hbef (upd arr y (set_balance (height (plug d (Node Leaf y r2)) - height l))) t)
    as (arr4 & arr' & fl & E1 & E2 & Hsd & U); try done.
  - by intros ->.
  - split; by rewrite upd_eq.
  - apply tree_rep_upd; [tauto|done].
  - apply ctx_rep_upd; [tauto|done].
  - rewrite E1, E2. eexists _, _, _, _, _. split; [done|]. split; [done|]. destruct U; split; try done.
    eapply relinked_trans; [|done]. apply relinked_upd; [done| |apply relinked_refl].
    rewrite (successor_perm _ _ _ _ _ _ Hbef), ctx_ids_app. cbn [ctx_ids frame_id]. mem.
Qed.
End Unlink.
