(* ===== verification/AvlDelete.v ===== *)
(** * Deletion

    [avl_tree_delete] on every branch: an orphan leaves the orphan list; a tree
    node leaves the tree, the cache follows, the balances are repaired and the
    first orphan, if there is one, gets another chance. *)

From S2P Require Import Prelude AvlTree AvlSpec AvlRotate AvlBalance AvlSearch AvlInsert AvlUnlink.
Import Avl.

(** Removal from a sequence. *)
Fixpoint del (x : Z) (l : list Z) : list Z :=
  match l with [] => [] | y :: l' => if y =? x then del x l' else y :: del x l' end.

Lemma del_notin x l : x ∉ l -> del x l = l.
Proof.
  induction l as [|y l IH]; intros Hx; [done|]. cbn. apply not_elem_of_cons in Hx as [Hxy Hx].
  rewrite (proj2 (Z.eqb_neq _ _)) by congruence. f_equal. by apply IH.
Qed.

Lemma del_split x l1 l2 : NoDup (l1 ++ x :: l2) -> del x (l1 ++ x :: l2) = l1 ++ l2.
Proof.
  intros (H1 & H2 & _)%NoDup_middle. revert H1. induction l1 as [|y l1 IH]; cbn; intros H1.
  - rewrite Z.eqb_refl. by apply del_notin.
  - apply not_elem_of_cons in H1 as [Hxy H1]. rewrite (proj2 (Z.eqb_neq _ _)) by congruence.
    f_equal. by apply IH.
Qed.

Section Delete.
Context (nr : Z).
Implicit Types (arr : gmap Z avl_node) (t : avl_tree) (T : tree) (O : list Z).

(** ** The cache *)

Lemma delete_cache_ok arr t x l1 l2 :
  NoDup (l1 ++ x :: l2) -> cached arr t (l1 ++ x :: l2) ->
  __avl_next_node nr arr x = head l2 -> __avl_prev_node nr arr x = last l1 ->
  cached arr (delete_cache nr arr t x) (l1 ++ l2) /\
  root (delete_cache nr arr t x) = root t /\
  first_orphan_id (delete_cache nr arr t x) = first_orphan_id t.
Proof.
  intros (Hx1 & Hx2 & _)%NoDup_middle [Hmin Hmax] Hn Hp. unfold delete_cache. rewrite Hn, Hp.
  set (t1 := if x =? min_id t then _ else t).
  assert (H1 : match head (l1 ++ l2) with
    | None => min_id t1 = 0 | Some i => min_id t1 = i /\ min_key t1 = kof arr i end /\
    root t1 = root t /\ first_orphan_id t1 = first_orphan_id t /\ max_id t1 = max_id t /\ max_key t1 = max_key t).
  { destruct l1 as [|i l1]; cbn in Hmin |- *.
    - destruct Hmin as [E _]. unfold t1. rewrite E, Z.eqb_refl. by destruct (head l2).
    - destruct Hmin as [E1 E2]. unfold t1. rewrite E1, (proj2 (Z.eqb_neq _ _)); [done|].
      intros ->. apply Hx1. by left. }
  clearbody t1. destruct H1 as (H1 & Hr & Ho & Hm1 & Hm2). rewrite Hm1. rewrite last_app_cons in Hmax.
  destruct l2 as [|j l2].
  - cbn in Hmax. destruct Hmax as [-> _]. rewrite Z.eqb_refl. rewrite app_nil_r in *.
    unfold cached. destruct (last l1); cbn; destruct (head l1); done.
  - change (x :: j :: l2) with ([x] ++ j :: l2) in Hmax. rewrite last_app_cons in Hmax.
    unfold cached. rewrite last_app_cons.
    destruct (last (j :: l2)) as [m|] eqn:E; [|by apply last_None in E]. destruct Hmax as [E1 E2].
    rewrite (proj2 (Z.eqb_neq _ _)); [|rewrite E1; intros ->; by apply last_Some_elem_of in E].
    rewrite Hm1, Hm2. done.
Qed.

(** ** The orphan list *)

(** A segment of the list, up to the id [n] that follows it. *)
Fixpoint oseg arr (p : Z) O (n : Z) : Prop :=
  match O with
  | [] => True
  | x :: O' =>
      valid nr x /\ is_orphan (arr !!! x) = true /\ prev_orphan_id (arr !!! x) = p /\
      next_orphan_id (arr !!! x) = default n (head O') /\ oseg arr x O' n
  end.

Lemma orphans_oseg arr p O : orphans nr arr p O <-> oseg arr p O 0.
Proof. revert p. induction O as [|x O IH]; intros p; [done|]. cbn. by rewrite IH. Qed.

Lemma oseg_app arr p O1 O2 n :
  oseg arr p (O1 ++ O2) n <->
  oseg arr p O1 (default n (head O2)) /\ oseg arr (default p (last O1)) O2 n.
Proof.
  revert p. induction O1 as [|x O1 IH]; intros p; cbn [app oseg]; [cbn; tauto|].
  rewrite IH. replace (default p (last (x :: O1))) with (default x (last O1))
    by (rewrite last_cons; by destruct (last O1)).
  replace (default n (head (O1 ++ O2))) with (default (default n (head O2)) (head O1))
    by (by destruct O1). tauto.
Qed.

Lemma oseg_ext arr arr' p O n :
  (forall i, i ∈ O -> data (arr' !!! i) = data (arr !!! i)) -> oseg arr p O n -> oseg arr' p O n.
Proof.
  revert p. induction O as [|x O IH]; intros p Heq; [done|]. cbn. intros (Hv & Ho & Hp & Hn & HO).
  pose proof (Heq x ltac:(set_solver)) as E. injection E as E1 E2 E3 E4.
  split_and!; try congruence. apply IH; [|done]. intros i Hi. apply Heq. set_solver.
Qed.

Lemma oseg_upd arr p O n i f : i ∉ O -> oseg arr p O n -> oseg (upd arr i f) p O n.
Proof. intros Hi. apply oseg_ext. intros j Hj. rewrite upd_ne; [done|]. intros ->. done. Qed.

(** The writes to the neighbours: [prev->next = n'] and [next->prev = p']. *)
Lemma oseg_set_next arr p O n n' :
  NoDup O -> oseg arr p O n -> oseg (upd_opt arr (last O) (set_next_orphan n')) p O n'.
Proof.
  revert p. induction O as [|x O IH]; intros p; [done|]. intros [Hx Hnd]%NoDup_cons (Hv & Ho & Hp & Hn & HO).
  rewrite last_cons. destruct (last O) as [y|] eqn:E.
  - assert (Hy : y ∈ O) by (by apply last_Some_elem_of). specialize (IH x Hnd HO). cbn [upd_opt] in *.
    cbn [oseg]. rewrite !upd_ne by (intros ->; done). split_and!; try done.
    rewrite Hn. destruct O; [done|]. done.
  - apply last_None in E. subst O. cbn. by rewrite !upd_eq.
Qed.

Lemma oseg_set_prev arr p p' O n :
  NoDup O -> oseg arr p O n -> oseg (upd_opt arr (head O) (set_prev_orphan p')) p' O n.
Proof.
  destruct O as [|x O]; [done|]. intros [Hx Hnd]%NoDup_cons (Hv & Ho & Hp & Hn & HO). cbn.
  rewrite !upd_eq. split_and!; try done. by apply oseg_upd.
Qed.

Lemma oseg_ends arr p O n :
  oseg arr p O n -> (forall i, last O = Some i -> avl_id_to_node nr i = Some i) /\
                    (forall i, head O = Some i -> avl_id_to_node nr i = Some i).
Proof.
  revert p. induction O as [|x O IH]; intros p; [done|]. intros (Hv & _ & _ & _ & HO).
  split; intros i; [|by intros [= <-]; apply id_to_node_valid]. rewrite last_cons.
  destruct (last O) eqn:E; intros [= <-]; [|by apply id_to_node_valid]. by apply (proj1 (IH x HO)).
Qed.

Lemma id_to_node_default O arr p n o :
  oseg arr p O n -> o = last O \/ o = head O -> avl_id_to_node nr (default 0 o) = o.
Proof. intros [H1 H2]%oseg_ends [-> | ->]; [destruct (last O)|destruct (head O)]; cbn; auto. Qed.

Lemma remove_orphan_rep arr t T O1 x O2 :
  avl_rep nr arr t T (O1 ++ x :: O2) ->
  exists arr' t', __remove_orphan nr arr t x = (arr', t') /\
    avl_rep nr arr' t' T (O1 ++ O2) /\ untouched arr arr' (O1 ++ x :: O2).
Proof.
  intros [H1 H2 H3 H4 H5 H6 H7 H8 H9]. unfold __remove_orphan. cbv zeta.
  apply orphans_oseg, oseg_app in H9 as [Ho1 (Hvx & Hox & Hpx & Hnx & Ho2)]. cbn [head default] in Ho1.
  rewrite Hpx, Hnx, (id_to_node_default _ _ _ _ (last O1) Ho1), (id_to_node_default _ _ _ _ (head O2) Ho2) by auto.
  pose proof H6 as (_ & HdT & (Hx1 & Hx2 & (Hnd1 & Hd & Hnd2)%NoDup_app)%NoDup_middle)%NoDup_app.
  set (arr1 := upd_opt arr (last O1) (set_next_orphan (default 0 (head O2)))).
  set (arr2 := upd_opt arr1 (head O2) (set_prev_orphan (default 0 (last O1)))).
  set (arr3 := upd (upd arr2 x (set_next_orphan 0)) x (set_prev_orphan 0)).
  assert (Hk : forall i, kof arr3 i = kof arr i).
  { intros i. unfold arr3, arr2, arr1. by rewrite !kof_upd, !kof_upd_opt. }
  assert (Hout : forall i, i ∉ O1 ++ x :: O2 -> arr3 !!! i = arr !!! i).
  { intros i Hi. rewrite elem_of_app, elem_of_cons in Hi. unfold arr3, arr2, arr1.
    rewrite !upd_ne by naive_solver. destruct (head O2) as [h|] eqn:Eh; [apply head_Some_elem_of in Eh|];
      (destruct (last O1) as [m|] eqn:Em; [apply last_Some_elem_of in Em|]);
      cbn [upd_opt]; rewrite ?upd_ne by (intros ->; tauto); done. }
  assert (H1o : oseg arr3 0 O1 (default 0 (head O2))).
  { unfold arr3. apply oseg_upd; [done|]. apply oseg_upd; [done|].
    pose proof (oseg_set_next _ _ _ _ (default 0 (head O2)) Hnd1 Ho1) as H. fold arr1 in H.
    unfold arr2. destruct (head O2) as [h|] eqn:Eh; [|done]. apply oseg_upd; [|done].
    apply head_Some_elem_of in Eh. intros Hi. by apply (Hd _ Hi). }
  assert (H2o : oseg arr3 (default 0 (last O1)) O2 0).
  { unfold arr3. apply oseg_upd; [done|]. apply oseg_upd; [done|]. unfold arr2.
    apply (oseg_set_prev _ x); [done|]. unfold arr1.
    destruct (last O1) as [m|] eqn:Em; [|done]. apply oseg_upd; [|done].
    apply last_Some_elem_of in Em. by apply Hd. }
  eexists arr3, _. split; [reflexivity|]. split; [|by split].
  split.
  - eapply tree_rep_ext; [|exact H1]. intros i Hi. apply Hout. by apply HdT.
  - rewrite <- H2. by destruct (first_orphan_id t =? x).
  - done.
  - done.
  - eapply sorted_ext; [|exact H5]. auto.
  - rewrite <- Permutation_middle in H6. rewrite <- Permutation_middle in H6. by apply NoDup_cons in H6 as [_ ?].
  - eapply cached_ext; [auto|..|exact H7]; by destruct (first_orphan_id t =? x).
  - rewrite H8. destruct O1 as [|i O1]; cbn.
    + rewrite Z.eqb_refl. done.
    + rewrite (proj2 (Z.eqb_neq _ _)); [done|]. intros ->. apply Hx1. by left.
  - apply orphans_oseg, oseg_app. split; done.
Qed.

Lemma pop_first_orphan_rep arr t T O :
  avl_rep nr arr t T O ->
  match O with
  | [] => __pop_first_orphan nr arr t = (arr, t, None)
  | x :: O' =>
      exists arr' t', __pop_first_orphan nr arr t = (arr', t', Some x) /\
        avl_rep nr arr' t' T O' /\ untouched arr arr' O /\ valid nr x
  end.
Proof.
  intros Hrep. unfold __pop_first_orphan.
  rewrite (ar_first _ _ _ _ _ Hrep), (orphans_first _ _ _ _ (ar_orphans _ _ _ _ _ Hrep)).
  destruct O as [|x O]; [done|]. cbn [head].
  destruct (remove_orphan_rep arr t T [] x O Hrep) as (arr' & t' & E & Hr & Hu).
  destruct (ar_orphans _ _ _ _ _ Hrep) as (Hv & _ & Hp & Hn & HO).
  unfold __remove_orphan in E. rewrite Hp, Hn, (orphans_first _ _ _ _ HO), (ar_first _ _ _ _ _ Hrep) in E.
  cbn [first head default from_option id] in E. rewrite Z.eqb_refl in E. cbn [avl_id_to_node Z.ltb Z.compare andb upd_opt] in E.
  rewrite Hn, (orphans_first _ _ _ _ HO). eexists _, _. split; [reflexivity|].
  injection E as <- <-. done.
Qed.

(** ** The whole operation *)

Lemma ctx_height_len c h : Z.of_nat (length c) + h <= ctx_height c h.
Proof. revert h. induction c as [|f c IH]; intros h; cbn [length ctx_height]; [lia|]. specialize (IH (1 + Z.max h (height (frame_sib f)))). lia. Qed.

(** What is left when a tree node is gone, before an orphan is adopted. *)
Lemma delete_node_rep arr t T O x :
  avl_rep nr arr t T O -> x ∈ inorder T ->
  exists arr1 t1 x1 xid fl arr2 t2 T',
    delete_unlink nr arr (delete_cache nr arr t x) x = (arr1, t1, Some (x1, xid, fl)) /\
    delete_retrace nr arr1 t1 MAX_AVL_HEIGHT x1 xid fl = (arr2, t2, true) /\
    avl_rep nr arr2 t2 T' O /\ inorder T' = del x (inorder T) /\ height T' <= height T /\
    untouched arr arr2 (inorder T ++ O).
Proof.
  intros [H1 H2 H3 H4 H5 H6 H7 H8 H9] Hx. destruct (focus T x Hx) as (c & l & r & ->).
  pose proof H6 as (HndT & HdO & HndO)%NoDup_app.
  assert (Ein : inorder (plug c (Node l x r)) =
    (ctx_before c ++ inorder l) ++ x :: inorder r ++ ctx_after c).
  { rewrite plug_inorder. cbn [inorder]. by rewrite <- !app_assoc. }
  destruct (delete_cache_ok arr t x (ctx_before c ++ inorder l) (inorder r ++ ctx_after c)) as (K1 & K2 & K3).
  { by rewrite <- Ein. } { by rewrite <- Ein. }
  { by eapply next_node_rep. } { by eapply prev_node_rep. }
  set (t0 := delete_cache nr arr t x) in *.
  destruct (delete_unlink_rep nr arr t0 c l x r) as (arr1 & t1 & c' & s & fl & E1 & Hside & []); try done.
  { by rewrite K2. }
  assert (Edel : inorder (plug c' s) = del x (inorder (plug c (Node l x r)))).
  { rewrite ul_inorder, Ein, del_split; [by rewrite <- !app_assoc|by rewrite <- Ein]. }
  assert (HP : x :: inorder (plug c' s) ≡ₚ inorder (plug c (Node l x r))).
  { rewrite ul_inorder, Ein. solve_Permutation. }
  pose proof HndT as HndT'. rewrite <- HP in HndT'. apply NoDup_cons in HndT' as [Hxn Hnd'].
  pose proof (ctx_height_len c' (height s + 1)) as Hlen. pose proof (height_nonneg s).
  destruct (delete_retrace_rep nr MAX_AVL_HEIGHT c' s arr1 t1 fl) as (arr2 & t2 & T' & E2 & [] & Hh); try done.
  { lia. } { by rewrite <- plug_perm. } { by rewrite ul_root. }
  exists arr1, t1, (avl_id_to_node nr (ctx_top c')), (ctx_top c'), fl, arr2, t2, T'.
  split; [done|]. split; [done|].
  assert (Hu : relinked arr arr2 (inorder (plug c (Node l x r)))).
  { eapply relinked_trans; [exact ul_relinked|]. eapply relinked_mono; [|exact rb_relinked].
    intros i. rewrite <- HP, elem_of_cons, plug_perm. tauto. }
  assert (Hk : forall i, kof arr2 i = kof arr i) by (intros i; apply kof_data, (rel_data _ _ _ Hu)).
  assert (Hdel : inorder T' = (ctx_before c ++ inorder l) ++ inorder r ++ ctx_after c).
  { rewrite rb_inorder, ul_inorder. by rewrite <- !app_assoc. }
  split; [|split; [by rewrite rb_inorder|split]].
  - split; try done.
    + by rewrite rb_root.
    + lia.
    + eapply sorted_ext; [intros; apply Hk|]. rewrite Hdel. rewrite Ein, !sorted_app, sorted_cons in H5.
      destruct H5 as (S1 & (S2 & S3) & S4). apply sorted_app. split; [by apply sorted_app|].
      split; [done|]. intros i j Hi Hj. apply S4; [done|]. by right.
    + rewrite rb_inorder. apply NoDup_app. split_and!; try done. intros i Hi. apply HdO. rewrite <- HP. by right.
    + rewrite Hdel. eapply cached_ext; [intros; apply Hk|..|exact K1]; rewrite rb_root, ul_root; done.
    + rewrite rb_root, ul_root. cbn. congruence.
    + eapply orphans_ext; [|exact H9]. intros i _. apply (rel_data _ _ _ Hu).
  - lia.
  - eapply untouched_mono; [|by apply relinked_untouched]. intros i Hi. apply elem_of_app. by left.
Qed.

Definition removed (kf : Z -> Z) (h x : Z) (L O L' O' : list Z) : Prop :=
  if decide (x ∈ O) then L' = L /\ O' = del x O
  else match O with
       | [] => L' = del x L /\ O' = []
       | o :: O1 => placed kf h o (del x L) O1 L' O'
       end.

Lemma orphan_flag arr t T O x :
  avl_rep nr arr t T O -> x ∈ inorder T ++ O -> is_orphan (arr !!! x) = bool_decide (x ∈ O).
Proof.
  intros [H1 _ _ _ _ H6 _ _ H9] Hx. apply NoDup_app in H6 as (_ & Hd & _). case_bool_decide as HO.
  - clear -H9 HO. generalize dependent 0. induction O as [|y O IH]; intros p; [by inversion HO|].
    intros (_ & Ho & _ & _ & HO'). apply elem_of_cons in HO as [->|HO]; [done|by apply (IH HO _ HO')].
  - apply elem_of_app in Hx as [Hx|?]; [|done]. clear -H1 Hx. generalize dependent 0.
    induction T as [|l IHl y r IHr]; intros p; [by inversion Hx|]. intros (_ & Hy & Hl & Hr). cbn in Hx.
    apply elem_of_app in Hx as [Hx|[->|Hx]%elem_of_cons]; [by apply (IHl Hx y)|by destruct Hy|by apply (IHr Hx y)].
Qed.

Lemma avl_tree_delete_rep arr t T O x :
  avl_rep nr arr t T O -> x ∈ inorder T ++ O ->
  exists arr' t' T' O', avl_tree_delete nr arr t x = (arr', t') /\ avl_rep nr arr' t' T' O' /\
    untouched arr arr' (inorder T ++ O) /\ removed (kof arr) (height T) x (inorder T) O (inorder T') O'.
Proof.
  intros Hrep Hx. unfold avl_tree_delete, removed. rewrite (orphan_flag _ _ _ _ _ Hrep Hx).
  case_bool_decide as HO.
  - pose proof (ar_nodup _ _ _ _ _ Hrep) as (_ & HdO & HndO)%NoDup_app.
    apply list_split_at in HO as (O1 & O2 & ->).
    destruct (remove_orphan_rep _ _ _ _ _ _ Hrep) as (arr' & t' & E & Hr & Hu). rewrite E.
    pose proof HndO as (Hx1 & Hx2 & _)%NoDup_middle.
    eexists _, t', T, (O1 ++ O2). split; [done|]. split; [|split; [|rewrite decide_True by mem; by rewrite del_split]].
    + eapply avl_rep_outside; [|exact Hr]. intros i Hi. rewrite upd_ne; [done|]. intros <-.
      rewrite !elem_of_app in Hi. destruct Hi as [Hi|?]; [|tauto]. apply (HdO _ Hi). mem.
    + eapply untouched_mono; [intros i Hi; apply elem_of_app; right; exact Hi|].
      eapply untouched_trans; [exact Hu|]. split; intros i; [by rewrite kof_upd|].
      intros Hi. rewrite upd_ne; [done|]. intros <-. apply Hi. mem.
  - apply elem_of_app in Hx as [Hx|?]; [|done].
    destruct (delete_node_rep _ _ _ _ _ Hrep Hx) as (arr1 & t1 & x1 & xid & fl & arr2 & t2 & T' & -> & -> & Hr & Hin & Hh & Hu).
    unfold adopt_orphan. pose proof (pop_first_orphan_rep _ _ _ _ Hr) as Hpop. destruct O as [|o O].
    { rewrite Hpop. exists arr2, t2, T', []. by rewrite decide_False. }
    destruct Hpop as (arr3 & t3 & -> & Hr3 & Hu3 & Hvo).
    pose proof (ar_nodup _ _ _ _ _ Hr) as Hnd. rewrite <- Permutation_middle in Hnd.
    apply NoDup_cons in Hnd as [Hon _].
    destruct (avl_tree_insert_rep nr _ _ _ _ o Hr3 Hvo Hon) as (arr4 & t4 & T4 & O4 & E & Hr4 & Hu4 & Hpl).
    exists arr4, t4, T4, O4. split; [done|]. split; [done|].
    assert (Hsub : forall i, i ∈ inorder T' -> i ∈ inorder T).
    { intros i. rewrite Hin. clear. induction (inorder T) as [|y L IH]; cbn; [done|].
      destruct (_ =? _); rewrite !elem_of_cons; tauto. }
    split.
    + eapply untouched_trans; [exact Hu|]. eapply untouched_trans.
      * eapply untouched_mono; [|exact Hu3]. intros i Hi. mem.
      * eapply untouched_mono; [|exact Hu4]. intros i. rewrite !elem_of_cons, !elem_of_app, elem_of_cons.
        specialize (Hsub i). tauto.
    + rewrite decide_False by done. assert (Hk : forall i, kof arr3 i = kof arr i) by (intros i; by rewrite (proj1 Hu3), (proj1 Hu)).
      pose proof (ar_height _ _ _ _ _ Hrep). rewrite Hin in Hpl. unfold placed in *.
      destruct Hpl as [[-> ->]|(Hh4 & -> & ->)]; [left|right]; split; try done; [|lia].
      clear -Hk. induction (del x (inorder T)) as [|y L IH]; cbn; [done|]. by rewrite !Hk, IH.
Qed.
End Delete.
