(* ===== verification/AvlProps.v ===== *)
(** * The AVL tree's contract

    What [lib/avl.bpf.h] promises its clients: with the 64K threads it is used
    for, every sequence of operations behaves like a stable sorted list; beyond
    that, the orphan list takes the nodes that find no room and nothing is lost;
    the neighbours of a node are its neighbours in key order; and which array
    elements an id can name. *)

From S2P Require Import Prelude AvlTree AvlSpec AvlRotate AvlBalance AvlSearch AvlInsert AvlDelete.
Import Avl.

(** ** The capacity of a full tree *)

(** The least number of nodes of a balanced tree with [n] levels. *)
Fixpoint min_nodes (n : nat) : Z :=
  match n with
  | O => 0
  | S n' => match n' with O => 1 | S n'' => min_nodes n' + min_nodes n'' + 1 end
  end.

Lemma min_nodes_nonneg n : 0 <= min_nodes n.
Proof.
  enough (0 <= min_nodes n /\ 0 <= min_nodes (S n)) by tauto. induction n as [|n IH]; [done|].
  split; [tauto|]. change (min_nodes (S (S n))) with (min_nodes (S n) + min_nodes n + 1). lia.
Qed.

Lemma balanced_size T n :
  balanced T -> Z.of_nat n <= height T -> min_nodes n <= Z.of_nat (length (inorder T)).
Proof.
  revert n. induction T as [|l IHl x r IHr]; intros n; cbn [balanced height inorder].
  { intros _ H. destruct n; [done|lia]. }
  intros (Hb & Hl & Hr) Hn. rewrite length_app. cbn [length].
  destruct n as [|[|n]]; [cbn; lia|cbn; lia|].
  change (min_nodes (S (S n))) with (min_nodes (S n) + min_nodes n + 1).
  destruct (Z.le_gt_cases (height r) (height l)).
  - specialize (IHl (S n) Hl ltac:(lia)). specialize (IHr n Hr ltac:(lia)). lia.
  - specialize (IHl n Hl ltac:(lia)). specialize (IHr (S n) Hr ltac:(lia)). lia.
Qed.

Definition CAPACITY : Z := 75024.

Lemma full_size T :
  balanced T -> height T = Z.of_nat MAX_AVL_HEIGHT -> CAPACITY <= Z.of_nat (length (inorder T)).
Proof.
  intros Hb Hh. change CAPACITY with (min_nodes MAX_AVL_HEIGHT). apply balanced_size; [done|lia].
Qed.

(** ** The contents of a tree and its array *)

Definition holds (nr : Z) (st : gmap Z avl_node * avl_tree) (L O : list Z) : Prop :=
  exists T, avl_rep nr (fst st) (snd st) T O /\ inorder T = L.

(** Where a new node goes: in key order behind its equals, or, only if the tree
    is so large that a path may be full, to the front of the orphans. *)
Definition goes_to (kf : Z -> Z) (x : Z) (L O L' O' : list Z) : Prop :=
  L' = ins kf x L /\ O' = O \/ CAPACITY <= Z.of_nat (length L) /\ L' = L /\ O' = x :: O.

Section Contract.
Context (nr : Z).

(** Inserting a node that is not yet there puts it in key order behind the
    nodes with equal keys; in a tree of at least [CAPACITY] nodes it may become
    an orphan instead.  Balance, parent links, cache and orphan list stay
    consistent, no key and no node outside changes. *)
Theorem avl_insert_ordered arr t L O x :
  holds nr (arr, t) L O -> valid nr x -> x ∉ L ++ O ->
  exists L' O', holds nr (avl_tree_insert nr arr t x) L' O' /\
    goes_to (kof arr) x L O L' O' /\
    untouched arr (fst (avl_tree_insert nr arr t x)) (x :: L ++ O).
Proof.
  intros (T & Hrep & <-) Hv Hx. cbn [fst snd] in Hrep.
  destruct (avl_tree_insert_rep nr arr t T O x Hrep Hv Hx) as (arr' & t' & T' & O' & E & Hr & Hu & Hp).
  exists (inorder T'), O'. rewrite E. split; [by exists T'|]. split; [|done].
  destruct Hp as [?|(Hh & ? & ?)]; [by left|right]. split; [|done].
  apply full_size; [apply (ar_balanced _ _ _ _ _ Hrep)|done].
Qed.

(** Deleting a node of the tree or of the orphan list removes exactly it.
    When a tree node goes, the first orphan is inserted again. *)
Theorem avl_delete_removes arr t L O x :
  holds nr (arr, t) L O -> x ∈ L ++ O ->
  exists L' O', holds nr (avl_tree_delete nr arr t x) L' O' /\
    untouched arr (fst (avl_tree_delete nr arr t x)) (L ++ O) /\
    (x ∈ O /\ L' = L /\ O' = del x O \/
     x ∈ L /\ O = [] /\ L' = del x L /\ O' = [] \/
     x ∈ L /\ exists o O1, O = o :: O1 /\
       (L' = ins (kof arr) o (del x L) /\ O' = O1 \/
        CAPACITY <= Z.of_nat (length L) /\ L' = del x L /\ O' = O)).
Proof.
  intros (T & Hrep & <-) Hx. cbn [fst snd] in Hrep.
  destruct (avl_tree_delete_rep nr arr t T O x Hrep Hx) as (arr' & t' & T' & O' & E & Hr & Hu & Hp).
  exists (inorder T'), O'. rewrite E. split; [by exists T'|]. split; [done|].
  unfold removed in Hp. destruct (decide (x ∈ O)) as [HO|HO]; [left; tauto|right].
  apply elem_of_app in Hx as [Hx|?]; [|done]. destruct O as [|o O1]; [by left|right].
  split; [done|]. exists o, O1. split; [done|].
  destruct Hp as [?|(Hh & ? & ->)]; [by left|right]. split; [|done].
  apply full_size; [apply (ar_balanced _ _ _ _ _ Hrep)|done].
Qed.

(** Lookup finds a node with the key exactly when the tree has one. *)
Theorem avl_lookup_finds arr t L O k :
  holds nr (arr, t) L O ->
  match avl_tree_lookup nr arr t k with
  | Some x => x ∈ L /\ key (arr !!! x) = k
  | None => forall x, x ∈ L -> key (arr !!! x) <> k
  end.
Proof.
  intros (T & [H1 H2 H3 H4 H5 _ _ _ _] & <-). cbn [fst snd] in *. unfold avl_tree_lookup.
  rewrite H2, (id_to_node_root _ _ _ _ H1). by apply (lookup_loop_rep nr arr k MAX_AVL_HEIGHT 0 T).
Qed.

(** The cached ends and the neighbours are those of the key order. *)
Theorem avl_neighbours arr t l1 x l2 O :
  holds nr (arr, t) (l1 ++ x :: l2) O ->
  __avl_next_node nr arr x = head l2 /\ __avl_prev_node nr arr x = last l1 /\
  avl_tree_min nr t = head (l1 ++ [x]) /\ avl_tree_max nr t = last (x :: l2).
Proof.
  intros (T & Hrep & Hin). cbn [fst snd] in *. destruct Hrep as [H1 H2 H3 H4 H5 H6 H7 _ _].
  assert (Hx : x ∈ inorder T) by (rewrite Hin; mem).
  apply NoDup_app in H6 as (Hnd & _ & _).
  assert (Hv : forall i, i ∈ inorder T -> avl_id_to_node nr i = Some i).
  { intros i Hi. by apply id_to_node_valid, (tree_rep_valid _ _ _ _ _ H1). }
  rewrite Hin in H7. destruct H7 as [Hmin Hmax]. rewrite last_app_cons in Hmax.
  assert (Hmn : avl_tree_min nr t = head (l1 ++ [x])).
  { unfold avl_tree_min. destruct l1 as [|i l1]; cbn in Hmin |- *; destruct Hmin as [-> _];
      apply Hv; rewrite Hin; mem. }
  assert (Hmx : avl_tree_max nr t = last (x :: l2)).
  { unfold avl_tree_max. destruct (last (x :: l2)) as [i|] eqn:E; [|by apply last_None in E].
    destruct Hmax as [-> _]. apply Hv. rewrite Hin. apply last_Some_elem_of in E. mem. }
  destruct (focus T x Hx) as (c & l & r & ->).
  rewrite (next_node_rep nr arr c l x r), (prev_node_rep nr arr c l x r) by done.
  assert (E : l1 = ctx_before c ++ inorder l /\ l2 = inorder r ++ ctx_after c).
  { assert (Ein : inorder (plug c (Node l x r)) = (ctx_before c ++ inorder l) ++ x :: inorder r ++ ctx_after c).
    { rewrite plug_inorder. cbn [inorder]. by rewrite <- !app_assoc. }
    apply (NoDup_pivot _ _ _ _ x); [by rewrite <- Hin|by rewrite <- Hin]. }
  destruct E as [-> ->]. done.
Qed.
End Contract.

(** ** Sequences of operations against a sorted list *)

(** The client writes the key before it inserts. *)
Definition set_key (k : Z) (n : avl_node) : avl_node :=
  mk_node k (left_id n) (right_id n) (parent_id n) (balance n) (is_orphan n)
    (prev_orphan_id n) (next_orphan_id n).

Inductive avl_op :=
| OpInsert (x k : Z) | OpDelete (x : Z) | OpPopMin | OpPopMax | OpMin | OpMax | OpLookup (k : Z).

Definition avl_exec (nr : Z) (st : gmap Z avl_node * avl_tree) (o : avl_op) :
    (gmap Z avl_node * avl_tree) * option Z :=
  let '(arr, t) := st in
  match o with
  | OpInsert x k => (avl_tree_insert nr (upd arr x (set_key k)) t x, None)
  | OpDelete x => (avl_tree_delete nr arr t x, None)
  | OpPopMin => let '(arr, t, r) := avl_tree_pop_min nr arr t in ((arr, t), r)
  | OpPopMax => let '(arr, t, r) := avl_tree_pop_max nr arr t in ((arr, t), r)
  | OpMin => (st, avl_tree_min nr t)
  | OpMax => (st, avl_tree_max nr t)
  | OpLookup k => (st, (fun x => key (arr !!! x)) <$> avl_tree_lookup nr arr t k)
  end.

(** The reference: a list of (key, id) pairs in key order, equal keys in order of
    insertion. *)
Fixpoint insert_pair (p : Z * Z) (l : list (Z * Z)) : list (Z * Z) :=
  match l with
  | [] => [p]
  | q :: l' => if fst p <? fst q then p :: l else q :: insert_pair p l'
  end.

Definition avl_spec (l : list (Z * Z)) (o : avl_op) : list (Z * Z) * option Z :=
  match o with
  | OpInsert x k => (insert_pair (k, x) l, None)
  | OpDelete x => (filter (fun p => snd p <> x) l, None)
  | OpPopMin => (tail l, snd <$> head l)
  | OpPopMax => (removelast l, snd <$> last l)
  | OpMin => (l, snd <$> head l)
  | OpMax => (l, snd <$> last l)
  | OpLookup k => (l, if existsb (fun p => fst p =? k) l then Some k else None)
  end.

(** The client's side: a new node is in the array and not in the tree, a deleted
    node is in the tree. *)
Definition avl_op_ok (nr : Z) (l : list (Z * Z)) (o : avl_op) : bool :=
  match o with
  | OpInsert x _ => (0 <? x) && (x <=? nr) && negb (existsb (fun p => snd p =? x) l)
  | OpDelete x => existsb (fun p => snd p =? x) l
  | _ => true
  end.

Fixpoint avl_exec_all (nr : Z) (st : gmap Z avl_node * avl_tree) (os : list avl_op) : list (option Z) :=
  match os with
  | [] => []
  | o :: os' => let '(st', r) := avl_exec nr st o in r :: avl_exec_all nr st' os'
  end.

Fixpoint avl_spec_all (nr : Z) (l : list (Z * Z)) (os : list avl_op) : option (list (option Z)) :=
  match os with
  | [] => Some []
  | o :: os' =>
      if avl_op_ok nr l o
      then let '(l', r) := avl_spec l o in cons r <$> avl_spec_all nr l' os'
      else None
  end.

Section Run.
Context (nr : Z) (Hnr : nr < CAPACITY).
Implicit Types (arr : gmap Z avl_node) (t : avl_tree).

Definition pairs arr (L : list Z) : list (Z * Z) := map (fun i => (kof arr i, i)) L.

Definition sim arr t (l : list (Z * Z)) : Prop :=
  exists T, avl_rep nr arr t T [] /\ l = pairs arr (inorder T).

Lemma pairs_ext arr arr' L : (forall i, i ∈ L -> kof arr' i = kof arr i) -> pairs arr' L = pairs arr L.
Proof.
  intros H. apply map_ext_in. intros i Hi. rewrite H; [done|]. by apply list_elem_of_In.
Qed.

Lemma pairs_cons arr x L : pairs arr (x :: L) = (kof arr x, x) :: pairs arr L.
Proof. done. Qed.

Lemma pairs_ids arr x L : existsb (fun p => snd p =? x) (pairs arr L) = bool_decide (x ∈ L).
Proof.
  induction L as [|y L IH]; [by rewrite bool_decide_eq_false_2 by apply not_elem_of_nil|].
  rewrite pairs_cons. cbn [existsb snd]. rewrite IH. destruct (Z.eqb_spec y x) as [->|Hne]; cbn.
  - rewrite bool_decide_eq_true_2; [done|]. by left.
  - apply bool_decide_ext. rewrite elem_of_cons. naive_solver.
Qed.

Lemma pairs_ins arr x L : pairs arr (ins (kof arr) x L) = insert_pair (kof arr x, x) (pairs arr L).
Proof.
  induction L as [|y L IH]; [done|]. rewrite pairs_cons. cbn [ins insert_pair fst].
  destruct (_ <? _); [done|]. by rewrite pairs_cons, IH.
Qed.

Lemma pairs_del arr x L : pairs arr (del x L) = filter (fun p => snd p <> x) (pairs arr L).
Proof.
  induction L as [|y L IH]; [done|]. rewrite pairs_cons, filter_cons. cbn [del snd].
  destruct (Z.eqb_spec y x) as [->|Hne].
  - rewrite decide_False by naive_solver. apply IH.
  - rewrite decide_True by done. by rewrite pairs_cons, IH.
Qed.

Lemma rep_small arr t T O : avl_rep nr arr t T O -> height T <> Z.of_nat MAX_AVL_HEIGHT.
Proof.
  intros Hrep Hh. pose proof (full_size T (ar_balanced _ _ _ _ _ Hrep) Hh) as Hsz.
  enough (Z.of_nat (length (inorder T)) <= Z.max 0 nr) by (unfold CAPACITY in *; lia).
  replace (Z.max 0 nr) with (Z.of_nat (length (seqZ 1 nr))) by (rewrite length_seqZ; lia).
  apply inj_le, submseteq_length, NoDup_submseteq.
  - by pose proof (ar_nodup _ _ _ _ _ Hrep) as (? & _)%NoDup_app.
  - intros i Hi. apply elem_of_seqZ. destruct (tree_rep_valid _ _ _ _ _ (ar_tree _ _ _ _ _ Hrep) Hi). lia.
Qed.

Lemma sim_insert arr t l x k :
  sim arr t l -> avl_op_ok nr l (OpInsert x k) = true ->
  exists arr' t', avl_tree_insert nr (upd arr x (set_key k)) t x = (arr', t') /\
    sim arr' t' (insert_pair (k, x) l).
Proof.
  intros (T & Hrep & ->) Hok. cbn in Hok. rewrite !andb_true_iff in Hok. destruct Hok as [[H0 H1] H2].
  apply Z.ltb_lt in H0. apply Z.leb_le in H1. rewrite pairs_ids in H2.
  apply negb_true_iff, bool_decide_eq_false in H2.
  set (arr1 := upd arr x (set_key k)).
  assert (Hout : forall i, i ∈ inorder T -> arr1 !!! i = arr !!! i).
  { intros i Hi. unfold arr1. rewrite upd_ne; [done|]. by intros ->. }
  assert (Hrep1 : avl_rep nr arr1 t T []).
  { eapply avl_rep_outside; [|exact Hrep]. rewrite app_nil_r. exact Hout. }
  destruct (avl_tree_insert_rep nr arr1 t T [] x Hrep1) as (arr' & t' & T' & O' & E & Hr & [Hk _] & Hp).
  { by split. } { by rewrite app_nil_r. }
  exists arr', t'. split; [done|]. destruct Hp as [[Hin ->]|[Hh _]]; [|by apply (rep_small _ _ _ _ Hrep1) in Hh].
  exists T'. split; [done|]. rewrite (pairs_ext arr1 arr') by auto. rewrite Hin, pairs_ins.
  rewrite (pairs_ext arr arr1) by (intros i Hi; unfold kof; by rewrite Hout).
  f_equal. f_equal. unfold kof, arr1. by rewrite upd_eq.
Qed.

Lemma sim_delete arr t T x :
  avl_rep nr arr t T [] -> x ∈ inorder T ->
  exists arr' t', avl_tree_delete nr arr t x = (arr', t') /\ sim arr' t' (pairs arr (del x (inorder T))).
Proof.
  intros Hrep Hx. destruct (avl_tree_delete_rep nr arr t T [] x Hrep) as (arr' & t' & T' & O' & E & Hr & [Hk _] & Hp).
  { by rewrite app_nil_r. }
  exists arr', t'. split; [done|]. unfold removed in Hp. rewrite decide_False in Hp by apply not_elem_of_nil.
  destruct Hp as [Hin ->]. exists T'. split; [done|]. rewrite <- Hin. symmetry. by apply pairs_ext.
Qed.

Lemma pairs_head arr L : snd <$> head (pairs arr L) = head L.
Proof. by destruct L. Qed.
Lemma pairs_last arr L : snd <$> last (pairs arr L) = last L.
Proof. unfold pairs. rewrite fmap_last, <- option_fmap_compose. by destruct (last L). Qed.

Lemma sim_ends arr t T : avl_rep nr arr t T [] ->
  avl_tree_min nr t = head (inorder T) /\ avl_tree_max nr t = last (inorder T).
Proof.
  intros Hrep. destruct (ar_cached _ _ _ _ _ Hrep) as [Hmin Hmax]. unfold avl_tree_min, avl_tree_max.
  assert (Hv : forall i, i ∈ inorder T -> avl_id_to_node nr i = Some i).
  { intros i Hi. by apply id_to_node_valid, (tree_rep_valid _ _ _ _ _ (ar_tree _ _ _ _ _ Hrep)). }
  split.
  - destruct (head (inorder T)) eqn:E; [destruct Hmin as [-> _]|by rewrite Hmin]. by apply Hv, head_Some_elem_of.
  - destruct (last (inorder T)) eqn:E; [destruct Hmax as [-> _]|by rewrite Hmax]. by apply Hv, last_Some_elem_of.
Qed.

Lemma pairs_key arr k L : existsb (fun p => fst p =? k) (pairs arr L) = bool_decide (Exists (fun i => kof arr i = k) L).
Proof.
  induction L as [|y L IH]; [done|]. rewrite pairs_cons. cbn [existsb fst]. rewrite IH.
  destruct (Z.eqb_spec (kof arr y) k) as [E|E]; cbn.
  - rewrite bool_decide_eq_true_2; [done|]. by left.
  - apply bool_decide_ext. rewrite Exists_cons. tauto.
Qed.

Lemma sim_step arr t l o :
  sim arr t l -> avl_op_ok nr l o = true ->
  exists arr' t', avl_exec nr (arr, t) o = ((arr', t'), snd (avl_spec l o)) /\ sim arr' t' (fst (avl_spec l o)).
Proof.
  intros Hsim Hok. pose proof Hsim as (T & Hrep & El).
  destruct (sim_ends _ _ _ Hrep) as [Hmin Hmax].
  pose proof (ar_nodup _ _ _ _ _ Hrep) as Hnd. rewrite app_nil_r in Hnd.
  destruct o as [x k|x| | | | |k]; cbn [avl_exec avl_spec fst snd].
  - destruct (sim_insert _ _ _ _ _ Hsim Hok) as (arr' & t' & E & Hs). exists arr', t'. by rewrite E.
  - subst l. cbn [avl_op_ok] in Hok. rewrite pairs_ids in Hok. apply bool_decide_eq_true in Hok.
    destruct (sim_delete _ _ _ _ Hrep Hok) as (arr' & t' & E & Hs). exists arr', t'. rewrite E.
    split; [done|]. by rewrite <- pairs_del.
  - subst l. rewrite pairs_head. unfold avl_tree_pop_min. rewrite Hmin.
    destruct (inorder T) as [|x L] eqn:EL; cbn [head]; [by exists arr, t|].
    destruct (sim_delete arr t T x Hrep) as (arr' & t' & E & Hs); [rewrite EL; by left|].
    exists arr', t'. rewrite E. split; [done|]. rewrite EL in Hs.
    change (x :: L) with ([] ++ x :: L) in Hs. by rewrite del_split in Hs.
  - subst l. rewrite pairs_last. unfold avl_tree_pop_max. rewrite Hmax.
    destruct (last (inorder T)) as [x|] eqn:EL.
    + apply last_Some in EL as [L EL]. destruct (sim_delete arr t T x Hrep) as (arr' & t' & E & Hs); [rewrite EL; mem|].
      exists arr', t'. rewrite E. split; [done|]. rewrite EL in Hs, Hnd |- *. rewrite del_split in Hs by done.
      rewrite app_nil_r in Hs. unfold pairs. rewrite map_app. cbn [map]. by rewrite removelast_last.
    + apply last_None in EL. exists arr, t. split; [done|]. exists T. split; [done|]. by rewrite EL.
  - exists arr, t. subst l. by rewrite pairs_head, Hmin.
  - exists arr, t. subst l. by rewrite pairs_last, Hmax.
  - exists arr, t. split; [|done]. f_equal. subst l. rewrite pairs_key. unfold avl_tree_lookup.
    rewrite (ar_root _ _ _ _ _ Hrep), (id_to_node_root _ _ _ _ (ar_tree _ _ _ _ _ Hrep)).
    pose proof (lookup_loop_rep nr arr k MAX_AVL_HEIGHT 0 T (ar_tree _ _ _ _ _ Hrep)
      (ar_sorted _ _ _ _ _ Hrep) (ar_height _ _ _ _ _ Hrep)) as H.
    destruct (lookup_loop _ _ _ _ _) as [i|]; cbn.
    + destruct H as [Hi Hk]. rewrite bool_decide_eq_true_2; [by unfold kof in Hk; rewrite Hk|].
      apply Exists_exists. eauto.
    + rewrite bool_decide_eq_false_2; [done|]. intros (i & Hi & Hk)%Exists_exists. by apply (H i Hi).
Qed.
End Run.

(** C6: on an array of fewer than [CAPACITY] nodes, every legal sequence of
    insertions, deletions, pops, minimum, maximum and lookup queries returns what
    a sorted list with stable insertion returns: no node is ever orphaned, and the
    loops never run out of iterations. *)
Theorem avl_refines_sorted_list nr arr os rs :
  nr < CAPACITY -> avl_spec_all nr [] os = Some rs -> avl_exec_all nr (arr, avl_tree_init) os = rs.
Proof.
  intros Hnr. assert (Hs : sim nr arr avl_tree_init []) by (exists Leaf; split; [apply avl_rep_init|done]).
  revert Hs rs. generalize (@nil (Z * Z)), avl_tree_init, arr. clear arr.
  induction os as [|o os IH]; intros l t arr Hs rs; cbn [avl_spec_all avl_exec_all]; [by intros [= <-]|].
  destruct (avl_op_ok nr l o) eqn:Hok; [|done]. destruct (sim_step nr Hnr arr t l o Hs Hok) as (arr' & t' & E & Hs').
  rewrite E. destruct (avl_spec l o) as [l' r]. cbn [fst snd] in *.
  intros Hsp. destruct (avl_spec_all nr l' os) as [rs'|] eqn:Ers; cbn in Hsp; [|done]. injection Hsp as <-.
  f_equal. by apply (IH l').
Qed.

(** The byte offset of the tree node of element [i - 1]. *)
Definition node_addr (e f i : Z) : Z := (i - 1) * e + f.

(** Ids and pointers.  The element size and the field offset survive their
    packing; every id from one up to but not including the array's size converts
    to the address of its node and back, while zero and the id of the last
    element are rejected, so [Avl.avl_id_to_node] with one less than the array's size
    is the bounds check. *)
Theorem avl_ids_and_addresses arr_sz e f id :
  0 < e < 2 ^ 32 -> 0 <= f < e -> 0 < arr_sz < 2 ^ 31 -> 0 <= id < 2 ^ 31 ->
  let o := Addr.el_off e f in
  (Addr.__el_off_elem o = e /\ Addr.__el_off_field o = f) /\
  Addr.__avl_id_to_node arr_sz o id = node_addr e f <$> avl_id_to_node (arr_sz - 1) id /\
  (id <> 0 -> Addr.__avl_node_to_id o (Some (node_addr e f id)) = id) /\
  Addr.__avl_id_to_node arr_sz o arr_sz = None.
Proof.
  intros He Hf Hsz Hid o. destruct (el_off_fields e f) as [E1 E2]; [lia..|].
  assert (Hconv : forall i, 0 <= i < 2 ^ 31 ->
    Addr.__avl_id_to_node arr_sz o i = node_addr e f <$> avl_id_to_node (arr_sz - 1) i).
  { intros i Hi. subst o. unfold Addr.__avl_id_to_node, Addr.BOUNDED_ARRAY_IDX, avl_id_to_node. rewrite E1, E2.
    destruct (Z.eqb_spec i 0) as [->|Hi0]; [done|].
    rewrite (u32_id (i - 1)), (u64_id (arr_sz - 1)) by lia.
    rewrite !(u64_id (_ * e)) by nia. rewrite !(u64_id (_ * e + f)) by nia.
    rewrite (proj2 (Z.ltb_lt 0 i)) by lia. cbn [andb].
    destruct (Z.leb_spec i (arr_sz - 1)); [rewrite (proj2 (Z.leb_gt _ _)) by nia|rewrite (proj2 (Z.leb_le _ _)) by nia]; done. }
  split; [done|]. split; [by apply Hconv|]. split.
  - intros Hi0. subst o. unfold node_addr, Addr.__avl_node_to_id. rewrite E1, E2.
    replace ((id - 1) * e + f - f) with ((id - 1) * e) by lia.
    rewrite u64_id by nia. rewrite Z.div_mul by lia. rewrite u32_id; lia.
  - rewrite Hconv by lia. unfold avl_id_to_node. rewrite (proj2 (Z.leb_gt _ _)) by lia. by rewrite andb_false_r.
Qed.

(** The id of the array's last element, one past the ids the bounds check admits. *)
Definition last_elem_id (nr : Z) : Z := nr + 1.

Lemma insert_walk_reject nr arr k n x x_id next_id il :
  next_id <> 0 -> avl_id_to_node nr next_id = None ->
  insert_walk nr arr k (S n) x x_id next_id il = (None, next_id, next_id, il).
Proof. intros H0 Hid. cbn [insert_walk]. by rewrite (proj2 (Z.eqb_neq _ _)), Hid by done. Qed.

(** The array's last element gets lost.  Inserted into an empty tree it
    becomes the root, but its id fails the bounds check: the tree looks empty to
    every query, and each later insertion is orphaned. *)
Theorem avl_last_element_lost nr arr y k :
  0 < nr -> y <> last_elem_id nr ->
  let s1 := avl_tree_insert nr arr avl_tree_init (last_elem_id nr) in
  let s2 := avl_tree_insert nr (fst s1) (snd s1) y in
  root (snd s1) = last_elem_id nr /\ avl_tree_min nr (snd s1) = None /\
  avl_tree_lookup nr (fst s1) (snd s1) k = None /\
  is_orphan (fst s2 !!! y) = true /\ first_orphan_id (snd s2) = y /\ root (snd s2) = last_elem_id nr.
Proof.
  intros Hnr Hy s1 s2. unfold last_elem_id in *.
  assert (Hid : avl_id_to_node nr (nr + 1) = None).
  { unfold avl_id_to_node. rewrite (proj2 (Z.leb_gt _ _)) by lia. by rewrite andb_false_r. }
  assert (E1 : root (snd s1) = nr + 1 /\ min_id (snd s1) = nr + 1 /\ first_orphan_id (snd s1) = 0) by done.
  destruct E1 as (Er & Em & Eo). split; [done|]. split; [unfold avl_tree_min; by rewrite Em|].
  split; [unfold avl_tree_lookup; rewrite Er, Hid; done|].
  subst s2. clearbody s1. destruct s1 as [arr1 t1]. cbn [fst snd] in *. unfold avl_tree_insert.
  rewrite Er, (insert_walk_reject _ _ _ 21) by (done || lia). rewrite (proj2 (Z.eqb_neq (nr + 1) 0)) by lia.
  cbn [negb].
  unfold __insert_orphan. rewrite Eo, id_to_node_0. cbn [upd_opt fst snd]. rewrite 3!upd_eq. done.
Qed.

(** ** Witnesses *)

Definition demo_ops : list avl_op :=
  [OpInsert 3 50; OpInsert 1 20; OpInsert 4 50; OpInsert 2 70; OpLookup 50; OpDelete 3; OpMin;
   OpPopMax; OpInsert 2 10; OpPopMin; OpPopMin; OpPopMin; OpPopMin].

Lemma avl_refines_sorted_list_witness :
  avl_exec_all 65535 (∅, avl_tree_init) demo_ops =
  [None; None; None; None; Some 50; None; Some 1; Some 2; None; Some 2; Some 1; Some 4; None].
Proof. apply avl_refines_sorted_list; [done|vm_compute; reflexivity]. Defined.

Lemma avl_ids_and_addresses_witness :
  Addr.__avl_id_to_node 16 (Addr.el_off 96 24) 15 = Some (node_addr 96 24 15) /\
  Addr.__avl_id_to_node 16 (Addr.el_off 96 24) 16 = None.
Proof.
  destruct (avl_ids_and_addresses 16 96 24 15) as (_ & H1 & _ & H2); [lia..|].
  split; [exact H1|exact H2].
Defined.

(** A tree of two nodes and two orphans, as the operations leave it. *)
Definition demo_node (k l r p b : Z) : avl_node := mk_node k l r p b false 0 0.
Definition demo_arr : gmap Z avl_node :=
  <[1 := demo_node 20 0 2 0 1]> (<[2 := demo_node 50 0 0 1 0]>
  (<[3 := mk_node 30 0 0 0 0 true 0 4]> (<[4 := mk_node 60 0 0 0 0 true 3 0]>
  (<[5 := demo_node 50 0 0 0 0]> ∅)))).
Definition demo_tree : avl_tree := mk_tree 1 1 20 2 50 3.

Lemma demo_holds : holds 8 (demo_arr, demo_tree) [1; 2] [3; 4].
Proof.
  exists (Node Leaf 1 (Node Leaf 2 Leaf)). split; [|done]. split; cbn [fst snd]; try done.
  - unfold sorted. repeat constructor; vm_compute; discriminate.
  - cbn. apply (bool_decide_unpack _). by vm_compute.
Qed.

Lemma avl_insert_ordered_witness :
  exists L' O', holds 8 (avl_tree_insert 8 demo_arr demo_tree 5) L' O' /\
    goes_to (kof demo_arr) 5 [1; 2] [3; 4] L' O' /\
    untouched demo_arr (fst (avl_tree_insert 8 demo_arr demo_tree 5)) [5; 1; 2; 3; 4].
Proof.
  apply (avl_insert_ordered 8 demo_arr demo_tree [1; 2] [3; 4] 5 demo_holds).
  - split; [reflexivity|discriminate].
  - apply (bool_decide_unpack _). vm_compute. exact I.
Defined.

Lemma avl_delete_removes_witness :
  exists L' O', holds 8 (avl_tree_delete 8 demo_arr demo_tree 1) L' O' /\
    untouched demo_arr (fst (avl_tree_delete 8 demo_arr demo_tree 1)) [1; 2; 3; 4] /\
    (1 ∈ [3; 4] /\ L' = [1; 2] /\ O' = del 1 [3; 4] \/
     1 ∈ [1; 2] /\ [3; 4] = [] /\ L' = del 1 [1; 2] /\ O' = [] \/
     1 ∈ [1; 2] /\ exists o O1, [3; 4] = o :: O1 /\
       (L' = ins (kof demo_arr) o (del 1 [1; 2]) /\ O' = O1 \/
        CAPACITY <= Z.of_nat (length [1; 2]) /\ L' = del 1 [1; 2] /\ O' = [3; 4])).
Proof.
  apply (avl_delete_removes 8 demo_arr demo_tree [1; 2] [3; 4] 1 demo_holds).
  apply (bool_decide_unpack _). vm_compute. exact I.
Defined.

Lemma avl_lookup_finds_witness :
  avl_tree_lookup 8 demo_arr demo_tree 50 = Some 2 /\ 2 ∈ [1; 2] /\ key (demo_arr !!! 2) = 50.
Proof.
  split; [reflexivity|]. exact (avl_lookup_finds 8 demo_arr demo_tree [1; 2] [3; 4] 50 demo_holds).
Defined.

Lemma avl_neighbours_witness :
  __avl_next_node 8 demo_arr 1 = Some 2 /\ __avl_prev_node 8 demo_arr 1 = None /\
  avl_tree_min 8 demo_tree = Some 1 /\ avl_tree_max 8 demo_tree = Some 2.
Proof. exact (avl_neighbours 8 demo_arr demo_tree [] 1 [2] [3; 4] demo_holds). Defined.

Lemma avl_last_element_lost_witness :
  avl_tree_lookup 4 (fst (avl_tree_insert 4 ∅ avl_tree_init 5)) (snd (avl_tree_insert 4 ∅ avl_tree_init 5)) 0 = None.
Proof.
  destruct (avl_last_element_lost 4 ∅ 1 0) as (_ & _ & H & _); [lia|discriminate|exact H].
Defined.
